(* ===== verification/_CoqProject ===== *)
-Q . S2P
Prelude.v
Tasks.v
Text.v
Regex.v
Schema.v
Io.v
Errors.v
Settings.v
Saves.v
Downloader.v
Mods.v
Versions.v
Builder.v
Proc.v
Agent.v
Protocol.v
System.v
Handlers.v
Lifecycle.v
Concrete.v
MgmtErrors.v
Order.v
Db.v
Metrics.v
Events.v
Clients.v
Reconnect.v
Links.v
WsServer.v
Auth.v
Discord.v
Rpc.v
Logs.v
Routes.v
Startup.v
EndToEnd.v
World.v
WsClient.v
Witnesses.v
MgmtConcrete.v
MgmtWitnesses.v
HandlerWitnesses.v
SourceTests.v
