(* ===== verification/Prelude.v ===== *)
(** * fctrl: a verification development of the Factorio server controller

    fctrl runs a dedicated Factorio server.  Its Rust code (src/src) builds
    two programs.  The _agent_ (src/src/agent) lives next to the game server:
    it installs versions of Factorio, keeps mods, saves and settings on disk,
    starts and stops the one server process and reads its output.  The
    _management server_ (src/src/mgmt-server) offers all that over HTTP, to
    browsers and to Discord, and talks to the agent over a WebSocket with the
    messages of src/src/schema.rs.  This development models both programs and
    the messages between them.

    ** How the code is represented

    A routine with effects is a function of its state to a value and a state
    ([ST], below); one that can fail returns a [result], with the state it
    leaves behind on failure as well.  Every routine is total, and [wp m Q w]
    says that running [m] from [w] ends with a value and a state satisfying
    [Q].  The states are nested as the code nests its objects: files and the
    clock ([Io.IoW]), the child processes and the slot of the process manager
    around them ([Proc.ProcW]), the version manager and the connection around
    those ([Agent.AgentW]), and all the connections of the program with the
    tasks that handle their messages ([System.System]).  The management server's are the event broker
    ([Events.EventBroker]), the client of the agent around it
    ([Clients.ClientW]), and next to that the tokens ([Auth.AuthnManager]), the
    links, the streams and the database, which [Routes.MgmtW] and [Rpc.RpcW]
    put together for the routes and for the commands of a mod; [st_zoom] runs a
    routine on one part.

    tokio handles every request in a task of its own.  A handler is a
    [Tasks.Task]: a sequence of atomic routines (one on the files, one operation
    of the process manager, which holds its mutex throughout, one message sent)
    with the acquisition and the release of the lock of the version manager
    between them.  [Tasks.alone] runs it without interruption, and the theorems
    on single requests are about that; in [System.handler_step] the tasks of all
    connections interleave between their routines.  [Tasks.safe] is the
    rely-guarantee argument that carries what is proved of one task to all of
    them, and [System.handled_alone] relates the two meanings.

    What the outside world decides is a parameter: a class whose functions are
    indexed by the number of calls made so far.  [IoEnv] decides which file
    system calls fail, with which error and what a failed write leaves, and
    the time; [NetEnv] the answers to HTTP requests; [ProcEnv] spawning,
    polling, signalling and waiting for children, and RCON; [TaskEnv] the
    order in which the tasks of a mod change run; [AgentEnv] whether a handler
    that is run alone obtains the lock in time, and the iteration order of a
    [HashMap]; [AgentAnswers] what
    a wait of the management server ends with; [DiscordApi] and [DiscordMembers]
    what Discord answers.  A theorem
    without further hypotheses therefore holds for every pattern of failures
    and every schedule; "no call fails" is the hypothesis [no_faults].

    Crates are interfaces with the laws they document: [Codec] (serde_json,
    toml), [RegexEngine] (regex), [Archive] (xz2 and tar), [ZipEnv] (async_zip
    and the save parser), [SettingsFile] (the parser of mod-settings.dat),
    [ModPortal] (the mod portal's answers), [UuidEnv] (uuid) and [LaunchEnv]
    (environment variables and the random password).  [Concrete] instantiates
    every one of them; [MgmtConcrete] does so for the interfaces of the
    management server: [RocksDb] (rocksdb, an ordered map per column family
    whose calls can fail), [F64], [BroadcastEnv] (tokio's channels), [Rfc3339]
    (chrono) and the answers above.

    ** The files

    - [Prelude]: results, the state monad, [wp], its rules and tactics.
    - [Tasks]: tasks with a reader-writer lock, alone and among others.
    - [Text]: the strings, decimal numbers and UTF-8 of the standard library.
    - [Regex], [Schema]: src/src/schema.rs.  The patterns are data with a
      declarative meaning and an executable matcher; the messages are
      inductive types and records with the code's constructors.
    - [Io]: std::path and tokio::fs over a map from resolved paths to nodes.
    - [Errors]: src/src/agent/error.rs, and the serialisers.
    - [Settings]: src/src/agent/server/settings.rs and consts.rs.
    - [Saves]: src/src/agent/util/saves.rs, and the cutting of a save into
      messages in [save_get] of main.rs.
    - [Downloader]: src/src/agent/util/downloader.rs.
    - [Mods]: src/src/agent/server/mods.rs.
    - [Versions]: src/src/agent/factorio.rs.
    - [Builder]: src/src/agent/server/builder.rs.
    - [Proc]: src/src/agent/server/proc.rs, mod.rs and rcon.rs.
    - [Agent]: the controller of src/src/agent/main.rs, one definition per
      handler, and the dispatch of all 32 requests.
    - [Protocol]: what each handler sends, whatever the others do meanwhile.
    - [System]: the listener, the connections and their tasks of main.rs, as a
      step relation in which the steps of the tasks, output lines, the refresh
      task, the exit of the process and the shutdown come in any order.
    - [Handlers], [Lifecycle]: what the requests do, by groups of the API.
    - [Concrete], [Witnesses]: an environment in which nothing fails, and the
      theorems applied to concrete inputs in it.

    The management server, src/src/mgmt-server:

    - [MgmtErrors]: error.rs.
    - [Order]: the byte order of strings, padding and sorted lists.
    - [Db]: db.rs; [Metrics]: metrics.rs and routes/metrics.rs.
    - [Events]: events/broker.rs and events/mod.rs.  A topic is the log of what
      was sent on it, a subscriber a position in it.
    - [Clients]: clients.rs.  An operation is the request it sends, its time-out
      and what it makes of the response ([Clients.Call]); the body that all of
      them repeat is [Clients.run_call].
    - [Reconnect]: the connections that clients.rs makes to the agent, with the
      tasks of each, as a step relation.
    - [Links]: link_download.rs and routes/download.rs.
    - [WsServer]: ws.rs, as a step relation.
    - [Auth]: auth.rs, guards.rs and routes/auth.rs.
    - [Routes]: the files of routes, one definition per route, and the table of
      routes of main.rs ([Routes.serve]).
    - [Startup]: what main.rs reads from the environment, the opening of the
      database, the headers that are added to every response, and what is answered
      when there is no route.
    - [Discord]: discord.rs; [Rpc]: rpc.rs; [Logs]: the subscribers of main.rs
      and routes/logs.rs.
    - [EndToEnd]: the client put together with the agent.
    - [World]: both as one transition system, with what is on its way between
      them.
    - [WsClient]: src/src/ws-client/main.rs, the developer's client of the agent.
    - [MgmtConcrete], [MgmtWitnesses], [HandlerWitnesses]: as for the agent.
    - [SourceTests]: the unit tests of the repository, as examples.

    ** What the theorems show

    - Protocol ([System.system_protocol], [Protocol.request_protocol]): every
      request is answered with at most one acknowledgement, then progress,
      then exactly one final status, whatever fails, and on every connection
      of every reachable state, however the tasks interleave.
      [System.requests_end]: the tasks never wait for each other for ever, and
      end.  [System.versions_locked]: who holds the lock of the version manager
      finds the versions as it left them, and [System.reports_true]: what is
      reported of the versions is true when it is sent.  [System.system_safe]: at
      most one Factorio process is alive besides those that were killed, and the
      records of the credentials and of the server settings are sent without the
      token.  The text of an error can hold it ([Witnesses.token_in_error]).
    - The process ([Proc]): the invariant of the manager under all
      interleavings, and what start, stop and status do; the reading of the
      output.  A process whose handle is dropped, because stopping or waiting for
      it failed, is sent SIGKILL and may live on ([Proc.killed]): what is said of
      the processes that are alive is said of the others.
    - Lifecycle: what runs, on which installation and which save, and what is
      installed when starting or upgrading is reported as done or as failed.
    - Files ([Settings], [Saves], [Downloader], [Mods], [Versions], [Builder],
      and [Handlers] for the requests): what is set is what is read, which
      files a routine can touch, uploads and downloads of saves in parts,
      installing mods in any order of the tasks, caching, and the scan of the
      installed versions.
    - Delivery ([Events], [EndToEnd], [World]): a subscriber is a queue; a request
      reaches the agent as that request, and its answer comes back
      ([World.request_across]), or can still come back as long as the connection
      is up ([World.request_answerable]); of all that a connection of the agent
      sends, who waits for an operation receives its conversation and nothing
      else, the client understands every response, and a save that is downloaded
      through a link arrives byte for byte.
    - Access ([Auth], [Routes]): nothing is asked of the agent on behalf of
      anyone but the administrator, except by the routes that are open to
      everyone, and who the administrator is in a configuration
      ([Startup.who_is_admin]).
    - Streams, links and the connection ([WsServer], [Links], [Clients]): what a
      browser is sent, how long a link lives, when a connection is given up.
    - What is stored ([Db], [Metrics], [Rpc], [Logs]): what a page of a
      range holds and where it continues, keys of data points order as their ticks,
      a batch of the game is stored as its data points, and logs are read in the
      order in which they were printed.
    - Text that crosses to Lua and to Discord ([Discord]).
    - Deviations that modelling showed are theorems too: the whitelist switch
      that is lost ([Handlers.white_list_switch_lost]), versions of the new
      naming scheme that a restart does not find ([Versions.install_then_scan]),
      the player count that wraps ([Proc.player_count_underflow]), a chat line
      read as a state change ([Proc.chat_forges_state]), save names that leave
      the directory ([Saves.savefile_path_scope]), an upgrade that leaves the
      server stopped ([Witnesses.failed_upgrade]), pages of metrics that repeat
      ([MgmtWitnesses.metric_paging_repeats]), identities that are never given
      up ([Auth.identity_kept]), requests that a connection which was given up
      sends once more ([Reconnect.request_fans_out]), messages that are escaped
      though they are not run ([Discord.chat_to_game]), an error of the database
      that ends a page like the end of the range ([Db.read_range_page]), a change
      of the settings that another one, made at the same time, undoes
      ([Witnesses.update_lost]), and the token of factorio.com in the text of an
      error ([Witnesses.token_in_error]).

    ** Bounds

    Counts are integers with the wrap-around of [u32] written out where the
    code computes with them ([Proc.wrap_u32]).  The only fuel is that of
    cutting a save into parts: the length of the save, which is enough since
    every part takes at least one byte ([Saves.chunks]).  The matcher of
    [Regex] recurses on the pattern.

    ** What is not modelled

    - A routine on the files is one step of a task: two of them do not
      interleave between their system calls.  What they leave behind when a
      call fails in the middle is modelled.
    - Calls that never return: a child that ignores SIGTERM keeps
      [StartedInstance::stop] waiting, with the mutex locked, and a request that
      is never answered keeps a download waiting.  A routine of the model is a
      call that returns; theorems that say that something ends or is answered
      assume that the outside world does.
    - The failure of sending to a browser's WebSocket ([WsServer.forward]), which
      ws.rs logs and goes on after.
    - The time between the end of a wait for a browser and the removal of its
      path ([WsServer.unconnected_timeout] is one step); a browser that takes
      the path in between is handed to no one.
    - The order in which a [HashSet] of built-in mods is listed in a response.
    - The TCP and WebSocket handshakes, logging, the refresh of the system
      statistics (an oracle gives them), and the unused [_purge_all].
    - Paths are Unix paths without symbolic links.
    - Of the management server: [Db::flush], which nothing calls, the files of
      the web client that Rocket serves, and serenity: its connection to Discord
      and the registration of commands.
    - Operations of the management server run one after the other on its state;
      what they wait for is decided by oracles.  The step relations of
      [WsServer], [Reconnect], [World] and [Auth] and the runs of [Events]
      interleave them.
    - Times are integers: nanoseconds for events, milliseconds for links,
      seconds for tokens; the bounds of chrono's types are not modelled.
    - The prompts that ws-client prints when it is not in pipe mode. *)

From stdpp Require Export ssreflect base tactics option list gmap sets strings pretty.

(** ** Results *)

(** [Result<A, E>]: the code's fallible value. *)
Inductive result (E A : Type) : Type :=
| Ok (a : A)
| Err (e : E).
Arguments Ok {E A} a.
Arguments Err {E A} e.

#[export] Instance result_eq_dec {E A} `{EqDecision E, EqDecision A} :
  EqDecision (result E A).
Proof. solve_decision. Defined.

(** [Result::is_ok], [Result::ok], [Result::map_err] and [Result::map]. *)
Definition is_ok {E A} (r : result E A) : bool :=
  match r with Ok _ => true | Err _ => false end.

Definition ok {E A} (r : result E A) : option A :=
  match r with Ok a => Some a | Err _ => None end.

Definition map_err {E F A} (f : E → F) (r : result E A) : result F A :=
  match r with Ok a => Ok a | Err e => Err (f e) end.

Definition map_ok {E A B} (f : A → B) (r : result E A) : result E B :=
  match r with Ok a => Ok (f a) | Err e => Err e end.

(** ** Lists *)

Lemma length_omap_le {A B} (f : A → option B) l : (length (omap f l) <= length l)%nat.
Proof. induction l as [|x l IH]; cbn; [lia|]. destruct (f x); cbn; lia. Qed.

Lemma omap_snoc {A B} (f : A → option B) l x :
  omap f (l ++ [x]) = omap f l ++ match f x with Some y => [y] | None => [] end.
Proof. rw omap_app. cbn. by destruct (f x). Qed.

Lemma filter_all {A} (Q : A → Prop) `{∀ x, Decision (Q x)} l : Forall Q l → filter Q l = l.
Proof. induction 1 as [|x l Hx _ IH]; [done|]. by rw filter_cons_True // IH. Qed.

(** ** The state monad

    A routine with effects on a state [W] is a function [W → A * W]; a
    fallible one returns a [result], and its state is kept on the error
    branch as well, as the effects of the code are. *)
Definition ST (W A : Type) : Type := W → A * W.

Definition st_ret {W A} (a : A) : ST W A := λ w, (a, w).

Definition st_bind {W A B} (m : ST W A) (k : A → ST W B) : ST W B :=
  λ w, let r := m w in k r.1 r.2.

Definition st_get {W} : ST W W := λ w, (w, w).
Definition st_put {W} (w' : W) : ST W () := λ _, ((), w').
Definition st_gets {W A} (f : W → A) : ST W A := λ w, (f w, w).
Definition st_modify {W} (f : W → W) : ST W () := λ w, ((), f w).

(** Run a routine on a part of a larger state. *)
Definition st_zoom {W V A} (get : W → V) (set : V → W → W) (m : ST V A) : ST W A :=
  λ w, let r := m (get w) in (r.1, set r.2 w).

Declare Scope st_scope.
Delimit Scope st_scope with st.
Bind Scope st_scope with ST.

Notation "x <- m ;; k" := (st_bind m (λ x, k))
  (at level 100, m at next level, k at level 200, right associativity) : st_scope.
Notation "m ;; k" := (st_bind m (λ _, k))
  (at level 100, k at level 200, right associativity) : st_scope.

(** The [?] operator: the error leaves the routine. *)
Definition st_try {W E A B} (m : ST W (result E A)) (k : A → ST W (result E B)) :
    ST W (result E B) :=
  st_bind m (λ r, match r with Ok a => k a | Err e => st_ret (Err e) end).

Notation "x <-? m ;; k" := (st_try m (λ x, k))
  (at level 100, m at next level, k at level 200, right associativity) : st_scope.

(** [m.map_err(f)] under the state, used where [?] converts the error. *)
Definition st_map_err {W E F A} (f : E → F) (m : ST W (result E A)) :
    ST W (result F A) :=
  st_bind m (λ r, st_ret (map_err f r)).

Fixpoint st_mapM {W A B} (f : A → ST W B) (l : list A) : ST W (list B) :=
  match l with
  | [] => st_ret []
  | x :: l' => st_bind (f x) (λ y, st_bind (st_mapM f l') (λ ys, st_ret (y :: ys)))
  end.

Fixpoint st_iter {W A} (f : A → ST W ()) (l : list A) : ST W () :=
  match l with
  | [] => st_ret ()
  | x :: l' => st_bind (f x) (λ _, st_iter f l')
  end.

(** ** Reasoning about routines

    [wp m Q w]: run from [w], [m] returns a value and a state that satisfy
    [Q].  Every routine is total, so this is total correctness. *)
Definition wp {W A} (m : ST W A) (Q : A → W → Prop) (w : W) : Prop :=
  Q (m w).1 (m w).2.

Section wp_rules.
Context {W : Type}.
Implicit Types w : W.

Lemma wp_ret {A} (a : A) Q w : Q a w → wp (st_ret a) Q w.
Proof. done. Qed.

Lemma wp_bind {A B} (m : ST W A) (k : A → ST W B) Q w :
  wp m (λ a w', wp (k a) Q w') w → wp (st_bind m k) Q w.
Proof. done. Qed.

Lemma wp_try {E A B} (m : ST W (result E A)) (k : A → ST W (result E B)) Q w :
  wp m (λ r w', match r with Ok a => wp (k a) Q w' | Err e => Q (Err e) w' end) w →
  wp (st_try m k) Q w.
Proof. unfold st_try, wp, st_bind. destruct (m w) as [[]]; done. Qed.

(** A step whose last call is under [?] is one fallible step. *)
Lemma wp_bind_try {E A B C} (m : ST W A) (f : A → ST W (result E B))
    (k : B → ST W (result E C)) Q w :
  wp (st_try (st_bind m f) k) Q w → wp (st_bind m (λ a, st_try (f a) k)) Q w.
Proof. done. Qed.

Lemma wp_map_err {E F A} (f : E → F) (m : ST W (result E A)) Q w :
  wp m (λ r w', Q (map_err f r) w') w → wp (st_map_err f m) Q w.
Proof. done. Qed.

Lemma wp_get Q w : Q w w → wp st_get Q w.
Proof. done. Qed.

Lemma wp_gets {A} (f : W → A) Q w : Q (f w) w → wp (st_gets f) Q w.
Proof. done. Qed.

Lemma wp_put Q w w' : Q () w' → wp (st_put w') Q w.
Proof. done. Qed.

Lemma wp_modify Q (f : W → W) w : Q () (f w) → wp (st_modify f) Q w.
Proof. done. Qed.

Lemma wp_wand {A} (m : ST W A) (P Q : A → W → Prop) w :
  wp m P w → (∀ a w', P a w' → Q a w') → wp m Q w.
Proof. unfold wp. eauto. Qed.

Lemma wp_zoom {V A} (get : W → V) (set : V → W → W) (m : ST V A) Q w :
  wp m (λ a v, Q a (set v w)) (get w) → wp (st_zoom get set m) Q w.
Proof. done. Qed.

Lemma wp_mapM {A B} (f : A → ST W B) (l : list A)
    (I : list A → list B → W → Prop) w :
  I [] [] w →
  (∀ x l1 l2 w', l = l1 ++ x :: l2 → ∀ ys, I l1 ys w' →
     wp (f x) (λ y w'', I (l1 ++ [x]) (ys ++ [y]) w'') w') →
  wp (st_mapM f l) (λ ys w', I l ys w') w.
Proof.
  intros H0 Hstep.
  assert (∀ l2 l1 ys w, l = l1 ++ l2 → I l1 ys w →
    wp (st_mapM f l2) (λ ys2 w', I l (ys ++ ys2) w') w) as H; [|by eapply (H l [] [])].
  clear H0 w. induction l2 as [|x l2 IH]; intros l1 ys w Hl HI; simpl.
  - apply wp_ret. rw app_nil_r in Hl. subst. by rw app_nil_r.
  - apply wp_bind. eapply wp_wand; [by eapply Hstep|]. intros y w' HI'.
    apply wp_bind. eapply wp_wand.
    { eapply (IH (l1 ++ [x])); [by rw -app_assoc|exact HI']. }
    intros ys2 w'' HI''. apply wp_ret. by rw -app_assoc in HI''.
Qed.

Lemma wp_iter {A} (f : A → ST W ()) (l : list A) (I : list A → W → Prop) w :
  I [] w →
  (∀ x l1 l2 w', l = l1 ++ x :: l2 → I l1 w' →
     wp (f x) (λ _ w'', I (l1 ++ [x]) w'') w') →
  wp (st_iter f l) (λ _ w', I l w') w.
Proof.
  intros H0 Hstep.
  assert (∀ l2 l1 w, l = l1 ++ l2 → I l1 w →
    wp (st_iter f l2) (λ _ w', I l w') w) as H; [|by eapply (H l [])].
  clear H0 w. induction l2 as [|x l2 IH]; intros l1 w Hl HI; simpl.
  - apply wp_ret. rw app_nil_r in Hl. by subst.
  - apply wp_bind. eapply wp_wand; [by eapply Hstep|]. intros [] w' HI'.
    eapply (IH (l1 ++ [x])); [by rw -app_assoc|exact HI'].
Qed.
End wp_rules.

Create HintDb st discriminated.
#[export] Hint Resolve wp_ret wp_get wp_gets wp_put wp_modify : st.

(** One step of symbolic execution; [st_go] runs until a routine whose
    rule is not structural. *)
Ltac st_step :=
  lazymatch goal with
  | |- wp (st_bind _ _) _ _ => apply wp_bind
  | |- wp (st_try _ _) _ _ => apply wp_try
  | |- wp (st_map_err _ _) _ _ => apply wp_map_err
  | |- wp (st_ret _) _ _ => apply wp_ret
  | |- wp st_get _ _ => apply wp_get
  | |- wp (st_gets _) _ _ => apply wp_gets
  | |- wp (st_put _) _ _ => apply wp_put
  | |- wp (st_modify _) _ _ => apply wp_modify
  | |- wp (st_zoom _ _ _) _ _ => apply wp_zoom
  end.
Ltac st_go := repeat (st_step; cbn beta).
