(* ===== verification/Tasks.v ===== *)
(** * Tasks: routines that other routines interrupt

    tokio runs every request in a task of its own.  A [Task] is a sequence of
    atomic routines on the shared state, with the acquisition and the release
    of one reader-writer lock between them.  It has two meanings: [alone], where
    nothing happens in between, and [task_step], where anything may.  [safe]
    proves a task correct under the interference of the others. *)

From S2P Require Import Prelude.

Open Scope st_scope.

(** What the lock is held for. *)
Inductive Guard := GRead | GWrite.

#[export] Instance Guard_eq : EqDecision Guard.
Proof. solve_decision. Defined.

(** A task on the shared state [W]: done, an atomic routine, an acquisition of
    the lock (a timed one can fail), or the drop of its guard. *)
Inductive Task (W A : Type) : Type :=
| TRet (a : A)
| TDo {B : Type} (m : ST W B) (k : B → Task W A)
| TLock (g : Guard) (timed : bool) (k : bool → Task W A)
| TUnlock (t : Task W A).
Arguments TRet {W A} a.
Arguments TDo {W A B} m k.
Arguments TLock {W A} g timed k.
Arguments TUnlock {W A} t.

Definition t_ret {W A} (a : A) : Task W A := TRet a.

Fixpoint t_bind {W A B} (t : Task W A) (k : A → Task W B) : Task W B :=
  match t with
  | TRet a => k a
  | TDo m k' => TDo m (λ b, t_bind (k' b) k)
  | TLock g timed k' => TLock g timed (λ b, t_bind (k' b) k)
  | TUnlock t' => TUnlock (t_bind t' k)
  end.

(** One atomic routine. *)
Definition atom {W A} (m : ST W A) : Task W A := TDo m TRet.

Declare Scope task_scope.
Delimit Scope task_scope with task.
Bind Scope task_scope with Task.

Notation "x <- m ;; k" := (t_bind m (λ x, k))
  (at level 100, m at next level, k at level 200, right associativity) : task_scope.
Notation "m ;; k" := (t_bind m (λ _, k))
  (at level 100, k at level 200, right associativity) : task_scope.

Fixpoint t_iter {W A} (f : A → Task W ()) (l : list A) : Task W () :=
  match l with
  | [] => t_ret ()
  | x :: l' => t_bind (f x) (λ _, t_iter f l')
  end.

(** [if let Ok(guard) = timeout(lock).await { body } else { otherwise }]: the
    guard lives as long as the body runs. *)
Definition with_guard {W A} (g : Guard) (body otherwise : Task W A) : Task W A :=
  TLock g true (λ locked,
    if locked then t_bind body (λ a, TUnlock (TRet a)) else otherwise).

(** [let guard = lock.await; body] *)
Definition under_guard {W A} (g : Guard) (body : Task W A) : Task W A :=
  TLock g false (λ _, t_bind body (λ a, TUnlock (TRet a))).

(** ** Alone

    A task that is not interrupted.  Whether a timed acquisition succeeds
    depends on tasks that are not there, and is looked up. *)
Class TimedLock (W : Type) := lock_in_time : W → bool.

Fixpoint alone {W} `{TimedLock W} {A} (t : Task W A) : ST W A :=
  match t with
  | TRet a => st_ret a
  | TDo m k => st_bind m (λ b, alone (k b))
  | TLock _ timed k => st_bind (st_gets (λ w, negb timed || lock_in_time w)) (λ b, alone (k b))
  | TUnlock t' => alone t'
  end.

Section alone.
Context {W : Type} `{TimedLock W}.

Lemma alone_bind {A B} (t : Task W A) (k : A → Task W B) w :
  alone (t_bind t k) w = alone (k (alone t w).1) (alone t w).2.
Proof. revert w. induction t as [a|C m k' IH|g b k' IH|t IH]; intros w; [done|apply IH..]. Qed.

Lemma wp_alone_bind {A B} (t : Task W A) (k : A → Task W B) Q w :
  wp (alone t) (λ a w', wp (alone (k a)) Q w') w → wp (alone (t_bind t k)) Q w.
Proof. unfold wp. by rw alone_bind. Qed.

Lemma wp_alone_ret {A} (a : A) Q w : Q a w → wp (alone (W := W) (t_ret a)) Q w.
Proof. done. Qed.

Lemma wp_alone_atom {A} (m : ST W A) Q w : wp m Q w → wp (alone (atom m)) Q w.
Proof. done. Qed.

Lemma wp_alone_with_guard {A} g (body otherwise : Task W A) Q w :
  wp (alone body) Q w → wp (alone otherwise) Q w → wp (alone (with_guard g body otherwise)) Q w.
Proof.
  intros H1 H2. unfold with_guard. cbn [alone]. apply wp_bind, wp_gets. cbn [negb orb].
  destruct (lock_in_time w); [|done]. apply wp_alone_bind. eapply wp_wand; [exact H1|]. by intros a w'.
Qed.

Lemma wp_alone_under_guard {A} g (body : Task W A) Q w :
  wp (alone body) Q w → wp (alone (under_guard g body)) Q w.
Proof.
  intros H1. unfold under_guard. cbn [alone]. apply wp_bind, wp_gets, wp_alone_bind.
  eapply wp_wand; [exact H1|]. by intros a w'.
Qed.
End alone.

(** Symbolic execution goes through the parts of a task. *)
Ltac st_step ::=
  lazymatch goal with
  | |- wp (st_bind _ _) _ _ => apply wp_bind
  | |- wp (st_try _ _) _ _ => apply wp_try
  | |- wp (st_map_err _ _) _ _ => apply wp_map_err
  | |- wp (st_ret _) _ _ => apply wp_ret
  | |- wp st_get _ _ => apply wp_get
  | |- wp (st_gets _) _ _ => apply wp_gets
  | |- wp (st_put _) _ _ => apply wp_put
  | |- wp (st_modify _) _ _ => apply wp_modify
  | |- wp (st_zoom _ _ _) _ _ => apply wp_zoom
  | |- wp (alone (t_bind _ _)) _ _ => apply wp_alone_bind
  | |- wp (alone (t_ret _)) _ _ => apply wp_alone_ret
  | |- wp (alone (atom _)) _ _ => apply wp_alone_atom
  end.

(** ** Among others *)

Section steps.
Context {W A : Type}.
Implicit Types (t : Task W A) (h : option Guard).

(** A step of a task that holds [h], where [avail] says what can be acquired. *)
Inductive task_step (avail : Guard → Prop) :
    option Guard → Task W A → W → option Guard → Task W A → W → Prop :=
| step_do h B (m : ST W B) k w :
    task_step avail h (TDo m k) w h (k (m w).1) (m w).2
| step_lock g timed k w :
    avail g → task_step avail None (TLock g timed k) w (Some g) (k true) w
| step_timeout h g k w :
    task_step avail h (TLock g true k) w h (k false) w
| step_unlock h t w :
    task_step avail h (TUnlock t) w None t w.

(** What is left of a task after a step is a part of it. *)
Definition part t' t : Prop :=
  match t with
  | TRet _ => False
  | @TDo _ _ B _ k => ∃ b : B, t' = k b
  | TLock _ _ k => ∃ b, t' = k b
  | TUnlock t => t' = t
  end.

Lemma part_wf : well_founded part.
Proof.
  intros t. induction t as [a|C m k IH|g b k IH|t IH]; constructor; cbn; intros t'.
  - done.
  - intros [b ->]. apply IH.
  - intros [b' ->]. apply IH.
  - by intros ->.
Qed.

Lemma step_part avail h t w h' t' w' : task_step avail h t w h' t' w' → part t' t.
Proof. destruct 1; cbn; eauto. Qed.
End steps.

(** ** Tasks that are safe under interference

    [I] is an invariant of the shared state; [rely h] says what the others may
    do to it while this task holds [h]; [does x h w w' x'] what this task may
    do in one atomic routine, where [x] remembers what it has done so far. *)
Section safe.
Context {W X : Type} (I : W → Prop) (rely : option Guard → W → W → Prop).
Context (does : X → option Guard → W → W → X → Prop).
Context `{rely_preorder : ∀ h, PreOrder (rely h)}.

Fixpoint safe {A} (x : X) (h : option Guard) (t : Task W A)
    (Q : X → option Guard → A → W → Prop) (w : W) : Prop :=
  match t with
  | TRet a => Q x h a w
  | TDo m k =>
      I w → I (m w).2 ∧ ∃ x', does x h w (m w).2 x' ∧
        ∀ w', rely h (m w).2 w' → safe x' h (k (m w).1) Q w'
  | TLock g timed k =>
      h = None ∧ (∀ w', rely (Some g) w w' → safe x (Some g) (k true) Q w') ∧
      (timed = true → ∀ w', rely None w w' → safe x None (k false) Q w')
  | TUnlock t => is_Some h ∧ ∀ w', rely None w w' → safe x None t Q w'
  end.

(** Safe from now on, whatever the others do before its next step. *)
Definition stays_safe {A} x h (t : Task W A) Q w : Prop := ∀ w', rely h w w' → safe x h t Q w'.

Lemma safe_wand {A} x h (t : Task W A) (P Q : X → option Guard → A → W → Prop) w :
  safe x h t P w → (∀ x' h' a w', P x' h' a w' → Q x' h' a w') → safe x h t Q w.
Proof.
  intros Ht HPQ. revert x h w Ht.
  induction t as [a|C m k IH|g b k IH|t IH]; intros x h w; cbn [safe].
  - auto.
  - intros Hs Hi. destruct (Hs Hi) as (Hi' & x' & Hd & Hk). split; [done|]. exists x'.
    split; [done|]. intros w' Hw'. by apply IH, Hk.
  - intros (-> & H1 & H2). split_and!; [done|..]; intros; apply IH; auto.
  - intros (Hh & H1). split; [done|]. intros w' Hw'. by apply IH, H1.
Qed.

Lemma safe_bind {A B} x h (t : Task W A) (k : A → Task W B) Q w :
  safe x h t (λ x' h' a w', safe x' h' (k a) Q w') w → safe x h (t_bind t k) Q w.
Proof.
  revert x h w. induction t as [a|C m k' IH|g b k' IH|t IH]; intros x h w; cbn [safe t_bind].
  - done.
  - intros Hs Hi. destruct (Hs Hi) as (Hi' & x' & Hd & Hk). split; [done|]. exists x'.
    split; [done|]. intros w' Hw'. by apply IH, Hk.
  - intros (-> & H1 & H2). split_and!; [done|..]; intros; apply IH; auto.
  - intros (Hh & H1). split; [done|]. intros w' Hw'. by apply IH, H1.
Qed.

Lemma safe_atom {A} x h (m : ST W A) (Q : X → option Guard → A → W → Prop) w :
  (I w → wp m (λ a w', I w' ∧ ∃ x', does x h w w' x' ∧ ∀ w2, rely h w' w2 → Q x' h a w2) w) →
  safe x h (atom m) Q w.
Proof. done. Qed.

(** The lock is asked for when it is not held, and dropped at the end. *)
Lemma safe_with_guard {A} x g (body otherwise : Task W A) (Q : X → option Guard → A → W → Prop) w :
  (∀ w', rely (Some g) w w' →
     safe x (Some g) body (λ x' h' a w1, is_Some h' ∧ ∀ w2, rely None w1 w2 → Q x' None a w2) w') →
  (∀ w', rely None w w' → safe x None otherwise Q w') →
  safe x None (with_guard g body otherwise) Q w.
Proof.
  intros H1 H2. cbn. split; [done|]. split; [|by auto]. intros w' Hw'. apply safe_bind.
  eapply safe_wand; [by apply H1|]. cbn. intros x' h' a w1 [Hh HQ]. by split.
Qed.

Lemma safe_under_guard {A} x g (body : Task W A) (Q : X → option Guard → A → W → Prop) w :
  (∀ w', rely (Some g) w w' →
     safe x (Some g) body (λ x' h' a w1, is_Some h' ∧ ∀ w2, rely None w1 w2 → Q x' None a w2) w') →
  safe x None (under_guard g body) Q w.
Proof.
  intros H1. cbn. split; [done|]. split; [|done]. intros w' Hw'. apply safe_bind.
  eapply safe_wand; [by apply H1|]. cbn. intros x' h' a w1 [Hh HQ]. by split.
Qed.

(** A step of a safe task keeps the invariant, does what it may, and leaves
    it safe. *)
Lemma safe_step {A} avail x h (t : Task W A) w h' t' w' Q :
  task_step avail h t w h' t' w' → I w → stays_safe x h t Q w →
  I w' ∧ (∃ x', (does x h w w' x' ∨ (x' = x ∧ w' = w)) ∧ stays_safe x' h' t' Q w').
Proof.
  intros Hstep Hi Hs. specialize (Hs w (reflexivity w)). unfold stays_safe.
  destruct Hstep as [h B m k w|g timed k w Ha|h g k w|h t w]; cbn [safe] in Hs.
  - destruct (Hs Hi) as (Hi' & x' & Hd & Hk). split; [done|]. exists x'. auto.
  - destruct Hs as (_ & H1 & _). split; [done|]. exists x. auto.
  - destruct Hs as (-> & _ & H2). split; [done|]. exists x. auto.
  - destruct Hs as (_ & H1). split; [done|]. exists x. auto.
Qed.

(** A safe task that has not ended can make a step, unless it waits for the
    lock, and then it holds nothing. *)
Lemma safe_progress {A} avail x h (t : Task W A) w Q :
  safe x h t Q w → I w →
  (∃ a, t = TRet a) ∨ (∃ h' t' w', task_step avail h t w h' t' w') ∨
  (h = None ∧ ∃ g k, t = TLock g false k).
Proof.
  destruct t as [a|C m k|g [] k|t]; cbn [safe]; intros Hs Hi.
  - eauto.
  - right; left. eexists _, _, _. constructor.
  - right; left. eexists _, _, _. apply step_timeout.
  - destruct Hs as (-> & _). eauto 6.
  - right; left. eexists _, _, _. constructor.
Qed.

(** *** Alone

    What a task does when it is not interrupted, where [acc] collects what
    its atomic routines do. *)
Context (acc : X → W → W → X → Prop) `{TimedLock W}.
Context (acc_refl : ∀ x w, acc x w w x).
Context (acc_trans : ∀ x1 w1 x2 w2 x3 w3, acc x1 w1 w2 x2 → acc x2 w2 w3 x3 → acc x1 w1 w3 x3).
Context (acc_does : ∀ x h w w' x', does x h w w' x' → acc x w w' x').

Lemma safe_alone {A} x h (t : Task W A) Q w :
  safe x h t Q w → I w →
  wp (alone t) (λ a w', I w' ∧ ∃ x' h', acc x w w' x' ∧ Q x' h' a w') w.
Proof.
  revert x h w. induction t as [a|C m k IH|g b k IH|t IH]; intros x h w; cbn [safe alone].
  - intros HQ Hi. apply wp_ret. eauto.
  - intros Hs Hi. destruct (Hs Hi) as (Hi' & x' & Hd & Hk). apply wp_bind.
    unfold wp at 1. eapply wp_wand; [by eapply IH; [apply (Hk _ (reflexivity _))|]|]. cbn.
    intros a w' (Hi2 & x2 & h2 & Ha & HQ). split; [done|]. exists x2, h2. split; [|done].
    eapply acc_trans; [by apply (acc_does _ h)|done].
  - intros (-> & H1 & H2) Hi. apply wp_bind, wp_gets.
    destruct b; cbn [negb orb]; [|by eapply IH; [apply (H1 _ (reflexivity _))|]].
    destruct (lock_in_time w); [by eapply IH; [apply (H1 _ (reflexivity _))|]|].
    by eapply IH; [apply (H2 eq_refl _ (reflexivity _))|].
  - intros (_ & H1) Hi. by eapply IH; [apply (H1 _ (reflexivity _))|].
Qed.

(** [alone] is one of the ways in which the steps of a task can follow each
    other: the one with nothing in between. *)
Definition config A : Type := option Guard * Task W A * W.
Definition own_step {A} (avail : Guard → Prop) (c c' : config A) : Prop :=
  task_step avail c.1.1 c.1.2 c.2 c'.1.1 c'.1.2 c'.2.

Lemma alone_steps {A} (avail : Guard → Prop) x h (t : Task W A) Q w :
  (∀ g, avail g) → safe x h t Q w → I w →
  ∃ h', rtc (own_step avail) (h, t, w) (h', TRet (alone t w).1, (alone t w).2).
Proof.
  intros Hav. revert x h w. induction t as [a|C m k IH|g b k IH|t IH]; intros x h w; cbn [safe].
  - intros _ _. exists h. done.
  - intros Hs Hi. destruct (Hs Hi) as (Hi' & x' & _ & Hk).
    destruct (IH _ _ _ _ (Hk _ (reflexivity _)) Hi') as [h' Hr]. exists h'.
    eapply rtc_l; [|exact Hr]. apply (step_do avail h C m k w).
  - intros (-> & H1 & H2) Hi. cbn [alone]. unfold st_bind, st_gets. cbn [fst snd].
    destruct (negb b || lock_in_time w) eqn:Hb.
    + destruct (IH _ _ _ _ (H1 _ (reflexivity _)) Hi) as [h' Hr]. exists h'.
      eapply rtc_l; [|exact Hr]. by apply (step_lock avail g b k w).
    + destruct b; [|done]. destruct (IH _ _ _ _ (H2 eq_refl _ (reflexivity _)) Hi) as [h' Hr].
      exists h'. eapply rtc_l; [|exact Hr]. apply (step_timeout avail None g k w).
  - intros (_ & H1) Hi. destruct (IH _ _ _ (H1 _ (reflexivity _)) Hi) as [h' Hr]. exists h'.
    eapply rtc_l; [|exact Hr]. apply (step_unlock avail h t w).
Qed.
End safe.

(** ** A pool of tasks ends

    When in every step one task becomes a part of itself or leaves. *)
Section pool.
Context {T : Type} (smaller : T → T → Prop).

Inductive shrinks : list T → list T → Prop :=
| shrinks_part pre t' t post : smaller t' t → shrinks (pre ++ t' :: post) (pre ++ t :: post)
| shrinks_leave pre t post : shrinks (pre ++ post) (pre ++ t :: post).

Lemma shrinks_cons_inv l' t l :
  shrinks l' (t :: l) →
  (∃ t', smaller t' t ∧ l' = t' :: l) ∨ l' = l ∨ (∃ l2, shrinks l2 l ∧ l' = t :: l2).
Proof.
  intros Hs. inversion Hs as [pre t' t0 post Ht E1 E2|pre t0 post E1 E2]; subst.
  - destruct pre as [|u pre]; simplify_list_eq; [by left; eauto|]. right. right. eexists.
    split; [by constructor|done].
  - destruct pre as [|u pre]; simplify_list_eq; [by right; left|]. right. right. eexists.
    split; [by constructor|done].
Qed.

Lemma shrinks_wf : well_founded smaller → well_founded shrinks.
Proof.
  intros Hwf l. induction l as [|t l IH].
  { constructor. intros l' Hs. exfalso. inversion Hs as [pre t' t post Ht E1 E2|pre t post E1 E2]; by destruct pre. }
  revert t. induction IH as [l Hl IHl]. intros t. induction (Hwf t) as [t _ IHt].
  constructor. intros l' [(t' & Ht & ->)|[->|(l2 & Hl2 & ->)]]%shrinks_cons_inv.
  - by apply IHt.
  - by constructor.
  - by apply IHl.
Qed.
End pool.

(** Handlers are executed by the rules above, not by unfolding. *)
#[global] Arguments t_bind : simpl never.
#[global] Arguments alone : simpl never.
#[global] Arguments safe : simpl never.
