(* ===== verification/Text.v ===== *)
(** * Text: the standard library's strings, numbers in decimal and UTF-8

    A Rust [String] or [&str] is the [string] of its UTF-8 bytes, so that
    [len()] is [String.length]; [Vec<u8>] is a [list ascii].  This file holds
    the operations of the standard library the program uses on them. *)

From S2P Require Import Prelude.
From Stdlib Require Ascii String.
Export Stdlib.Strings.Ascii (ascii(..)).
Export (notations) Stdlib.Strings.Ascii.

#[global] Arguments String.append !_ _ / : simpl nomatch.

Abbreviation bytes := (list ascii).

Definition bytes_of (s : string) : bytes := String.list_ascii_of_string s.
Definition string_of (b : bytes) : string := String.string_of_list_ascii b.

Lemma string_of_bytes_of s : string_of (bytes_of s) = s.
Proof. apply String.string_of_list_ascii_of_string. Qed.
Lemma bytes_of_string_of b : bytes_of (string_of b) = b.
Proof. apply String.list_ascii_of_string_of_list_ascii. Qed.

(** ** Strings as sequences *)

Lemma sapp_assoc (a b c : string) : (a +:+ b) +:+ c = a +:+ b +:+ c.
Proof. induction a as [|x a IH]; [done|]; simpl. by rw IH. Qed.
Lemma sapp_nil_r (a : string) : a +:+ "" = a.
Proof. induction a as [|x a IH]; [done|]; simpl. by rw IH. Qed.
Lemma sapp_length (a b : string) :
  String.length (a +:+ b) = (String.length a + String.length b)%nat.
Proof. induction a as [|x a IH]; [done|]; simpl. by rw IH. Qed.
Lemma sapp_inj_l (a b c : string) : a +:+ b = a +:+ c → b = c.
Proof. induction a as [|x a IH]; [done|]; simpl. intros [= ?]; auto. Qed.
Lemma sapp_inj_len (a a' b b' : string) :
  String.length a = String.length a' → a +:+ b = a' +:+ b' → a = a' ∧ b = b'.
Proof.
  revert a'. induction a as [|x a IH]; intros [|x' a']; simpl; try done.
  intros [= Hl] [= -> H]. destruct (IH a') as [-> ->]; done.
Qed.
Lemma sapp_inj_r (a b c : string) : a +:+ c = b +:+ c → a = b.
Proof.
  intros H. assert (String.length a = String.length b) as Hl.
  { apply (f_equal String.length) in H. rw !sapp_length in H. lia. }
  by destruct (sapp_inj_len a b c c Hl H).
Qed.

Lemma bytes_of_app a b : bytes_of (a +:+ b) = (bytes_of a ++ bytes_of b)%list.
Proof. unfold bytes_of. induction a as [|x a IH]; [done|]; simpl. by rw IH. Qed.

(** A character occurs in a string / every character satisfies a predicate. *)
Fixpoint str_all (p : ascii → bool) (s : string) : bool :=
  match s with "" => true | String c s' => p c && str_all p s' end.
Definition str_has (c : ascii) (s : string) : bool :=
  negb (str_all (λ d, negb (Ascii.eqb d c)) s).

Lemma str_all_app p a b : str_all p (a +:+ b) = str_all p a && str_all p b.
Proof. induction a as [|x a IH]; [done|]; simpl. by rw IH andb_assoc. Qed.

Lemma str_all_impl p q s :
  (∀ c, p c = true → q c = true) → str_all p s = true → str_all q s = true.
Proof.
  intros Hpq. induction s as [|c s IH]; [done|]; simpl.
  rw !andb_true_iff. intros [? ?]; auto.
Qed.

Lemma str_has_app c a b : str_has c (a +:+ b) = str_has c a || str_has c b.
Proof. unfold str_has. by rw str_all_app negb_andb. Qed.

(** A character that occurs on neither left part splits a string one way. *)
Lemma split_char_unique c a a' b b' :
  str_has c a = false → str_has c a' = false →
  a +:+ String c b = a' +:+ String c b' → a = a' ∧ b = b'.
Proof.
  unfold str_has. revert a'.
  induction a as [|x a IH]; intros [|x' a']; simpl.
  - by intros _ _ [= ->].
  - intros _ H [= -> _]. by rw Ascii.eqb_refl in H.
  - intros H _ [= -> _]. by rw Ascii.eqb_refl in H.
  - rw !negb_false_iff !andb_true_iff -!negb_false_iff. intros [_ H1] [_ H2] [= -> H].
    destruct (IH a') as [-> ->]; try done.
Qed.

(** The same for a character that occurs in neither right part. *)
Lemma rsplit_char_unique c a a' b b' :
  str_has c b = false → str_has c b' = false →
  a +:+ String c b = a' +:+ String c b' → a = a' ∧ b = b'.
Proof.
  intros Hb Hb'. revert a'. induction a as [|x a IH]; intros [|x' a']; simpl.
  - by intros [= ->].
  - intros [= _ ->]. by rw str_has_app {2}/str_has /= Ascii.eqb_refl orb_true_r in Hb.
  - intros [= _ <-]. by rw str_has_app {2}/str_has /= Ascii.eqb_refl orb_true_r in Hb'.
  - by intros [= -> [-> ->]%IH].
Qed.

(** [str::starts_with], [str::strip_prefix], [str::ends_with]. *)
Fixpoint strip_prefix (p s : string) : option string :=
  match p, s with
  | "", _ => Some s
  | String a p', String b s' => if Ascii.eqb a b then strip_prefix p' s' else None
  | _, _ => None
  end.
Definition starts_with (p s : string) : bool :=
  match strip_prefix p s with Some _ => true | None => false end.

Lemma strip_prefix_Some p s r : strip_prefix p s = Some r ↔ s = p +:+ r.
Proof.
  revert s. induction p as [|a p IH]; intros s; [simpl; split; congruence|].
  destruct s as [|b s]; simpl; [done|].
  destruct (Ascii.eqb_spec a b) as [->|]; [rw IH|]; split; congruence.
Qed.
Lemma strip_prefix_app p r : strip_prefix p (p +:+ r) = Some r.
Proof. by apply strip_prefix_Some. Qed.
Lemma starts_with_spec p s : starts_with p s = true ↔ ∃ r, s = p +:+ r.
Proof.
  unfold starts_with. destruct (strip_prefix p s) as [r|] eqn:H.
  - apply strip_prefix_Some in H. naive_solver.
  - split; [done|]. intros [r ->]. by rw strip_prefix_app in H.
Qed.

(** [str::split_once(c)] for a single character. *)
Fixpoint split_once (c : ascii) (s : string) : option (string * string) :=
  match s with
  | "" => None
  | String d s' =>
      if Ascii.eqb d c then Some ("", s')
      else match split_once c s' with
           | Some (a, b) => Some (String d a, b)
           | None => None
           end
  end.

Lemma split_once_Some c s a b :
  split_once c s = Some (a, b) ↔ s = a +:+ String c b ∧ str_has c a = false.
Proof.
  unfold str_has. revert a b. induction s as [|d s IH]; intros a b; simpl.
  { split; [done|]. intros [H _]. by destruct a. }
  destruct (Ascii.eqb_spec d c) as [->|Hd].
  - split; [by intros [= <- <-]|]. intros [H Ha]. destruct a as [|x a]; simpl in *.
    + by simplify_eq.
    + simplify_eq. by rw Ascii.eqb_refl in Ha.
  - destruct (split_once c s) as [[a0 b0]|].
    + split.
      * intros [= <- <-]. destruct (IH a0 b0) as [[-> Ha] _]; [done|].
        simpl. split; [done|]. by apply Ascii.eqb_neq in Hd as ->.
      * intros [H Ha]. destruct a as [|x a]; simpl in *; simplify_eq.
        apply Ascii.eqb_neq in Hd. rw Hd /= in Ha.
        destruct (IH a b) as [_ H]. by specialize (H (conj eq_refl Ha)) as [= -> ->].
    + split; [done|]. intros [H Ha]. destruct a as [|x a]; simpl in *; simplify_eq.
      apply Ascii.eqb_neq in Hd. rw Hd /= in Ha.
      destruct (IH a b) as [_ H]. by specialize (H (conj eq_refl Ha)).
Qed.

(** ** Decimal numbers

    [pretty] is [to_string]; [parse_uint max] is [from_str] of the unsigned
    type whose largest value is [max]: an optional [+], one or more ASCII
    digits, and no overflow. *)
Definition is_digit (c : ascii) : bool :=
  (48 <=? Ascii.N_of_ascii c)%N && (Ascii.N_of_ascii c <=? 57)%N.
Definition digit_val (c : ascii) : Z := Z.of_N (Ascii.N_of_ascii c) - 48.

Definition u16_max : Z := 65535.
Definition u32_max : Z := 4294967295.
Definition u64_max : Z := 18446744073709551615.

Fixpoint parse_digits (acc : Z) (s : string) : option Z :=
  match s with
  | "" => Some acc
  | String c s' => if is_digit c then parse_digits (10 * acc + digit_val c) s' else None
  end.

Definition parse_uint (max : Z) (s : string) : option Z :=
  let body := match s with String "+" s' => s' | _ => s end in
  match body with
  | "" => None
  | _ => match parse_digits 0 body with
         | Some n => if (n <=? max)%Z then Some n else None
         | None => None
         end
  end.

Lemma digit_char_spec (n : N) :
  (n < 10)%N → is_digit (pretty_N_char n) = true ∧ digit_val (pretty_N_char n) = Z.of_N n.
Proof.
  intros Hn. assert (n = 0 ∨ n = 1 ∨ n = 2 ∨ n = 3 ∨ n = 4 ∨ n = 5 ∨ n = 6 ∨ n = 7 ∨
    n = 8 ∨ n = 9)%N as Hc by lia.
  destruct_or!; subst; by vm_compute.
Qed.

Lemma pretty_N_go_digits n s :
  str_all is_digit (pretty_N_go n s) = str_all is_digit s.
Proof.
  revert s. induction (N.lt_wf_0 n) as [n _ IH]; intros s.
  destruct (decide (n = 0)%N) as [->|Hn]; [by rw pretty_N_go_0|].
  rw pretty_N_go_step; [|lia]. rw IH; [|apply N.div_lt; lia]. simpl.
  destruct (digit_char_spec (n `mod` 10)) as [-> _]; [apply N.mod_lt; lia|done].
Qed.

Lemma parse_digits_pretty n s :
  parse_digits 0 (pretty_N_go n s) = parse_digits (Z.of_N n) s.
Proof.
  revert s. induction (N.lt_wf_0 n) as [n _ IH]; intros s.
  destruct (decide (n = 0)%N) as [->|Hn]; [by rw pretty_N_go_0|].
  rw pretty_N_go_step; [|lia]. rw IH; [|apply N.div_lt; lia]. simpl.
  destruct (digit_char_spec (n `mod` 10)) as [-> ->]; [apply N.mod_lt; lia|].
  f_equal. rw {3}(N.div_mod n 10); lia.
Qed.

Lemma pretty_N_nonempty (n : N) : pretty n ≠ "".
Proof.
  unfold pretty, pretty_N. case_decide as Hn; [done|]. intros H.
  pose proof (parse_digits_pretty n "") as Hp. rw H in Hp. simpl in Hp.
  injection Hp. lia.
Qed.

Lemma pretty_N_digits (n : N) : str_all is_digit (pretty n) = true.
Proof.
  unfold pretty, pretty_N. case_decide; [done|]. by rw pretty_N_go_digits.
Qed.

(** [n.to_string().parse()] returns [n], for every [n] the type holds. *)
Lemma parse_uint_pretty max (n : N) :
  (Z.of_N n <= max)%Z → parse_uint max (pretty n) = Some (Z.of_N n).
Proof.
  intros Hmax. unfold parse_uint.
  assert (match pretty n with String "+" s' => s' | _ => pretty n end = pretty n) as Hb.
  { pose proof (pretty_N_digits n) as Hd. destruct (pretty n) as [|c s]; [done|].
    simpl in Hd. apply andb_true_iff in Hd as [Hc _].
    destruct (Ascii.eqb_spec c "+") as [->|Hne]; [by vm_compute in Hc|].
    destruct c as [[] [] [] [] [] [] [] []]; try done. }
  rw Hb. destruct (pretty n) eqn:Hp; [by apply pretty_N_nonempty in Hp|].
  rw -Hp. unfold pretty, pretty_N. case_decide as Hn; [subst n|].
  - change (parse_digits 0 "0") with (Some 0%Z). simpl. by destruct (Z.leb_spec 0 max); [|lia].
  - rw parse_digits_pretty. simpl. by destruct (Z.leb_spec (Z.of_N n) max); [|lia].
Qed.

Lemma parse_uint_bound max s n : parse_uint max s = Some n → (0 <= n <= max)%Z.
Proof.
  unfold parse_uint. set (b := match s with String "+" s' => s' | _ => s end).
  destruct b as [|c b']; [done|]. destruct (parse_digits 0 _) as [m|] eqn:Hm; [|done].
  destruct (Z.leb_spec m max); [|done]. intros [= <-]. split; [|done].
  assert (∀ t acc k, (0 <= acc)%Z → parse_digits acc t = Some k → (0 <= k)%Z) as Hpos.
  { induction t as [|d t IH]; simpl; [naive_solver|]. intros acc k Hacc.
    destruct (is_digit d) eqn:Hd; [|done]. apply IH. unfold is_digit in Hd.
    apply andb_true_iff in Hd as [H1 _]. apply N.leb_le in H1. unfold digit_val. lia. }
  by eapply Hpos in Hm.
Qed.

(** ** UTF-8

    One decoding step: the number of bytes of a well-formed character, or
    the number of bytes of the ill-formed part that is skipped
    ([Utf8Error::error_len]). *)
Inductive utf8_step := Valid (n : nat) | Invalid (n : nat).

Definition byte_in (lo hi : N) (c : ascii) : bool :=
  (lo <=? Ascii.N_of_ascii c)%N && (Ascii.N_of_ascii c <=? hi)%N.
Definition cont := byte_in 128 191.

(** The range of the second byte, and the length, by the first byte. *)
Definition utf8_lead (c : ascii) : option (nat * N * N) :=
  if byte_in 194 223 c then Some (2%nat, 128%N, 191%N)
  else if byte_in 224 224 c then Some (3%nat, 160%N, 191%N)
  else if byte_in 225 236 c then Some (3%nat, 128%N, 191%N)
  else if byte_in 237 237 c then Some (3%nat, 128%N, 159%N)
  else if byte_in 238 239 c then Some (3%nat, 128%N, 191%N)
  else if byte_in 240 240 c then Some (4%nat, 144%N, 191%N)
  else if byte_in 241 243 c then Some (4%nat, 128%N, 191%N)
  else if byte_in 244 244 c then Some (4%nat, 128%N, 143%N)
  else None.

Definition utf8_next (c : ascii) (rest : string) : utf8_step :=
  if byte_in 0 127 c then Valid 1
  else match utf8_lead c with
       | None => Invalid 1
       | Some (n, lo, hi) =>
           match rest with
           | String c2 rest2 =>
               if byte_in lo hi c2 then
                 if (n =? 2)%nat then Valid 2 else
                 match rest2 with
                 | String c3 rest3 =>
                     if cont c3 then
                       if (n =? 3)%nat then Valid 3 else
                       match rest3 with
                       | String c4 _ => if cont c4 then Valid 4 else Invalid 3
                       | "" => Invalid 3
                       end
                     else Invalid 2
                 | "" => Invalid 2
                 end
               else Invalid 1
           | "" => Invalid 1
           end
       end.

(** Walk over the string; [skip] bytes of the current character remain and
    [keep] tells whether they are copied.  [String::from_utf8_lossy] copies
    the well-formed characters and puts U+FFFD for each ill-formed part. *)
Definition replacement : string :=
  String "239" (String "191" (String "189" "")).

Fixpoint utf8_walk (skip : nat) (keep : bool) (s : string) : bool * string :=
  match s with
  | "" => (true, "")
  | String c s' =>
      match skip with
      | S k => let r := utf8_walk k keep s' in
               (r.1, if keep then String c r.2 else r.2)
      | O => match utf8_next c s' with
             | Valid n => let r := utf8_walk (Nat.pred n) true s' in
                          (r.1, String c r.2)
             | Invalid n => let r := utf8_walk (Nat.pred n) false s' in
                            (false, replacement +:+ r.2)
             end
      end
  end.

(** [std::str::from_utf8] succeeds / [String::from_utf8_lossy]. *)
Definition valid_utf8 (s : string) : bool := (utf8_walk 0 true s).1.
Definition from_utf8_lossy (s : string) : string := (utf8_walk 0 true s).2.

(** Lossy decoding leaves well-formed text unchanged. *)
Lemma from_utf8_lossy_valid s : valid_utf8 s = true → from_utf8_lossy s = s.
Proof.
  unfold valid_utf8, from_utf8_lossy.
  assert (∀ s k, (utf8_walk k true s).1 = true → (utf8_walk k true s).2 = s) as H.
  { clear. induction s as [|c s IH]; intros k; simpl; [done|].
    destruct k as [|k]; simpl.
    - destruct (utf8_next c s); simpl; [|done]. intros ?. by rw IH.
    - intros ?. by rw IH. }
  apply H.
Qed.

Lemma valid_utf8_ascii s : str_all (byte_in 0 127) s = true → valid_utf8 s = true.
Proof.
  unfold valid_utf8. induction s as [|c s IH]; [done|]; simpl.
  rw andb_true_iff. intros [Hc Hs]. unfold utf8_next. rw Hc. by apply IH.
Qed.

Create Rewrite HintDb text.
#[export] Hint Rewrite sapp_assoc sapp_nil_r string_of_bytes_of bytes_of_string_of
  strip_prefix_app : text.
