(* ===== verification/Regex.v ===== *)
(** * Regex: the patterns of src/src/schema.rs and the engine they are given to

    The [regex] crate is not part of the program: it is the class
    [RegexEngine], whose laws [RegexLaws] state what the crate documents, that
    [captures] returns the groups of a match of the pattern and [None] only
    when there is none.  The relation [pattern_match] is the meaning of a
    pattern.  [backtrack] is an executable engine, proved to satisfy the laws.

    Patterns are read byte by byte.  A Rust haystack is well-formed UTF-8 and
    every [.+] and [[^:]+] of these patterns has an ASCII literal or an end of
    the haystack on both sides, so matching bytes and matching characters
    agree.  [\d] also matches the decimal digits of other scripts, which are
    multi-byte: the set of their encodings is the law's [unicode_digit]. *)

From S2P Require Import Prelude Text.

(** ** Patterns *)

Inductive cls :=
| CDigit               (** [\d] *)
| CAny                 (** [.] *)
| CNot (c : ascii)     (** [[^c]] *)
| CAlpha.              (** [[a-zA-Z]] *)

Inductive item :=
| Lit (c : ascii)
| One (c : cls)
| Plus (c : cls)
| Open                 (** [(] *)
| Close.               (** [)] *)

Record Pattern := MkPattern {
  at_start : bool;       (** [^] *)
  items : list item;
  at_end : bool;         (** [$] *)
}.

Definition lits (s : string) : list item := Lit <$> bytes_of s.
Definition digits (n : nat) : list item := replicate n (One CDigit).

(** [(\d{4}-\d{2}-\d{2} \d{2}:\d{2}:\d{2})] *)
Definition timestamp_group : list item :=
  [Open] ++ digits 4 ++ lits "-" ++ digits 2 ++ lits "-" ++ digits 2 ++ lits " " ++
  digits 2 ++ lits ":" ++ digits 2 ++ lits ":" ++ digits 2 ++ [Close].

Definition CHAT_DISCORD_ECHO_RE : Pattern :=
  MkPattern true
    (timestamp_group ++ lits " [CHAT] <server>: [Discord] " ++ [Open; Plus CAny; Close]) true.

Definition CHAT_RE : Pattern :=
  MkPattern true
    (timestamp_group ++ lits " [CHAT] " ++ [Open; Plus (CNot ":"); Close] ++ lits ": " ++
     [Open; Plus CAny; Close]) true.

Definition JOIN_RE : Pattern :=
  MkPattern true
    (timestamp_group ++ lits " [JOIN] " ++ [Open; Plus (CNot ":"); Close] ++
     lits " joined the game") true.

Definition LEAVE_RE : Pattern :=
  MkPattern true
    (timestamp_group ++ lits " [LEAVE] " ++ [Open; Plus (CNot ":"); Close] ++
     lits " left the game") true.

Definition MOD_FILENAME_RE : Pattern :=
  MkPattern true
    ([Open; Plus CAny; Close] ++ lits "_" ++
     [Open; Plus CDigit] ++ lits "." ++ [Plus CDigit] ++ lits "." ++ [Plus CDigit; Close] ++
     lits ".zip") true.

Definition RCON_READY_RE : Pattern :=
  MkPattern false
    (lits "Starting RCON interface at IP ADDR:({" ++
     [Plus CDigit] ++ lits "." ++ [Plus CDigit] ++ lits "." ++ [Plus CDigit] ++ lits "." ++
     [Plus CDigit] ++ lits ":" ++ [Open; Plus CDigit; Close] ++ lits "})") false.

Definition RPC_RE : Pattern :=
  MkPattern true (lits "FCTRL_RPC " ++ [Open; Plus CAny; Close]) true.

Definition STATE_CHANGE_RE : Pattern :=
  MkPattern false
    (lits "changing state from(" ++ [Open; Plus CAlpha; Close] ++ lits ") to(" ++
     [Open; Plus CAlpha; Close] ++ lits ")") false.

Definition CONTENT_RANGE_RE : Pattern :=
  MkPattern true
    (lits "bytes " ++ [Open; Plus CDigit; Close] ++ lits "-" ++ [Open; Plus CDigit; Close] ++
     lits "/" ++ [Open; Plus CDigit; Close]) true.

(** ** The meaning of a pattern *)

Definition newline : ascii := "010".

Definition is_alpha (c : ascii) : bool := byte_in 65 90 c || byte_in 97 122 c.

Definition byte_of_cls (k : cls) (c : ascii) : bool :=
  match k with
  | CDigit => is_digit c
  | CAny => negb (Ascii.eqb c newline)
  | CNot d => negb (Ascii.eqb c d)
  | CAlpha => is_alpha c
  end.

Section meaning.
Context (unicode_digit : string → Prop).

(** One character of a class, as a string of bytes. *)
Inductive one_of : cls → string → Prop :=
| one_byte k c : byte_of_cls k c = true → one_of k (String c "")
| one_digit d : unicode_digit d → one_of CDigit d.

Inductive many_of (k : cls) : string → Prop :=
| many_one x : one_of k x → many_of k x
| many_more x y : one_of k x → many_of k y → many_of k (x +:+ y).

(** [item_match its t cur gs]: the items match the text [t]; [cur] is the
    text consumed since the last [(], [gs] are the groups, in order. *)
Inductive item_match : list item → string → string → list string → Prop :=
| im_nil cur : item_match [] "" cur []
| im_lit c its t cur gs :
    item_match its t (cur +:+ String c "") gs →
    item_match (Lit c :: its) (String c t) cur gs
| im_one k its x t cur gs :
    one_of k x → item_match its t (cur +:+ x) gs →
    item_match (One k :: its) (x +:+ t) cur gs
| im_plus k its x t cur gs :
    many_of k x → item_match its t (cur +:+ x) gs →
    item_match (Plus k :: its) (x +:+ t) cur gs
| im_open its t cur gs : item_match its t "" gs → item_match (Open :: its) t cur gs
| im_close its t cur gs : item_match its t cur gs → item_match (Close :: its) t cur (cur :: gs).

Definition pattern_match (p : Pattern) (s : string) (gs : list string) : Prop :=
  ∃ pre t post, s = pre +:+ t +:+ post ∧ item_match (items p) t "" gs ∧
    (at_start p = true → pre = "") ∧ (at_end p = true → post = "").

Lemma item_match_lits l its t cur gs :
  item_match (lits l ++ its) t cur gs ↔
    ∃ t', t = l +:+ t' ∧ item_match its t' (cur +:+ l) gs.
Proof.
  revert t cur. induction l as [|c l IH]; intros t cur; simpl.
  - rw sapp_nil_r. split; [eauto|]. by intros (t' & -> & ?).
  - split.
    + intros Hm. inversion Hm as [|c0 i0 t0 cur0 gs0 H| | | |]; subst. apply IH in H as (t' & -> & H).
      rw sapp_assoc in H. exists t'. done.
    + intros (t' & -> & H). constructor. apply IH. exists t'.
      rw sapp_assoc. done.
Qed.
End meaning.

Create HintDb regex discriminated.
#[export] Hint Constructors one_of many_of item_match : regex.

(** ** The engine the program uses *)

Class RegexEngine := { captures : Pattern → string → option (list string) }.

Class RegexLaws {R : RegexEngine} (unicode_digit : string → Prop) : Prop := {
  captures_sound p s gs :
    valid_utf8 s = true → captures p s = Some gs → pattern_match unicode_digit p s gs;
  captures_complete p s gs :
    valid_utf8 s = true → pattern_match unicode_digit p s gs → is_Some (captures p s);
(** The other digits are outside ASCII. *)
unicode_digit_not_ascii d c :
  unicode_digit d → str_has c d = true → byte_in 0 127 c = false;
}.

Definition is_match {R : RegexEngine} (p : Pattern) (s : string) : bool :=
  match captures p s with Some _ => true | None => false end.

(** ** An executable engine: leftmost match, greedy repetition, backtracking *)

Fixpoint bt_items (its : list item) (fin : bool) (s cur : string) : option (list string) :=
  match its with
  | [] => match fin, s with true, String _ _ => None | _, _ => Some [] end
  | Lit a :: its' =>
      match s with
      | String b s' => if Ascii.eqb a b then bt_items its' fin s' (cur +:+ String b "") else None
      | "" => None
      end
  | One k :: its' =>
      match s with
      | String b s' => if byte_of_cls k b then bt_items its' fin s' (cur +:+ String b "") else None
      | "" => None
      end
  | Plus k :: its' =>
      (fix plus s cur {struct s} :=
         match s with
         | String b s' =>
             if byte_of_cls k b then
               match plus s' (cur +:+ String b "") with
               | Some r => Some r
               | None => bt_items its' fin s' (cur +:+ String b "")
               end
             else None
         | "" => None
         end) s cur
  | Open :: its' => bt_items its' fin s ""
  | Close :: its' => cons cur <$> bt_items its' fin s cur
  end.

Fixpoint bt_search (its : list item) (fin : bool) (s : string) : option (list string) :=
  match bt_items its fin s "" with
  | Some gs => Some gs
  | None => match s with String _ s' => bt_search its fin s' | "" => None end
  end.

Definition bt_captures (p : Pattern) (s : string) : option (list string) :=
  if at_start p then bt_items (items p) (at_end p) s "" else bt_search (items p) (at_end p) s.

Definition backtrack : RegexEngine := {| captures := bt_captures |}.

Definition no_digit (_ : string) : Prop := False.

Lemma bt_items_sound its fin s cur gs :
  bt_items its fin s cur = Some gs →
  ∃ t post, s = t +:+ post ∧ item_match no_digit its t cur gs ∧ (fin = true → post = "").
Proof.
  revert s cur gs. induction its as [|i its IH]; intros s cur gs; simpl.
  { intros H. exists "", s. destruct fin, s; naive_solver (eauto with regex). }
  destruct i as [a|k|k| |].
  - destruct s as [|b s]; [done|]. destruct (Ascii.eqb_spec a b) as [->|]; [|done].
    intros (t & post & -> & H & ?)%IH. exists (String b t), post. eauto with regex.
  - destruct s as [|b s]; [done|]. destruct (byte_of_cls k b) eqn:Hb; [|done].
    intros (t & post & -> & H & ?)%IH. exists (String b "" +:+ t), post. eauto with regex.
  - revert cur gs. induction s as [|b s IHs]; intros cur gs; [done|].
    destruct (byte_of_cls k b) eqn:Hb; [|done].
    match goal with |- match ?x with _ => _ end = _ → _ => destruct x as [r|] eqn:Hr end.
    + intros [= <-]. apply IHs in Hr as (t & post & -> & H & ?).
      inversion H as [| | |k0 i0 x t0 cur0 gs0 Hx H'| |]; subst. exists ((String b "" +:+ x) +:+ t0), post.
      rw !sapp_assoc in H' |- *. split; [done|]. split; [|done].
      rw -sapp_assoc. eauto with regex.
    + intros (t & post & -> & H & ?)%IH. exists (String b "" +:+ t), post. eauto 6 with regex.
  - intros (t & post & -> & H & ?)%IH. exists t, post. eauto with regex.
  - destruct (bt_items its fin s cur) as [r|] eqn:Hr; [|done]. intros [= <-].
    apply IH in Hr as (t & post & -> & H & ?). exists t, post. eauto with regex.
Qed.

(** With bytes only, a repetition is a non-empty run of the class. *)
Lemma many_of_bytes k x :
  many_of no_digit k x → x ≠ "" ∧ str_all (byte_of_cls k) x = true.
Proof.
  assert (∀ x, one_of no_digit k x → x ≠ "" ∧ str_all (byte_of_cls k) x = true) as H1.
  { intros x' H. inversion H as [k0 c Hc|d Hd]; subst; [simpl; by rw Hc|by destruct Hd]. }
  induction 1 as [x H|x y H _ [_ IH]]; [auto|]. destruct (H1 _ H) as [? ?].
  split; [by destruct x|]. by rw str_all_app IH andb_true_r.
Qed.

Lemma bt_items_complete its fin t post cur gs :
  item_match no_digit its t cur gs → (fin = true → post = "") →
  is_Some (bt_items its fin (t +:+ post) cur).
Proof.
  revert t post cur gs. induction its as [|i its IH]; intros t post cur gs Hm Hfin.
  { inversion Hm; subst. simpl. destruct fin; [rw Hfin //|]; eauto. }
  inversion Hm as [|c i0 t0 cur0 gs0 H|k i0 x t0 cur0 gs0 Hx H|k i0 x t0 cur0 gs0 Hx H
    |i0 t0 cur0 gs0 H|i0 t0 cur0 gs0 H]; subst; simpl.
  - rw Ascii.eqb_refl. eauto.
  - inversion Hx as [k0 c Hc|d Hd]; subst; [|by destruct Hd]. simpl. rw Hc. eauto.
  - apply many_of_bytes in Hx as [Hne Hall]. rw sapp_assoc. clear Hm.
    revert cur H. induction x as [|b x IHx]; [done|]. intros cur H. simpl in *.
    apply andb_true_iff in Hall as [Hb Hall]. rw Hb.
    match goal with |- is_Some (match ?y with _ => _ end) => destruct y as [r|] eqn:Hr; [eauto|] end.
    destruct x as [|b' x]; [eapply (IH t0); [exact H|done]|].
    destruct (IHx ltac:(discriminate) Hall (cur +:+ String b "")) as [r Hr'].
    { by rw sapp_assoc. }
    congruence.
  - eauto.
  - apply fmap_is_Some. eauto.
Qed.

Lemma bt_search_sound its fin s gs :
  bt_search its fin s = Some gs →
  ∃ pre t post, s = pre +:+ t +:+ post ∧ item_match no_digit its t "" gs ∧
    (fin = true → post = "").
Proof.
  revert gs. induction s as [|c s IH]; intros gs; simpl;
    destruct (bt_items its fin _ "") as [r|] eqn:Hr; try done.
  1, 2: intros [= <-]; apply bt_items_sound in Hr as (t & post & ? & ?);
    exists "", t, post; done.
  intros (pre & t & post & -> & ?)%IH. by exists (String c pre), t, post.
Qed.

Lemma bt_search_complete its fin pre t post gs :
  item_match no_digit its t "" gs → (fin = true → post = "") →
  is_Some (bt_search its fin (pre +:+ t +:+ post)).
Proof.
  intros Hm Hfin. induction pre as [|c pre IH].
  - destruct (bt_items_complete its fin t post "" gs) as [r Hr]; [done..|].
    simpl. destruct (t +:+ post); simpl; rw Hr; eauto.
  - simpl. destruct (bt_items its fin _ ""); eauto.
Qed.

(** [backtrack] is a regex engine. *)
#[export] Instance backtrack_laws : @RegexLaws backtrack no_digit.
Proof.
  split.
  - intros p s gs _. unfold captures; simpl. unfold bt_captures, pattern_match.
    destruct (at_start p).
    + intros (t & post & ? & ? & ?)%bt_items_sound. by exists "", t, post.
    + intros (pre & t & post & ? & ? & ?)%bt_search_sound. by exists pre, t, post.
  - intros p s gs _ (pre & t & post & -> & Hm & Hs & He). unfold captures; simpl.
    unfold bt_captures. destruct (at_start p).
    + rw (Hs eq_refl). simpl. by eapply bt_items_complete.
    + by eapply bt_search_complete.
  - by intros d c [].
Qed.
