(* ===== verification/Schema.v ===== *)
(** * Schema: the data of src/src/schema.rs

    The messages of the WebSocket API between the agent and the management
    server, and the enumerations parsed from text by strum's derived
    [FromStr] / [AsRef<str>] / [Display]. *)

From S2P Require Import Prelude Text.

(** ** Messages *)

Definition OperationId := string.

Inductive ServerStartSaveFile := Latest | Specific (name : string).

Inductive Dlc := Base | ElevatedRails | Quality | SpaceAge.

Record ModObject := MkModObject { mo_name : string; mo_version : string }.

Record RconConfig := MkRconConfig { rc_port : Z; rc_password : string }.

Record SecretsObject := MkSecretsObject { so_username : string; so_token : option string }.

Record WhitelistObject := MkWhitelistObject { wo_enabled : bool; wo_users : list string }.

Record Save := MkSave { save_name : string; save_last_modified : Z }.

Record SaveBytes := MkSaveBytes {
  multipart_start : option Z;
  sb_bytes : bytes;
}.

(** [SaveBytes::new], [SaveBytes::sentinel] and [SaveBytes::is_sentinel]. *)
Definition SaveBytes_new (b : bytes) : SaveBytes := MkSaveBytes None b.
Definition sentinel (total_length : Z) : SaveBytes := MkSaveBytes (Some total_length) [].
Definition is_sentinel (sb : SaveBytes) : bool := (length (sb_bytes sb) =? 0)%nat.

Record ServerVisibilityConfig := MkVisibility { vis_public : bool; vis_lan : bool }.

Inductive AllowCommandsValue := AllowTrue | AllowFalse | AdminsOnly.

Record ServerSettingsConfig := MkServerSettingsConfig {
  cfg_name : string;
  description : string;
  tags : list string;
  visibility : ServerVisibilityConfig;
  autosave_interval : Z;
  autosave_only_on_server : bool;
  non_blocking_saving : bool;
  cfg_username : option string;
  cfg_token : option string;
  game_password : string;
  require_user_verification : bool;
  max_players : Z;
  ignore_player_limit_for_returning_players : bool;
  allow_commands : AllowCommandsValue;
  only_admins_can_pause_the_game : bool;
  max_upload_in_kilobytes_per_second : Z;
  max_upload_slots : Z;
  minimum_latency_in_ticks : Z;
  max_heartbeats_per_second : Z;
  minimum_segment_size : Z;
  minimum_segment_size_peer_count : Z;
  maximum_segment_size : Z;
  maximum_segment_size_peer_count : Z;
}.

(** [config.username = u; config.token = t] *)
Definition set_credentials (u t : option string) (c : ServerSettingsConfig) :
    ServerSettingsConfig :=
  {| cfg_name := cfg_name c; description := description c; tags := tags c;
     visibility := visibility c; autosave_interval := autosave_interval c;
     autosave_only_on_server := autosave_only_on_server c;
     non_blocking_saving := non_blocking_saving c;
     cfg_username := u; cfg_token := t;
     game_password := game_password c;
     require_user_verification := require_user_verification c;
     max_players := max_players c;
     ignore_player_limit_for_returning_players :=
       ignore_player_limit_for_returning_players c;
     allow_commands := allow_commands c;
     only_admins_can_pause_the_game := only_admins_can_pause_the_game c;
     max_upload_in_kilobytes_per_second := max_upload_in_kilobytes_per_second c;
     max_upload_slots := max_upload_slots c;
     minimum_latency_in_ticks := minimum_latency_in_ticks c;
     max_heartbeats_per_second := max_heartbeats_per_second c;
     minimum_segment_size := minimum_segment_size c;
     minimum_segment_size_peer_count := minimum_segment_size_peer_count c;
     maximum_segment_size := maximum_segment_size c;
     maximum_segment_size_peer_count := maximum_segment_size_peer_count c |}.

Inductive AgentRequest :=
| BuildVersion
| SystemResources
| VersionInstall (version : string) (force_install : bool)
| VersionGet
| ServerStart (savefile : ServerStartSaveFile)
| ServerStop
| ServerStatus
| SaveCreate (name : string) (map_gen_settings map_settings : option string)
| SaveDelete (name : string)
| SaveGet (name : string)
| SaveList
| SaveSet (name : string) (savebytes : SaveBytes)
| ModDlcsGet
| ModDlcsSet (dlcs : list Dlc)
| ModListGet
| ModListExtractFromSave (name : string)
| ModListSet (mods : list ModObject)
| ModSettingsGet
| ModSettingsSet (ms_bytes : bytes)
| ConfigAdminListGet
| ConfigAdminListSet (admins : list string)
| ConfigBanListGet
| ConfigBanListSet (users : list string)
| ConfigRconGet
| ConfigRconSet (password : string)
| ConfigSecretsGet
| ConfigSecretsSet (username token : string)
| ConfigServerSettingsGet
| ConfigServerSettingsSet (config : ServerSettingsConfig)
| ConfigWhiteListGet
| ConfigWhiteListSet (enabled : bool) (users : list string)
| RconCommand (cmd : string).

Record AgentRequestWithId := MkRequest {
  rq_operation_id : OperationId;
  rq_message : AgentRequest;
}.

Inductive OperationStatus := Ack | Ongoing | Completed | Failed.

(** The status a client sees ([schema::ServerStatus]). *)
Inductive ServerStatusView :=
| NotRunning
| PreGame
| InGame (player_count : Z)
| PostGame.

Record BuildVersionInfo := MkBuildVersion { bv_timestamp : string; bv_commit_hash : string }.

(** CPU usages are [f32]: their bit patterns are kept as integers. *)
Record SystemResourcesInfo := MkSystemResources {
  cpu_total : Z;
  cpus : list Z;
  mem_total_bytes : Z;
  mem_used_bytes : Z;
}.

Inductive AgentOutMessage :=
| OMessage (s : string)
| OError (s : string)
| OOk
| OAgentBuildVersion (v : BuildVersionInfo)
| OConflictingOperation
| OConfigAdminList (l : list string)
| OConfigBanList (l : list string)
| OConfigWhiteList (wl : WhitelistObject)
| OConfigRcon (rc : RconConfig)
| OConfigSecrets (s : option SecretsObject)
| OConfigServerSettings (c : ServerSettingsConfig)
| ODlcList (l : list Dlc)
| OFactorioVersion (v : string)
| OModsList (l : list ModObject)
| OModSettings (b : option bytes)
| OMissingSecrets
| ONotInstalled
| ORconResponse (s : string)
| OSaveFile (sb : SaveBytes)
| OSaveList (l : list Save)
| OSaveNotFound
| OServerStatus (s : ServerStatusView)
| OSystemResources (s : SystemResourcesInfo).

Record AgentResponseWithId := MkResponse {
  rs_operation_id : OperationId;
  rs_status : OperationStatus;
  rs_timestamp : Z;
  rs_content : AgentOutMessage;
}.

(** [AgentStreamingMessage] with its one content, [ServerStdout]. *)
Record AgentStreamingMessage := MkStreaming {
  sm_timestamp : Z;
  sm_server_stdout : string;
}.

#[export] Instance Dlc_eq : EqDecision Dlc.
Proof. solve_decision. Defined.
#[export] Instance Dlc_countable : Countable Dlc.
Proof.
  refine (inj_countable'
    (λ d, match d with Base => 0 | ElevatedRails => 1 | Quality => 2 | SpaceAge => 3 end)%nat
    (λ n, match n with 0 => Base | 1 => ElevatedRails | 2 => Quality | _ => SpaceAge end)%nat _).
  by intros [].
Defined.
#[export] Instance OperationStatus_eq : EqDecision OperationStatus.
Proof. solve_decision. Defined.
#[export] Instance ServerVisibilityConfig_eq : EqDecision ServerVisibilityConfig.
Proof. solve_decision. Defined.
#[export] Instance AllowCommandsValue_eq : EqDecision AllowCommandsValue.
Proof. solve_decision. Defined.
#[export] Instance ServerSettingsConfig_eq : EqDecision ServerSettingsConfig.
Proof. solve_decision. Defined.
#[export] Instance ServerStartSaveFile_eq : EqDecision ServerStartSaveFile.
Proof. solve_decision. Defined.
#[export] Instance ModObject_eq : EqDecision ModObject.
Proof. solve_decision. Defined.
#[export] Instance RconConfig_eq : EqDecision RconConfig.
Proof. solve_decision. Defined.
#[export] Instance SecretsObject_eq : EqDecision SecretsObject.
Proof. solve_decision. Defined.
#[export] Instance WhitelistObject_eq : EqDecision WhitelistObject.
Proof. solve_decision. Defined.
#[export] Instance Save_eq : EqDecision Save.
Proof. solve_decision. Defined.
#[export] Instance SaveBytes_eq : EqDecision SaveBytes.
Proof. solve_decision. Defined.
#[export] Instance ServerStatusView_eq : EqDecision ServerStatusView.
Proof. solve_decision. Defined.
#[export] Instance BuildVersionInfo_eq : EqDecision BuildVersionInfo.
Proof. solve_decision. Defined.
#[export] Instance SystemResourcesInfo_eq : EqDecision SystemResourcesInfo.
Proof. solve_decision. Defined.
#[export] Instance AgentOutMessage_eq : EqDecision AgentOutMessage.
Proof. solve_decision. Defined.
#[export] Instance AgentResponseWithId_eq : EqDecision AgentResponseWithId.
Proof. solve_decision. Defined.

#[export] Instance AgentRequest_eq : EqDecision AgentRequest.
Proof. solve_decision. Defined.
#[export] Instance AgentRequestWithId_eq : EqDecision AgentRequestWithId.
Proof. solve_decision. Defined.
#[export] Instance AgentStreamingMessage_eq : EqDecision AgentStreamingMessage.
Proof. solve_decision. Defined.

(** ** Dlc: [Display] and [FromStr] with the strum names *)

Definition Dlc_to_string (d : Dlc) : string :=
  match d with
  | Base => "base"
  | ElevatedRails => "elevated-rails"
  | Quality => "quality"
  | SpaceAge => "space-age"
  end.

Definition Dlc_from_str (s : string) : option Dlc :=
  if decide (s = "base") then Some Base
  else if decide (s = "elevated-rails") then Some ElevatedRails
  else if decide (s = "quality") then Some Quality
  else if decide (s = "space-age") then Some SpaceAge
  else None.

Lemma Dlc_from_str_Some s d : Dlc_from_str s = Some d ↔ s = Dlc_to_string d.
Proof.
  unfold Dlc_from_str. split.
  - repeat case_decide; naive_solver.
  - intros ->. by destruct d.
Qed.

(** ** InternalServerState: the state Factorio logs *)

Inductive InternalServerState :=
| Ready
| PreparedToHostGame
| CreatingGame
| StInGame
| InGameSavingMap
| DisconnectingScheduled
| Disconnecting
| Disconnected
| Closed.

#[export] Instance InternalServerState_eq : EqDecision InternalServerState.
Proof. solve_decision. Defined.

Definition all_states : list InternalServerState :=
  [Ready; PreparedToHostGame; CreatingGame; StInGame; InGameSavingMap;
   DisconnectingScheduled; Disconnecting; Disconnected; Closed].

(** [AsRef<str>] *)
Definition state_as_ref (s : InternalServerState) : string :=
  match s with
  | Ready => "Ready"
  | PreparedToHostGame => "PreparedToHostGame"
  | CreatingGame => "CreatingGame"
  | StInGame => "InGame"
  | InGameSavingMap => "InGameSavingMap"
  | DisconnectingScheduled => "DisconnectingScheduled"
  | Disconnecting => "Disconnecting"
  | Disconnected => "Disconnected"
  | Closed => "Closed"
  end.

(** [FromStr]: the variant whose name is the string. *)
Definition state_from_str (s : string) : option InternalServerState :=
  list_find (λ st, state_as_ref st = s) all_states ≫= λ p, Some p.2.

Lemma state_from_str_Some s st : state_from_str s = Some st ↔ s = state_as_ref st.
Proof.
  unfold state_from_str. split.
  - intros ([i st'] & H & [= <-])%bind_Some. by apply list_find_Some in H as (_ & <- & _).
  - intros ->. by destruct st.
Qed.

(** A state name is made of letters. *)
Lemma state_as_ref_no_space st : str_has " " (state_as_ref st) = false.
Proof. by destruct st. Qed.
