(* ===== verification/Io.v ===== *)
(** * Io: paths and the file system

    The part of [std::path] and of the file system the program uses, as
    [tokio::fs] offers it.  The state is a map from resolved paths to nodes.
    What the outside world decides is an oracle, indexed by the number of
    calls made so far: whether the call fails and with which error, what a
    failed write or removal leaves behind, and the time.  A theorem that holds for
    every oracle holds for every pattern of failures. *)

From S2P Require Import Prelude Text.

(** ** Paths *)

Inductive comp := RootDir | ParentDir | Normal (s : string).
Abbreviation path := (list comp).

#[export] Instance comp_eq : EqDecision comp.
Proof. solve_decision. Defined.
#[export] Instance comp_countable : Countable comp.
Proof.
  refine (inj_countable'
    (λ c, match c with RootDir => inl true | ParentDir => inl false | Normal s => inr s end)
    (λ x, match x with inl true => RootDir | inl false => ParentDir | inr s => Normal s end) _).
  by intros [].
Defined.

(** The pieces of a string between the [/]s. *)
Fixpoint split_slash (s cur : string) : list string :=
  match s with
  | "" => [cur]
  | String c s' => if Ascii.eqb c "/" then cur :: split_slash s' ""
                   else split_slash s' (cur +:+ String c "")
  end.

Definition comp_of (s : string) : list comp :=
  if decide (s = "" ∨ s = ".") then []
  else if decide (s = "..") then [ParentDir] else [Normal s].

(** [Path::new(s)]: repeated separators and [.] are dropped. *)
Definition parse_path (s : string) : path :=
  (match s with String "/" _ => [RootDir] | _ => [] end) ++ (split_slash s "" ≫= comp_of).

(** [Path::join]: an absolute argument replaces the path. *)
Definition join (p : path) (s : string) : path :=
  match parse_path s with
  | RootDir :: q => RootDir :: q
  | q => p ++ q
  end.

(** The directory a path names, with [..] followed (there are no symbolic
    links in the model). *)
Fixpoint resolve_go (acc : list comp) (p : path) : path :=
  match p with
  | [] => reverse acc
  | Normal s :: p' => resolve_go (Normal s :: acc) p'
  | RootDir :: p' => resolve_go [RootDir] p'
  | ParentDir :: p' =>
      match acc with
      | Normal _ :: acc' => resolve_go acc' p'
      | [RootDir] => resolve_go [RootDir] p'
      | _ => resolve_go (ParentDir :: acc) p'
      end
  end.
Definition resolve (p : path) : path := resolve_go [] p.

(** The working directory, its ancestors and the root. *)
Definition is_base (q : path) : bool :=
  match q with
  | [RootDir] => true
  | _ => forallb (λ c, match c with ParentDir => true | _ => false end) q
  end.

(** [Path::parent]. *)
Definition parent (p : path) : option path :=
  match p with
  | [] | [RootDir] => None
  | _ => Some (removelast p)
  end.

(** The last component when it is a name ([Path::file_name]). *)
Definition file_name (p : path) : option string :=
  match last p with Some (Normal s) => Some s | _ => None end.

(** [str::rsplit_once('.')]: what is before and after the last dot. *)
Fixpoint rsplit_dot (s : string) : option (string * string) :=
  match s with
  | "" => None
  | String c s' =>
      match rsplit_dot s' with
      | Some (a, b) => Some (String c a, b)
      | None => if Ascii.eqb c "." then Some ("", s') else None
      end
  end.

(** [Path::extension] and [Path::file_stem]: a name with no dot, or whose
    only dot is the first character, has no extension. *)
Definition extension (p : path) : option string :=
  match file_name p with
  | Some n => match rsplit_dot n with
              | Some ("", _) | None => None
              | Some (_, e) => Some e
              end
  | None => None
  end.
Definition file_stem (p : path) : option string :=
  match file_name p with
  | Some n => match rsplit_dot n with
              | Some ("", _) | None => Some n
              | Some (a, _) => Some a
              end
  | None => None
  end.

(** ** The file system *)

Inductive IoErrorKind :=
| NotFound | PermissionDenied | AlreadyExists | InvalidInput | InvalidData
| BrokenPipe | NotADirectory | IsADirectory | OtherIo.

#[export] Instance IoErrorKind_eq : EqDecision IoErrorKind.
Proof. solve_decision. Defined.

Record file := MkFile {
  f_bytes : bytes;
  f_modified : Z;
  f_created : option Z;   (** not every file system has it *)
}.
Inductive node := Dir | File (f : file).

#[export] Instance file_eq : EqDecision file.
Proof. solve_decision. Defined.
#[export] Instance node_eq : EqDecision node.
Proof. solve_decision. Defined.

Abbreviation fs := (gmap path node).

Class IoEnv := {
  io_fault : nat → option IoErrorKind;
  io_torn : nat → option bytes;
  io_left : nat → path → bool;
  io_now : nat → Z;
  io_dir_modified : nat → Z;
}.

Definition no_faults {E : IoEnv} : Prop := ∀ n, io_fault n = None.

Record IoW := MkIo { files : fs; tick : nat }.

(** What is at a resolved path, and at any path. *)
Definition node_of (m : fs) (q : path) : option node :=
  if is_base q then Some Dir else m !! q.
Definition node_at (m : fs) (p : path) : option node := node_of m (resolve p).

Section ops.
Context {E : IoEnv}.

(** One call: it may fail, or else acts on the files at the current time. *)
Definition io_op {A : Type} (f : Z → fs → result IoErrorKind A * fs) :
    ST IoW (result IoErrorKind A) := λ w,
  match io_fault (tick w) with
  | Some k => (Err k, MkIo (files w) (S (tick w)))
  | None => let r := f (io_now (tick w)) (files w) in (r.1, MkIo r.2 (S (tick w)))
  end.

(** [Utc::now()] / [SystemTime::now()] *)
Definition now : ST IoW Z := λ w, (io_now (tick w), MkIo (files w) (S (tick w))).

Definition io_err {A : Type} (k : IoErrorKind) (m : fs) : result IoErrorKind A * fs := (Err k, m).

(** [fs::read], [fs::read_to_string] *)
Definition pure_read (p : path) (m : fs) : result IoErrorKind bytes :=
  match node_at m p with
  | Some (File f) => Ok (f_bytes f)
  | Some Dir => Err IsADirectory
  | None => Err NotFound
  end.
Definition fs_read (p : path) : ST IoW (result IoErrorKind bytes) :=
  io_op (λ _ m, (pure_read p m, m)).

Definition pure_read_to_string (p : path) (m : fs) : result IoErrorKind string :=
  match pure_read p m with
  | Ok b => if valid_utf8 (string_of b) then Ok (string_of b) else Err InvalidData
  | Err k => Err k
  end.
Definition fs_read_to_string (p : path) : ST IoW (result IoErrorKind string) :=
  io_op (λ _ m, (pure_read_to_string p m, m)).

(** [fs::write]: creates or truncates, in an existing directory. *)
Definition pure_write (p : path) (b : bytes) (t : Z) (m : fs) : result IoErrorKind () * fs :=
  let q := resolve p in
  match node_of m q with
  | Some Dir => io_err IsADirectory m
  | Some (File f) => (Ok (), <[q := File (MkFile b t (f_created f))]> m)
  | None =>
      match node_of m (removelast q) with
      | Some Dir => (Ok (), <[q := File (MkFile b t (Some t))]> m)
      | Some (File _) => io_err NotADirectory m
      | None => io_err NotFound m
      end
  end.
Definition fs_write (p : path) (b : bytes) : ST IoW (result IoErrorKind ()) := λ w,
  match io_fault (tick w), io_torn (tick w) with
  | Some k, Some b' =>
      (Err k, MkIo (pure_write p b' (io_now (tick w)) (files w)).2 (S (tick w)))
  | _, _ => io_op (pure_write p b) w
  end.

(** [fs::create_dir_all]: every missing prefix becomes a directory. *)
Fixpoint mkdirs (pre rest : path) (m : fs) : result IoErrorKind () * fs :=
  match rest with
  | [] => (Ok (), m)
  | c :: rest' =>
      let q := pre ++ [c] in
      match node_of m q with
      | Some Dir => mkdirs q rest' m
      | Some (File _) => io_err NotADirectory m
      | None => mkdirs q rest' (<[q := Dir]> m)
      end
  end.
Definition pure_create_dir_all (p : path) (m : fs) : result IoErrorKind () * fs :=
  mkdirs [] (resolve p) m.
(** A failed call may have made some of them. *)
Definition fs_create_dir_all (p : path) : ST IoW (result IoErrorKind ()) := λ w,
  match io_fault (tick w), io_torn (tick w) with
  | Some k, Some b =>
      (Err k, MkIo (mkdirs [] (take (length b) (resolve p)) (files w)).2 (S (tick w)))
  | _, _ => io_op (λ _ m, pure_create_dir_all p m) w
  end.

(** [fs::remove_file], [fs::remove_dir_all] *)
Definition pure_remove_file (p : path) (m : fs) : result IoErrorKind () * fs :=
  match node_at m p with
  | Some (File _) => (Ok (), delete (resolve p) m)
  | Some Dir => io_err IsADirectory m
  | None => io_err NotFound m
  end.
Definition fs_remove_file (p : path) : ST IoW (result IoErrorKind ()) :=
  io_op (λ _ m, pure_remove_file p m).

Definition under (q k : path) : bool := bool_decide (take (length q) k = q).
Definition remove_where (g : path → bool) (m : fs) : fs := filter (λ kv, g kv.1 = false) m.
Definition pure_remove_dir_all (p : path) (m : fs) : result IoErrorKind () * fs :=
  match node_at m p with
  | Some Dir => (Ok (), remove_where (under (resolve p)) m)
  | Some (File _) => io_err NotADirectory m
  | None => io_err NotFound m
  end.
(** A failed call may have removed a part of the tree. *)
Definition fs_remove_dir_all (p : path) : ST IoW (result IoErrorKind ()) := λ w,
  match io_fault (tick w) with
  | Some k =>
      (Err k, MkIo (remove_where (λ q, under (resolve p) q && negb (io_left (tick w) q))
                      (files w)) (S (tick w)))
  | None => io_op (λ _ m, pure_remove_dir_all p m) w
  end.

(** [Path::is_file], [Path::is_dir]: an error counts as [false]. *)
Definition is_file_node (n : option node) : bool :=
  match n with Some (File _) => true | _ => false end.
Definition is_dir_node (n : option node) : bool :=
  match n with Some Dir => true | _ => false end.
Definition io_bool (f : fs → bool) : ST IoW bool :=
  st_bind (io_op (λ _ m, (Ok (f m), m)))
    (λ r, st_ret (match r with Ok b => b | Err _ => false end)).
Definition is_file (p : path) : ST IoW bool := io_bool (λ m, is_file_node (node_at m p)).
Definition is_dir (p : path) : ST IoW bool := io_bool (λ m, is_dir_node (node_at m p)).

(** [fs::read_dir]: the names in a directory, and one call per entry. *)
Definition child_name (q k : path) : option string :=
  match drop (length q) k with
  | [Normal s] => if under q k then Some s else None
  | _ => None
  end.
Definition children (q : path) (m : fs) : list string :=
  omap (λ kv, child_name q kv.1) (map_to_list m).
Definition pure_read_dir (p : path) (m : fs) : result IoErrorKind (list string) :=
  match node_at m p with
  | Some Dir => Ok (children (resolve p) m)
  | Some (File _) => Err NotADirectory
  | None => Err NotFound
  end.
Definition fs_read_dir (p : path) : ST IoW (result IoErrorKind (list string)) :=
  io_op (λ _ m, (pure_read_dir p m, m)).
Definition next_entry : ST IoW (result IoErrorKind ()) := io_op (λ _ m, (Ok (), m)).

(** [fs::metadata] and [Metadata::modified], [Metadata::created]. *)
Record metadata := MkMetadata { md_modified : Z; md_created : option Z }.
Definition fs_metadata (p : path) : ST IoW (result IoErrorKind metadata) := λ w,
  io_op (λ _ m,
    (match node_at m p with
     | Some (File f) => Ok (MkMetadata (f_modified f) (f_created f))
     | Some Dir => Ok (MkMetadata (io_dir_modified (tick w)) None)
     | None => Err NotFound
     end, m)) w.

(** [OpenOptions::new().write(true).create(true).open(p)] *)
Definition fs_open_create (p : path) : ST IoW (result IoErrorKind ()) :=
  io_op (λ t m,
    match node_at m p with
    | Some (File _) => (Ok (), m)
    | _ => pure_write p [] t m
    end).

(** Change the bytes of the open file; it was unlinked if it is not there. *)
Definition update_bytes (g : bytes → bytes) (p : path) (t : Z) (m : fs) : fs :=
  match node_at m p with
  | Some (File f) => <[resolve p := File (MkFile (g (f_bytes f)) t (f_created f))]> m
  | _ => m
  end.

(** [File::set_len]: cut, or extend with zero bytes. *)
Definition resize_bytes (n : nat) (b : bytes) : bytes :=
  take n b ++ replicate (n - length b) "000"%char.
Definition file_set_len (p : path) (n : Z) : ST IoW (result IoErrorKind ()) :=
  io_op (λ t m, (Ok (), update_bytes (resize_bytes (Z.to_nat n)) p t m)).

(** [File::seek] to [off] then [File::write_all]: a gap is zero bytes.  A
    failed [write_all] may have written a prefix. *)
Definition splice (off : nat) (d b : bytes) : bytes :=
  resize_bytes off b ++ d ++ drop (off + length d) b.
Definition file_seek : ST IoW (result IoErrorKind ()) := io_op (λ _ m, (Ok (), m)).
Definition file_write_all (p : path) (off : Z) (d : bytes) :
    ST IoW (result IoErrorKind ()) := λ w,
  match io_fault (tick w) with
  | Some k =>
      let n := match io_torn (tick w) with Some b => length b | None => O end in
      (Err k, MkIo (update_bytes (splice (Z.to_nat off) (take n d)) p
                      (io_now (tick w)) (files w)) (S (tick w)))
  | None => io_op (λ t m, (Ok (), update_bytes (splice (Z.to_nat off) d) p t m)) w
  end.
Definition file_flush : ST IoW (result IoErrorKind ()) := io_op (λ _ m, (Ok (), m)).
End ops.

(** ** What the calls do *)

Section facts.
Context {E : IoEnv}.
Implicit Types (m : fs) (p q : path) (w : IoW).

Lemma node_of_insert m q n q' :
  is_base q = false →
  node_of (<[q := n]> m) q' = if decide (q = q') then Some n else node_of m q'.
Proof.
  intros Hq. unfold node_of. case_decide as H; subst.
  - by rw Hq lookup_insert_eq.
  - by rw lookup_insert_ne.
Qed.

(** Rules for one call: with any oracle, and when nothing fails. *)
Lemma wp_io_op {A : Type} (f : Z → fs → result IoErrorKind A * fs) Q w :
  (∀ k, io_fault (tick w) = Some k → Q (Err k) (MkIo (files w) (S (tick w)))) →
  (let r := f (io_now (tick w)) (files w) in Q r.1 (MkIo r.2 (S (tick w)))) →
  wp (io_op f) Q w.
Proof. unfold wp, io_op. destruct (io_fault _); eauto. Qed.

Lemma wp_io_bool f Q w :
  (∀ b, (b = true → f (files w) = true) → (no_faults → b = f (files w)) →
     Q b (MkIo (files w) (S (tick w)))) →
  wp (io_bool f) Q w.
Proof.
  intros H. unfold io_bool. st_go. apply wp_io_op; cbn.
  - intros k Hk. st_go. apply H; [done|]. intros Hn. by rw (Hn (tick w)) in Hk.
  - st_go. by apply H.
Qed.

Lemma pure_read_at p m f : node_at m p = Some (File f) → pure_read p m = Ok (f_bytes f).
Proof. unfold pure_read. by intros ->. Qed.

(** A successful write is what a later read returns; nothing else changes. *)
Lemma pure_write_spec p b t m m' :
  pure_write p b t m = (Ok (), m') →
  ∃ c, m' = <[resolve p := File (MkFile b t c)]> m ∧ is_base (resolve p) = false.
Proof.
  unfold pure_write, io_err, node_of.
  destruct (is_base (resolve p)); [done|].
  destruct (m !! resolve p) as [[|f]|]; [done|naive_solver|].
  destruct (is_base _); [naive_solver|]. destruct (m !! _) as [[]|]; naive_solver.
Qed.

Lemma pure_write_err p b t m r m' :
  pure_write p b t m = (Err r, m') → m' = m.
Proof. unfold pure_write, io_err. repeat case_match; naive_solver. Qed.

(** A write only changes the path written to, whether or not it fails. *)
Lemma wp_fs_write p b Q w :
  (∀ w', (∀ q, q ≠ resolve p → node_of (files w') q = node_of (files w) q) →
     ∀ k, (no_faults → (pure_write p b (io_now (tick w)) (files w)).1 = Err k) → Q (Err k) w') →
  (∀ t c w', files w' = <[resolve p := File (MkFile b t c)]> (files w) →
     is_base (resolve p) = false → Q (Ok ()) w') →
  wp (fs_write p b) Q w.
Proof.
  intros Herr Hok. unfold wp, fs_write, io_op.
  destruct (io_fault (tick w)) as [k|] eqn:Hf.
  - assert (¬ no_faults) as Hn by (intros Hn; by rw (Hn (tick w)) in Hf).
    destruct (io_torn (tick w)) as [b'|]; cbn; apply Herr; try done.
    intros q Hq. cbn. destruct (pure_write p b' _ _) as [[[]|r] m'] eqn:Hw; cbn.
    + apply pure_write_spec in Hw as (c & -> & Hb). rw node_of_insert //.
      by rw decide_False.
    + by apply pure_write_err in Hw as ->.
  - destruct (pure_write p b _ _) as [[[]|r] m'] eqn:Hw; cbn.
    + apply pure_write_spec in Hw as (c & -> & Hb). by eapply Hok.
    + pose proof (pure_write_err _ _ _ _ _ _ Hw) as ->. by apply Herr.
Qed.

Lemma node_of_None_base m q : node_of m q = None → is_base q = false.
Proof. unfold node_of. by destruct (is_base q). Qed.

(** [create_dir_all] only turns missing prefixes into directories. *)
Lemma mkdirs_frame pre rest m r m' :
  mkdirs pre rest m = (r, m') →
  (∀ q n, node_of m q = Some n → node_of m' q = Some n) ∧
  (∀ q, ¬ q `prefix_of` pre ++ rest → node_of m' q = node_of m q) ∧
  (∀ q, node_of m' q ≠ node_of m q → node_of m' q = Some Dir).
Proof.
  revert pre m. induction rest as [|c rest IH]; intros pre m; simpl.
  { intros [= <- <-]. by split_and!. }
  assert ((pre ++ [c]) ++ rest = pre ++ c :: rest) as Ha by by rw -app_assoc.
  destruct (node_of m (pre ++ [c])) as [[|f]|] eqn:Hn; intros H.
  - apply IH in H. by rw Ha in H.
  - unfold io_err in H. simplify_eq. by split_and!.
  - apply IH in H as (H1 & H2 & H3). rw Ha in H2.
    pose proof (node_of_None_base _ _ Hn) as Hb.
    split_and!; intros q.
    + intros n Hq. apply H1. rw node_of_insert //. rw decide_False //. congruence.
    + intros Hl. rw H2 //. rw node_of_insert //. rw decide_False //.
      intros <-. apply Hl. rw -Ha. by apply prefix_app_r.
    + intros Hne. destruct (decide (node_of m' q = node_of (<[pre ++ [c]:=Dir]> m) q)) as [He|He];
        [|by apply H3].
      rw He. rw He in Hne. rw node_of_insert // in Hne |- *. by case_decide.
Qed.

Lemma longer_not_prefix (p q : path) : (length p < length q)%nat → ¬ q `prefix_of` p.
Proof. intros Hl ?%prefix_length. lia. Qed.

Lemma mkdirs_dir pre rest m m' :
  node_of m pre = Some Dir → mkdirs pre rest m = (Ok (), m') →
  node_of m' (pre ++ rest) = Some Dir.
Proof.
  revert pre m. induction rest as [|c rest IH]; intros pre m Hp; simpl.
  { intros [= <-]. by rw app_nil_r. }
  rw (_ : pre ++ c :: rest = (pre ++ [c]) ++ rest); [|by rw -app_assoc].
  destruct (node_of m (pre ++ [c])) as [[|f]|] eqn:Hn; [by apply IH|done|].
  apply IH. rw node_of_insert; [by rw decide_True|by eapply node_of_None_base].
Qed.

Lemma mkdirs_ok pre rest m :
  (∀ k f, node_of m (pre ++ take k rest) ≠ Some (File f)) →
  ∃ m', mkdirs pre rest m = (Ok (), m').
Proof.
  revert pre m. induction rest as [|c rest IH]; intros pre m Hf; simpl; [eauto|].
  destruct (node_of m (pre ++ [c])) as [[|f]|] eqn:Hn.
  - apply IH. intros k f. rw -app_assoc. apply (Hf (S k)).
  - by destruct (Hf 1 f).
  - apply IH. intros k f. rw node_of_insert; [|by eapply node_of_None_base].
    case_decide; [done|]. rw -app_assoc. apply (Hf (S k)).
Qed.
End facts.

(** [dir_ready m p]: no prefix of the directory [p] is a file. *)
Definition dir_ready (m : fs) (p : path) : Prop :=
  ∀ k f, node_of m (take k (resolve p)) ≠ Some (File f).

(** [stored m p b]: a file at [p] holds [b]. *)
Definition stored (m : fs) (p : path) (b : bytes) : Prop :=
  ∃ f, node_at m p = Some (File f) ∧ f_bytes f = b.

Section facts2.
Context {E : IoEnv}.
Implicit Types (m : fs) (p q : path) (w : IoW).

Lemma pure_write_ok p b t m :
  node_of m (resolve p) ≠ Some Dir → node_of m (removelast (resolve p)) = Some Dir →
  ∃ c, pure_write p b t m = (Ok (), <[resolve p := File (MkFile b t c)]> m).
Proof.
  intros H1 H2. unfold pure_write. rw H2. destruct (node_of m (resolve p)) as [[]|]; eauto.
  done.
Qed.

Lemma wp_fs_create_dir_all p Q w :
  (∀ r m', (∀ q n, node_of (files w) q = Some n → node_of m' q = Some n) →
     (∀ q, ¬ q `prefix_of` resolve p → node_of m' q = node_of (files w) q) →
     (∀ q, node_of m' q ≠ node_of (files w) q → node_of m' q = Some Dir) →
     (r = Ok () → node_of m' (resolve p) = Some Dir) →
     (no_faults → dir_ready (files w) p → r = Ok ()) →
     Q r (MkIo m' (S (tick w)))) →
  wp (fs_create_dir_all p) Q w.
Proof.
  intros H. unfold wp, fs_create_dir_all.
  assert (wp (io_op (λ _ m, pure_create_dir_all p m)) Q w) as Hop.
  { apply wp_io_op; cbn.
    - intros k Hk. apply H; try done. intros Hn. by rw (Hn (tick w)) in Hk.
    - unfold pure_create_dir_all. destruct (mkdirs _ _ _) as [r m'] eqn:Hm. cbn.
      destruct (mkdirs_frame _ _ _ _ _ Hm) as (H1 & H2 & H3). apply H; [done..| |].
      + intros ->. by apply (mkdirs_dir [] _ _ _) in Hm.
      + intros _ Hr. destruct (mkdirs_ok [] (resolve p) (files w)) as [m2 Hm2]; [|congruence].
        intros k f. apply Hr. }
  destruct (io_fault (tick w)) as [k|] eqn:Hk; [|done].
  destruct (io_torn (tick w)) as [b|]; [|done].
  destruct (mkdirs [] (take (length b) (resolve p)) (files w)) as [r m'] eqn:Hm. cbn.
  destruct (mkdirs_frame _ _ _ _ _ Hm) as (H1 & H2 & H3). apply H; [done| |done..|].
  - intros q Hq. apply H2. intros Hp. apply Hq. cbn in Hp. etrans; [done|].
    apply prefix_take.
  - intros Hn. by rw (Hn (tick w)) in Hk.
Qed.

Lemma wp_is_file p Q w :
  (∀ b, (b = true → ∃ f, node_at (files w) p = Some (File f)) →
     (no_faults → ∀ f, node_at (files w) p = Some (File f) → b = true) →
     Q b (MkIo (files w) (S (tick w)))) →
  wp (is_file p) Q w.
Proof.
  intros H. apply wp_io_bool. intros b Hb Hn. apply H.
  - intros ->. specialize (Hb eq_refl). destruct (node_at _ p) as [[|f]|]; naive_solver.
  - intros Hf f Hp. rw Hn // Hp //.
Qed.

(** A read is a read of the current files, or fails. *)
Lemma wp_fs_read_to_string p Q w :
  (∀ r, (∀ s, r = Ok s → pure_read_to_string p (files w) = Ok s) →
     (no_faults → r = pure_read_to_string p (files w)) →
     Q r (MkIo (files w) (S (tick w)))) →
  wp (fs_read_to_string p) Q w.
Proof.
  intros H. apply wp_io_op; cbn.
  - intros k Hk. apply H; [done|]. intros Hn. by rw (Hn (tick w)) in Hk.
  - apply H; eauto.
Qed.

Lemma read_to_string_stored p m s :
  stored m p (bytes_of s) → valid_utf8 s = true → pure_read_to_string p m = Ok s.
Proof.
  intros (f & Hf & Hb) Hv. unfold pure_read_to_string. rw (pure_read_at _ _ _ Hf) Hb.
  by rw string_of_bytes_of Hv.
Qed.

(** A directory lists the names of what is directly in it. *)
Lemma elem_of_children q m n :
  n ∈ children q m ↔ is_Some (m !! (q ++ [Normal n])).
Proof.
  unfold children. rw list_elem_of_omap. split.
  - intros ([k v] & Hk%elem_of_map_to_list & Hc). unfold child_name, under in Hc. cbn in Hc.
    destruct (drop (length q) k) as [|[| |s] [|]] eqn:Hd; [done..| |done].
    destruct (decide (take (length q) k = q)) as [Ht|]; [|by rw bool_decide_false in Hc].
    rw bool_decide_true // in Hc. simplify_eq. exists v. by rw -{1}Ht -Hd take_drop.
  - intros [v Hv]. exists (q ++ [Normal n], v). split; [by apply elem_of_map_to_list|].
    unfold child_name, under. cbn. rw drop_app_length take_app_length.
    by rw bool_decide_true.
Qed.

(** A listing is what the directory holds, when the call succeeds. *)
Lemma wp_fs_read_dir p Q w :
  (∀ r, (∀ l, r = Ok l → pure_read_dir p (files w) = Ok l) →
     (no_faults → r = pure_read_dir p (files w)) →
     Q r (MkIo (files w) (S (tick w)))) →
  wp (fs_read_dir p) Q w.
Proof.
  intros H. apply wp_io_op; cbn.
  - intros k Hk. apply H; [done|]. intros Hn. by rw (Hn (tick w)) in Hk.
  - apply H; eauto.
Qed.
End facts2.

(** ** Files in a directory *)

(** [p] is a file name in the directory [d]. *)
Definition file_in (p d : path) : Prop :=
  parent p = Some d ∧ removelast (resolve p) = resolve d ∧
  (length (resolve d) < length (resolve p))%nat ∧ is_base (resolve p) = false.

#[export] Instance file_in_dec p d : Decision (file_in p d).
Proof. unfold file_in. apply _. Defined.

(** The files other than [p] are the same. *)
Definition kept (p : path) (m m' : fs) : Prop :=
  ∀ q f, q ≠ resolve p → node_of m' q = Some (File f) ↔ node_of m q = Some (File f).

(** Nothing stands in the way of creating the file [p] in [d]. *)
Definition writable (m : fs) (p d : path) : Prop :=
  dir_ready m d ∧ node_of m (resolve p) ≠ Some Dir.

(** The bytes of the file at [p], none when there is no file. *)
Definition bytes_at (m : fs) (p : path) : bytes :=
  match node_at m p with Some (File f) => f_bytes f | _ => [] end.

Lemma stored_bytes_at m p b : stored m p b → bytes_at m p = b.
Proof. intros (f & Hf & <-). unfold bytes_at. by rw Hf. Qed.

(** All the files are the same (the directories may differ). *)
Definition same_files (m m' : fs) : Prop :=
  ∀ q f, node_of m' q = Some (File f) ↔ node_of m q = Some (File f).

#[export] Instance kept_equiv p : Equivalence (kept p).
Proof.
  split.
  - by intros m q f _.
  - intros m m' H q f Hq. by rw H.
  - intros m1 m2 m3 H1 H2 q f Hq. by rw H2 // H1.
Qed.
#[export] Instance same_files_equiv : Equivalence same_files.
Proof.
  split.
  - by intros m q f.
  - intros m m' H q f. by rw (H q f).
  - intros m1 m2 m3 H1 H2 q f. by rw (H2 q f) (H1 q f).
Qed.
(** A file that is there can still be written after another file was. *)
Lemma kept_writable p q d b m m' :
  file_in p d → resolve p ≠ resolve q → stored m q b → dir_ready m d → kept p m m' →
  writable m' q d.
Proof.
  intros (_ & _ & Hl & _) Hpq (f & Hf & _) Hd Hk. split.
  - intros k g Hg. apply (Hd k g). apply Hk; [|done].
    intros He. apply (f_equal length) in He. rw length_take in He. lia.
  - assert (node_of m' (resolve q) = Some (File f)) as ->; [|done]. apply Hk; [done|exact Hf].
Qed.

#[export] Instance stored_proper : Proper (same_files ==> (=) ==> (=) ==> iff) stored.
Proof.
  intros m m' H p ? <- b ? <-. unfold stored, node_at. split; intros (f & Hf & <-); exists f;
    (split; [by apply H|done]).
Qed.

Lemma same_kept p m m' : same_files m m' → kept p m m'.
Proof. intros H q f _. apply H. Qed.

Lemma kept_refl p m : kept p m m.
Proof. reflexivity. Qed.

Lemma kept_trans p m1 m2 m3 : kept p m1 m2 → kept p m2 m3 → kept p m1 m3.
Proof. apply transitivity. Qed.

Lemma stored_insert p b t c m m' :
  is_base (resolve p) = false → m' = <[resolve p := File (MkFile b t c)]> m → stored m' p b.
Proof.
  intros Hb ->. eexists. unfold node_at. by rw node_of_insert // decide_True.
Qed.

Lemma kept_insert p f m : is_base (resolve p) = false → kept p m (<[resolve p := File f]> m).
Proof. intros Hb q f' Hq. rw node_of_insert //. rw decide_False //. Qed.

Lemma split_slash_none s cur :
  str_has "/" s = false → split_slash s cur = [cur +:+ s].
Proof.
  revert cur. unfold str_has.
  induction s as [|c s IH]; intros cur; simpl; [by rw sapp_nil_r|].
  rw negb_false_iff andb_true_iff negb_true_iff -negb_false_iff. intros [-> H].
  rw IH // sapp_assoc //.
Qed.

Lemma comp_of_long s : (3 <= String.length s)%nat → comp_of s = [Normal s].
Proof.
  intros Hl. unfold comp_of. case_decide as H1; [by destruct H1; subst; simpl in Hl; lia|].
  case_decide as H2; [by subst; simpl in Hl; lia|done].
Qed.

(** A relative name is one component under the directory. *)
Lemma join_simple p s :
  str_has "/" s = false → (3 <= String.length s)%nat → join p s = p ++ [Normal s].
Proof.
  intros Hs Hl. unfold join, parse_path. rw split_slash_none // /= comp_of_long //.
  destruct s as [|c s]; [simpl in Hl; lia|].
  assert (match String c s with String "/" _ => [RootDir] | _ => [] end = []) as ->; [|done].
  unfold str_has in Hs. simpl in Hs.
  destruct (Ascii.eqb_spec c "/") as [->|Hc]; [done|].
  destruct c as [[] [] [] [] [] [] [] []]; done.
Qed.

Lemma resolve_go_snoc acc p s :
  resolve_go acc (p ++ [Normal s]) = resolve_go acc p ++ [Normal s].
Proof.
  revert acc. induction p as [|c p IH]; intros acc; cbn [app resolve_go].
  { apply reverse_cons. }
  destruct c as [| |n]; [apply IH| |apply IH]. destruct acc as [|[| |n] acc]; [apply IH| | |apply IH].
  - destruct acc; apply IH.
  - apply IH.
Qed.
Lemma resolve_snoc p s : resolve (p ++ [Normal s]) = resolve p ++ [Normal s].
Proof. apply resolve_go_snoc. Qed.

Lemma is_base_snoc p s : is_base (p ++ [Normal s]) = false.
Proof.
  destruct p as [|c p]; [done|].
  assert (forallb (λ c, match c with ParentDir => true | _ => false end)
    ((c :: p) ++ [Normal s]) = false) as H by by rw forallb_app /= andb_false_r.
  destruct c; [|exact H..]. by destruct p.
Qed.

(** Any name is a file name in any directory. *)
Lemma file_in_snoc p s : file_in (p ++ [Normal s]) p.
Proof.
  unfold file_in. rw resolve_snoc is_base_snoc length_app removelast_last /=.
  split_and!; [|done|lia|done].
  destruct p as [|c p]; [done|]. unfold parent. rw removelast_last.
  by destruct c; destruct p.
Qed.

Lemma join_file_in p s :
  str_has "/" s = false → (3 <= String.length s)%nat → file_in (join p s) p.
Proof. intros Hs Hl. rw join_simple //. apply file_in_snoc. Qed.

Section file_facts.
Context {E : IoEnv}.
Implicit Types w : IoW.

(** Opening for writing keeps the bytes, or creates an empty file. *)
Lemma wp_fs_open_create p d Q w :
  file_in p d →
  (∀ w', stored (files w') p (bytes_at (files w) p) → kept p (files w) (files w') → Q (Ok ()) w') →
  (∀ k w', files w' = files w →
     (no_faults → node_of (files w) (resolve d) = Some Dir →
      node_of (files w) (resolve p) = Some Dir) → Q (Err k) w') →
  wp (fs_open_create p) Q w.
Proof.
  intros (_ & Hr & _ & Hb) Hok Herr. apply wp_io_op.
  { intros k Hk. apply Herr; [done|]. intros Hn. by rw (Hn (tick w)) in Hk. }
  unfold bytes_at, stored, node_at in *. unfold pure_write, io_err. rw Hr.
  destruct (node_of (files w) (resolve p)) as [[|f]|] eqn:Hp; cbn.
  - apply Herr; [done..|]. auto.
  - apply Hok; [rw Hp; eauto|apply kept_refl].
  - destruct (node_of (files w) (resolve d)) as [[|f]|] eqn:Hd; cbn.
    + apply Hok; [|by apply kept_insert]. rw node_of_insert // decide_True //. eauto.
    + apply Herr; [done|]. intros _ ?. congruence.
    + apply Herr; [done|]. intros _ ?. congruence.
Qed.

Lemma update_bytes_stored g p t m b :
  is_base (resolve p) = false → stored m p b → stored (update_bytes g p t m) p (g b).
Proof.
  intros Hb (f & Hf & <-). unfold update_bytes, stored. rw Hf. unfold node_at.
  rw node_of_insert // decide_True //. eauto.
Qed.

Lemma update_bytes_kept g p t m : is_base (resolve p) = false → kept p m (update_bytes g p t m).
Proof.
  intros Hb. unfold update_bytes. destruct (node_at m p) as [[|f]|]; auto using kept_refl, kept_insert.
Qed.

Lemma wp_file_set_len p n b Q w :
  is_base (resolve p) = false → stored (files w) p b →
  (∀ w', stored (files w') p (resize_bytes (Z.to_nat n) b) →
     kept p (files w) (files w') → Q (Ok ()) w') →
  (∀ k w', ¬ no_faults → kept p (files w) (files w') → Q (Err k) w') →
  wp (file_set_len p n) Q w.
Proof.
  intros Hb Hs Hok Herr. apply wp_io_op.
  - intros k Hk. apply Herr; [|apply kept_refl]. intros Hn. by rw (Hn (tick w)) in Hk.
  - apply Hok; cbn; [by apply update_bytes_stored|by apply update_bytes_kept].
Qed.

Lemma wp_file_write_all p off d b Q w :
  is_base (resolve p) = false → stored (files w) p b →
  (∀ w', stored (files w') p (splice (Z.to_nat off) d b) →
     kept p (files w) (files w') → Q (Ok ()) w') →
  (∀ k w', ¬ no_faults → kept p (files w) (files w') → Q (Err k) w') →
  wp (file_write_all p off d) Q w.
Proof.
  intros Hb Hs Hok Herr. unfold wp, file_write_all, io_op.
  destruct (io_fault (tick w)) as [k|] eqn:Hk.
  - apply Herr; [|by apply update_bytes_kept]. intros Hn. by rw (Hn (tick w)) in Hk.
  - apply Hok; cbn; [by apply update_bytes_stored|by apply update_bytes_kept].
Qed.

(** A call that leaves the files alone ([seek], [flush]). *)
Lemma wp_io_unit Q w :
  (∀ w', files w' = files w → Q (Ok ()) w') →
  (∀ k w', ¬ no_faults → files w' = files w → Q (Err k) w') →
  wp (io_op (λ _ m, (Ok (), m))) Q w.
Proof.
  intros Hok Herr. apply wp_io_op; [|by apply Hok].
  intros k Hk. apply Herr; [|done]. intros Hn. by rw (Hn (tick w)) in Hk.
Qed.

Lemma wp_is_dir p Q w :
  (∀ b, (b = true → node_at (files w) p = Some Dir) →
     Q b (MkIo (files w) (S (tick w)))) →
  wp (is_dir p) Q w.
Proof.
  intros H. apply wp_io_bool. intros b Hb _. apply H. intros ->. specialize (Hb eq_refl).
  by destruct (node_at _ p) as [[|]|].
Qed.

(** [create_dir_all] makes no difference to the files, nor below the directory. *)
Lemma wp_mkdir p Q w :
  (∀ r m', same_files (files w) m' →
     (∀ q, ¬ q `prefix_of` resolve p → node_of m' q = node_of (files w) q) →
     (r = Ok () → node_of m' (resolve p) = Some Dir) →
     (no_faults → dir_ready (files w) p → r = Ok ()) →
     Q r (MkIo m' (S (tick w)))) →
  wp (fs_create_dir_all p) Q w.
Proof.
  intros H. apply wp_fs_create_dir_all. intros r m' Hkeep Hlong Hnew Hd Hr.
  apply H; [|done..]. intros q f. split; [|by auto]. intros Hq.
  destruct (decide (node_of m' q = node_of (files w) q)); [congruence|].
  apply Hnew in n. congruence.
Qed.

Lemma wp_fs_read p Q w :
  (∀ r, (∀ b, r = Ok b → pure_read p (files w) = Ok b) →
     (no_faults → r = pure_read p (files w)) →
     Q r (MkIo (files w) (S (tick w)))) →
  wp (fs_read p) Q w.
Proof.
  intros H. apply wp_io_op; cbn.
  - intros k Hk. apply H; [done|]. intros Hn. by rw (Hn (tick w)) in Hk.
  - apply H; eauto.
Qed.

Lemma pure_read_stored p m b : pure_read p m = Ok b → stored m p b.
Proof.
  unfold pure_read, stored. destruct (node_at m p) as [[|f]|]; [done| |done]. intros [= <-]. eauto.
Qed.

Lemma wp_fs_metadata p Q w :
  (∀ r, (∀ md, r = Ok md → is_Some (node_at (files w) p)) →
     (no_faults → match node_at (files w) p with
                  | Some (File f) => r = Ok (MkMetadata (f_modified f) (f_created f))
                  | Some Dir => ∃ t, r = Ok (MkMetadata t None)
                  | None => r = Err NotFound
                  end) → Q r (MkIo (files w) (S (tick w)))) →
  wp (fs_metadata p) Q w.
Proof.
  intros H. unfold fs_metadata, wp, io_op. destruct (io_fault (tick w)) as [k|] eqn:Hk; cbn.
  - apply H; [done|]. intros Hn. by rw (Hn (tick w)) in Hk.
  - apply H; destruct (node_at (files w) p) as [[|f]|]; cbn; eauto. done.
Qed.

Lemma wp_fs_remove_file p Q w :
  (∀ w', files w' = delete (resolve p) (files w) →
     (∃ f, node_at (files w) p = Some (File f)) → Q (Ok ()) w') →
  (∀ k w', files w' = files w → (no_faults → ¬ ∃ f, node_at (files w) p = Some (File f)) →
     (no_faults → node_at (files w) p = None → k = NotFound) →
     Q (Err k) w') →
  wp (fs_remove_file p) Q w.
Proof.
  intros Hok Herr. apply wp_io_op.
  - intros k Hk. apply Herr; [done| |]; intros Hn; by rw (Hn (tick w)) in Hk.
  - unfold pure_remove_file, io_err. destruct (node_at (files w) p) as [[|f]|]; cbn.
    + apply Herr; [done|by intros _ []|done].
    + apply Hok; eauto.
    + apply Herr; [done|by intros _ []|done].
Qed.

Lemma lookup_remove_where g m q :
  remove_where g m !! q = if g q then None else m !! q.
Proof.
  unfold remove_where. destruct (g q) eqn:Hg.
  - apply map_lookup_filter_None. right. intros n _. cbn. by rw Hg.
  - destruct (m !! q) as [n|] eqn:Hq.
    + apply map_lookup_filter_Some. done.
    + apply map_lookup_filter_None. by left.
Qed.

(** Removing a tree: what is not in it stays, and on success it is gone. *)
Lemma wp_fs_remove_dir_all p Q w :
  (∀ r m', (∀ q, ¬ resolve p `prefix_of` q → node_of m' q = node_of (files w) q) →
     (∀ q, m' !! q = None ∨ m' !! q = files w !! q) →
     (r = Ok () → node_at (files w) p = Some Dir ∧
        ∀ q, resolve p `prefix_of` q → m' !! q = None) →
     (no_faults → node_at (files w) p = Some Dir → r = Ok ()) →
     Q r (MkIo m' (S (tick w)))) →
  wp (fs_remove_dir_all p) Q w.
Proof.
  intros HQ. assert (∀ q k : path, under q k = true ↔ q `prefix_of` k) as Hu.
  { intros q k. unfold under. rw bool_decide_eq_true. split.
    - intros <-. apply prefix_take.
    - intros [k' ->]. by rw take_app_length. }
  unfold wp, fs_remove_dir_all. destruct (io_fault (tick w)) as [k|] eqn:Hk.
  - apply HQ; try done.
    + intros q Hq. unfold node_of. destruct (is_base q); [done|]. rw lookup_remove_where.
      destruct (under (resolve p) q) eqn:Hup; [|done]. by apply Hu in Hup.
    + intros q. rw lookup_remove_where. destruct (_ && _); auto.
    + intros Hn. by rw (Hn (tick w)) in Hk.
  - apply wp_io_op; [by rw Hk|]. unfold pure_remove_dir_all, io_err.
    destruct (node_at (files w) p) as [[|f]|] eqn:Hp; cbn; apply HQ; auto; try done.
    + intros q Hq. unfold node_of. destruct (is_base q); [done|]. rw lookup_remove_where.
      destruct (under (resolve p) q) eqn:Hup; [|done]. by apply Hu in Hup.
    + intros q. rw lookup_remove_where. destruct (under _ q); auto.
    + intros _. split; [done|]. intros q Hq%Hu. by rw lookup_remove_where Hq.
Qed.

Lemma node_of_delete m q q' :
  is_base q = false →
  node_of (delete q m) q' = if decide (q = q') then None else node_of m q'.
Proof.
  intros Hq. unfold node_of. case_decide as H; subst.
  - by rw Hq lookup_delete_eq.
  - by rw lookup_delete_ne.
Qed.

Lemma kept_delete p m : is_base (resolve p) = false → kept p m (delete (resolve p) m).
Proof. intros Hb q f Hq. rw node_of_delete // decide_False //. Qed.
End file_facts.
