(* ===== verification/Errors.v ===== *)
(** * Errors: src/src/agent/error.rs, and the serialisers as an interface

    The payloads of the external error types are their text. *)

From S2P Require Import Prelude Text Io.

Inductive Error :=
| ProcessAlreadyRunning
| ProcessNotRunning
| ProcessPidError
| ProcessPipeError
| ProcessSignalError (errno : Z)
| MalformedModList
| ModNotFound (mod_name mod_version : string)
| RconEmptyCommand
| RconNotConnected
| HeaderNotFound
| Aggregate (errors : list Error)
| Timeout
| FactorioDatFileSerde (e : string)
| Io (e : IoErrorKind)
| Json (e : string)
| Rcon (e : string)
| Reqwest (e : string)
| TomlDe (e : string)
| TomlSer (e : string)
| Zip (e : string).

(** An I/O call under [?] in a routine that returns [error::Result]. *)
Definition io {W A} (m : ST W (result IoErrorKind A)) : ST W (result Error A) :=
  st_map_err Io m.

(** [{:?}] of an error, derived by the compiler, and of an I/O error. *)
Class DebugError := { debug : Error → string; debug_io : IoErrorKind → string }.

(** ** Serialisers

    [serde_json] and [toml] on a type [A] of the program.  The laws are the
    ones they document for types whose [Serialize] and [Deserialize] are
    derived: what was written reads back, and the text is a [String]. *)
Class Codec (A : Type) := {
  enc : A → result string string;
  dec : string → result string A;
}.

Class CodecLaws (A : Type) `{Codec A} : Prop := {
  codec_roundtrip a s : enc a = Ok s → dec s = Ok a;
  codec_utf8 a s : enc a = Ok s → valid_utf8 s = true;
}.

(** A type is serialisable when its values never fail to serialise. *)
Class CodecTotal (A : Type) `{Codec A} : Prop := {
  codec_total a : ∃ s, enc a = Ok s;
}.

(** *** A concrete codec: a finite table of texts and values *)

Definition table_codec {A} `{EqDecision A} (t : list (string * A)) : Codec A := {|
  enc a := match list_find (λ e, e.2 = a) t with
           | Some (_, e) => Ok e.1 | None => Err "unserialisable"
           end;
  dec s := match list_find (λ e, e.1 = s) t with
           | Some (_, e) => Ok e.2 | None => Err "unknown text"
           end;
|}.

Lemma table_codec_laws {A} `{EqDecision A} (t : list (string * A)) :
  NoDup t.*1 → Forall (λ e, valid_utf8 e.1 = true) t → @CodecLaws A (table_codec t).
Proof.
  intros Hnd Hv. assert (∀ a s, @enc _ (table_codec t) a = Ok s →
    ∃ i, t !! i = Some (s, a)) as Hi.
  { intros a s. simpl. destruct (list_find _ t) as [[i [s' a']]|] eqn:Hf; [|done].
    apply list_find_Some in Hf as (Hl & <- & _). intros [= <-]. eauto. }
  split.
  - intros a s Hs. apply Hi in Hs as [i Hl]. simpl.
    destruct (list_find (λ e, e.1 = s) t) as [[j e]|] eqn:Hf.
    + destruct e as [s' a']. apply list_find_Some in Hf as (Hj & He & _). simpl in *. subst.
      assert (i = j) as ->; [|by simplify_eq].
      eapply NoDup_lookup; [done| |]; rw list_lookup_fmap ?Hl ?Hj //.
    + apply list_find_None in Hf. by eapply (Forall_lookup_1 _ _ _ _ Hf) in Hl.
  - intros a s Hs. apply Hi in Hs as [i Hl].
    by eapply (Forall_lookup_1 _ _ _ _ Hv) in Hl.
Qed.

(** *** A total one: a countable type through its encoding as a number *)

Fixpoint bits_of (p : positive) : string :=
  match p with
  | xH => ""
  | xO p' => String "0" (bits_of p')
  | xI p' => String "1" (bits_of p')
  end.
Fixpoint of_bits (s : string) : option positive :=
  match s with
  | "" => Some xH
  | String "0" s' => xO <$> of_bits s'
  | String "1" s' => xI <$> of_bits s'
  | _ => None
  end.

Lemma of_bits_of p : of_bits (bits_of p) = Some p.
Proof. induction p as [p IH|p IH|]; simpl; by rw ?IH. Qed.

Definition countable_codec {A} `{Countable A} : Codec A := {|
  enc a := Ok (bits_of (encode a));
  dec s := match of_bits s ≫= decode with Some a => Ok a | None => Err "unknown text" end;
|}.

Lemma countable_codec_laws {A} `{Countable A} : @CodecLaws A countable_codec.
Proof.
  split; simpl; intros a s [= <-].
  - by rw of_bits_of /= decode_encode.
  - apply valid_utf8_ascii. by induction (encode a).
Qed.

Lemma countable_codec_total {A} `{Countable A} : @CodecTotal A countable_codec.
Proof. split. simpl. eauto. Qed.

Open Scope st_scope.

Section ensure_dir.
Context {E : IoEnv}.

(** [if !dir.is_dir() { create_dir_all(dir)? }] *)
Lemma wp_ensure_dir p d Q w :
  file_in p d →
  (∀ w', node_of (files w') (resolve d) = Some Dir →
     kept p (files w) (files w') →
     node_of (files w') (resolve p) = node_of (files w) (resolve p) → Q (Ok ()) w') →
  (∀ e w', kept p (files w) (files w') → (no_faults → ¬ dir_ready (files w) d) →
     Q (Err e) w') →
  wp (b <- is_dir d ;;
      if negb b then io (fs_create_dir_all d) else st_ret (Ok ())) Q w.
Proof.
  intros (_ & _ & Hl & _) Hok Herr. st_go. apply wp_is_dir. intros b Hb.
  destruct b; cbn [negb].
  { st_go. apply Hok; cbn; [by apply Hb|apply kept_refl|done]. }
  unfold io. st_go. apply wp_fs_create_dir_all. cbn. intros r m' Hkeep Hlong Hnew Hd Hr.
  assert (kept p (files w) m') as Hk.
  { intros q f _. split; [|by auto]. intros Hq.
    destruct (decide (node_of m' q = node_of (files w) q)); [congruence|].
    apply Hnew in n. congruence. }
  destruct r as [[]|k]; cbn; [apply Hok; cbn; auto using longer_not_prefix|].
  apply Herr; [done|]. intros Hn Hrd. by specialize (Hr Hn Hrd).
Qed.
End ensure_dir.
