(* ===== verification/Settings.v ===== *)
(** * Settings: src/src/agent/server/settings.rs and src/src/agent/consts.rs

    The files under data/configs.  [AdminList], [BanList] and [WhiteList] are
    three copies of the same code on three paths: [ListFile] is that code and
    the modules are its three uses. *)

From S2P Require Import Prelude Text Schema Io Errors.

Open Scope st_scope.

(** ** Directories and files ([consts.rs], and the [lazy_static!] block) *)

Definition FACTORIO_INSTALL_DIR : path := parse_path "install".
Definition ROAMING_DATA_DIR : path := parse_path "data".
Definition CONFIG_DIR : path := join ROAMING_DATA_DIR "configs".
Definition MOD_DIR : path := join ROAMING_DATA_DIR "mods".
Definition SAVEFILE_DIR : path := join ROAMING_DATA_DIR "saves".

Definition LAUNCH_SETTINGS_PATH : path := join CONFIG_DIR "launch-settings.toml".
Definition ADMIN_LIST_PATH : path := join CONFIG_DIR "server-adminlist.json".
Definition BAN_LIST_PATH : path := join CONFIG_DIR "server-banlist.json".
Definition SERVER_SETTINGS_PATH : path := join CONFIG_DIR "server-settings.json".
Definition SECRETS_PATH : path := join CONFIG_DIR "secrets.toml".
Definition WHITE_LIST_PATH : path := join CONFIG_DIR "server-whitelist.json".

(** ** Reading and writing one serialised file

    The steps every [read] and [write] of the file has: the callers fix the
    path, the type and the error constructors. *)
Section SerdeFile.
Context {E : IoEnv} {A : Type} {C : Codec A}.

(** [if !path.is_file() { Ok(None) } else { match fs::read_to_string ... }] *)
Definition read_serde (de : string → Error) (p : path) : ST IoW (result Error (option A)) :=
  (b <- is_file p ;;
   if negb b then st_ret (Ok None)
   else
     r <- fs_read_to_string p ;;
     match r with
     | Ok s => match dec s with
               | Ok a => st_ret (Ok (Some a))
               | Err e => st_ret (Err (de e))
               end
     | Err e => st_ret (Err (Io e))
     end).

(** [create_dir_all(path.parent()?)], then [fs::write(path, to_string(a)?)] *)
Definition write_serde (ser : string → Error) (p : path) (a : A) : ST IoW (result Error ()) :=
  match parent p with
  | None => st_ret (Err (Io InvalidInput))
  | Some d =>
      r <- fs_create_dir_all d ;;
      match r with
      | Err e => st_ret (Err (Io e))
      | Ok _ =>
          match enc a with
          | Err e => st_ret (Err (ser e))
          | Ok s =>
              r <- fs_write p (bytes_of s) ;;
              match r with
              | Err e => st_ret (Err (Io e))
              | Ok _ => st_ret (Ok ())
              end
          end
      end
  end.
End SerdeFile.

(** ** The three lists of users *)

Record ListFile := MkListFile { lf_list : list string; lf_path : path }.

Section ListFile.
Context {E : IoEnv} {C : Codec (list string)}.

Definition list_read (p : path) : ST IoW (result Error (option ListFile)) :=
  st_bind (read_serde Json p)
    (λ r, st_ret (map_ok (option_map (λ l, MkListFile l p)) r)).

Definition list_write (lf : ListFile) : ST IoW (result Error ()) :=
  write_serde Json (lf_path lf) (lf_list lf).

Definition list_set (p : path) (l : list string) : ST IoW (result Error ()) :=
  list_write (MkListFile l p).

(** A failure to write the default is only logged. *)
Definition list_read_or_apply_default (p : path) : ST IoW (result Error ListFile) :=
  o <-? list_read p ;;
  match o with
  | Some lf => st_ret (Ok lf)
  | None =>
      let lf := MkListFile [] p in
      _ <- list_write lf ;;
      st_ret (Ok lf)
  end.
End ListFile.

Module AdminList.
Definition read `{IoEnv, Codec (list string)} := list_read ADMIN_LIST_PATH.
Definition read_or_apply_default `{IoEnv, Codec (list string)} :=
  list_read_or_apply_default ADMIN_LIST_PATH.
Definition set `{IoEnv, Codec (list string)} := list_set ADMIN_LIST_PATH.
Definition write `{IoEnv, Codec (list string)} := list_write.
End AdminList.

Module BanList.
Definition read `{IoEnv, Codec (list string)} := list_read BAN_LIST_PATH.
Definition read_or_apply_default `{IoEnv, Codec (list string)} :=
  list_read_or_apply_default BAN_LIST_PATH.
Definition set `{IoEnv, Codec (list string)} := list_set BAN_LIST_PATH.
Definition write `{IoEnv, Codec (list string)} := list_write.
End BanList.

Module WhiteList.
Definition read `{IoEnv, Codec (list string)} := list_read WHITE_LIST_PATH.
Definition read_or_apply_default `{IoEnv, Codec (list string)} :=
  list_read_or_apply_default WHITE_LIST_PATH.
Definition set `{IoEnv, Codec (list string)} := list_set WHITE_LIST_PATH.
Definition write `{IoEnv, Codec (list string)} := list_write.
End WhiteList.

(** ** Launch settings *)

Inductive IpAddr := V4 (a b c d : Z) | V6 (text : string).
Record SocketAddr := MkSocketAddr { sa_ip : IpAddr; sa_port : Z }.

Definition ip_to_string (ip : IpAddr) : string :=
  match ip with
  | V4 a b c d => pretty a +:+ "." +:+ pretty b +:+ "." +:+ pretty c +:+ "." +:+ pretty d
  | V6 t => "[" +:+ t +:+ "]"
  end.
Definition addr_to_string (a : SocketAddr) : string :=
  ip_to_string (sa_ip a) +:+ ":" +:+ pretty (sa_port a).

Definition UNSPECIFIED : IpAddr := V4 0 0 0 0.

(** The environment variables FACTORIO_PORT and FACTORIO_RCON_PORT, which the
    deployment sets to ports, and the generator of random passwords. *)
Class LaunchEnv := {
  env_factorio_port : Z;
  env_factorio_rcon_port : Z;
  env_random_password : nat → string;
}.

Module LaunchSettings.
Record t := Mk {
  server_bind : SocketAddr;
  rcon_bind : SocketAddr;
  rcon_password : string;
  use_whitelist : bool;
}.

#[export] Instance eq_dec : EqDecision t.
Proof.
  assert (EqDecision IpAddr) by solve_decision.
  assert (EqDecision SocketAddr) by solve_decision.
  solve_decision.
Defined.

Section ops.
Context {E : IoEnv} {L : LaunchEnv} {C : Codec t}.

Definition default : ST IoW t := λ w,
  (Mk (MkSocketAddr UNSPECIFIED env_factorio_port)
      (MkSocketAddr UNSPECIFIED env_factorio_rcon_port)
      (env_random_password (tick w)) false,
   MkIo (files w) (S (tick w))).

(** The code keeps the password of the file and takes the rest from the
    default: [LaunchSettings { rcon_password, ..Default::default() }]. *)
Definition read : ST IoW (result Error (option t)) :=
  o <-? read_serde TomlDe LAUNCH_SETTINGS_PATH ;;
  match o with
  | None => st_ret (Ok None)
  | Some ls =>
      d <- default ;;
      st_ret (Ok (Some (Mk (server_bind d) (rcon_bind d) (rcon_password ls)
                           (use_whitelist d))))
  end.

Definition write (ls : t) : ST IoW (result Error ()) :=
  write_serde TomlSer LAUNCH_SETTINGS_PATH ls.

Definition read_or_apply_default : ST IoW (result Error t) :=
  o <-? read ;;
  match o with
  | Some ls => st_ret (Ok ls)
  | None =>
      ls <- default ;;
      _ <- write ls ;;
      st_ret (Ok ls)
  end.
End ops.

(** [ls.rcon_password = pw] and [ls.use_whitelist = b] *)
Definition with_password (pw : string) (ls : t) : t :=
  Mk (server_bind ls) (rcon_bind ls) pw (use_whitelist ls).
Definition with_whitelist (b : bool) (ls : t) : t :=
  Mk (server_bind ls) (rcon_bind ls) (rcon_password ls) b.
End LaunchSettings.

(** ** Secrets *)

Module Secrets.
Record t := Mk { username : string; token : string }.

#[export] Instance eq_dec : EqDecision t.
Proof. solve_decision. Defined.

Section ops.
Context {E : IoEnv} {C : Codec t}.
Definition read : ST IoW (result Error (option t)) := read_serde TomlDe SECRETS_PATH.
Definition write (s : t) : ST IoW (result Error ()) := write_serde TomlSer SECRETS_PATH s.
End ops.
End Secrets.

(** ** Server settings *)

Module ServerSettings.
Record t := Mk { config : ServerSettingsConfig; file_path : path }.

Section ops.
Context {E : IoEnv} {C : Codec ServerSettingsConfig}.

Definition read : ST IoW (result Error (option t)) :=
  st_bind (read_serde Json SERVER_SETTINGS_PATH)
    (λ r, st_ret (map_ok (option_map (λ c, Mk c SERVER_SETTINGS_PATH)) r)).

Definition write (ss : t) : ST IoW (result Error ()) :=
  write_serde Json (file_path ss) (config ss).

Definition set (c : ServerSettingsConfig) : ST IoW (result Error ()) :=
  write (Mk c SERVER_SETTINGS_PATH).

Definition read_default_server_settings (installation : path) :
    ST IoW (result Error ServerSettingsConfig) :=
  let p := join (join (join installation "factorio") "data") "server-settings.example.json" in
  r <- fs_read_to_string p ;;
  match r with
  | Ok s => st_ret (map_err Json (dec s))
  | Err e => st_ret (Err (Io e))
  end.

(** Here a failure to write the default is returned. *)
Definition read_or_apply_default (installation : path) : ST IoW (result Error t) :=
  o <-? read ;;
  match o with
  | Some ss => st_ret (Ok ss)
  | None =>
      c <-? read_default_server_settings installation ;;
      let ss := Mk (set_credentials None None c) SERVER_SETTINGS_PATH in
      r <- write ss ;;
      match r with
      | Err e => st_ret (Err e)
      | Ok _ => st_ret (Ok ss)
      end
  end.
End ops.
End ServerSettings.

(** ** What reading and writing do *)

Section serde_facts.
Context {E : IoEnv} {A : Type} {C : Codec A}.
Implicit Types (w : IoW) (a : A).

Lemma wp_read_serde de p Q w :
  (∀ o w', files w' = files w →
     (∀ a, o = Some a → ∃ s, pure_read_to_string p (files w) = Ok s ∧ dec s = Ok a) →
     (no_faults → (o = None ↔ ¬ ∃ f, node_at (files w) p = Some (File f))) →
     Q (Ok o) w') →
  (∀ e w', files w' = files w →
     (no_faults → ¬ ∃ s a, pure_read_to_string p (files w) = Ok s ∧ dec s = Ok a) →
     (no_faults → ∃ f, node_at (files w) p = Some (File f)) →
     Q (Err e) w') →
  wp (read_serde de p) Q w.
Proof.
  intros Hok Herr. unfold read_serde. st_go. apply wp_is_file. intros b Hb Hb'.
  destruct b; cbn.
  - st_go. apply wp_fs_read_to_string. cbn. intros [s|k] Hr Hr'; st_go.
    + destruct (dec s) as [a|e] eqn:Hd; st_go.
      * apply Hok; [done| |].
        { intros a' [= <-]. eauto. }
        intros _. split; [done|]. intros []. eauto.
      * apply Herr; [done| |by auto]. intros _ (s' & a & Hs & Ha).
        rw (Hr s) in Hs; [|done]. congruence.
    + apply Herr; [done| |by auto]. intros Hn (s & a & Hs & _).
      rw -(Hr' Hn) in Hs. done.
  - st_go. apply Hok; [done..|]. intros Hn. split; [|done]. intros _ [f Hf].
    by specialize (Hb' Hn f Hf).
Qed.

Lemma wp_write_serde ser p d a Q w :
  file_in p d →
  (∀ s w', enc a = Ok s → stored (files w') p (bytes_of s) → kept p (files w) (files w') →
     Q (Ok ()) w') →
  (∀ e w', kept p (files w) (files w') →
     (no_faults → writable (files w) p d → (∃ s, enc a = Ok s) → False) → Q (Err e) w') →
  wp (write_serde ser p a) Q w.
Proof.
  intros (Hp & Hr & Hl & Hbase) Hok Herr. unfold write_serde. rw Hp. st_go.
  apply wp_fs_create_dir_all. intros r m' Hkeep Hlong Hnew Hdir Hready.
  assert (∀ q f, node_of m' q = Some (File f) ↔ node_of (files w) q = Some (File f)) as Hk.
  { intros q f. split; [|by auto]. intros Hq.
    destruct (decide (node_of m' q = node_of (files w) q)); [congruence|].
    apply Hnew in n. congruence. }
  destruct r as [[]|k]; st_go.
  2: { apply Herr; [by intros q f _|]. intros Hn [Hrd _] _. by specialize (Hready Hn Hrd). }
  specialize (Hdir eq_refl).
  destruct (enc a) as [s|e] eqn:He; st_go.
  2: { apply Herr; [by intros q f _|]. intros _ _ [s ?]. done. }
  apply wp_fs_write; cbn.
  - intros w' Hframe k Hf. st_go. apply Herr.
    { intros q f Hq. rw Hframe //. }
    intros Hn [_ Hnd] _. specialize (Hf Hn).
    destruct (pure_write_ok p (bytes_of s) (io_now (S (tick w))) m') as [c Hc].
    + rw Hlong //. by apply longer_not_prefix.
    + by rw Hr.
    + by rw Hc in Hf.
  - intros t c w' Hw' _. st_go. apply (Hok s); [done| |].
    + by eapply stored_insert.
    + intros q f Hq. rw Hw' node_of_insert //. rw decide_False //.
Qed.

Lemma stored_read p m s : stored m p (bytes_of s) → valid_utf8 s = true →
  pure_read_to_string p m = Ok s ∧ ∃ f, node_at m p = Some (File f).
Proof.
  intros Hs Hv. split; [by apply read_to_string_stored|].
  destruct Hs as (f & Hf & _). eauto.
Qed.
End serde_facts.

(** [saved m p a]: the file [p] holds a text of [a]. *)
Definition saved {A} `{Codec A} (m : fs) (p : path) (a : A) : Prop :=
  ∃ s, enc a = Ok s ∧ stored m p (bytes_of s).

Section saved_facts.
Context {E : IoEnv} {A : Type} `{CA : CodecLaws A}.
Implicit Types (w : IoW) (a : A).

(** A saved value is what every later read that succeeds returns. *)
Lemma wp_read_saved de p a Q w :
  saved (files w) p a →
  (∀ r w', files w' = files w → (∀ o, r = Ok o → o = Some a ∨ o = None) →
     (no_faults → r = Ok (Some a)) → Q r w') →
  wp (read_serde de p) Q w.
Proof.
  intros (s & Hs & Hst) HQ. pose proof (codec_utf8 _ _ Hs) as Hv.
  pose proof (codec_roundtrip _ _ Hs) as Hd.
  destruct (stored_read _ _ _ Hst Hv) as [Hr Hf].
  apply wp_read_serde.
  - intros o w' Hw Ho Hn. assert (∀ a', o = Some a' → a' = a) as Hoa.
    { intros a' ->. destruct (Ho a' eq_refl) as (s' & Hs' & Hd'). congruence. }
    apply HQ; [done| |].
    + intros o' [= <-]. destruct o as [a'|]; [left|by right]. by rw (Hoa a').
    + intros Hnf. destruct o as [a'|]; [by rw (Hoa a')|].
      destruct (Hn Hnf) as [Hn' _]. by destruct (Hn' eq_refl).
  - intros e w' Hw Hno _. apply HQ; [done..|]. intros Hnf. destruct (Hno Hnf). eauto.
Qed.
End saved_facts.

Lemma config_paths :
  file_in LAUNCH_SETTINGS_PATH CONFIG_DIR ∧ file_in ADMIN_LIST_PATH CONFIG_DIR ∧
  file_in BAN_LIST_PATH CONFIG_DIR ∧ file_in SERVER_SETTINGS_PATH CONFIG_DIR ∧
  file_in SECRETS_PATH CONFIG_DIR ∧ file_in WHITE_LIST_PATH CONFIG_DIR.
Proof. repeat split; vm_compute; auto. Qed.

(** ** Properties *)

(** A value that always serialises is saved, or the call fails. *)
Lemma wp_write_serde_saved `{IoEnv} {A} `{CodecTotal A} ser p d (a : A) Q w :
  file_in p d →
  (∀ w', saved (files w') p a → kept p (files w) (files w') → Q (Ok ()) w') →
  (∀ e w', kept p (files w) (files w') → (no_faults → ¬ writable (files w) p d) → Q (Err e) w') →
  wp (write_serde ser p a) Q w.
Proof.
  intros Hin Hok Herr. apply (wp_write_serde ser p d a); [done| |].
  - intros s w' Hs Hst Hk. apply Hok; [|done]. by exists s.
  - intros e w' Hk Hn. apply Herr; [done|]. intros Hnf Hw. by apply (Hn Hnf Hw), codec_total.
Qed.

Section lists.
Context {E : IoEnv} `{CL : CodecLaws (list string), CT : !CodecTotal (list string)}.
Implicit Types w : IoW.

Lemma wp_list_set p l Q w :
  file_in p CONFIG_DIR →
  (∀ w', saved (files w') p l → kept p (files w) (files w') → Q (Ok ()) w') →
  (∀ e w', kept p (files w) (files w') → (no_faults → ¬ writable (files w) p CONFIG_DIR) →
     Q (Err e) w') →
  wp (list_set p l) Q w.
Proof. apply wp_write_serde_saved. Qed.

Lemma wp_list_read_saved p l Q w :
  saved (files w) p l →
  (∀ r w', files w' = files w → (∀ lf, r = Ok (Some lf) → lf = MkListFile l p) →
     (no_faults → r = Ok (Some (MkListFile l p))) → Q r w') →
  wp (list_read p) Q w.
Proof.
  intros Hs HQ. unfold list_read. st_go. eapply wp_read_saved; [done|].
  intros r w' Hw' Ho Hn. st_go. apply HQ; [done| |].
  - intros lf. destruct r as [[l'|]|e]; [|done..]. cbn. intros [= <-].
    by destruct (Ho _ eq_refl) as [[= ->]|].
  - intros Hnf. by rw (Hn Hnf).
Qed.

Lemma wp_list_read_or_default_saved p l Q w :
  file_in p CONFIG_DIR → saved (files w) p l → no_faults →
  (∀ w', files w' = files w → Q (Ok (MkListFile l p)) w') →
  wp (list_read_or_apply_default p) Q w.
Proof.
  intros Hin Hs Hn HQ. unfold list_read_or_apply_default. st_go.
  apply (wp_list_read_saved p l); [done|]. intros r w' Hw' _ Hr. rw (Hr Hn). st_go. by apply HQ.
Qed.

(** Each of the three lists of users is stored: what was set is what is
    read, under every pattern of failures of the two calls (a read may fail
    or find nothing, it never returns another list), no other file changes,
    and when nothing fails both calls succeed. *)
Theorem list_set_read p l w :
  p ∈ [ADMIN_LIST_PATH; BAN_LIST_PATH; WHITE_LIST_PATH] →
  wp (r <- list_set p l ;; r' <- list_read p ;; st_ret (r, r'))
     (λ rr w', kept p (files w) (files w') ∧
        (rr.1 = Ok () → ∀ lf, rr.2 = Ok (Some lf) → lf = MkListFile l p) ∧
        (no_faults → writable (files w) p CONFIG_DIR →
         rr = (Ok (), Ok (Some (MkListFile l p))))) w.
Proof.
  intros Hp. assert (file_in p CONFIG_DIR) as Hin.
  { destruct config_paths as (_ & ? & ? & _ & _ & ?).
    rw !elem_of_cons in Hp. by destruct Hp as [->|[->|[->|?%elem_of_nil]]]. }
  st_go. apply wp_list_set; [done| |].
  - intros w1 Hs Hk. st_go. apply (wp_list_read_saved p l); [done|].
    intros r' w2 Hw2 Hlf Hn. st_go. cbn. rw Hw2. split_and!; [done|by intros _|].
    intros Hnf _. by rw (Hn Hnf).
  - intros e w1 Hk Hn. st_go. eapply (wp_wand _ (λ _ w', files w' = files w1)).
    { unfold list_read. st_go. apply wp_read_serde; intros; by st_go. }
    intros r' w2 Hw2. st_go. cbn. rw Hw2. split_and!; [done|done|]. intros Hnf Hw.
    by destruct (Hn Hnf).
Qed.
End lists.

Section launch.
Context {E : IoEnv} {L : LaunchEnv} `{CL : CodecLaws LaunchSettings.t}.
Context {CT : CodecTotal LaunchSettings.t}.
Import LaunchSettings.
Implicit Types w : IoW.

Lemma launch_in : file_in LAUNCH_SETTINGS_PATH CONFIG_DIR.
Proof. apply config_paths. Qed.

(** What is read of a saved value: its password, and nothing else. *)
Definition reread (ls : t) : t :=
  Mk (MkSocketAddr UNSPECIFIED env_factorio_port) (MkSocketAddr UNSPECIFIED env_factorio_rcon_port)
     (rcon_password ls) false.

Lemma wp_launch_read Q w :
  (∀ r w', files w' = files w →
     (∀ ls, saved (files w) LAUNCH_SETTINGS_PATH ls →
        (∀ o, r = Ok o → o = Some (reread ls) ∨ o = None) ∧
        (no_faults → r = Ok (Some (reread ls)))) →
     (no_faults → ¬ (∃ f, node_at (files w) LAUNCH_SETTINGS_PATH = Some (File f)) → r = Ok None) →
     (∀ ls, r = Ok (Some ls) → use_whitelist ls = false) → Q r w') →
  wp read Q w.
Proof.
  intros HQ. unfold read, default. st_go. apply wp_read_serde.
  - intros o w1 Hw1 Hsome Hnone. assert (∀ ls a, saved (files w) LAUNCH_SETTINGS_PATH ls →
      o = Some a → a = ls) as Hls.
    { intros ls a (s & Hs & Hst) ->. destruct (Hsome a eq_refl) as (s' & Hs' & Hd).
      rw (read_to_string_stored _ _ _ Hst (codec_utf8 _ _ Hs)) in Hs'. simplify_eq.
      rw (codec_roundtrip _ _ Hs) in Hd. by simplify_eq. }
    assert (∀ ls, saved (files w) LAUNCH_SETTINGS_PATH ls → no_faults → o ≠ None) as Hls'.
    { intros ls (s & Hs & f & Hf & _) Hn Ho. destruct (Hnone Hn) as [Hx _]. apply (Hx Ho). eauto. }
    destruct o as [a|]; st_go.
    + unfold wp. cbn. apply HQ; cbn; [done| | |by intros ? [= <-]].
      * intros ls Hs. rw (Hls ls a Hs eq_refl). split; [intros o [= <-]; by left|done].
      * intros Hn Hno. by destruct (Hnone Hn) as [_ Hx]; specialize (Hx Hno).
    + apply HQ; [done| |done|done]. intros ls Hs. split; [intros o [= <-]; by right|].
      intros Hn. by destruct (Hls' ls Hs Hn).
  - intros e w1 Hw1 Hno Hf. apply HQ; [done| |by intros Hn Hx; destruct (Hx (Hf Hn))|done].
    intros ls (s & Hs & Hst). split; [done|]. intros Hn. destruct (Hno Hn).
    exists s, ls. split; [|by apply codec_roundtrip]. apply (read_to_string_stored _ _ _ Hst).
    by eapply codec_utf8.
Qed.

Lemma wp_launch_write ls Q w :
  (∀ w', saved (files w') LAUNCH_SETTINGS_PATH ls →
     kept LAUNCH_SETTINGS_PATH (files w) (files w') → Q (Ok ()) w') →
  (∀ e w', kept LAUNCH_SETTINGS_PATH (files w) (files w') →
     (no_faults → ¬ writable (files w) LAUNCH_SETTINGS_PATH CONFIG_DIR) → Q (Err e) w') →
  wp (write ls) Q w.
Proof. apply wp_write_serde_saved, launch_in. Qed.

Lemma wp_launch_init_saved ls Q w :
  saved (files w) LAUNCH_SETTINGS_PATH ls → no_faults →
  (∀ w', files w' = files w → Q (Ok (reread ls)) w') →
  wp read_or_apply_default Q w.
Proof.
  intros Hs Hn HQ. unfold read_or_apply_default. st_go. apply wp_launch_read.
  intros r w' Hw' Hr _ _. destruct (Hr ls Hs) as [_ ->]; [|done]. st_go. by apply HQ.
Qed.

(** Launch settings are written whole and read back in part: the password
    survives, the addresses come from the environment, and the whitelist
    switch is always off, since the reader takes everything but the password
    from the default. *)
Theorem launch_settings_roundtrip ls w :
  no_faults → writable (files w) LAUNCH_SETTINGS_PATH CONFIG_DIR →
  wp (r <- write ls ;; r' <- read ;; st_ret (r, r'))
     (λ rr w', rr.1 = Ok () ∧
        ∃ ls', rr.2 = Ok (Some ls') ∧ rcon_password ls' = rcon_password ls ∧
          use_whitelist ls' = false ∧
          sa_port (server_bind ls') = env_factorio_port ∧
          sa_port (rcon_bind ls') = env_factorio_rcon_port) w.
Proof.
  intros Hn Hw. st_go. apply wp_launch_write; [|by intros e w' _ Hx; destruct (Hx Hn)].
  intros w1 Hs _. st_go. apply wp_launch_read. intros r w2 _ Hr _ _. st_go. cbn.
  split; [done|]. exists (reread ls). by destruct (Hr ls Hs) as [_ ->].
Qed.

(** Initialising the launch settings is idempotent: the first read with no
    file makes a random password and stores it, and every later read returns
    the same settings. *)
Theorem launch_settings_initialised w :
  no_faults → writable (files w) LAUNCH_SETTINGS_PATH CONFIG_DIR →
  (¬ ∃ f, node_at (files w) LAUNCH_SETTINGS_PATH = Some (File f)) →
  wp (r <- read_or_apply_default ;; r' <- read_or_apply_default ;; st_ret (r, r'))
     (λ rr w', ∃ ls, rr = (Ok ls, Ok ls) ∧
        rcon_password ls = env_random_password (S (tick w))) w.
Proof.
  intros Hn Hw Hno. unfold read_or_apply_default at 1. st_go.
  eapply (wp_wand _ (λ r w', r = Ok None ∧ w' = MkIo (files w) (S (tick w)))).
  { unfold read. st_go. unfold read_serde. st_go. unfold is_file, io_bool, io_op, wp, st_bind.
    rw (Hn (tick w)). cbn. destruct (node_at (files w) LAUNCH_SETTINGS_PATH) as [[|f]|] eqn:Hf;
      [done| |done]. destruct Hno. eauto. }
  intros r w1 [-> ->]. st_go. unfold default at 1. unfold wp at 1. cbn. st_go.
  apply wp_launch_write; cbn; [|by intros e w' _ Hx; destruct (Hx Hn)].
  intros w2 Hs _. st_go. unfold read_or_apply_default. st_go. apply wp_launch_read.
  intros r w3 _ Hr _ _. destruct (Hr _ Hs) as [_ ->]; [|done]. st_go. eexists. by split.
Qed.
End launch.

Section server_settings.
Context {E : IoEnv} `{CL : CodecLaws ServerSettingsConfig, CT : !CodecTotal ServerSettingsConfig}.
Import ServerSettings.
Implicit Types w : IoW.

Lemma server_settings_in : file_in SERVER_SETTINGS_PATH CONFIG_DIR.
Proof. apply config_paths. Qed.

Lemma wp_server_settings_read_saved c Q w :
  saved (files w) SERVER_SETTINGS_PATH c → no_faults →
  (∀ w', files w' = files w → Q (Ok (Some (Mk c SERVER_SETTINGS_PATH))) w') →
  wp read Q w.
Proof.
  intros Hs Hn HQ. unfold read. st_go. apply (wp_read_saved _ _ c); [done|].
  intros r w' Hw' _ Hr. st_go. rw (Hr Hn). by apply HQ.
Qed.

Definition example_path (installation : path) : path :=
  join (join (join installation "factorio") "data") "server-settings.example.json".

(** The server settings: what is saved is used as it is; with nothing
    saved the example of the installation is, with no credentials in it, and
    it is saved; without the example nothing is. *)
Theorem server_settings_initialised installation w :
  no_faults → writable (files w) SERVER_SETTINGS_PATH CONFIG_DIR →
  wp (read_or_apply_default installation)
     (λ r w',
        (∀ c, saved (files w) SERVER_SETTINGS_PATH c →
           r = Ok (Mk c SERVER_SETTINGS_PATH) ∧ files w' = files w) ∧
        (¬ (∃ f, node_at (files w) SERVER_SETTINGS_PATH = Some (File f)) →
           (∀ c, saved (files w) (example_path installation) c →
              r = Ok (Mk (set_credentials None None c) SERVER_SETTINGS_PATH) ∧
              saved (files w') SERVER_SETTINGS_PATH (set_credentials None None c)) ∧
           (node_at (files w) (example_path installation) = None →
              r = Err (Io NotFound) ∧ files w' = files w))) w.
Proof.
  intros Hn Hw.
  assert (∀ c, saved (files w) SERVER_SETTINGS_PATH c →
    wp (read_or_apply_default installation)
       (λ r w', r = Ok (Mk c SERVER_SETTINGS_PATH) ∧ files w' = files w) w) as Hsaved.
  { intros c Hc. unfold read_or_apply_default. st_go. apply (wp_server_settings_read_saved c); [done..|].
    intros w' Hw'. by st_go. }
  assert (¬ (∃ f, node_at (files w) SERVER_SETTINGS_PATH = Some (File f)) →
    wp (read_or_apply_default installation) (λ r w',
      (∀ c, saved (files w) (example_path installation) c →
              r = Ok (Mk (set_credentials None None c) SERVER_SETTINGS_PATH) ∧
              saved (files w') SERVER_SETTINGS_PATH (set_credentials None None c)) ∧
      (node_at (files w) (example_path installation) = None →
              r = Err (Io NotFound) ∧ files w' = files w)) w) as Hdefault.
  { intros Hno. unfold read_or_apply_default, read. st_go. apply wp_read_serde.
    2: { intros e w' _ _ Hf. by destruct (Hno (Hf Hn)). }
    intros o w1 Hw1 _ Ho. assert (o = None) as -> by by apply Ho. st_go. cbn. st_go.
    unfold read_default_server_settings. fold (example_path installation). st_go.
    apply wp_fs_read_to_string. intros r _ Hr. specialize (Hr Hn). rw Hw1 in Hr. st_go.
    destruct r as [s|k]; st_go.
    2: { split.
         - intros c (s & Hs & Hst). rw (read_to_string_stored _ _ _ Hst (codec_utf8 _ _ Hs)) in Hr. done.
         - intros Hnone. unfold pure_read_to_string, pure_read in Hr. rw Hnone in Hr. by simplify_eq. }
    assert (node_at (files w) (example_path installation) ≠ None) as Hsome.
    { intros Hnone. unfold pure_read_to_string, pure_read in Hr. by rw Hnone in Hr. }
    destruct (dec s) as [c|e] eqn:Hd; cbn; st_go.
    2: { split; [|done]. intros c (s' & Hs & Hst).
         rw (read_to_string_stored _ _ _ Hst (codec_utf8 _ _ Hs)) in Hr. simplify_eq.
         by rw (codec_roundtrip _ _ Hs) in Hd. }
    apply (wp_write_serde_saved _ _ _ _ _ _ server_settings_in); cbn.
    2: { intros e w' _ Hx. rw Hw1 in Hx. by destruct (Hx Hn). }
    intros w2 Hs2 _. st_go. split; [|done]. intros c' (s' & Hs & Hst).
    rw (read_to_string_stored _ _ _ Hst (codec_utf8 _ _ Hs)) in Hr. simplify_eq.
    rw (codec_roundtrip _ _ Hs) in Hd. by simplify_eq. }
  unfold wp in *. split; [exact Hsaved|exact Hdefault].
Qed.
End server_settings.
