(* ===== verification/Saves.v ===== *)
(** * Saves: src/src/agent/util/saves.rs *)

From S2P Require Import Prelude Text Schema Io Errors Settings.

Open Scope st_scope.

(** ** The savefile header

    Reading the zip archive and parsing level-init.dat are the [async_zip] and
    [factorio_file_parser] crates: the entries of the archive, in order, with
    the bytes of each, and the parse of the bytes. *)
Record SaveHeaderMod := MkHeaderMod { shm_name : string; shm_version : string }.

Class ZipEnv := {
(** [ZipFileReader::new]: the entries' names as bytes, and for each the
    content or the error of reading it *)
zip_entries : bytes → result string (list (string * result Error bytes));
(** the crate's error for a failure to open the archive *)
zip_upstream : IoErrorKind → string;
(** [SaveHeader::try_from]: the [mods] of the header *)
parse_save_header : bytes → result string (list SaveHeaderMod);
}.

(** [str::ends_with] *)
Definition ends_with (suffix s : string) : bool :=
  let n := (String.length s - String.length suffix)%nat in
  bool_decide (String.substring n (String.length suffix) s = suffix).

Section ops.
Context {E : IoEnv}.

Definition get_savefile_path (name : string) : path := join SAVEFILE_DIR (name +:+ ".zip").

Definition delete_savefile (name : string) : ST IoW (result Error ()) :=
  r <- fs_remove_file (get_savefile_path name) ;;
  match r with
  | Ok _ => st_ret (Ok ())
  | Err e => st_ret (Err (Io e))
  end.

Definition parse_from_path (p : path) : ST IoW (result Error Save) :=
  match extension p with
  | Some ext =>
      if decide (ext = "zip") then
        match file_stem p with
        | None => st_ret (Err (Io InvalidInput))
        | Some stem =>
            md <-? io (fs_metadata p) ;;
            st_ret (Ok (MkSave (from_utf8_lossy stem) (md_modified md)))
        end
      else st_ret (Err (Io InvalidInput))
  | None => st_ret (Err (Io InvalidInput))
  end.

(** [while let Ok(Some(e)) = entries.next_entry().await]: an error ends the
    listing. *)
Fixpoint list_entries (names : list string) : ST IoW (list Save) :=
  r <- next_entry ;;
  match r, names with
  | Err _, _ | _, [] => st_ret []
  | Ok _, n :: names' =>
      s <- parse_from_path (SAVEFILE_DIR ++ [Normal n]) ;;
      rest <- list_entries names' ;;
      st_ret (match s with Ok save => save :: rest | Err _ => rest end)
  end.

Definition list_savefiles : ST IoW (result Error (list Save)) :=
  b <- is_dir SAVEFILE_DIR ;;
  if negb b then st_ret (Ok [])
  else
    names <-? io (fs_read_dir SAVEFILE_DIR) ;;
    l <- list_entries names ;;
    st_ret (Ok l).

Definition find_save (name : string) (l : list Save) : option Save :=
  snd <$> list_find (λ s, save_name s = name) l.

Definition exists_savefile (name : string) : ST IoW (result Error bool) :=
  l <-? list_savefiles ;;
  st_ret (Ok (match find_save name l with Some _ => true | None => false end)).

Definition get_savefile (name : string) : ST IoW (result Error (option SaveBytes)) :=
  b <- is_dir SAVEFILE_DIR ;;
  if negb b then st_ret (Ok None)
  else
    l <-? list_savefiles ;;
    match find_save name l with
    | Some s =>
        b <-? io (fs_read (get_savefile_path (save_name s))) ;;
        st_ret (Ok (Some (SaveBytes_new b)))
    | None => st_ret (Ok None)
    end.

Definition set_savefile (name : string) (sb : SaveBytes) : ST IoW (result Error ()) :=
  b <- is_dir SAVEFILE_DIR ;;
  _ <-? (if negb b then io (fs_create_dir_all SAVEFILE_DIR) else st_ret (Ok ())) ;;
  match multipart_start sb with
  | Some start_byte =>
      let filename := get_savefile_path name in
      _ <-? io (fs_open_create filename) ;;
      if is_sentinel sb then
        _ <-? io (file_set_len filename start_byte) ;;
        st_ret (Ok ())
      else
        _ <-? io file_seek ;;
        _ <-? io (file_write_all filename start_byte (sb_bytes sb)) ;;
        _ <-? io file_flush ;;
        st_ret (Ok ())
  | None =>
      r <- fs_write (get_savefile_path name) (sb_bytes sb) ;;
      match r with
      | Ok _ => st_ret (Ok ())
      | Err e => st_ret (Err (Io e))
      end
  end.

(** The first entry whose name ends in level-init.dat is parsed. *)
Fixpoint find_header `{ZipEnv} (entries : list (string * result Error bytes)) :
    result Error (list SaveHeaderMod) :=
  match entries with
  | [] => Err HeaderNotFound
  | (n, content) :: rest =>
      if valid_utf8 n && ends_with "level-init.dat" n then
        match content with
        | Ok b => map_err FactorioDatFileSerde (parse_save_header b)
        | Err e => Err e
        end
      else find_header rest
  end.

Definition read_header `{ZipEnv} (name : string) : ST IoW (result Error (list SaveHeaderMod)) :=
  b <-? st_map_err (λ k, Zip (zip_upstream k)) (fs_read (get_savefile_path name)) ;;
  st_ret (match zip_entries b with
          | Ok entries => find_header entries
          | Err e => Err (Zip e)
          end).
End ops.

(** ** Splitting a save into messages ([save_get] in main.rs) and storing the
    parts ([save_set], [put_savefile]) *)

(** [slice::chunks(n)], for [n > 0]; the fuel is the length of the slice. *)
Fixpoint chunks_go (fuel n : nat) (b : bytes) : list bytes :=
  match fuel, b with
  | S fuel', _ :: _ => take n b :: chunks_go fuel' n (drop n b)
  | _, _ => []
  end.
Definition chunks (n : nat) (b : bytes) : list bytes := chunks_go (length b) n b.

(** The loop of [save_get]: each chunk with its offset, then the total. *)
Fixpoint number_chunks (i : Z) (cs : list bytes) : list SaveBytes * Z :=
  match cs with
  | [] => ([], i)
  | c :: cs' => let r := number_chunks (i + Z.of_nat (length c)) cs' in
                (MkSaveBytes (Some i) c :: r.1, r.2)
  end.
Definition save_parts (n : nat) (b : bytes) : list SaveBytes :=
  let r := number_chunks 0 (chunks n b) in r.1 ++ [sentinel r.2].

(** The effect of one multipart message on the bytes of the file. *)
Definition apply_part (sb : SaveBytes) (b : bytes) : bytes :=
  match multipart_start sb with
  | Some off => if is_sentinel sb then resize_bytes (Z.to_nat off) b
                else splice (Z.to_nat off) (sb_bytes sb) b
  | None => sb_bytes sb
  end.
Definition apply_parts (sbs : list SaveBytes) (b : bytes) : bytes :=
  foldl (λ acc sb, apply_part sb acc) b sbs.

Lemma chunks_go_concat n fuel b :
  (0 < n)%nat → (length b <= fuel)%nat → concat (chunks_go fuel n b) = b.
Proof.
  intros Hn. revert b. induction fuel as [|fuel IH]; intros b Hl.
  { destruct b; simpl in *; [done|lia]. }
  destruct b as [|c b]; [done|]. cbn [chunks_go concat].
  rw IH; [by rw take_drop|]. rw length_drop. simpl in *. lia.
Qed.

Lemma chunks_go_bound n fuel b :
  (0 < n)%nat → Forall (λ c, 0 < length c <= n)%nat (chunks_go fuel n b).
Proof.
  intros Hn. revert b. induction fuel as [|fuel IH]; intros b; [constructor|].
  destruct b as [|c b]; [constructor|]. cbn [chunks_go]. constructor; [|apply IH].
  rw length_take. simpl. lia.
Qed.

Lemma resize_bytes_id b : resize_bytes (length b) b = b.
Proof. unfold resize_bytes. by rw take_ge // Nat.sub_diag app_nil_r. Qed.

(** Writing the next chunk at the end of a prefix of the file. *)
Lemma splice_prefix done_ c rest :
  ∃ rest', splice (length done_) c (done_ ++ rest) = (done_ ++ c) ++ rest'.
Proof.
  unfold splice, resize_bytes. exists (drop (length done_ + length c) (done_ ++ rest)).
  rw length_app take_app_length (_ : (_ - _)%nat = O); [|lia].
  by rw /= app_nil_r -app_assoc.
Qed.

Lemma apply_part_chunk (i : nat) c b :
  (0 < length c)%nat → apply_part (MkSaveBytes (Some (Z.of_nat i)) c) b = splice i c b.
Proof.
  intros Hc. unfold apply_part, is_sentinel. cbn. rw Nat2Z.id.
  destruct (Nat.eqb_spec (length c) 0); [lia|done].
Qed.

(** Receiving every chunk in order writes the bytes over whatever was there. *)
Lemma apply_number_chunks cs done_ rest :
  Forall (λ c, 0 < length c)%nat cs →
  let r := number_chunks (Z.of_nat (length done_)) cs in
  r.2 = Z.of_nat (length (done_ ++ concat cs)) ∧
  ∃ rest', apply_parts r.1 (done_ ++ rest) = (done_ ++ concat cs) ++ rest'.
Proof.
  intros Hc. revert done_ rest. induction Hc as [|c cs Hc _ IH]; intros done_ rest.
  { cbn. rw app_nil_r. eauto. }
  destruct (splice_prefix done_ c rest) as [rest1 Hs].
  destruct (IH (done_ ++ c) rest1) as [H2 [rest2 H1]].
  cbn [number_chunks fst snd concat]. cbn in H1, H2.
  rw length_app Nat2Z.inj_add -!app_assoc in H1 H2. rw -!app_assoc in Hs.
  split; [by rw H2 !length_app|]. exists rest2.
  change (apply_parts (?x :: ?l) ?b) with (apply_parts l (apply_part x b)).
  rw apply_part_chunk // Hs H1 -!app_assoc //.
Qed.

(** Whatever the file held before, storing all the parts leaves the save. *)
Lemma apply_save_parts n b old :
  (0 < n)%nat → apply_parts (save_parts n b) old = b.
Proof.
  intros Hn. unfold save_parts.
  destruct (apply_number_chunks (chunks n b) [] old) as [H2 [rest H1]].
  { eapply Forall_impl; [by apply (chunks_go_bound n)|]. cbn. lia. }
  cbn [length Z.of_nat app] in H1, H2. unfold apply_parts in *. rw foldl_app H1 H2.
  unfold chunks. rw chunks_go_concat //. cbn. unfold apply_part, sentinel, is_sentinel. cbn.
  rw Nat2Z.id. unfold resize_bytes. rw take_app_length length_app.
  rw (_ : (length b - (length b + length rest))%nat = O); [by rw app_nil_r|lia].
Qed.

(** ** Where a save is stored *)

Lemma get_savefile_path_simple name :
  str_has "/" name = false →
  get_savefile_path name = SAVEFILE_DIR ++ [Normal (name +:+ ".zip")].
Proof.
  intros Hs. apply join_simple; [by rw str_has_app Hs|]. rw sapp_length /=. lia.
Qed.

Lemma savefile_in name :
  str_has "/" name = false → file_in (get_savefile_path name) SAVEFILE_DIR.
Proof. intros Hs. rw get_savefile_path_simple //. apply file_in_snoc. Qed.

Section set_savefile_facts.
Context {E : IoEnv}.
Implicit Types w : IoW.

Lemma wp_set_savefile name sb Q w :
  str_has "/" name = false →
  (∀ w', stored (files w') (get_savefile_path name)
           (apply_part sb (bytes_at (files w) (get_savefile_path name))) →
     kept (get_savefile_path name) (files w) (files w') → Q (Ok ()) w') →
  (∀ e w', kept (get_savefile_path name) (files w) (files w') →
     (no_faults → ¬ writable (files w) (get_savefile_path name) SAVEFILE_DIR) →
     Q (Err e) w') →
  wp (set_savefile name sb) Q w.
Proof.
  intros Hs Hok Herr. pose proof (savefile_in _ Hs) as Hin.
  unfold set_savefile. set (p := get_savefile_path name) in *.
  pose proof Hin as (_ & Hr & _ & Hb).
  apply wp_bind_try, wp_try, (wp_ensure_dir p); [done| |].
  2: { intros e w' Hk Hn. apply Herr; [done|]. intros H [Hd _]. by apply (Hn H). }
  intros w1 Hd Hk1 Hp1. assert (bytes_at (files w1) p = bytes_at (files w) p) as Hby.
  { unfold bytes_at, node_at. by rw Hp1. }
  assert (no_faults → node_of (files w1) (resolve p) = Some Dir →
    ¬ writable (files w) p SAVEFILE_DIR) as Hw1.
  { intros _ H [_ Hnd]. by rw -Hp1 in Hnd. }
  unfold apply_part in Hok. destruct (multipart_start sb) as [off|].
  - unfold io. st_go. apply (wp_fs_open_create _ _ _ _ Hin); cbn.
    2: { intros k w2 Hw2 Hn. apply Herr; [by rw Hw2|]. intros H. by apply Hw1, Hn. }
    rw Hby. intros w2 Hs2 Hk2. pose proof (kept_trans _ _ _ _ Hk1 Hk2) as Hk.
    assert (∀ e w', ¬ no_faults → kept p (files w2) (files w') → Q (Err e) w') as Hfail.
    { intros e w' Hn Hk'. apply Herr; [by eapply kept_trans|]. by intros ?%Hn. }
    destruct (is_sentinel sb); st_go.
    + apply (wp_file_set_len _ _ _ _ _ Hb Hs2); cbn; [|by auto]. intros w3 Hs3 Hk3. st_go.
      apply Hok; [done|by eapply kept_trans].
    + apply wp_io_unit; cbn; [|intros k w' Hn Hw'; apply Hfail; [done|rw Hw'; apply kept_refl]].
      intros w3 Hw3. rw -Hw3 in Hs2 Hfail Hk. st_go.
      apply (wp_file_write_all _ _ _ _ _ _ Hb Hs2); cbn; [|by auto]. intros w4 Hs4 Hk4. st_go.
      pose proof (kept_trans _ _ _ _ Hk Hk4) as Hk'.
      apply wp_io_unit; cbn; [|intros k w' Hn Hw'; apply Hfail; [done|by rw Hw']].
      intros w5 Hw5. rw -Hw5 in Hs4 Hk'. st_go. by apply Hok.
  - st_go. apply wp_fs_write; cbn.
    + intros w' Hfr k Hf. st_go. apply Herr.
      { eapply kept_trans; [done|]. intros q f Hq. by rw Hfr. }
      intros H. specialize (Hf H). intros [_ Hnd]. rw -Hp1 in Hnd.
      destruct (pure_write_ok p (sb_bytes sb) (io_now (tick w1)) (files w1)) as [c Hc]; [done| |].
      { by rw Hr. }
      by rw Hc in Hf.
    + intros t c w' Hw' _. st_go. apply Hok.
      * by eapply stored_insert.
      * eapply kept_trans; [done|]. rw Hw'. by apply kept_insert.
Qed.
End set_savefile_facts.

(** ** The names listed *)

(** The name of the save a directory entry is. *)
Definition entry_save (n : string) : option string :=
  let p := SAVEFILE_DIR ++ [Normal n] in
  match extension p, file_stem p with
  | Some ext, Some stem => if decide (ext = "zip") then Some (from_utf8_lossy stem) else None
  | _, _ => None
  end.
Definition saved_names (m : fs) : list string := omap entry_save (children SAVEFILE_DIR m).

Section listing.
Context {E : IoEnv}.
Implicit Types w : IoW.

Lemma wp_parse_from_path n Q w :
  (∀ s w', files w' = files w → entry_save n = Some (save_name s) → Q (Ok s) w') →
  (∀ e w', files w' = files w →
     (no_faults → is_Some (node_at (files w) (SAVEFILE_DIR ++ [Normal n])) →
      entry_save n = None) → Q (Err e) w') →
  wp (parse_from_path (SAVEFILE_DIR ++ [Normal n])) Q w.
Proof.
  intros Hok Herr. unfold parse_from_path, entry_save in *. cbv zeta in *.
  set (p := SAVEFILE_DIR ++ [Normal n]) in *.
  destruct (extension p) as [ext|]; [|st_go; apply Herr; auto].
  destruct (file_stem p) as [stem|]; destruct (decide (ext = "zip"));
    [|st_go; apply Herr; auto..].
  unfold io. st_go. unfold fs_metadata. unfold wp at 1. cbn.
  unfold io_op. destruct (io_fault (tick w)) as [k|] eqn:Hk; cbn.
  { apply Herr; [done|]. intros Hn. by rw (Hn (tick w)) in Hk. }
  destruct (node_at (files w) p) as [[|f]|]; cbn; st_go; [by apply Hok..|].
  apply Herr; [done|]. intros _ [? ?]. done.
Qed.

(** The listing is the saves of the directory, in its order; a failure can
    only leave some out. *)
Lemma wp_list_entries names Q w :
  (∀ l w', files w' = files w → save_name <$> l `sublist_of` omap entry_save names →
     (no_faults → (∀ n, n ∈ names → is_Some (node_at (files w) (SAVEFILE_DIR ++ [Normal n]))) →
        save_name <$> l = omap entry_save names) → Q l w') →
  wp (list_entries names) Q w.
Proof.
  revert Q w. induction names as [|n names IH]; intros Q w HQ.
  { cbn [list_entries]. st_go. apply wp_io_op; cbn; intros; st_go; by apply HQ. }
  cbn [list_entries]. st_go. apply wp_io_unit; cbn.
  2: { intros k w1 Hn Hw1. st_go. apply HQ; [done|apply sublist_nil_l|done]. }
  intros w1 Hw1. st_go. cbn [omap list_omap] in HQ.
  apply wp_parse_from_path; rw Hw1.
  - intros s w2 Hw2 Hs. st_go. apply IH. intros l w3 Hw3 Hsub Hall. st_go.
    rw Hs in HQ. apply HQ; [congruence|by apply sublist_skip|].
    intros Hn Hm. cbn. f_equal. apply Hall; [done|]. intros n' Hn'. rw Hw2.
    apply Hm. set_solver.
  - intros e w2 Hw2 Hs. st_go. apply IH. intros l w3 Hw3 Hsub Hall. st_go.
    apply HQ; [congruence| |].
    + destruct (entry_save n); [by apply sublist_cons|done].
    + intros Hn Hm. rw (Hs Hn (Hm n ltac:(set_solver))). apply Hall; [done|].
      intros n' Hn'. rw Hw2. apply Hm. set_solver.
Qed.

Lemma wp_list_savefiles Q w :
  (∀ r w', files w' = files w →
     (∀ l, r = Ok l → save_name <$> l `sublist_of` saved_names (files w)) →
     (no_faults → node_at (files w) SAVEFILE_DIR = Some Dir →
        ∃ l, r = Ok l ∧ save_name <$> l = saved_names (files w)) → Q r w') →
  wp list_savefiles Q w.
Proof.
  intros HQ. unfold list_savefiles. st_go. apply wp_io_bool. intros b _ Hb.
  destruct b; cbn [negb]; st_go.
  2: { apply HQ; [done| |].
       - intros l [= <-]. apply sublist_nil_l.
       - intros Hn Hd. by rw Hd in Hb; specialize (Hb Hn). }
  unfold io. st_go. apply wp_fs_read_dir. cbn. unfold pure_read_dir.
  intros [names|k] Hr Hr'; st_go.
  2: { apply HQ; [done..|]. intros Hn Hd. rw Hd in Hr'. by specialize (Hr' Hn). }
  specialize (Hr names eq_refl).
  destruct (node_at (files w) SAVEFILE_DIR) as [[|]|] eqn:Hd; simplify_eq.
  cbn [map_err]. st_go. apply wp_list_entries. cbn. intros l w' Hw' Hsub Hall. st_go. apply HQ; [done| |].
  - intros l' [= <-]. exact Hsub.
  - intros Hn _. exists l. split; [done|]. apply Hall; [done|]. intros n.
    change (resolve SAVEFILE_DIR) with SAVEFILE_DIR. intros [v Hv]%elem_of_children.
    exists v. unfold node_at. exact Hv.
Qed.
End listing.

Lemma rsplit_dot_zip a : rsplit_dot (a +:+ ".zip") = Some (a, "zip").
Proof. induction a as [|c a IH]; [done|]. simpl. by rw IH. Qed.

(** A file named like a save is listed under the save's name. *)
Lemma entry_save_zip name :
  name ≠ "" → valid_utf8 name = true → entry_save (name +:+ ".zip") = Some name.
Proof.
  intros Hne Hv. unfold entry_save, extension, file_stem, file_name.
  rw last_snoc rsplit_dot_zip. destruct name as [|c name]; [done|].
  destruct (decide ("zip" = "zip")); [|done]. by rw from_utf8_lossy_valid.
Qed.

Lemma stored_listed m name b :
  str_has "/" name = false → name ≠ "" → valid_utf8 name = true →
  stored m (get_savefile_path name) b → name ∈ saved_names m.
Proof.
  intros Hs Hne Hv (f & Hf & _). unfold saved_names. apply list_elem_of_omap.
  exists (name +:+ ".zip"). split; [|by apply entry_save_zip].
  apply elem_of_children. rw get_savefile_path_simple // in Hf. exists (File f). exact Hf.
Qed.

Lemma find_save_name name l s : find_save name l = Some s → save_name s = name.
Proof.
  unfold find_save. destruct (list_find _ l) as [[i s']|] eqn:Hf; [|done]. cbn.
  intros [= ->]. by apply list_find_Some in Hf as (_ & ? & _).
Qed.

Lemma find_save_is_Some name l : is_Some (find_save name l) ↔ name ∈ (save_name <$> l).
Proof.
  unfold find_save. rw list_elem_of_fmap. split.
  - intros [s Hs]. destruct (list_find _ l) as [[i s']|] eqn:Hf; [|done].
    apply list_find_Some in Hf as (Hl & <- & _).
    exists s'. split; [done|]. by eapply list_elem_of_lookup_2.
  - intros (s & -> & Hs). destruct (list_find_elem_of (λ s', save_name s' = save_name s) l s Hs eq_refl)
      as [[i s'] Hf]. rw Hf. cbn. eauto.
Qed.

(** ** Properties *)

Section properties.
Context {E : IoEnv}.

Definition simple_name (name : string) : Prop :=
  str_has "/" name = false ∧ name ≠ "" ∧ valid_utf8 name = true.

Lemma writable_kept m m' name b :
  str_has "/" name = false →
  writable m (get_savefile_path name) SAVEFILE_DIR →
  kept (get_savefile_path name) m m' → stored m' (get_savefile_path name) b →
  writable m' (get_savefile_path name) SAVEFILE_DIR.
Proof.
  intros Hs [Hd Hf] Hk (f & Hst & _). split.
  - intros k g Hg. apply (Hd k g). apply Hk; [|done].
    intros He. apply (f_equal length) in He. rw length_take in He.
    destruct (savefile_in _ Hs) as (_ & _ & Hl & _). lia.
  - unfold node_at in Hst. by rw Hst.
Qed.

(** C17: Uploading a save in parts (the parts [save_get] produces, each stored
    by [set_savefile]) reproduces the save byte for byte, whatever the file
    held before: when every part is stored the file is the save, no other
    file changes, and when no call fails every part is stored. *)
Theorem upload_roundtrip name n b w :
  str_has "/" name = false → (0 < n)%nat →
  wp (st_mapM (set_savefile name) (save_parts n b))
     (λ rs w',
        (Forall (λ r, r = Ok ()) rs → stored (files w') (get_savefile_path name) b) ∧
        kept (get_savefile_path name) (files w) (files w') ∧
        (no_faults → writable (files w) (get_savefile_path name) SAVEFILE_DIR →
         Forall (λ r, r = Ok ()) rs)) w.
Proof.
  intros Hs Hn. set (p := get_savefile_path name).
  eapply wp_wand; [apply wp_mapM with (I := λ l ys w',
    (Forall (λ r, r = Ok ()) ys →
      bytes_at (files w') p = apply_parts l (bytes_at (files w) p) ∧
      (l ≠ [] → ∃ b', stored (files w') p b')) ∧
    kept p (files w) (files w') ∧
    (no_faults → writable (files w) p SAVEFILE_DIR →
     Forall (λ r, r = Ok ()) ys ∧ writable (files w') p SAVEFILE_DIR))|].
  - split_and!; [|apply kept_refl|done]. intros _. by split.
  - intros sb l1 l2 w1 _ ys (H1 & H2 & H3). apply wp_set_savefile; [done| |].
    + intros w2 Hst Hk. split_and!.
      * intros [Hys _]%Forall_app. split; [|eauto].
        rw (stored_bytes_at _ _ _ Hst) -/p. destruct (H1 Hys) as [-> _].
        unfold apply_parts. by rw foldl_app.
      * by eapply kept_trans.
      * intros Hnf Hw. destruct (H3 Hnf Hw) as [? ?]. split.
        { apply Forall_app; auto. }
        by eapply writable_kept.
    + intros e w2 Hk Hno. split_and!.
      * intros [_ Hf]%Forall_app. by inversion Hf.
      * by eapply kept_trans.
      * intros Hnf Hw. destruct (H3 Hnf Hw) as [_ Hw']. by destruct (Hno Hnf).
  - cbn. intros rs w' (H1 & H2 & H3). split_and!; [|done|intros Hnf Hw; by destruct (H3 Hnf Hw)].
    intros Hrs. destruct (H1 Hrs) as [Hb Hst]. rw apply_save_parts // in Hb.
    destruct Hst as [b' Hb'].
    { unfold save_parts. by destruct (number_chunks _ _).1. }
    by rw -Hb (stored_bytes_at _ _ _ Hb').
Qed.

Lemma wp_get_savefile name b w :
  simple_name name → stored (files w) (get_savefile_path name) b →
  wp (get_savefile name)
     (λ r w', files w' = files w ∧
        (∀ o, r = Ok o → o = Some (SaveBytes_new b) ∨ o = None) ∧
        (no_faults → node_at (files w) SAVEFILE_DIR = Some Dir →
         r = Ok (Some (SaveBytes_new b)))) w.
Proof.
  intros (Hs & Hne & Hv) Hst. pose proof (stored_listed _ _ _ Hs Hne Hv Hst) as Hin.
  unfold get_savefile. st_go. apply wp_io_bool. intros d _ Hd. destruct d; cbn; st_go.
  2: { split_and!; [done|intros o [= <-]; auto|]. intros Hn Hdir. rw Hdir in Hd.
       by specialize (Hd Hn). }
  apply wp_list_savefiles. cbn. intros [l|e] w1 Hw1 _ Hl; st_go.
  2: { split_and!; [done|done|]. intros Hn Hdir. by destruct (Hl Hn Hdir) as (l & ? & _). }
  destruct (find_save name l) as [s|] eqn:Hf; st_go.
  2: { split_and!; [done|intros o [= <-]; auto|]. intros Hn Hdir.
       destruct (Hl Hn Hdir) as (l' & [= <-] & Hl'). rw -Hl' in Hin.
       apply find_save_is_Some in Hin as [s Hs']. congruence. }
  rw (find_save_name _ _ _ Hf).
  unfold io. st_go. destruct Hst as (f & Hst & <-).
  apply wp_io_op; cbn; rw Hw1.
  - intros k Hk. split_and!; [done|done|]. intros Hn. by rw (Hn (tick w1)) in Hk.
  - rw (pure_read_at _ _ _ Hst). cbn. st_go. split_and!; [done| |done].
    intros o [= <-]. auto.
Qed.

(** A stored save is found: its name is in the listing, and
    [get_savefile] returns its bytes, when no call fails; under failures
    [get_savefile] returns those bytes, nothing, or an error, never other
    bytes. *)
Theorem get_savefile_stored name b w :
  simple_name name → stored (files w) (get_savefile_path name) b →
  wp (get_savefile name)
     (λ r w', files w' = files w ∧
        (∀ o, r = Ok o → o = Some (SaveBytes_new b) ∨ o = None) ∧
        (no_faults → node_at (files w) SAVEFILE_DIR = Some Dir →
         r = Ok (Some (SaveBytes_new b)))) w.
Proof. exact (wp_get_savefile name b w). Qed.

(** The listing is sound and complete: it names only saves in the
    directory, in its order; with no failures it names every one, and
    [exists_savefile] decides membership. *)
Theorem exists_savefile_spec name w :
  wp (exists_savefile name)
     (λ r w', files w' = files w ∧
        (r = Ok true → name ∈ saved_names (files w)) ∧
        (no_faults → node_at (files w) SAVEFILE_DIR = Some Dir →
         r = Ok (bool_decide (name ∈ saved_names (files w))))) w.
Proof.
  unfold exists_savefile. st_go. apply wp_list_savefiles. intros [l|e] w1 Hw1 Hsub Hl; st_go.
  2: { split_and!; [done|done|]. intros Hn Hd. by destruct (Hl Hn Hd) as (l & ? & _). }
  specialize (Hsub l eq_refl).
  split_and!; [done| |].
  - destruct (find_save name l) as [s|] eqn:Hf; [|done]. intros _.
    eapply elem_of_sublist; [|exact Hsub]. apply find_save_is_Some. by rw Hf.
  - intros Hn Hd. destruct (Hl Hn Hd) as (l' & [= <-] & <-).
    destruct (find_save name l) as [s|] eqn:Hf.
    + rw bool_decide_true //. apply find_save_is_Some. by rw Hf.
    + rw bool_decide_false //. intros [s ?]%find_save_is_Some. congruence.
Qed.

(** Where a save goes: a name without [/] is a file directly in the
    saves directory; a name with [..] or an absolute one is written
    outside of it, since nothing checks the name. *)
Theorem savefile_path_scope :
  (∀ name, str_has "/" name = false →
     file_in (get_savefile_path name) SAVEFILE_DIR) ∧
  (∃ name, under (resolve SAVEFILE_DIR) (resolve (get_savefile_path name)) = false ∧
     ∀ b w, no_faults → node_of (files w) (resolve (parse_path "install/factorio")) = Some Dir →
       node_of (files w) (resolve (get_savefile_path name)) = None →
       node_at (files w) SAVEFILE_DIR = Some Dir →
       wp (set_savefile name (SaveBytes_new b)) (λ r w', r = Ok () ∧
         stored (files w') (parse_path "install/factorio/x.zip") b) w).
Proof.
  split; [apply savefile_in|]. exists "../../install/factorio/x". split; [by vm_compute|].
  intros b w Hn Hd Hnone Hs. unfold set_savefile. st_go. apply wp_io_bool.
  intros d _ Hd'. rw Hs in Hd'. rw (Hd' Hn). cbn. st_go. apply wp_fs_write; cbn.
  - intros w' _ k Hf. specialize (Hf Hn).
    destruct (pure_write_ok (get_savefile_path "../../install/factorio/x") b
      (io_now (S (tick w))) (files w)) as [c Hc]; [by rw Hnone|exact Hd|].
    by rw Hc in Hf.
  - intros t c w' Hw' _. st_go. split; [done|]. eexists. unfold node_at. rw Hw'.
    rw node_of_insert; [|by vm_compute]. case_decide as Hp; [done|by destruct Hp; vm_compute].
Qed.
End properties.
