(* ===== verification/Downloader.v ===== *)
(** * Downloader: src/src/agent/util/downloader.rs

    A download is answered from a cache directory when the cached file is at
    most a day old, and from the network otherwise.  Times are nanoseconds
    since the Unix epoch. *)

From S2P Require Import Prelude Text Io Errors.

Open Scope st_scope.

(** [reqwest]: what a request is answered with. *)
Record HttpResponse := MkHttpResponse {
  error_for_status : option string;   (** the error of a 4xx or 5xx status *)
  http_body : result string bytes;
}.

(** The network and the directory [std::env::temp_dir()]. *)
Class NetEnv := {
  net_get : nat → string → result string HttpResponse;
  temp_dir : path;
}.

Definition ONE_DAY : Z := 60 * 60 * 24 * 1000000000.
Definition DURATION_MAX : Z := u64_max * 1000000000.

Section ops.
Context {E : IoEnv} {N : NetEnv}.

(** [reqwest::get] *)
Definition http_get (uri : string) : ST IoW (result Error HttpResponse) := λ w,
  (map_err Reqwest (net_get (tick w) uri), MkIo (files w) (S (tick w))).

Definition cache_dir : path := join temp_dir "fctrl_downloader_cache".

Definition get_cache_path : ST IoW (result Error path) :=
  _ <-? io (fs_create_dir_all cache_dir) ;;
  st_ret (Ok cache_dir).

Definition purge (id : string) : ST IoW (result Error ()) :=
  d <-? get_cache_path ;;
  r <- fs_remove_file (join d id) ;;
  st_ret (match r with
          | Err e => if decide (e = NotFound) then Ok () else Err (Io e)
          | Ok _ => Ok ()
          end).

(** [SystemTime::elapsed], an error when the time is in the future. *)
Definition elapsed (created : Z) : ST IoW (option Z) :=
  t <- now ;;
  st_ret (if decide (created <= t)%Z then Some (t - created)%Z else None).

Definition read_from_cache (id : string) : ST IoW (result Error (option bytes)) :=
  d <-? get_cache_path ;;
  let cached_item_path := join d id in
  m <- fs_metadata cached_item_path ;;
  match m with
  | Ok m =>
      e <- elapsed (default 0%Z (md_created m)) ;;
      if decide (ONE_DAY < default DURATION_MAX e)%Z then
        _ <-? purge id ;;
        st_ret (Ok None)
      else
        r <- fs_read cached_item_path ;;
        st_ret (match r with
                | Ok contents => Ok (Some contents)
                | Err e => if decide (e = NotFound) then Ok None else Err (Io e)
                end)
  | Err _ => st_ret (Ok None)
  end.

Definition write_to_cache (id : string) (b : bytes) : ST IoW (result Error ()) :=
  d <-? get_cache_path ;;
  _ <-? io (fs_write (join d id) b) ;;
  st_ret (Ok ()).

Definition download (id uri : string) : ST IoW (result Error bytes) :=
  cached <-? read_from_cache id ;;
  match cached with
  | Some cached_bytes => st_ret (Ok cached_bytes)
  | None =>
      response <-? http_get uri ;;
      match error_for_status response with
      | None =>
          match http_body response with
          | Ok b => _ <-? write_to_cache id b ;; st_ret (Ok b)
          | Err e => st_ret (Err (Reqwest e))
          end
      | Some e => st_ret (Err (Reqwest e))
      end
  end.
End ops.

(** ** What a download returns *)

Section facts.
Context {E : IoEnv} {N : NetEnv}.
Implicit Types w : IoW.

Lemma wp_get_cache_path Q w :
  (∀ w', same_files (files w) (files w') →
     (∀ q, ¬ q `prefix_of` resolve cache_dir → node_of (files w') q = node_of (files w) q) →
     node_of (files w') (resolve cache_dir) = Some Dir → Q (Ok cache_dir) w') →
  (∀ e w', same_files (files w) (files w') →
     (no_faults → ¬ dir_ready (files w) cache_dir) → Q (Err e) w') →
  wp get_cache_path Q w.
Proof.
  intros Hok Herr. unfold get_cache_path, io. st_go. apply wp_mkdir. cbn.
  intros [[]|k] m' Hs Hl Hd Hn; cbn; [st_go; by apply Hok; auto|].
  apply Herr; [done|]. intros Hf Hr. by specialize (Hn Hf Hr).
Qed.

Definition cached (m : fs) (id : string) (f : file) : Prop :=
  node_at m (join cache_dir id) = Some (File f).

Lemma wp_purge id Q w :
  file_in (join cache_dir id) cache_dir →
  (∀ r w', kept (join cache_dir id) (files w) (files w') → Q r w') →
  wp (purge id) Q w.
Proof.
  intros (_ & _ & _ & Hb) HQ. unfold purge. st_go.
  apply wp_get_cache_path; [|by intros e w1 Hs _; apply HQ; apply same_kept].
  intros w1 Hs%(same_kept (join cache_dir id)) _ _. st_go. apply wp_fs_remove_file; cbn.
  - intros w' Hw' _. st_go. apply HQ. rw Hw' Hs. by apply kept_delete.
  - intros k w' Hw' _ _. st_go. apply HQ. by rw Hw'.
Qed.

Lemma wp_elapsed c Q w :
  (∀ o, Q o (MkIo (files w) (S (tick w)))) → wp (elapsed c) Q w.
Proof. intros H. apply H. Qed.

(** What the cache answers is the cached file; only that file may change. *)
Lemma wp_read_from_cache id Q w :
  file_in (join cache_dir id) cache_dir →
  (∀ b w', stored (files w) (join cache_dir id) b → same_files (files w) (files w') →
     Q (Ok (Some b)) w') →
  (∀ w', kept (join cache_dir id) (files w) (files w') → Q (Ok None) w') →
  (∀ e w', kept (join cache_dir id) (files w) (files w') → Q (Err e) w') →
  wp (read_from_cache id) Q w.
Proof.
  intros Hin Hsome Hnone Herr. unfold read_from_cache. st_go.
  set (p := join cache_dir id) in *.
  apply wp_get_cache_path; [|by intros e w1 Hs _; apply Herr; apply same_kept].
  intros w1 Hs _ _. pose proof (same_kept p _ _ Hs) as Hk. st_go.
  apply wp_fs_metadata. intros [md|k] _ _; st_go; [|by apply Hnone].
  apply wp_elapsed. intros age. cbn. destruct (decide (_ < _)%Z); st_go.
  - apply wp_purge; [done|]. cbn. intros [[]|e] w2 Hk2; st_go; [apply Hnone|apply Herr]; by etrans.
  - apply wp_fs_read. cbn. intros [b|e] Hr _; st_go.
    + apply Hsome; [|done]. rw Hs. by apply pure_read_stored, Hr.
    + destruct (decide (e = NotFound)); [by apply Hnone|by apply Herr].
Qed.

(** C38: What a download returns, whatever fails: the bytes that were cached
    under its id, or the body of a successful response to its URL, which is
    then what the cache holds; no other file changes. *)
Theorem download_source id uri w :
  str_has "/" id = false → (3 <= String.length id)%nat →
  wp (download id uri)
     (λ r w', kept (join cache_dir id) (files w) (files w') ∧
        ∀ b, r = Ok b →
          stored (files w') (join cache_dir id) b ∧
          (stored (files w) (join cache_dir id) b ∨
           ∃ t resp, net_get t uri = Ok resp ∧ error_for_status resp = None ∧
             http_body resp = Ok b)) w.
Proof.
  intros Hs Hl. pose proof (join_file_in cache_dir id Hs Hl) as Hin.
  unfold download. set (p := join cache_dir id) in *. st_go.
  apply wp_read_from_cache; [done|..]; fold p.
  { intros b w1 Hst Hk. st_go. split; [by apply same_kept|].
    intros b' [= <-]. split; [|by left]. by rw Hk in Hst. }
  2: { intros e w1 Hk. by split. }
  intros w1 Hk. st_go. unfold wp at 1, http_get. cbn.
  destruct (net_get (tick w1) uri) as [resp|e] eqn:Hresp; cbn; [|by split].
  destruct (error_for_status resp) as [e|] eqn:He; st_go; [by split|].
  destruct (http_body resp) as [b|e] eqn:Hb; st_go; [|by split].
  unfold write_to_cache. st_go.
  apply wp_get_cache_path.
  2: { intros e w2 Hs2 _. split; [|done]. etrans; [done|]. by apply same_kept. }
  intros w2 Hs2%(same_kept p) _ _. cbn in Hs2. unfold io. st_go. apply wp_fs_write; cbn.
  - intros w3 Hw3 k _. split; [|done]. rw Hk Hs2. intros q f Hq. by rw Hw3.
  - intros t c w3 Hw3 Hbase. st_go. split.
    + rw Hk Hs2 Hw3. by apply kept_insert.
    + intros b' [= <-]. split.
      * by eapply stored_insert.
      * right. eauto 10.
Qed.

(** Within a day the cache answers and the network is not asked: with no
    failures a download whose file is cached returns its bytes. *)
Theorem download_cached id uri f c w :
  no_faults → dir_ready (files w) cache_dir →
  str_has "/" id = false → (3 <= String.length id)%nat →
  cached (files w) id f → f_created f = Some c → (∀ n, c <= io_now n <= c + ONE_DAY)%Z →
  wp (download id uri)
     (λ r w', r = Ok (f_bytes f) ∧ same_files (files w) (files w')) w.
Proof.
  intros Hn Hd Hs Hl Hf Hc Hage. pose proof (join_file_in cache_dir id Hs Hl) as Hin.
  unfold download, read_from_cache. st_go. apply wp_get_cache_path.
  2: { intros e w1 _ H. by specialize (H Hn). }
  intros w1 Hs1 _ _. st_go. assert (cached (files w1) id f) as Hf1 by by apply Hs1.
  unfold cached in Hf1. apply wp_fs_metadata. intros r _ Hr. specialize (Hr Hn).
  rw Hf1 in Hr. rw Hr. unfold elapsed. st_go. unfold wp at 1, now. cbn.
  rw Hc. cbn. specialize (Hage (S (tick w1))).
  rw decide_True; [|lia]. st_go. cbn. rw decide_False; [|lia]. st_go.
  apply wp_fs_read. intros r' _ Hr'. specialize (Hr' Hn). cbn in Hr'.
  rw (pure_read_at _ _ _ Hf1) in Hr'. rw Hr'. st_go. done.
Qed.

(** Nodes off the path of the cached file are left alone. *)
Definition off_cache (id : string) (m m' : fs) : Prop :=
  ∀ q, ¬ q `prefix_of` resolve (join cache_dir id) → node_of m' q = node_of m q.

#[local] Instance off_cache_preorder id : PreOrder (off_cache id).
Proof. split; [by intros m q|]. intros m1 m2 m3 H1 H2 q Hq. by rw H2 // H1. Qed.

Lemma off_cache_mkdir id m m' :
  file_in (join cache_dir id) cache_dir →
  (∀ q, ¬ q `prefix_of` resolve cache_dir → node_of m' q = node_of m q) → off_cache id m m'.
Proof.
  intros (_ & Hr & _ & Hb) H q Hq. apply H. intros Hp. apply Hq. etrans; [exact Hp|].
  rw -Hr. destruct (resolve (join cache_dir id)) as [|c p] eqn:Hc using rev_ind; [done|].
  rw removelast_last. by apply prefix_app_r.
Qed.

Lemma wp_get_cache_path_off id Q w :
  file_in (join cache_dir id) cache_dir →
  (∀ r w', off_cache id (files w) (files w') → (∀ d, r = Ok d → d = cache_dir) → Q r w') →
  wp get_cache_path Q w.
Proof.
  intros Hin HQ. unfold get_cache_path, io. st_go. apply wp_mkdir. cbn.
  intros [[]|k] m' _ Hl _ _; cbn; st_go; apply HQ; cbn; try done; [| |].
  - by apply off_cache_mkdir.
  - by intros d [= <-].
  - by apply off_cache_mkdir.
Qed.

Lemma off_cache_self id m m' :
  (∀ q, q ≠ resolve (join cache_dir id) → node_of m' q = node_of m q) → off_cache id m m'.
Proof. intros H q Hq. apply H. intros ->. by apply Hq. Qed.

Lemma wp_purge_off id Q w :
  file_in (join cache_dir id) cache_dir →
  (∀ r w', off_cache id (files w) (files w') → Q r w') → wp (purge id) Q w.
Proof.
  intros Hin HQ. pose proof Hin as (_ & _ & _ & Hb). unfold purge. st_go.
  apply (wp_get_cache_path_off id); [done|]. intros [d|e] w1 Hw1 Hd; [|by apply HQ].
  rw (Hd d eq_refl). st_go. apply wp_fs_remove_file; cbn.
  - intros w' Hw' _. st_go. apply HQ. etrans; [done|]. apply off_cache_self.
    intros q Hq. rw Hw' node_of_delete // decide_False //.
  - intros k w' Hw' _ _. st_go. apply HQ. by rw Hw'.
Qed.

Lemma wp_read_from_cache_off id Q w :
  file_in (join cache_dir id) cache_dir →
  (∀ r w', off_cache id (files w) (files w') → Q r w') → wp (read_from_cache id) Q w.
Proof.
  intros Hin HQ. unfold read_from_cache. st_go.
  apply (wp_get_cache_path_off id); [done|]. intros [d|e] w1 Hw1 Hd; [|by apply HQ].
  rw (Hd d eq_refl). st_go.
  apply wp_fs_metadata. intros [md|k] _ _; st_go; [|by apply HQ].
  apply wp_elapsed. intros age. cbn. destruct (decide (_ < _)%Z); st_go.
  - apply wp_purge_off; [done|]. cbn. intros [[]|e] w2 Hw2; st_go; apply HQ; by etrans.
  - apply wp_fs_read. cbn. intros [b|k] _ _; st_go; by apply HQ.
Qed.

Lemma wp_download_off id uri Q w :
  file_in (join cache_dir id) cache_dir →
  (∀ r w', off_cache id (files w) (files w') → Q r w') → wp (download id uri) Q w.
Proof.
  intros Hin HQ. unfold download. st_go. apply wp_read_from_cache_off; [done|].
  intros [[b|]|e] w2 Hw2; st_go; [by apply HQ| |by apply HQ].
  unfold wp at 1, http_get. cbn.
  destruct (net_get (tick w2) uri) as [resp|e]; cbn; [|by apply HQ].
  destruct (error_for_status resp) as [e|]; st_go; [by apply HQ|].
  destruct (http_body resp) as [b|e]; st_go; [|by apply HQ].
  unfold write_to_cache. st_go. apply (wp_get_cache_path_off id); [done|].
  cbn. intros [d'|e] w3 Hw3 Hd'; [|apply HQ; by etrans].
  rw (Hd' d' eq_refl). unfold io. st_go. apply wp_fs_write; cbn.
  - intros w4 Hw4 k _. apply HQ. etrans; [done|]. etrans; [done|]. by apply off_cache_self.
  - intros t c w4 Hw4 Hb. st_go. apply HQ. etrans; [done|]. etrans; [done|].
    apply off_cache_self. intros q Hq. rw Hw4 node_of_insert // decide_False //.
Qed.
End facts.
