(* ===== verification/Mods.v ===== *)
(** * Mods: src/src/agent/server/mods.rs

    The mods directory: mod-list.json, mod-settings.dat and one zip file per
    mod, named after the mod and its version. *)

From S2P Require Import Prelude Text Regex Schema Io Errors Settings Downloader.

Open Scope st_scope.

Definition MOD_LIST_PATH : path := join MOD_DIR "mod-list.json".
Definition MOD_SETTINGS_PATH : path := join MOD_DIR "mod-settings.dat".

Record Mod := MkMod { mod_name : string; mod_version : string }.

#[export] Instance Mod_eq : EqDecision Mod.
Proof. solve_decision. Defined.
#[export] Instance Mod_countable : Countable Mod.
Proof.
  by refine (inj_countable' (λ m, (mod_name m, mod_version m)) (λ p, MkMod p.1 p.2) _); intros [].
Defined.

Module ModDelta.
Record t := Mk { install : gset Mod; delete : gset Mod }.
End ModDelta.

Record ModListElem := MkModListElem {
  elem_name : string;
  elem_enabled : bool;
  elem_version : option string;
}.
Definition ModList := list ModListElem.

#[export] Instance ModListElem_eq : EqDecision ModListElem.
Proof. solve_decision. Defined.

(** The mod settings file is parsed and printed by [factorio_file_parser]. *)
Class SettingsFile (S : Type) := {
  settings_try_from : bytes → result string S;
  settings_try_into : S → result string bytes;
}.

(** The answer of the mod portal, as [factorio_mod_portal_api] reads it. *)
Record Release := MkRelease { r_version : string; r_download_url : string }.
Class ModPortal := { mod_info_from_json : bytes → result string (list Release) }.

(** The order in which the runtime runs the spawned tasks: which of them runs
    next, and how many have run before the task that spawned them goes on. *)
Class TaskEnv := { task_keys : nat → list nat; task_cut : nat → nat }.

(** The order chosen by a list of keys; every permutation is one. *)
Fixpoint reorder {A} (keys : list nat) (l : list A) : list A :=
  match keys, l with
  | k :: keys', _ :: _ =>
      let i := Nat.modulo k (length l) in
      match l !! i with
      | Some x => x :: reorder keys' (base.delete i l)
      | None => l
      end
  | _, _ => l
  end.

Module ModManager.
Section ops.
Context {E : IoEnv} {N : NetEnv} {R : RegexEngine} {T : TaskEnv} {P : ModPortal}.
Context {S : Type} {SF : SettingsFile S} {C : Codec ModList}.

Record t := Mk {
  dlcs : gset Dlc;
  mods : list Mod;
  settings : option S;
  mm_path : path;
}.

Definition calculate_mod_delta (currently_installed desired_state : list Mod) : ModDelta.t :=
  let mods_to_install := foldl
    (λ acc m, if decide (m ∈ currently_installed) then acc ∖ {[m]} else acc)
    (list_to_set desired_state : gset Mod) desired_state in
  let mods_to_delete := foldl
    (λ acc m, if decide (m ∉ desired_state) then {[m]} ∪ acc else acc)
    (∅ : gset Mod) currently_installed in
  ModDelta.Mk mods_to_install mods_to_delete.

Definition try_from_filename (s : string) : option Mod :=
  match captures MOD_FILENAME_RE s with
  | Some (name :: version :: _) => Some (MkMod name version)
  | _ => None
  end.

Definition read_dlcs_from_mod_list (mod_list : ModList) : result Error (gset Dlc) :=
  let dlcs := foldl (λ acc e,
    match Dlc_from_str (elem_name e) with
    | Some dlc_name => if elem_enabled e then {[dlc_name]} ∪ acc else acc
    | None => acc
    end) (∅ : gset Dlc) mod_list in
  if decide (Base ∈ dlcs) then Ok dlcs else Err MalformedModList.

(** [impl From<T: Borrow<ModManager>> for ModList] *)
Definition ModList_from (m : t) : ModList :=
  ((λ d, MkModListElem (Dlc_to_string d) true None) <$> elements (dlcs m)) ++
  ((λ x, MkModListElem (mod_name x) true (Some (mod_version x))) <$> mods m).

(** [while let Some(entry) = entries.next_entry().await?] *)
Fixpoint mod_entries (names : list string) : ST IoW (result Error (list string)) :=
  _ <-? io next_entry ;;
  match names with
  | [] => st_ret (Ok [])
  | n :: names' =>
      rest <-? mod_entries names' ;;
      let p := MOD_DIR ++ [Normal n] in
      st_ret (Ok (if decide (p ≠ MOD_LIST_PATH ∧ p ≠ MOD_SETTINGS_PATH)
                  then from_utf8_lossy n :: rest else rest))
  end.

Definition read_settings : ST IoW (result Error (option S)) :=
  b <- is_file MOD_SETTINGS_PATH ;;
  if b then
    bytes <-? io (fs_read MOD_SETTINGS_PATH) ;;
    match settings_try_from bytes with
    | Ok s => st_ret (Ok (Some s))
    | Err e => st_ret (Err (FactorioDatFileSerde e))
    end
  else st_ret (Ok None).

Definition read : ST IoW (result Error (option t)) :=
  b <- is_dir MOD_DIR ;;
  if negb b then st_ret (Ok None)
  else
    mod_list_json <-? io (fs_read_to_string MOD_LIST_PATH) ;;
    match dec mod_list_json with
    | Err e => st_ret (Err (Json e))
    | Ok mod_list =>
        let dlcs := match read_dlcs_from_mod_list mod_list with
                    | Ok dlcs => dlcs
                    | Err _ => {[Base]}
                    end in
        entries <-? io (fs_read_dir MOD_DIR) ;;
        mod_zip_names <-? mod_entries entries ;;
        let mods := omap try_from_filename mod_zip_names in
        settings <-? read_settings ;;
        st_ret (Ok (Some (Mk dlcs mods settings MOD_DIR)))
    end.

Definition apply_metadata_only (m : t) : ST IoW (result Error ()) :=
  _ <-? io (fs_create_dir_all MOD_DIR) ;;
  match enc (ModList_from m) with
  | Err e => st_ret (Err (Json e))
  | Ok mod_list_json =>
      _ <-? io (fs_write MOD_LIST_PATH (bytes_of mod_list_json)) ;;
      match settings m with
      | Some settings =>
          match settings_try_into settings with
          | Err e => st_ret (Err (FactorioDatFileSerde e))
          | Ok bytes =>
              _ <-? io (fs_write MOD_SETTINGS_PATH bytes) ;;
              st_ret (Ok ())
          end
      | None => st_ret (Ok ())
      end
  end.

Definition read_or_apply_default : ST IoW (result Error t) :=
  o <-? read ;;
  match o with
  | Some m => st_ret (Ok m)
  | None =>
      let ret := Mk {[Base]} [] None MOD_DIR in
      _ <-? apply_metadata_only ret ;;
      st_ret (Ok ret)
  end.

Definition short_query_mod (mod_to_query : Mod) : ST IoW (result Error (list Release)) :=
  response <-? http_get ("https://mods.factorio.com/api/mods/" +:+ mod_name mod_to_query) ;;
  match error_for_status response with
  | Some e => st_ret (Err (Reqwest e))
  | None =>
      match http_body response with
      | Err e => st_ret (Err (Reqwest e))
      | Ok b => st_ret (map_err Reqwest (mod_info_from_json b))
      end
  end.

(** [format!("{}_{}.zip", name, version)] *)
Definition mod_filename (m : Mod) : string :=
  mod_name m +:+ "_" +:+ mod_version m +:+ ".zip".

Definition download_mod (m : Mod) (destination_dir : path) (secrets : Secrets.t) :
    ST IoW (result Error ()) :=
  releases <-? short_query_mod m ;;
  match list_find (λ r, r_version r = mod_version m) releases with
  | Some (_, r) =>
      let download_url := "https://mods.factorio.com/" +:+ r_download_url r +:+ "?username=" +:+
        Secrets.username secrets +:+ "&token=" +:+ Secrets.token secrets in
      let filename := mod_filename m in
      let out_file := join destination_dir filename in
      bytes <-? download filename download_url ;;
      _ <-? io (fs_write out_file bytes) ;;
      st_ret (Ok ())
  | None => st_ret (Err (ModNotFound (mod_name m) (mod_version m)))
  end.

(** The tasks [apply] spawns, a set of which has run in a given order. *)
Definition apply_tasks (m : t) (secrets : Secrets.t) (d : ModDelta.t) :
    list (ST IoW (result Error ())) :=
  ((λ x, download_mod x (mm_path m) secrets) <$> elements (ModDelta.install d)) ++
  ((λ x, io (fs_remove_file (join (mm_path m) (mod_filename x)))) <$> elements (ModDelta.delete d)).

Definition run_tasks (l : list (nat * ST IoW (result Error ()))) :
    ST IoW (list (nat * result Error ())) :=
  st_mapM (λ it, r <- it.2 ;; st_ret (it.1, r)) l.

(** [future::join_all(tasks)]: the failures, in the order of the tasks. *)
Definition join_errors (n : nat) (results : list (nat * result Error ())) : list Error :=
  omap (λ i, match list_find (λ r, r.1 = i) results with
             | Some (_, (_, Err e)) => Some e
             | _ => None
             end) (seq 0 n).

(** The tasks run in any order, some of them before the metadata is written
    and the rest after it, each as one step; when the metadata cannot be
    written the code leaves and the rest still run, on their own. *)
Definition apply (m : t) (secrets : Secrets.t) : ST IoW (result Error ()) :=
  cur <-? read ;;
  let currently_installed := match cur with Some c => mods c | None => [] end in
  let delta := calculate_mod_delta currently_installed (mods m) in
  let tasks := apply_tasks m secrets delta in
  n <- st_gets tick ;;
  let order := reorder (task_keys n) (imap pair tasks) in
  early <- run_tasks (take (task_cut n) order) ;;
  metadata <- apply_metadata_only m ;;
  late <- run_tasks (drop (task_cut n) order) ;;
  _ <-? st_ret metadata ;;
  let errors := join_errors (length tasks) (early ++ late) in
  st_ret (match errors with [] => Ok () | _ => Err (Aggregate errors) end).
End ops.
Arguments t S : clear implicits.
Arguments Mk {S}.
End ModManager.

(** ** The delta *)

Import ModManager.

(** Removing, or adding, the elements of a list that satisfy a predicate. *)
Lemma foldl_remove `{Countable A} (P : A → Prop) `{!∀ x, Decision (P x)} (l : list A) (X : gset A) x :
  x ∈ foldl (λ acc m, if decide (P m) then acc ∖ {[m]} else acc) X l ↔ x ∈ X ∧ ¬ (x ∈ l ∧ P x).
Proof.
  revert X. induction l as [|m l IH]; intros X; cbn [foldl].
  - rw elem_of_nil. tauto.
  - rw IH elem_of_cons. destruct (decide (P m)).
    + rw elem_of_difference elem_of_singleton. destruct (decide (x = m)); subst; tauto.
    + destruct (decide (x = m)); subst; tauto.
Qed.

Lemma foldl_add `{Countable A} (P : A → Prop) `{!∀ x, Decision (P x)} (l : list A) (X : gset A) x :
  x ∈ foldl (λ acc m, if decide (P m) then {[m]} ∪ acc else acc) X l ↔ x ∈ X ∨ (x ∈ l ∧ P x).
Proof.
  revert X. induction l as [|m l IH]; intros X; cbn [foldl].
  - rw elem_of_nil. tauto.
  - rw IH elem_of_cons. destruct (decide (P m)).
    + rw elem_of_union elem_of_singleton. destruct (decide (x = m)); subst; tauto.
    + destruct (decide (x = m)); subst; tauto.
Qed.

Lemma delta_install cur des :
  ModDelta.install (calculate_mod_delta cur des) = list_to_set des ∖ list_to_set cur.
Proof.
  apply set_eq. intros x. cbn [ModDelta.install calculate_mod_delta].
  rw (foldl_remove (λ m, m ∈ cur)) elem_of_difference !elem_of_list_to_set. tauto.
Qed.

Lemma delta_delete cur des :
  ModDelta.delete (calculate_mod_delta cur des) = list_to_set cur ∖ list_to_set des.
Proof.
  apply set_eq. intros x. cbn [ModDelta.delete calculate_mod_delta].
  rw (foldl_add (λ m, m ∉ des)) elem_of_difference !elem_of_list_to_set.
  by rw elem_of_empty; tauto.
Qed.

(** The delta is the two set differences, it never installs and deletes the
    same mod, and applying it to what is installed gives what is desired. *)
Theorem calculate_mod_delta_spec cur des :
  let d := calculate_mod_delta cur des in
  ModDelta.install d = list_to_set des ∖ list_to_set cur ∧
  ModDelta.delete d = list_to_set cur ∖ list_to_set des ∧
  ModDelta.install d ## ModDelta.delete d ∧
  (list_to_set cur ∪ ModDelta.install d) ∖ ModDelta.delete d = (list_to_set des : gset Mod).
Proof.
  cbn zeta. rw delta_install delta_delete. split_and!; [done..| |].
  { intros x. rw !elem_of_difference. tauto. }
  apply set_eq. intros x. rw !elem_of_difference elem_of_union elem_of_difference !elem_of_list_to_set.
  destruct (decide (x ∈ cur)), (decide (x ∈ des)); tauto.
Qed.

(** ** File names *)

(** Digits, dots and digits as the pattern has them, in ASCII. *)
Definition version_ok (v : string) : Prop :=
  ∃ a b c, v = a +:+ "." +:+ b +:+ "." +:+ c ∧
    Forall (λ d, d ≠ "" ∧ str_all is_digit d = true) [a; b; c].

Definition mod_ok (m : Mod) : Prop :=
  mod_name m ≠ "" ∧ str_has newline (mod_name m) = false ∧ version_ok (mod_version m) ∧
  valid_utf8 (mod_filename m) = true ∧ str_has "/" (mod_filename m) = false.

Section filenames.
Context {R : RegexEngine} {ud : string → Prop} {L : RegexLaws ud}.

Lemma many_digits d : d ≠ "" → str_all is_digit d = true → many_of ud CDigit d.
Proof.
  induction d as [|c d IH]; [done|]. intros _ [Hc Hd]%andb_true_iff.
  destruct (decide (d = "")) as [->|Hne]; [apply many_one; by constructor|].
  apply (many_more ud CDigit (String c "") d); [by constructor|auto].
Qed.

Lemma many_any s : s ≠ "" → str_has newline s = false → many_of ud CAny s.
Proof.
  unfold str_has. induction s as [|c s IH]; [done|]. intros _. simpl.
  rw negb_false_iff. intros [Hc Hs]%andb_true_iff.
  destruct (decide (s = "")) as [->|Hne]; [apply many_one; by constructor|].
  apply (many_more ud CAny (String c "") s); [by constructor|].
  apply IH; [done|]. by rw negb_false_iff.
Qed.

Lemma many_digits_no c d :
  is_digit c = false → byte_in 0 127 c = true → many_of ud CDigit d → str_has c d = false.
Proof.
  intros Hc Ha. assert (∀ x, one_of ud CDigit x → str_has c x = false) as H1.
  { intros x H. inversion H as [k b Hb|u Hu]; subst.
    - unfold str_has. simpl in *. destruct (Ascii.eqb_spec b c) as [->|]; [|done]. congruence.
    - destruct (str_has c x) eqn:Hh; [|done].
      by rw (unicode_digit_not_ascii _ _ Hu Hh) in Ha. }
  induction 1 as [x H|x y H _ IH]; [auto|]. by rw str_has_app (H1 _ H) IH.
Qed.

(** What a match of the pattern is. *)
Lemma mod_match_inv s gs :
  pattern_match ud MOD_FILENAME_RE s gs →
  ∃ n v, gs = [n; v] ∧ s = mod_filename (MkMod n v) ∧ str_has "_" v = false.
Proof.
  intros (pre & t & post & -> & Hm & Hs & He). rw (Hs eq_refl) (He eq_refl) /= sapp_nil_r.
  cbn [items MOD_FILENAME_RE] in Hm.
  inversion Hm as [| | | |i0 t0 c0 g0 H1|]; subst; clear Hm.
  inversion H1 as [| | |k0 i0 n t0 c0 g0 Hn H2| |]; subst; clear H1.
  inversion H2 as [| | | | |i0 t1 c0 g0 H3]; subst; clear H2.
  inversion H3 as [|c1 i0 t1 c0 g1 H3'| | | |]; subst; clear H3; rename H3' into H3.
  inversion H3 as [| | | |i0 t2 c0 g1 H4|]; subst; clear H3.
  inversion H4 as [| | |k0 i0 a t2 c0 g1 Ha H5| |]; subst; clear H4.
  inversion H5 as [|c1 i0 t3 c0 g1 H5'| | | |]; subst; clear H5; rename H5' into H5.
  inversion H5 as [| | |k0 i0 b t4 c0 g1 Hb H6| |]; subst; clear H5.
  inversion H6 as [|c1 i0 t5 c0 g1 H6'| | | |]; subst; clear H6; rename H6' into H6.
  inversion H6 as [| | |k0 i0 c t6 c0 g1 Hc H7| |]; subst; clear H6.
  inversion H7 as [| | | | |i0 t7 c0 g2 H8]; subst; clear H7.
  rw -(app_nil_r (lits ".zip")) in H8.
  apply item_match_lits in H8 as (t8 & -> & H8). inversion H8; subst.
  do 2 eexists. split; [done|]. split.
  - unfold mod_filename. cbn [mod_name mod_version]. rw !sapp_assoc. done.
  - assert (∀ d, many_of ud CDigit d → str_has "_" d = false) as Hno.
    { intros d. by apply many_digits_no. }
    by rw !str_has_app (Hno a) // (Hno b) // (Hno c).
Qed.

(** A file name determines the mod. *)
Lemma mod_filename_inj a b :
  str_has "_" (mod_version a) = false → str_has "_" (mod_version b) = false →
  mod_filename a = mod_filename b → a = b.
Proof.
  unfold mod_filename. intros Ha Hb H.
  assert (mod_name a +:+ "_" +:+ mod_version a = mod_name b +:+ "_" +:+ mod_version b) as H'.
  { apply (sapp_inj_r _ _ ".zip"). by rw !sapp_assoc. }
  apply rsplit_char_unique in H' as [? ?]; [|done..]. destruct a, b; simpl in *. by subst.
Qed.

Lemma version_no_underscore v : version_ok v → str_has "_" v = false.
Proof.
  intros (a & b & c & -> & H). rw !Forall_cons in H. destruct H as ([? ?] & [? ?] & [? ?] & _).
  assert (∀ d, d ≠ "" → str_all is_digit d = true → str_has "_" d = false) as Hno.
  { intros d ? ?. apply many_digits_no; [done..|by apply many_digits]. }
  by rw !str_has_app (Hno a) // (Hno b) // (Hno c).
Qed.

(** The name of a mod's file is a match of the pattern. *)
Lemma mod_match m : mod_ok m →
  pattern_match ud MOD_FILENAME_RE (mod_filename m) [mod_name m; mod_version m].
Proof.
  destruct m as [n v]. intros (Hne & Hnl & (a & b & c & Hv & H) & _). cbn in Hne, Hnl, Hv. subst v.
  rw !Forall_cons in H. destruct H as ([? ?] & [? ?] & [? ?] & _).
  exists "", (mod_filename (MkMod n (a +:+ "." +:+ b +:+ "." +:+ c))), "".
  rw sapp_nil_r. split_and!; [done| |done..]. unfold mod_filename. cbn [mod_name mod_version].
  cbn [items MOD_FILENAME_RE].
  apply im_open, im_plus; [by apply many_any|]. apply im_close, im_lit, im_open.
  rw !sapp_assoc. apply im_plus; [by apply many_digits|]. apply im_lit.
  apply im_plus; [by apply many_digits|]. apply im_lit.
  apply im_plus; [by apply many_digits|].
  rw (_ : ((((("" +:+ a) +:+ ".") +:+ b) +:+ ".") +:+ c) = a +:+ "." +:+ b +:+ "." +:+ c); [|by rw /= !sapp_assoc].
  apply im_close. rw -(app_nil_r (lits ".zip")). apply item_match_lits.
  exists "". split; [done|]. constructor.
Qed.

Lemma filename_parsed s m :
  valid_utf8 s = true → try_from_filename s = Some m → mod_filename m = s.
Proof.
  intros Hv. unfold try_from_filename. destruct (captures MOD_FILENAME_RE s) as [gs|] eqn:Hc; [|done].
  apply captures_sound in Hc; [|done]. apply mod_match_inv in Hc as (n & v & -> & -> & _).
  by intros [= <-].
Qed.

Lemma filename_parses m : mod_ok m → try_from_filename (mod_filename m) = Some m.
Proof.
  intros Hm. unfold try_from_filename. pose proof (mod_match m Hm) as Hp.
  destruct Hm as (_ & _ & Hver & Hv & _).
  destruct (captures_complete _ _ _ Hv Hp) as [gs Hgs]. rw Hgs.
  apply captures_sound in Hgs; [|done]. apply mod_match_inv in Hgs as (n & v & -> & Hf & Hu).
  f_equal. symmetry. apply mod_filename_inj; [|done..]. by apply version_no_underscore.
Qed.

(** File names round-trip: what is parsed from a file name is the mod
    whose file has that name, and the file name of a well-formed mod parses
    to the mod. *)
Theorem try_from_filename_roundtrip :
  (∀ s m, valid_utf8 s = true → try_from_filename s = Some m → mod_filename m = s) ∧
  (∀ m, mod_ok m → try_from_filename (mod_filename m) = Some m).
Proof. split; [exact filename_parsed|exact filename_parses]. Qed.
End filenames.

(** ** Reading the directory *)

Definition is_metadata (n : string) : Prop :=
  MOD_DIR ++ [Normal n] = MOD_LIST_PATH ∨ MOD_DIR ++ [Normal n] = MOD_SETTINGS_PATH.

#[export] Instance is_metadata_dec n : Decision (is_metadata n).
Proof. unfold is_metadata. apply _. Defined.

(** The mods on disk: the entries of the directory that parse. *)
Definition disk_mods `{RegexEngine} (m : fs) : list Mod :=
  omap try_from_filename
    (from_utf8_lossy <$> filter (λ n, ¬ is_metadata n) (children MOD_DIR m)).

(** [entry m n]: the directory has something called [n]. *)
Definition entry (m : fs) (n : string) : Prop := is_Some (node_of m (MOD_DIR ++ [Normal n])).

Lemma elem_of_disk_mods `{RegexEngine} m x :
  x ∈ disk_mods m ↔
  ∃ n, entry m n ∧ ¬ is_metadata n ∧ try_from_filename (from_utf8_lossy n) = Some x.
Proof.
  unfold disk_mods. rw list_elem_of_omap. split.
  - intros (s & Hs & Hx). apply list_elem_of_fmap in Hs as (n & -> & Hn).
    apply list_elem_of_filter in Hn as [Hm Hn]. exists n. split_and!; [|done..].
    by apply elem_of_children in Hn.
  - intros (n & Hn & Hm & Hx). exists (from_utf8_lossy n). split; [|done].
    apply list_elem_of_fmap. exists n. split; [done|]. apply list_elem_of_filter.
    split; [done|]. by apply elem_of_children.
Qed.

Section read_facts.
Context {E : IoEnv} {R : RegexEngine} {S : Type} {SF : SettingsFile S} {C : Codec ModList}.
Implicit Types w : IoW.

Lemma wp_mod_entries names Q w :
  (∀ r w', files w' = files w →
     (∀ l, r = Ok l → l = from_utf8_lossy <$> filter (λ n, ¬ is_metadata n) names) →
     (no_faults → is_ok r = true) → Q r w') →
  wp (mod_entries names) Q w.
Proof.
  revert Q w. induction names as [|n names IH]; intros Q w HQ; cbn [mod_entries]; unfold io; st_go.
  - apply wp_io_unit; cbn; [intros w' Hw'; st_go; apply HQ; [done| |done]; by intros l [= <-]|].
    intros k w' Hn Hw'. by apply HQ.
  - apply wp_io_unit; cbn [map_err]; [|intros k w' Hn Hw'; by apply HQ].
    intros w1 Hw1. st_go. apply IH. intros [rest|e] w2 Hw2 Hl Hok; st_go.
    + apply HQ; [congruence| |done]. intros l [= <-]. rw (Hl rest eq_refl).
      match goal with |- (if decide ?P then _ else _) = _ => destruct (decide P) as [Hd|Hd] end.
      * rw filter_cons_True; [done|]. destruct Hd as [H1 H2]. intros [?|?]; [by apply H1|by apply H2].
      * rw filter_cons_False; [done|]. intros Hm. apply Hd. by split; intros ?; apply Hm; [left|right].
    + apply HQ; [congruence|done|]. intros Hn. by specialize (Hok Hn).
Qed.

(** The settings file, if there is one, is one the parser accepts. *)
Definition settings_readable (m : fs) : Prop :=
  ∀ b, stored m MOD_SETTINGS_PATH b → is_ok (settings_try_from b) = true.

Lemma wp_read_settings Q w :
  (∀ r w', files w' = files w →
     (∀ s, r = Ok (Some s) → ∃ b, stored (files w) MOD_SETTINGS_PATH b ∧ settings_try_from b = Ok s) →
     (no_faults → ∀ b s, stored (files w) MOD_SETTINGS_PATH b → settings_try_from b = Ok s →
        r = Ok (Some s)) →
     (no_faults → settings_readable (files w) → is_ok r = true) → Q r w') →
  wp read_settings Q w.
Proof.
  intros HQ. unfold read_settings. st_go. apply wp_is_file. intros b Hb' Hb. destruct b; st_go.
  2: { apply HQ; [done..| |done]. intros Hn b s (f & Hf & _) _. by specialize (Hb Hn f Hf). }
  destruct (Hb' eq_refl) as (f0 & Hf0).
  unfold io. st_go. apply wp_fs_read. intros [by_|k] Hr Hr'; cbn; st_go.
  2: { assert (no_faults → False) as Hno.
       { intros Hn. specialize (Hr' Hn). cbn in Hr'. by rw (pure_read_at _ _ _ Hf0) in Hr'. }
       apply HQ; [done..| |]; intros Hn; by destruct (Hno Hn). }
  specialize (Hr by_ eq_refl). cbn in Hr. pose proof (pure_read_stored _ _ _ Hr) as Hst.
  destruct (settings_try_from by_) as [s|e] eqn:Hs; st_go.
  - apply HQ; [done| | |done].
    + intros s' [= <-]. eauto.
    + intros _ b s' Hst' Hs'. rw -(stored_bytes_at _ _ _ Hst') (stored_bytes_at _ _ _ Hst) Hs in Hs'.
      by simplify_eq.
  - apply HQ; [done..| |].
    + intros _ b s' Hst' Hs'.
      by rw -(stored_bytes_at _ _ _ Hst') (stored_bytes_at _ _ _ Hst) Hs in Hs'.
    + intros _ Hrd. specialize (Hrd _ Hst). by rw Hs in Hrd.
Qed.

(** The manager read is what the directory holds. *)
Lemma wp_read Q w :
  (∀ r w', files w' = files w →
     (∀ m, r = Ok (Some m) → mods m = disk_mods (files w) ∧ mm_path m = MOD_DIR ∧
        (∀ l, saved (files w) MOD_LIST_PATH l → CodecLaws ModList →
           dlcs m = match read_dlcs_from_mod_list l with Ok d => d | Err _ => {[Base]} end) ∧
        (no_faults → ∀ b s, stored (files w) MOD_SETTINGS_PATH b → settings_try_from b = Ok s →
           settings m = Some s) ∧
        (∀ s, settings m = Some s → ∃ b, stored (files w) MOD_SETTINGS_PATH b ∧ settings_try_from b = Ok s)) →
     (no_faults → r = Ok None → node_at (files w) MOD_DIR ≠ Some Dir) →
     (no_faults → node_at (files w) MOD_DIR = Some Dir → CodecLaws ModList →
        (∃ l, saved (files w) MOD_LIST_PATH l) → settings_readable (files w) →
        is_ok r = true) → Q r w') →
  wp read Q w.
Proof.
  intros HQ. unfold read. st_go. apply wp_io_bool. intros b _ Hb. destruct b; cbn [negb]; st_go.
  2: { apply HQ; [done..| |done]. intros Hn _ Hd. specialize (Hb Hn). by rw Hd in Hb. }
  unfold io. st_go. apply wp_fs_read_to_string. cbn. intros r Hr Hr'.
  assert (no_faults → CodecLaws ModList → (∃ l, saved (files w) MOD_LIST_PATH l) →
    ∃ s l, r = Ok s ∧ dec s = Ok l) as Htext.
  { intros Hn HL (l & s & Hs & Hst). exists s, l. rw (Hr' Hn).
    rw (read_to_string_stored _ _ _ Hst (codec_utf8 _ _ Hs)). by rw (codec_roundtrip _ _ Hs). }
  destruct r as [s|k]; cbn; st_go.
  2: { apply HQ; [done..|]. intros Hn _ HL Hl _. destruct (Htext Hn HL Hl) as (? & ? & ? & _). done. }
  specialize (Hr s eq_refl). cbn in Hr. destruct (dec s) as [l|e] eqn:Hd; st_go.
  2: { apply HQ; [done..|]. intros Hn _ HL Hl _. destruct (Htext Hn HL Hl) as (? & ? & ? & ?). simplify_eq. congruence. }
  apply wp_fs_read_dir. intros [names|k] Hnames Hnames'; cbn; st_go.
  2: { apply HQ; [done..|]. intros Hn Hdir _ _ _. specialize (Hnames' Hn). cbn in Hnames'.
       unfold pure_read_dir in Hnames'. by rw Hdir in Hnames'. }
  specialize (Hnames names eq_refl). cbn in Hnames. unfold pure_read_dir in Hnames.
  destruct (node_at (files w) MOD_DIR) as [[|]|]; simplify_eq.
  apply wp_mod_entries. cbn. intros [zips|e] w1 Hw1 Hz Hze; st_go.
  2: { apply HQ; [done..|]. intros Hn. by specialize (Hze Hn). }
  rw (Hz zips eq_refl). apply wp_read_settings. rw Hw1.
  intros [st|e] w2 Hw2 Hst' Hset Hse; st_go.
  2: { apply HQ; [congruence|done..|]. intros Hn _ _ _ Hrd. by specialize (Hse Hn Hrd). }
  apply HQ; [congruence| |done|done]. intros m [= <-]. cbn. split_and!; [done..| | |].
  - intros l' (s' & Hs' & Hst) HL. pose proof (codec_utf8 _ _ Hs') as Hv.
    rw (read_to_string_stored _ _ _ Hst Hv) in Hr. simplify_eq.
    by rw (codec_roundtrip _ _ Hs') in Hd; simplify_eq.
  - intros Hn b s' Hb' Hs'. pose proof (Hset Hn b s' Hb' Hs'). by simplify_eq.
  - intros s' ->. by apply Hst'.
Qed.
End read_facts.

(** ** Writing the metadata *)

(** [mentions l x]: the list enables the built-in mod [x]. *)
Definition mentions (l : ModList) (x : Dlc) : Prop :=
  ∃ e, e ∈ l ∧ elem_enabled e = true ∧ elem_name e = Dlc_to_string x.

Lemma mentions_cons e l x :
  mentions (e :: l) x ↔ (elem_enabled e = true ∧ elem_name e = Dlc_to_string x) ∨ mentions l x.
Proof.
  unfold mentions. split.
  - intros (e' & [->|?]%elem_of_cons & ?); eauto.
  - intros [?|(e' & ? & ?)]; [exists e|exists e']; rw elem_of_cons; auto.
Qed.

Lemma dlcs_fold l X x :
  x ∈ foldl (λ acc e,
      match Dlc_from_str (elem_name e) with
      | Some dlc_name => if elem_enabled e then {[dlc_name]} ∪ acc else acc
      | None => acc
      end) (X : gset Dlc) l ↔ x ∈ X ∨ mentions l x.
Proof.
  revert X. induction l as [|e l IH]; intros X; cbn [foldl].
  { split; [auto|]. intros [?|(e & He & _)]; [done|by apply elem_of_nil in He]. }
  rw IH mentions_cons. clear IH.
  destruct (Dlc_from_str (elem_name e)) as [y|] eqn:Hy.
  - apply Dlc_from_str_Some in Hy. rw Hy. destruct (elem_enabled e).
    + rw elem_of_union elem_of_singleton.
      assert (x = y ↔ Dlc_to_string y = Dlc_to_string x) by (by destruct x, y). tauto.
    + split; [tauto|]. by intros [?|[[? _]|?]]; auto.
  - assert (elem_name e ≠ Dlc_to_string x); [|tauto].
    intros He%Dlc_from_str_Some. congruence.
Qed.

Lemma read_dlcs_iff l :
  match read_dlcs_from_mod_list l with
  | Ok d => Base ∈ d ∧ ∀ x, x ∈ d ↔ mentions l x
  | Err e => e = MalformedModList ∧ ¬ mentions l Base
  end.
Proof.
  unfold read_dlcs_from_mod_list. case_decide as Hb; rw dlcs_fold elem_of_empty in Hb.
  - split; [rw dlcs_fold; tauto|]. intros x. rw dlcs_fold elem_of_empty. tauto.
  - tauto.
Qed.

Section metadata.
Context {E : IoEnv} {R : RegexEngine} {S : Type} {SF : SettingsFile S} {C : Codec ModList}.
Implicit Types w : IoW.

(** No mod is called like a built-in mod. *)
Definition no_dlc_mods (m : t S) : Prop :=
  Forall (λ x, Dlc_from_str (mod_name x) = None) (mods m).

(** The built-in mods that a written list enables: those of the manager, and
    those that one of its mods is called like; without base the list is taken
    for malformed, and base alone is assumed. *)
Definition listed_dlcs (m : t S) : gset Dlc :=
  dlcs m ∪ list_to_set (omap (Dlc_from_str ∘ mod_name) (mods m)).
Definition reread_dlcs (m : t S) : gset Dlc :=
  if decide (Base ∈ listed_dlcs m) then listed_dlcs m else {[Base]}.

Lemma mentions_listed m x : mentions (ModList_from m) x ↔ x ∈ listed_dlcs m.
Proof.
  unfold mentions, ModList_from, listed_dlcs. rw elem_of_union elem_of_list_to_set list_elem_of_omap. split.
  - intros (e & [He|He]%elem_of_app & _ & Hn); apply list_elem_of_fmap in He as (y & -> & Hy).
    + apply elem_of_elements in Hy. cbn in Hn. left. by destruct x, y.
    + right. exists y. split; [done|]. by apply Dlc_from_str_Some.
  - intros [Hx|(y & Hy & Hn)].
    + exists (MkModListElem (Dlc_to_string x) true None). split; [|done].
      apply elem_of_app. left. apply list_elem_of_fmap. exists x. split; [done|]. by apply elem_of_elements.
    + exists (MkModListElem (mod_name y) true (Some (mod_version y))). split_and!; [|done|by apply Dlc_from_str_Some].
      apply elem_of_app. right. by apply (list_elem_of_fmap_2 (λ y, MkModListElem (mod_name y) true (Some (mod_version y)))).
Qed.

Lemma reread_spec m :
  match read_dlcs_from_mod_list (ModList_from m) with Ok d => d | Err _ => {[Base]} end = reread_dlcs m.
Proof.
  unfold reread_dlcs. pose proof (read_dlcs_iff (ModList_from m)) as H.
  destruct (read_dlcs_from_mod_list _) as [d|e].
  - destruct H as [Hb Hx]. rw decide_True; [|by apply mentions_listed, Hx].
    apply set_eq. intros x. by rw Hx mentions_listed.
  - destruct H as [_ H]. rw decide_False; [done|]. by rw -mentions_listed.
Qed.

Lemma reread_same m : Base ∈ dlcs m → no_dlc_mods m → reread_dlcs m = dlcs m.
Proof.
  intros Hb Hm. assert (listed_dlcs m = dlcs m) as Hl.
  { unfold listed_dlcs. assert (omap (Dlc_from_str ∘ mod_name) (mods m) = []) as ->; [|set_solver].
    unfold no_dlc_mods in Hm. induction Hm as [|y l Hy _ IH]; [done|]. unfold compose in *. cbn. by rw Hy. }
  unfold reread_dlcs. by rw Hl decide_True.
Qed.

Lemma read_dlcs_from m :
  Base ∈ dlcs m → no_dlc_mods m → read_dlcs_from_mod_list (ModList_from m) = Ok (dlcs m).
Proof.
  intros Hb Hm. pose proof (reread_spec m) as H. rw (reread_same _ Hb Hm) in H.
  pose proof (read_dlcs_iff (ModList_from m)) as Hi. destruct (read_dlcs_from_mod_list _) as [d|e]; [by rw H|].
  destruct Hi as [_ []]. apply mentions_listed. unfold listed_dlcs. set_solver.
Qed.

(** The built-in mods read from mod-list.json are the enabled entries with
    the name of one, and a list without base is rejected; the list that is
    written for a manager reads back as its built-in mods. *)
Theorem read_dlcs_spec :
  (∀ l, match read_dlcs_from_mod_list l with
        | Ok d => Base ∈ d ∧ ∀ x, x ∈ d ↔ mentions l x
        | Err e => e = MalformedModList ∧ ¬ mentions l Base
        end) ∧
  (∀ m, Base ∈ dlcs m → no_dlc_mods m → read_dlcs_from_mod_list (ModList_from m) = Ok (dlcs m)).
Proof. split; [exact read_dlcs_iff|exact read_dlcs_from]. Qed.

(** Nothing stands in the way of writing the metadata of [m]. *)
Definition metadata_writable (f : fs) (m : t S) : Prop :=
  writable f MOD_LIST_PATH MOD_DIR ∧ writable f MOD_SETTINGS_PATH MOD_DIR ∧
  is_ok (enc (ModList_from m)) = true ∧
  (∀ s, settings m = Some s → is_ok (settings_try_into s) = true).

(** A write in the mods directory goes through. *)
Lemma write_in_mods (p : path) (b : bytes) (t0 : Z) (f : fs) :
  file_in p MOD_DIR → node_of f (resolve p) ≠ Some Dir → node_at f MOD_DIR = Some Dir →
  (pure_write p b t0 f).1 = Ok ().
Proof.
  intros (_ & Hr & _) Hn Hd. destruct (pure_write_ok p b t0 f Hn) as [c ->]; [|done].
  by rw Hr.
Qed.

(** Writing the metadata changes the two files, and stores what they say. *)
Lemma wp_apply_metadata_only m Q w :
  (∀ r w', (∀ q, ¬ q `prefix_of` MOD_DIR → q ≠ MOD_LIST_PATH → q ≠ MOD_SETTINGS_PATH →
              node_of (files w') q = node_of (files w) q) →
     (r = Ok () → saved (files w') MOD_LIST_PATH (ModList_from m) ∧
        ∀ s, settings m = Some s → ∃ b, settings_try_into s = Ok b ∧
          stored (files w') MOD_SETTINGS_PATH b) →
     (no_faults → metadata_writable (files w) m →
        r = Ok () ∧ node_at (files w') MOD_DIR = Some Dir ∧
        (settings m = None →
           node_of (files w') MOD_SETTINGS_PATH = node_of (files w) MOD_SETTINGS_PATH)) →
     Q r w') →
  wp (apply_metadata_only m) Q w.
Proof.
  assert (file_in MOD_LIST_PATH MOD_DIR ∧ file_in MOD_SETTINGS_PATH MOD_DIR) as [Hil His]
    by (split; by vm_compute).
  assert (¬ MOD_LIST_PATH `prefix_of` MOD_DIR ∧ ¬ MOD_SETTINGS_PATH `prefix_of` MOD_DIR) as [Hpl Hps]
    by (split; apply longer_not_prefix; vm_compute; lia).
  intros HQ. unfold apply_metadata_only, io. st_go. apply wp_mkdir. cbn.
  intros r m1 _ H1 Hdir Hr. destruct r as [[]|k]; cbn; st_go.
  2: { apply HQ; [intros q Hq _ _; by apply H1|done|]. intros Hn ([Hrd _] & _).
       by specialize (Hr Hn Hrd). }
  specialize (Hdir eq_refl).
  destruct (enc (ModList_from m)) as [s|e] eqn:He; st_go.
  2: { apply HQ; [intros q Hq _ _; by apply H1|done|]. intros Hn (_ & _ & Hs & _).
       by rw He in Hs. }
  apply wp_fs_write; cbn.
  { intros w2 Hw2 k Hk. apply HQ; [|done|].
    - intros q Hq1 Hq2 _. rw Hw2 //. by apply H1.
    - intros Hn ([_ Hnd] & _). specialize (Hk Hn). rw write_in_mods in Hk; [done|done| |done].
      by rw H1. }
  intros t c w2 Hw2 Hb2. assert (saved (files w2) MOD_LIST_PATH (ModList_from m)) as Hs.
  { exists s. split; [done|]. by eapply stored_insert. }
  assert (∀ q, ¬ q `prefix_of` MOD_DIR → q ≠ MOD_LIST_PATH →
    node_of (files w2) q = node_of (files w) q) as H2.
  { intros q Hq1 Hq2. rw Hw2 node_of_insert // decide_False //. by apply H1. }
  assert (node_at (files w2) MOD_DIR = Some Dir) as Hd2.
  { unfold node_at. rw Hw2 node_of_insert // decide_False //. }
  destruct (settings m) as [st|] eqn:Hset; st_go.
  2: { apply HQ; [intros q ? ? _; by apply H2|by intros _|]. intros _ _. split_and!; [done..|].
       intros _. by apply H2. }
  destruct (settings_try_into st) as [b|e] eqn:Hb; st_go.
  2: { apply HQ; [intros q ? ? _; by apply H2|done|]. intros _ (_ & _ & _ & Hm).
       specialize (Hm st Hset). by rw Hb in Hm. }
  apply wp_fs_write; cbn.
  - intros w3 Hw3 k Hk. apply HQ; [|done|].
    + intros q Hq1 Hq2 Hq3. rw Hw3 //. by apply H2.
    + intros Hn (_ & [_ Hnd] & _). specialize (Hk Hn). rw write_in_mods in Hk; [done|done| |done].
      by rw H2.
  - intros t' c' w3 Hw3 Hb3. st_go. apply HQ.
    + intros q Hq1 Hq2 Hq3. rw Hw3 node_of_insert // decide_False //. by apply H2.
    + intros _. split.
      * destruct Hs as (s' & Hs' & f & Hf & Hb'). exists s'. split; [done|]. exists f. split; [|done].
        unfold node_at in *. rw Hw3 node_of_insert // decide_False //.
      * intros st' [= <-]. exists b. split; [done|]. by eapply stored_insert.
    + intros _ _. split_and!; [done| |done]. unfold node_at in *.
      rw Hw3 node_of_insert // decide_False //.
Qed.

(** Settings that were readable still are. *)
Lemma readable_kept (m : t S) (f f' : fs) :
  (∀ s b, settings_try_into s = Ok b → settings_try_from b = Ok s) → settings_readable f →
  (∀ s, settings m = Some s → ∃ b, settings_try_into s = Ok b ∧ stored f' MOD_SETTINGS_PATH b) →
  (settings m = None → node_of f' MOD_SETTINGS_PATH = node_of f MOD_SETTINGS_PATH) →
  settings_readable f'.
Proof.
  intros Hrt Hrd Hset Hsame b Hst. destruct (settings m) as [s|] eqn:Hms.
  - destruct (Hset s eq_refl) as (b' & Hb1 & Hb2).
    by rw -(stored_bytes_at _ _ _ Hst) (stored_bytes_at _ _ _ Hb2) (Hrt s b' Hb1).
  - apply Hrd. destruct Hst as (g & Hf & He). exists g. split; [|done].
    unfold node_at in *. by rw -(Hsame eq_refl).
Qed.

(** C26: What is read back of the metadata that was written.  The built-in
    mods are those that were written when base is among them and no mod is called
    like one; otherwise also those that a mod is called like, and base alone when
    the list is without base.  The mod settings are those that were written; when
    there are none to write, those of the file that was there before stay.  When
    nothing stands in the way of writing and no call fails, writing and reading
    succeed; and whatever fails, the built-in mods that are read after a success
    are these. *)
Theorem metadata_roundtrip `{!CodecLaws ModList} m w :
  (∀ s b, settings_try_into s = Ok b → settings_try_from b = Ok s) →
  (Base ∈ dlcs m → no_dlc_mods m → reread_dlcs m = dlcs m) ∧
  wp (r <- apply_metadata_only m ;; r' <- read ;; st_ret (r, r'))
     (λ rr' _,
        (rr'.1 = Ok () → ∀ m', rr'.2 = Ok (Some m') → dlcs m' = reread_dlcs m) ∧
        (no_faults → metadata_writable (files w) m → settings_readable (files w) →
           rr'.1 = Ok () ∧ ∃ m', rr'.2 = Ok (Some m') ∧ dlcs m' = reread_dlcs m ∧
             match settings m with
             | Some s => settings m' = Some s
             | None => ∀ s, settings m' = Some s ↔
                 ∃ b, stored (files w) MOD_SETTINGS_PATH b ∧ settings_try_from b = Ok s
             end)) w.
Proof.
  intros Hrt. split; [by apply reread_same|]. st_go. apply wp_apply_metadata_only. intros r w1 _ Hr Hok. st_go.
  apply wp_read. intros r' w2 _ Hr' Hnone Hsome. st_go. cbn. split.
  { intros -> m' ->. destruct (Hr eq_refl) as [Hs _]. destruct (Hr' m' eq_refl) as (_ & _ & Hd & _).
    by rw (Hd _ Hs _) reread_spec. }
  intros Hn Hw Hrd. destruct (Hok Hn Hw) as (-> & Hdir & Hsame). destruct (Hr eq_refl) as [Hs Hset].
  split; [done|]. assert (settings_readable (files w1)) as Hrd1 by by eapply readable_kept.
  destruct r' as [[m'|]|e]; [|by destruct (Hnone Hn eq_refl)|by specialize (Hsome Hn Hdir _ (ex_intro _ _ Hs) Hrd1)].
  destruct (Hr' m' eq_refl) as (_ & _ & Hd & Hset' & Hset''). exists m'. split_and!; [done|by rw (Hd _ Hs _) reread_spec|].
  destruct (settings m) as [s|] eqn:Hms.
  - destruct (Hset s eq_refl) as (b & Hb1 & Hb2). eauto.
  - assert (∀ b, stored (files w1) MOD_SETTINGS_PATH b ↔ stored (files w) MOD_SETTINGS_PATH b) as Hst.
    { intros b. unfold stored, node_at. by rw (Hsame eq_refl). }
    intros s. split.
    + intros (b & Hb & Hf)%Hset''. exists b. by rw -Hst.
    + intros (b & Hb & Hf). apply (Hset' Hn b); [by apply Hst|done].
Qed.

(** A mods directory that can be read. *)
Definition mods_ready (f : fs) : Prop :=
  node_at f MOD_DIR = Some Dir ∧ (∃ l, saved f MOD_LIST_PATH l) ∧ settings_readable f.

Lemma wp_read_ready `{!CodecLaws ModList} Q w :
  no_faults → mods_ready (files w) →
  (∀ m w', files w' = files w → mods m = disk_mods (files w) → mm_path m = MOD_DIR →
     (∀ l, saved (files w) MOD_LIST_PATH l →
        dlcs m = match read_dlcs_from_mod_list l with Ok d => d | Err _ => {[Base]} end) →
     (∀ b s, stored (files w) MOD_SETTINGS_PATH b → settings_try_from b = Ok s → settings m = Some s) →
     Q (Ok m) w') →
  wp read_or_apply_default Q w.
Proof.
  intros Hn (Hd & Hl & Hrd) HQ. unfold read_or_apply_default. st_go. apply wp_read.
  intros r w' Hw' Hr Hnone Hok. specialize (Hok Hn Hd _ Hl Hrd).
  destruct r as [[m|]|e]; [|by destruct (Hnone Hn eq_refl)|done]. st_go.
  destruct (Hr m eq_refl) as (H1 & H2 & H3 & H4 & _). apply HQ; [done..| |by apply H4]. intros l Hs. exact (H3 l Hs _).
Qed.

Lemma wp_apply_ready (m : t S) Q w :
  no_faults → (∀ s b, settings_try_into s = Ok b → settings_try_from b = Ok s) →
  metadata_writable (files w) m → settings_readable (files w) →
  (∀ w', mods_ready (files w') → saved (files w') MOD_LIST_PATH (ModList_from m) →
     (∀ s, settings m = Some s → ∃ b, settings_try_into s = Ok b ∧ stored (files w') MOD_SETTINGS_PATH b) →
     Q (Ok ()) w') →
  wp (apply_metadata_only m) Q w.
Proof.
  intros Hn Hrt Hw Hrd HQ. apply wp_apply_metadata_only. intros r w1 _ Hr Hok.
  destruct (Hok Hn Hw) as (-> & Hdir & Hsame). destruct (Hr eq_refl) as [Hs Hset].
  apply HQ; [|done..]. split_and!; [done|by eexists|by eapply readable_kept].
Qed.
End metadata.

(** ** Applying a desired list of mods *)

Lemma reorder_perm {A} keys (l : list A) : reorder keys l ≡ₚ l.
Proof.
  revert l. induction keys as [|k keys IH]; intros l; [done|].
  destruct l as [|y l]; [done|]. cbn [reorder].
  destruct ((y :: l) !! _) as [x|] eqn:Hx; [|done].
  rw IH. symmetry. by apply delete_Permutation.
Qed.

(** A task makes the file [fst spec] be there, or not, when it succeeds. *)
Definition task_ok {E : IoEnv} (spec : string * bool) (t : ST IoW (result Error ())) : Prop :=
  ∀ w, wp t (λ r w', (∀ n, n ≠ spec.1 → (entry (files w') n ↔ entry (files w) n)) ∧
                     (r = Ok () → (entry (files w') spec.1 ↔ spec.2 = true))) w.

Section tasks.
Context {E : IoEnv} (specs : list (string * bool)).

(** The specification of the [i]-th task, and the file it is about. *)
Definition spec_of (i : nat) : string * bool := default ("", false) (specs !! i).

Lemma wp_run_tasks l Q w :
  Forall (λ it, task_ok (spec_of it.1) it.2) l → NoDup ((λ it, (spec_of it.1).1) <$> l) →
  (∀ rs w', rs.*1 = l.*1 →
     (∀ n, n ∉ (λ it, (spec_of it.1).1) <$> l → (entry (files w') n ↔ entry (files w) n)) →
     (∀ i, (i, Ok ()) ∈ rs → (entry (files w') (spec_of i).1 ↔ (spec_of i).2 = true)) →
     Q rs w') →
  wp (run_tasks l) Q w.
Proof.
  intros Hl. revert Q w. unfold run_tasks. induction Hl as [|[i t] l Ht _ IH]; intros Q w Hnd HQ.
  { cbn. st_go. apply HQ; [done|done|]. intros i Hi. by apply elem_of_nil in Hi. }
  cbn [st_mapM fst snd]. rw fmap_cons in Hnd. apply NoDup_cons in Hnd as [Hni Hnd]. cbn in Hni.
  st_go. eapply wp_wand; [apply Ht|]. cbn. intros r w1 [Hfr Hr].
  st_go. apply IH; [done|]. intros rs w2 Hrs Hfr2 Hok. st_go. apply HQ.
  - by rw !fmap_cons Hrs.
  - intros n Hn. rw fmap_cons not_elem_of_cons in Hn. destruct Hn as [Hn1 Hn2].
    by rw Hfr2 // Hfr.
  - intros j [Hj|Hj]%elem_of_cons; [|by apply Hok]. simplify_eq.
    rw Hfr2; [by apply Hr|done].
Qed.
End tasks.

(** No failure means that every task succeeded. *)
Lemma join_errors_nil n rs i :
  join_errors n rs = [] → (i < n)%nat → i ∈ rs.*1 → (i, Ok ()) ∈ rs.
Proof.
  intros Hj Hi Hin. apply list_elem_of_fmap in Hin as ([i' r] & -> & Hr). cbn in *.
  assert (match list_find (λ r, r.1 = i') rs with Some (_, (_, Err e)) => Some e | _ => None end
    = None) as Hn.
  { match goal with |- ?x = None => destruct x as [e|] eqn:He; [exfalso|done] end.
    assert (e ∈ join_errors n rs) as Hc; [|rw Hj in Hc; by apply elem_of_nil in Hc].
    apply list_elem_of_omap. exists i'. split; [|exact He]. apply elem_of_seq. lia. }
  destruct (list_find_elem_of (λ r : nat * result Error (), r.1 = i') rs (i', r) Hr eq_refl)
    as [[k [j r']] Hf]. rw Hf in Hn. apply list_find_Some in Hf as (Hk & Hj' & _). cbn in Hj'.
  subst j. destruct r' as [[]|]; [|done]. by eapply list_elem_of_lookup_2.
Qed.

Section apply.
Context {E : IoEnv} {N : NetEnv} {R : RegexEngine} {T : TaskEnv} {P : ModPortal}.
Context {S : Type} {SF : SettingsFile S} {C : Codec ModList}.
Implicit Types w : IoW.

(** The temporary directory is an absolute path. *)
Definition absolute_temp : Prop := ∃ p, resolve cache_dir = RootDir :: p.

Lemma entry_off_cache n id m m' :
  absolute_temp → file_in (join cache_dir id) cache_dir → off_cache id m m' →
  (entry m' n ↔ entry m n).
Proof.
  intros [p Hp] (_ & Hr & Hl & _) H. unfold entry. rw H; [done|].
  rw Hp in Hr. destruct (resolve (join cache_dir id)) as [|c q]; [done|].
  destruct q; [done|]. cbn in Hr. simplify_eq. intros Hc. by apply prefix_cons_inv_1 in Hc.
Qed.

Lemma filename_long x : (3 <= String.length (mod_filename x))%nat.
Proof. unfold mod_filename. rw !sapp_length /=. lia. Qed.

Lemma entry_insert n x f m :
  entry (<[MOD_DIR ++ [Normal x] := File f]> m) n ↔ n = x ∨ entry m n.
Proof.
  unfold entry. rw node_of_insert //. case_decide as Hd.
  - apply app_inj_tail in Hd as [_ [= ->]]. split; eauto.
  - split; [by right|]. intros [->|?]; done.
Qed.

Lemma entry_delete n x m :
  entry (delete (MOD_DIR ++ [Normal x]) m) n ↔ n ≠ x ∧ entry m n.
Proof.
  unfold entry. rw node_of_delete //. case_decide as Hd.
  - apply app_inj_tail in Hd as [_ [= ->]]. split; [by intros []|]. by intros [].
  - split; [|tauto]. intros ?. split; [|done]. by intros ->.
Qed.

Lemma download_task x secrets :
  absolute_temp → str_has "/" (mod_filename x) = false →
  task_ok (mod_filename x, true) (download_mod x MOD_DIR secrets).
Proof.
  intros Hab Hs w. pose proof (filename_long x) as Hl.
  pose proof (join_file_in cache_dir _ Hs Hl) as Hin. cbn [fst snd].
  unfold download_mod, short_query_mod. st_go. unfold wp at 1, http_get. cbn.
  destruct (net_get _ _) as [resp|e]; cbn; [|by split].
  destruct (error_for_status resp) as [e|]; st_go; [by split|].
  destruct (http_body resp) as [b|e]; st_go; [|by split].
  destruct (mod_info_from_json b) as [rels|e]; cbn; [|by split].
  destruct (list_find _ rels) as [[i r]|]; st_go; [|by split].
  apply wp_download_off; [done|]. cbn. intros [by_|e] w1 Hw1; st_go.
  2: { split; [|done]. intros n _. by eapply entry_off_cache. }
  unfold io. st_go. rw (join_simple _ _ Hs Hl). apply wp_fs_write; cbn.
  - intros w2 Hw2 k _. split; [|done]. intros n Hn.
    rw -(entry_off_cache n _ _ _ Hab Hin Hw1). unfold entry.
    rw (Hw2 (MOD_DIR ++ [Normal n])) //. change (resolve ?p) with p. intros [_ [= ->]]%app_inj_tail. done.
  - intros t c w2 Hw2 _. st_go. change (resolve ?p) with p in Hw2. rw Hw2. split.
    + intros n Hn. rw (entry_insert n (mod_filename x)) -(entry_off_cache n _ _ _ Hab Hin Hw1). tauto.
    + intros _. rw (entry_insert _ (mod_filename x)). tauto.
Qed.

Lemma delete_task x :
  str_has "/" (mod_filename x) = false →
  task_ok (mod_filename x, false) (io (fs_remove_file (join MOD_DIR (mod_filename x)))).
Proof.
  intros Hs w. pose proof (filename_long x) as Hl. cbn [fst snd].
  rw (join_simple _ _ Hs Hl). unfold io. st_go. apply wp_fs_remove_file; cbn.
  - intros w' Hw' _. change (resolve ?p) with p in Hw'. rw Hw'.
    split; [intros n Hn; rw (entry_delete n (mod_filename x)); tauto|].
    intros _. rw (entry_delete _ (mod_filename x)). split; [by intros []|done].
  - intros k w' Hw' _ _. rw Hw'. done.
Qed.

(** The tasks and what each is about. *)
Lemma specs_of_tasks (specs : list (string * bool)) (tasks : list (ST IoW (result Error ()))) :
  Forall2 task_ok specs tasks →
  Forall (λ it, task_ok (spec_of specs it.1) it.2) (imap pair tasks) ∧
  (λ it, (spec_of specs it.1).1) <$> imap pair tasks = specs.*1.
Proof.
  intros H. split.
  - apply Forall_lookup_2. intros i it Hi. rw list_lookup_imap in Hi.
    destruct (tasks !! i) as [t|] eqn:Ht; [|done]. cbn in Hi. simplify_eq. cbn.
    destruct (Forall2_lookup_r _ _ _ _ _ H Ht) as (s & Hs & Hok).
    unfold spec_of. by rw Hs.
  - apply list_eq. intros i. rw !list_lookup_fmap list_lookup_imap.
    destruct (tasks !! i) as [t|] eqn:Ht; cbn.
    + destruct (Forall2_lookup_r _ _ _ _ _ H Ht) as (s & Hs & _). unfold spec_of. by rw Hs.
    + apply lookup_ge_None in Ht. rw -(Forall2_length _ _ _ H) in Ht.
      by apply lookup_ge_None in Ht as ->.
Qed.

(** Running the tasks in any order around the metadata. *)
Lemma wp_tasks_around specs tasks keys c (M : ST IoW (result Error ())) Q w :
  Forall2 task_ok specs tasks → NoDup specs.*1 → Forall (λ s, ¬ is_metadata s.1) specs →
  (∀ w, wp M (λ _ w', ∀ n, ¬ is_metadata n → (entry (files w') n ↔ entry (files w) n)) w) →
  (∀ r w', (∀ n, n ∉ specs.*1 → ¬ is_metadata n → (entry (files w') n ↔ entry (files w) n)) →
     (r = Ok () → ∀ s, s ∈ specs → (entry (files w') s.1 ↔ s.2 = true)) → Q r w') →
  let order := reorder keys (imap pair tasks) in
  wp (early <- run_tasks (take c order) ;;
      metadata <- M ;;
      late <- run_tasks (drop c order) ;;
      _ <-? st_ret metadata ;;
      let errors := join_errors (length tasks) (early ++ late) in
      st_ret (match errors with [] => Ok () | _ => Err (Aggregate errors) end)) Q w.
Proof.
  intros H2 Hnd Hnm HM HQ order. destruct (specs_of_tasks _ _ H2) as [Hok Hnames].
  assert (order ≡ₚ imap pair tasks) as Hperm by apply reorder_perm.
  rw -Hperm in Hok. rw -(take_drop c order) in Hok. apply Forall_app in Hok as [Hok1 Hok2].
  assert (NoDup ((λ it, (spec_of specs it.1).1) <$> order)) as Hnd' by by rw Hperm Hnames.
  assert (∀ n, n ∈ (λ it, (spec_of specs it.1).1) <$> order ↔ n ∈ specs.*1) as Hmem.
  { intros n. by rw Hperm Hnames. }
  rw -(take_drop c order) fmap_app in Hnd' Hmem. apply NoDup_app in Hnd' as (Hnd1 & Hdis & Hnd2).
  st_go. apply (wp_run_tasks specs); [done..|]. intros early w1 Hids1 Hfr1 Hok1'.
  st_go. eapply wp_wand; [apply HM|]. cbn. intros meta w2 Hfr2.
  st_go. apply (wp_run_tasks specs); [done..|]. intros late w3 Hids2 Hfr3 Hok2'.
  assert (∀ n, n ∉ specs.*1 → ¬ is_metadata n → entry (files w3) n ↔ entry (files w) n) as Hfr.
  { intros n Hn Hm. rw -Hmem elem_of_app in Hn. rw Hfr3; [|tauto]. rw Hfr2 //. apply Hfr1. tauto. }
  st_go. destruct meta as [[]|e]; [|by apply HQ]. st_go. apply HQ; [done|].
  destruct (join_errors _ _) eqn:Hj; [|done]. intros _ s Hs.
  apply list_elem_of_lookup_1 in Hs as [i Hi]. assert (i < length tasks)%nat as Hlt.
  { rw -(Forall2_length _ _ _ H2). by eapply lookup_lt_Some. }
  assert (spec_of specs i = s) as Hsi by (unfold spec_of; by rw Hi).
  assert (i ∈ (early ++ late).*1) as Hin.
  { rw fmap_app Hids1 Hids2 -fmap_app take_drop Hperm.
    destruct (lookup_lt_is_Some_2 tasks i Hlt) as [t Ht].
    apply list_elem_of_fmap. exists (i, t). split; [done|].
    apply (list_elem_of_lookup_2 _ i). by rw list_lookup_imap Ht. }
  pose proof (join_errors_nil _ _ _ Hj Hlt Hin) as Hres. apply elem_of_app in Hres as [Hres|Hres].
  - specialize (Hok1' i Hres). rw Hsi in Hok1'. rw -Hok1'.
    assert (s.1 ∈ (λ it, (spec_of specs it.1).1) <$> take c order) as Hse.
    { apply (list_elem_of_fmap_2 fst) in Hres. rw Hids1 in Hres.
      apply list_elem_of_fmap in Hres as (it & Hi' & Hit). cbn in Hi'.
      apply list_elem_of_fmap. exists it. by rw -Hi' Hsi. }
    rw Hfr3; [|by apply Hdis]. apply Hfr2. eapply (Forall_lookup_1 _ _ _ _ Hnm Hi).
  - specialize (Hok2' i Hres). by rw Hsi in Hok2'.
Qed.

(** A mod that its own file name parses to. *)
Definition canonical (x : Mod) : Prop :=
  try_from_filename (mod_filename x) = Some x ∧ str_has "/" (mod_filename x) = false.

Lemma canonical_inj x y : canonical x → canonical y → mod_filename x = mod_filename y → x = y.
Proof. intros [Hx _] [Hy _] He. rw He in Hx. congruence. Qed.

(** The names in the mods directory are ordinary file names. *)
Definition names_ok (m : fs) : Prop :=
  ∀ n, entry m n → str_has "/" n = false ∧ valid_utf8 n = true.

Context {ud : string → Prop} {L : RegexLaws ud}.

Lemma mod_ok_canonical x : mod_ok x → canonical x.
Proof.
  intros Hx. split; [by apply filename_parses|]. apply Hx.
Qed.

Lemma metadata_not_mod x : canonical x → ¬ is_metadata (mod_filename x).
Proof.
  intros _ [H|H]; apply (app_inj_tail MOD_DIR MOD_DIR) in H as [_ [= H]].
  - assert (str_has "_" (mod_filename x) = false) as Hu by by rw H.
    unfold mod_filename in Hu. by rw !str_has_app /= orb_true_r in Hu.
  - assert (str_has "_" (mod_filename x) = false) as Hu by by rw H.
    unfold mod_filename in Hu. by rw !str_has_app /= orb_true_r in Hu.
Qed.

Lemma disk_canonical m x :
  names_ok m → x ∈ disk_mods m → canonical x ∧ entry m (mod_filename x).
Proof.
  intros Hok (n & Hn & _ & Hx)%elem_of_disk_mods. destruct (Hok n Hn) as [Hs Hv].
  rw from_utf8_lossy_valid // in Hx.
  assert (mod_filename x = n) as Hf by by eapply filename_parsed.
  unfold canonical. by rw Hf.
Qed.

Lemma canonical_disk m x :
  canonical x → valid_utf8 (mod_filename x) = true → entry m (mod_filename x) → x ∈ disk_mods m.
Proof.
  intros Hx Hv He. apply elem_of_disk_mods. exists (mod_filename x). split; [done|].
  split; [by apply metadata_not_mod|]. rw from_utf8_lossy_valid //. apply Hx.
Qed.

Definition delta_specs (d : ModDelta.t) : list (string * bool) :=
  ((λ x, (mod_filename x, true)) <$> elements (ModDelta.install d)) ++
  ((λ x, (mod_filename x, false)) <$> elements (ModDelta.delete d)).

Lemma elem_of_delta_specs d s :
  s ∈ delta_specs d ↔ (∃ x, x ∈ ModDelta.install d ∧ s = (mod_filename x, true)) ∨
                      (∃ x, x ∈ ModDelta.delete d ∧ s = (mod_filename x, false)).
Proof.
  unfold delta_specs. rw elem_of_app !list_elem_of_fmap.
  setoid_rewrite elem_of_elements. split; intros [(x & ? & ?)|(x & ? & ?)];
    [left|right|left|right]; by exists x.
Qed.

Lemma delta_specs_nodup d :
  (∀ x, x ∈ ModDelta.install d ∪ ModDelta.delete d → canonical x) →
  ModDelta.install d ## ModDelta.delete d → NoDup (delta_specs d).*1.
Proof.
  intros Hc Hdis. assert ((delta_specs d).*1 = mod_filename <$>
    (elements (ModDelta.install d) ++ elements (ModDelta.delete d))) as ->.
  { unfold delta_specs. by rw !fmap_app -!list_fmap_compose. }
  apply NoDup_fmap_2_strong.
  - assert (∀ x, x ∈ elements (ModDelta.install d) ++ elements (ModDelta.delete d) →
      canonical x) as Hc'.
    { intros x. rw elem_of_app !elem_of_elements -elem_of_union. apply Hc. }
    intros x y Hx Hy. exact (canonical_inj x y (Hc' x Hx) (Hc' y Hy)).
  - apply NoDup_app. split_and!; [apply NoDup_elements| |apply NoDup_elements].
    intros x. rw !elem_of_elements. intros H1 H2. exact (proj1 (elem_of_disjoint _ _) Hdis x H1 H2).
Qed.

Lemma delta_tasks_ok (m : t S) secrets d :
  absolute_temp → mm_path m = MOD_DIR →
  (∀ x, x ∈ ModDelta.install d ∪ ModDelta.delete d → canonical x) →
  Forall2 task_ok (delta_specs d) (apply_tasks m secrets d).
Proof.
  intros Hab Hp Hc. unfold delta_specs, apply_tasks. rw Hp. apply Forall2_app.
  - apply Forall2_fmap, Forall_Forall2_diag, Forall_forall. intros x Hx%elem_of_elements.
    apply download_task; [done|]. apply Hc, elem_of_union. by left.
  - apply Forall2_fmap, Forall_Forall2_diag, Forall_forall. intros x Hx%elem_of_elements.
    apply delete_task. apply Hc, elem_of_union. by right.
Qed.

Lemma metadata_entries (m : t S) w :
  wp (apply_metadata_only m)
     (λ _ w', ∀ n, ¬ is_metadata n → (entry (files w') n ↔ entry (files w) n)) w.
Proof.
  apply wp_apply_metadata_only. intros r w' Hfr _ _ n Hn. unfold entry. rw Hfr; [done| | |].
  - apply longer_not_prefix. rw length_app /=. lia.
  - intros H. apply Hn. by left.
  - intros H. apply Hn. by right.
Qed.

(** What is in the directory once every task of the delta has succeeded and
    nothing else has touched it. *)
Lemma delta_outcome (installed desired : list Mod) (f f' : fs) :
  let d := calculate_mod_delta installed desired in
  names_ok f → Forall mod_ok desired → (∀ x, x ∈ installed → x ∈ disk_mods f) →
  (∀ x, x ∈ ModDelta.install d ∪ ModDelta.delete d → canonical x) →
  (∀ n, n ∉ (delta_specs d).*1 → ¬ is_metadata n → (entry f' n ↔ entry f n)) →
  (∀ s, s ∈ delta_specs d → (entry f' s.1 ↔ s.2 = true)) →
  (∀ x, x ∈ desired → x ∈ disk_mods f') ∧
  ((∀ x, x ∈ disk_mods f → x ∈ installed) → ∀ x, x ∈ disk_mods f' → x ∈ desired).
Proof.
  intros d Hok Hdes Hinst Hc Hfr Hrun.
  assert (∀ x, x ∈ ModDelta.install d ↔ x ∈ desired ∧ x ∉ installed) as Hi.
  { intros x. unfold d. by rw delta_install elem_of_difference !elem_of_list_to_set. }
  assert (∀ x, x ∈ ModDelta.delete d ↔ x ∈ installed ∧ x ∉ desired) as Hd.
  { intros x. unfold d. by rw delta_delete elem_of_difference !elem_of_list_to_set. }
  rw Forall_forall in Hdes. split.
  - intros x Hx. pose proof (mod_ok_canonical x (Hdes x Hx)) as Hcx.
    apply canonical_disk; [done|by apply (Hdes x)|]. destruct (decide (x ∈ installed)) as [Hin|Hin].
    + apply Hfr; [|by apply metadata_not_mod|by destruct (disk_canonical _ _ Hok (Hinst x Hin))].
      intros (s & Hs & Hsd)%list_elem_of_fmap.
      apply elem_of_delta_specs in Hsd as [(y & Hy & ->)|(y & Hy & ->)]; cbn in Hs;
        assert (canonical y) as Hcy by (apply Hc, elem_of_union; tauto);
        rw -(canonical_inj x y Hcx Hcy Hs) in Hy; [apply Hi in Hy|apply Hd in Hy]; tauto.
    + apply (Hrun (mod_filename x, true)); [|done]. apply elem_of_delta_specs. left.
      exists x. by rw Hi.
  - intros Hall x (n & He & Hm & Hx)%elem_of_disk_mods.
    destruct (decide (n ∈ (delta_specs d).*1)) as [Hin|Hin].
    + apply list_elem_of_fmap in Hin as (s & -> & Hs). pose proof (Hrun s Hs) as Hs'.
      apply elem_of_delta_specs in Hs as [(y & Hy & ->)|(y & Hy & ->)]; cbn in *;
        [|by apply (proj1 Hs') in He]. apply Hi in Hy as [Hy _]. destruct (Hdes y Hy) as (_ & _ & _ & Hv & _).
      destruct (mod_ok_canonical y (Hdes y Hy)) as [Hcy _].
      rw from_utf8_lossy_valid // Hcy in Hx. by simplify_eq.
    + apply Hfr in He; [|done..]. assert (x ∈ disk_mods f) as Hx0.
      { apply elem_of_disk_mods. by exists n. }
      destruct (decide (x ∈ desired)) as [|Hxm]; [done|]. exfalso. apply Hin.
      destruct (Hok n He) as [_ Hv]. rw from_utf8_lossy_valid // in Hx.
      assert (mod_filename x = n) as <- by by eapply filename_parsed.
      apply list_elem_of_fmap. exists (mod_filename x, false). split; [done|].
      apply elem_of_delta_specs. right. exists x. split; [|done]. apply Hd. auto.
Qed.

(** C14: When [apply] succeeds, every desired mod is on disk, for every order
    of the tasks and every pattern of failures; and when no call failed
    nothing else is: the directory holds exactly the desired mods. *)
Theorem apply_spec (m : t S) secrets w :
  absolute_temp → mm_path m = MOD_DIR → Forall mod_ok (mods m) → names_ok (files w) →
  (∀ n, entry (files w) n → node_at (files w) MOD_DIR = Some Dir) →
  wp (apply m secrets)
     (λ r w', r = Ok () →
        (∀ x, x ∈ mods m → x ∈ disk_mods (files w')) ∧
        (no_faults → ∀ x, x ∈ disk_mods (files w') → x ∈ mods m)) w.
Proof.
  intros Hab Hp Hdes Hok Hdir. unfold apply. st_go. apply wp_read.
  intros [cur|e] w1 Hw1 Hcur Hnone _; [|done].
  set (installed := match cur with Some c => mods c | None => [] end).
  assert (∀ x, x ∈ installed → x ∈ disk_mods (files w)) as Hinst.
  { unfold installed. intros x Hx. destruct cur as [c|]; [|by apply elem_of_nil in Hx].
    by destruct (Hcur c eq_refl) as (<- & _). }
  assert (no_faults → ∀ x, x ∈ disk_mods (files w) → x ∈ installed) as Hall.
  { intros Hn x Hx. unfold installed. destruct cur as [c|].
    - by destruct (Hcur c eq_refl) as (-> & _).
    - exfalso. destruct (disk_canonical _ _ Hok Hx) as [_ He].
      by apply (Hnone Hn eq_refl), (Hdir _ He). }
  set (d := calculate_mod_delta installed (mods m)).
  assert (∀ x, x ∈ ModDelta.install d ∪ ModDelta.delete d → canonical x) as Hc.
  { intros x. unfold d. rw elem_of_union delta_install delta_delete !elem_of_difference
      !elem_of_list_to_set. rw Forall_forall in Hdes.
    intros [[Hx _]|[Hx _]]; [by apply mod_ok_canonical, Hdes|].
    by destruct (disk_canonical _ _ Hok (Hinst x Hx)). }
  apply wp_bind, wp_gets. apply (wp_tasks_around (delta_specs d)).
  - by apply delta_tasks_ok.
  - apply delta_specs_nodup; [done|]. intros x. unfold d.
    rw delta_install delta_delete !elem_of_difference !elem_of_list_to_set. tauto.
  - apply Forall_forall. intros s [(x & Hx & ->)|(x & Hx & ->)]%elem_of_delta_specs;
      apply metadata_not_mod, Hc, elem_of_union; auto.
  - apply metadata_entries.
  - rw Hw1. intros r w' Hfr Hrun Hr. specialize (Hrun Hr).
    destruct (delta_outcome installed (mods m) (files w) (files w')) as [H1 H2]; [done..|].
    split; [done|]. intros Hn. by apply H2, Hall.
Qed.
End apply.
