(* ===== verification/Versions.v ===== *)
(** * Versions: src/src/agent/factorio.rs

    The Factorio installations under the install directory: scanning it,
    installing a version, deleting one. *)

From S2P Require Import Prelude Text Io Errors Downloader.

Open Scope st_scope.

Record Factorio := MkFactorio { f_path : path; f_version : string }.

#[export] Instance Factorio_eq : EqDecision Factorio.
Proof. solve_decision. Defined.

(** Decompressing a [.tar.xz] and unpacking it into a directory, the crates
    [xz2] and [tar].  What is relied on: only what is in the directory, and
    the directories above it, can change, and on success it is a directory. *)
Class Archive := { tar_unpack : bytes → path → ST IoW (result IoErrorKind ()) }.

Class ArchiveLaws {A : Archive} : Prop := {
  unpack_frame b p w q :
    ¬ resolve p `prefix_of` q → ¬ q `prefix_of` resolve p →
    node_of (files (tar_unpack b p w).2) q = node_of (files w) q;
  unpack_keeps b p w q n :
    ¬ resolve p `prefix_of` q → node_of (files w) q = Some n →
    node_of (files (tar_unpack b p w).2) q = Some n;
  unpack_dir b p w :
    (tar_unpack b p w).1 = Ok () → node_at (files (tar_unpack b p w).2) p = Some Dir;
}.

(** The prefix [new] looks for. *)
Definition OLD_PREFIX : string := "factorio_headless_x64_".

Module VersionManager.
Record t := Mk { install_dir : path; versions : gmap string Factorio }.

(** New naming scheme for dedi server files from 1.2.x onwards. *)
Definition is_new_file_scheme (version : string) : bool :=
  starts_with "2." version || starts_with "1.2" version.

Definition get_download_id (version : string) : string :=
  if is_new_file_scheme version then "factorio-headless_linux_" +:+ version
  else "factorio_headless_x64_" +:+ version.

Definition get_install_path (vm : t) (version : string) : path :=
  join (install_dir vm) (get_download_id version).

Section ops.
Context {E : IoEnv} {N : NetEnv} {A : Archive}.

(** The loop of [new]: [entry.file_name().to_str()] is [None] for a name
    that is not UTF-8. *)
Fixpoint scan (dir : path) (names : list string) (acc : gmap string Factorio) :
    ST IoW (result Error (gmap string Factorio)) :=
  _ <-? io next_entry ;;
  match names with
  | [] => st_ret (Ok acc)
  | n :: names' =>
      let p := dir ++ [Normal n] in
      b <- is_dir p ;;
      scan dir names'
        (if b && valid_utf8 n then
           match strip_prefix OLD_PREFIX n with
           | Some version => <[version := MkFactorio p version]> acc
           | None => acc
           end
         else acc)
  end.

Definition new (dir : path) : ST IoW (result Error t) :=
  _ <-? io (fs_create_dir_all dir) ;;
  entries <-? io (fs_read_dir dir) ;;
  versions <-? scan dir entries ∅ ;;
  st_ret (Ok (Mk dir versions)).

(** [&mut self] methods return the manager they leave. *)
Definition install (vm : t) (version : string) : ST IoW (result Error () * t) :=
  let uri := "https://factorio.com/get-download/" +:+ version +:+ "/headless/linux64" in
  r <- download (get_download_id version +:+ ".tar.xz") uri ;;
  match r with
  | Err e => st_ret (Err e, vm)
  | Ok xz_bytes =>
      let install_path := get_install_path vm version in
      u <- tar_unpack xz_bytes install_path ;;
      match u with
      | Err e => st_ret (Err (Io e), vm)
      | Ok _ =>
          st_ret (Ok (), Mk (install_dir vm)
                           (<[version := MkFactorio install_path version]> (versions vm)))
      end
  end.

Definition delete (vm : t) (version : string) : ST IoW (result Error () * t) :=
  match versions vm !! version with
  | Some installation =>
      r <- fs_remove_dir_all (f_path installation) ;;
      match r with
      | Err e => st_ret (Err (Io e), vm)
      | Ok _ => st_ret (Ok (), Mk (install_dir vm) (base.delete version (versions vm)))
      end
  | None => st_ret (Err (Io NotFound), vm)
  end.
End ops.
End VersionManager.

(** ** Scanning *)

Import VersionManager.

(** The installation the scan of [dir] makes of version [v], and when. *)
Definition scanned (dir : path) (v : string) : Factorio :=
  MkFactorio (dir ++ [Normal (OLD_PREFIX +:+ v)]) v.
Definition found (m : fs) (dir : path) (v : string) : Prop :=
  node_at m (f_path (scanned dir v)) = Some Dir ∧ valid_utf8 (OLD_PREFIX +:+ v) = true.

Lemma OLD_PREFIX_eq : OLD_PREFIX = "factorio_headless_x64_".
Proof. done. Qed.
#[local] Opaque OLD_PREFIX.

Section scan_facts.
Context {E : IoEnv}.
Implicit Types w : IoW.

Lemma wp_is_dir_iff p Q w :
  (∀ b, (b = true → node_at (files w) p = Some Dir) →
     (no_faults → b = is_dir_node (node_at (files w) p)) →
     Q b (MkIo (files w) (S (tick w)))) →
  wp (is_dir p) Q w.
Proof.
  intros H. apply wp_io_bool. intros b Hb Hn. apply H; [|done]. intros ->.
  specialize (Hb eq_refl). by destruct (node_at _ p) as [[|]|].
Qed.

(** One entry of the scan. *)
Lemma scan_insert dir (acc : gmap string Factorio) n (b : bool) v f :
  (if b && valid_utf8 n then
     match strip_prefix OLD_PREFIX n with
     | Some version => <[version := MkFactorio (dir ++ [Normal n]) version]> acc
     | None => acc
     end
   else acc) !! v = Some f ↔
  (b = true ∧ valid_utf8 n = true ∧ n = OLD_PREFIX +:+ v ∧ f = scanned dir v) ∨
  (acc !! v = Some f ∧ ¬ (b = true ∧ valid_utf8 n = true ∧ n = OLD_PREFIX +:+ v)).
Proof.
  destruct (decide (b = true ∧ valid_utf8 n = true ∧ n = OLD_PREFIX +:+ v)) as [(-> & Hv & ->)|Hd].
  - rw Hv strip_prefix_app /=. rw lookup_insert_eq. split.
    + intros [= <-]. by left.
    + intros [(_ & _ & _ & ->)|[_ []]]; done.
  - assert ((if b && valid_utf8 n then
      match strip_prefix OLD_PREFIX n with
      | Some version => <[version := MkFactorio (dir ++ [Normal n]) version]> acc
      | None => acc
      end else acc) !! v = acc !! v) as ->; [|tauto].
    destruct b; [|done]. destruct (valid_utf8 n) eqn:Hv; [|done]. cbn.
    destruct (strip_prefix OLD_PREFIX n) as [v'|] eqn:Hs; [|done].
    apply strip_prefix_Some in Hs. rw lookup_insert_ne //. intros ->. by apply Hd.
Qed.

Lemma wp_scan dir names acc Q w :
  (∀ v f, acc !! v = Some f → f = scanned dir v ∧ found (files w) dir v) →
  (∀ r w', files w' = files w →
     (∀ m, r = Ok m →
        (∀ v f, m !! v = Some f → f = scanned dir v ∧ found (files w) dir v) ∧
        (no_faults → ∀ v,
           (is_Some (acc !! v) ∨ (OLD_PREFIX +:+ v ∈ names ∧ found (files w) dir v)) →
           m !! v = Some (scanned dir v))) →
     (no_faults → is_ok r = true) → Q r w') →
  wp (scan dir names acc) Q w.
Proof.
  revert acc Q w. induction names as [|n names IH]; intros acc Q w Hacc HQ;
    cbn [scan]; unfold io; st_go; (apply wp_io_unit; cbn [map_err];
      [|intros k w' Hn Hw'; by apply HQ]).
  - intros w' Hw'. st_go. apply HQ; [done| |done]. intros m [= <-]. split; [done|].
    intros _ v [[f Hf]|[Hv _]]; [|by apply elem_of_nil in Hv].
    rw Hf. f_equal. by apply Hacc.
  - intros w1 Hw1. st_go. apply wp_is_dir_iff. rw Hw1. intros b Hb Hbn.
    set (acc' := if b && valid_utf8 n then _ else acc).
    pose proof (scan_insert dir acc n b) as Hacc'. fold acc' in Hacc'.
    apply IH; cbn; rw ?Hw1.
    + intros v f [(Hb1 & Hv & Hn & ->)|[Hf _]]%Hacc'; [|by apply Hacc].
      split; [done|]. subst n. split; [by apply Hb|done].
    + intros r w2 Hw2 Hr Hok. apply HQ; [congruence| |done].
      intros m Hm. destruct (Hr m Hm) as [H1 H2]. split; [done|].
      intros Hn v Hv. apply (H2 Hn).
      destruct (decide (b = true ∧ valid_utf8 n = true ∧ n = OLD_PREFIX +:+ v)) as [(?&?&?)|Hd].
      { left. exists (scanned dir v). apply Hacc'. by left. }
      destruct Hv as [[f Hf]|[[Hv|Hv]%elem_of_cons Hfound]]; [| |by right].
      * left. exists f. apply Hacc'. by right.
      * exfalso. apply Hd. destruct Hfound as [Hd1 Hd2]. subst n. split_and!; [|done..].
        rw (Hbn Hn). unfold scanned in Hd1. cbn in Hd1. by rw Hd1.
Qed.
End scan_facts.

(** ** Properties *)

Section properties.
Context {E : IoEnv} {N : NetEnv} {A : Archive}.
Implicit Types w : IoW.

Lemma found_child m dir v :
  found m dir v → OLD_PREFIX +:+ v ∈ children (resolve dir) m.
Proof.
  intros [Hn _]. apply elem_of_children. unfold node_at, scanned in Hn. cbn [f_path] in Hn.
  rw resolve_snoc in Hn. unfold node_of in Hn. rw is_base_snoc in Hn. eauto.
Qed.

Lemma wp_new dir Q w :
  (∀ r w', same_files (files w) (files w') →
     (∀ q, ¬ q `prefix_of` resolve dir → node_of (files w') q = node_of (files w) q) →
     (∀ vm, r = Ok vm →
        install_dir vm = dir ∧
        (∀ v f, versions vm !! v = Some f → f = scanned dir v ∧ found (files w') dir v) ∧
        (no_faults → ∀ v, found (files w') dir v → versions vm !! v = Some (scanned dir v))) →
     (no_faults → dir_ready (files w) dir → is_ok r = true) → Q r w') →
  wp (new dir) Q w.
Proof.
  intros HQ. unfold new, io. st_go. apply wp_mkdir. cbn. intros [[]|k] m1 Hs Hl Hd Hok; cbn.
  2: { apply HQ; [done..|]. intros Hn Hr. by specialize (Hok Hn Hr). }
  specialize (Hd eq_refl). st_go. apply wp_fs_read_dir. cbn.
  intros [names|k] Hn Hn'; cbn.
  2: { apply HQ; [done..|]. intros Hf _. specialize (Hn' Hf). unfold pure_read_dir, node_at in Hn'.
       by rw Hd in Hn'. }
  specialize (Hn names eq_refl). unfold pure_read_dir, node_at in Hn. rw Hd in Hn. simplify_eq.
  st_go. apply wp_scan; [intros v f Hv; by rw lookup_empty in Hv|]. cbn.
  intros r w2 Hw2 Hr Hrok. destruct r as [m|e]; cbn; st_go.
  - destruct (Hr m eq_refl) as [H1 H2]. apply HQ; rw ?Hw2; [done..| |done].
    intros vm [= <-]. cbn. split_and!; [done|done|].
    intros Hf v Hv. apply (H2 Hf). right. split; [by apply found_child|done].
  - apply HQ; rw ?Hw2; [done..|]. intros Hf _. by specialize (Hrok Hf).
Qed.

(** A scan finds exactly the directories named [factorio_headless_x64_]
    and a version, each under its version; failures can only make it miss
    some or return an error. *)
Theorem new_spec dir w :
  wp (new dir)
     (λ r w', (∀ vm, r = Ok vm →
        install_dir vm = dir ∧
        (∀ v f, versions vm !! v = Some f → f = scanned dir v ∧ found (files w') dir v) ∧
        (no_faults → ∀ v, found (files w') dir v → versions vm !! v = Some (scanned dir v))) ∧
        (no_faults → dir_ready (files w) dir → is_ok r = true)) w.
Proof. apply wp_new. done. Qed.

(** A version that can be a directory name. *)
Definition version_name (v : string) : Prop :=
  str_has "/" v = false ∧ valid_utf8 (OLD_PREFIX +:+ v) = true.

Lemma install_path_old vm v :
  str_has "/" v = false → is_new_file_scheme v = false →
  MkFactorio (get_install_path vm v) v = scanned (install_dir vm) v.
Proof.
  intros Hs Hnew. unfold get_install_path, get_download_id, scanned. rw Hnew OLD_PREFIX_eq. f_equal.
  apply join_simple; [by rw str_has_app Hs|]. rw sapp_length /=. lia.
Qed.

Lemma wp_install `{!ArchiveLaws} vm v Q w :
  (∀ rv w', (rv.1 = Ok () →
        rv.2 = Mk (install_dir vm) (<[v := MkFactorio (get_install_path vm v) v]> (versions vm)) ∧
        node_at (files w') (get_install_path vm v) = Some Dir) →
     (rv.1 ≠ Ok () → rv.2 = vm) → Q rv w') →
  wp (install vm v) Q w.
Proof.
  intros HQ. unfold install. st_go. eapply (wp_wand _ (λ _ _, True)); [done|]. intros r w1 _.
  destruct r as [b|e]; st_go; [|by apply HQ].
  unfold wp. pose proof (unpack_dir b (get_install_path vm v) w1) as Hu.
  destruct (tar_unpack b (get_install_path vm v) w1) as [u w2]. cbn in *.
  destruct u as [[]|e]; cbn; apply HQ; cbn; [by auto|done..].
Qed.

Lemma install_path_new vm v :
  str_has "/" v = false → is_new_file_scheme v = true →
  get_install_path vm v = install_dir vm ++ [Normal ("factorio-headless_linux_" +:+ v)].
Proof.
  intros Hs Hnew. unfold get_install_path, get_download_id. rw Hnew.
  apply join_simple; [by rw str_has_app Hs|]. rw sapp_length /=. lia.
Qed.

(** C27: An install that succeeds records the version, and its directory is
    there; whether a restart (a new scan of the install directory) finds it
    again depends on the naming scheme.  Under the old one it is found, with the
    same record.  Under the new one, of the versions that start with 2. or 1.2,
    the scan does not take the directory of the installation for any version:
    the version is unknown unless an older directory with the old name is there
    too, and then its record is that of the other directory. *)
Theorem install_then_scan `{!ArchiveLaws} vm v w :
  no_faults → version_name v →
  wp (rv <- install vm v ;; r <- new (install_dir vm) ;; st_ret (rv, r))
     (λ x w', x.1.1 = Ok () →
        versions x.1.2 !! v = Some (MkFactorio (get_install_path vm v) v) ∧
        node_at (files w') (get_install_path vm v) = Some Dir ∧
        ∀ vm', x.2 = Ok vm' →
          if is_new_file_scheme v then
            (∀ u f, versions vm' !! u = Some f → f_path f ≠ get_install_path vm v) ∧
            versions vm' !! v ≠ versions x.1.2 !! v ∧
            (is_Some (versions vm' !! v) ↔ found (files w') (install_dir vm) v)
          else versions vm' !! v = versions x.1.2 !! v) w.
Proof.
  intros Hn [Hs Hv]. st_go. apply wp_install. intros [u vm1] w1 Hok _. st_go. apply wp_new.
  intros r w2 _ Hframe Hr _. st_go. cbn. intros ->. destruct (Hok eq_refl) as [Hvm Hd].
  cbn in Hvm. subst vm1. cbn. rw lookup_insert_eq. split; [done|].
  assert (∃ n, get_install_path vm v = install_dir vm ++ [Normal n]) as [n Hpath].
  { destruct (is_new_file_scheme v) eqn:Hnew.
    - rw (install_path_new vm v Hs Hnew). eauto.
    - pose proof (f_equal f_path (install_path_old vm v Hs Hnew)) as Hp. cbn in Hp. rw Hp. eauto. }
  assert (node_at (files w2) (get_install_path vm v) = Some Dir) as Hd2.
  { unfold node_at. rw Hframe; [done|]. rw Hpath resolve_snoc.
    apply longer_not_prefix. rw length_app /=. lia. }
  split; [done|]. intros vm' ->. destruct (Hr vm' eq_refl) as (_ & H1 & H2).
  destruct (is_new_file_scheme v) eqn:Hnew.
  - pose proof (install_path_new vm v Hs Hnew) as Hp.
    assert (∀ u f, versions vm' !! u = Some f → f_path f ≠ get_install_path vm v) as Hother.
    { intros u f Hf Heq. destruct (H1 u f Hf) as [-> _]. rw Hp in Heq.
      by apply app_inj_tail in Heq as [_ [=]]. }
    split_and!; [exact Hother| |].
    + intros Heq. by apply (Hother v _ Heq).
    + split; [intros [f Hf]; by apply (H1 v f)|]. intros Hf. rw (H2 Hn v Hf). by eexists.
  - rw (install_path_old _ _ Hs Hnew). apply (H2 Hn). split; [|done].
    by rw -(install_path_old vm v Hs Hnew).
Qed.

(** What the manager knows of a version is under its own name. *)
Definition vm_wf (vm : t) : Prop :=
  ∀ v f, versions vm !! v = Some f → f_version f = v ∧ parent (f_path f) = Some (install_dir vm).

Lemma wp_delete vm v Q w :
  (∀ rv w',
     (rv.1 = Ok () → rv.2 = Mk (install_dir vm) (base.delete v (versions vm)) ∧
        ∃ f, versions vm !! v = Some f ∧
          ∀ q, resolve (f_path f) `prefix_of` q → files w' !! q = None) →
     (rv.1 ≠ Ok () → rv.2 = vm) →
     (no_faults → (rv.1 = Ok () ↔ ∃ f, versions vm !! v = Some f ∧
        node_at (files w) (f_path f) = Some Dir)) →
     Q rv w') →
  wp (delete vm v) Q w.
Proof.
  intros HQ. unfold delete. destruct (versions vm !! v) as [f|] eqn:Hf.
  2: { st_go. apply HQ; [done|done|]. intros _. split; [done|]. by intros (f & ? & _). }
  st_go. apply wp_fs_remove_dir_all. intros [[]|k] m' _ _ Hok Hn; st_go.
  - destruct (Hok eq_refl) as [Hd Hgone]. apply HQ; cbn; [by eauto|done|].
    intros _. split; [by eauto|done].
  - apply HQ; cbn; [done|done|]. intros Hnf. split; [done|]. intros (f' & [= <-] & Hd).
    by specialize (Hn Hnf Hd).
Qed.

(** C28: The bookkeeping of the installed versions: scanning, installing and
    deleting keep every record under its own version and in the install
    directory, an operation that fails leaves the record as it was, and a
    deletion that succeeds removes the record and the whole directory. *)
Theorem version_manager_wf `{!ArchiveLaws} vm v dir w :
  str_has "/" v = false → vm_wf vm →
  wp (new dir) (λ r _, ∀ vm', r = Ok vm' → vm_wf vm') w ∧
  wp (install vm v) (λ rv _, vm_wf rv.2 ∧ (rv.1 ≠ Ok () → rv.2 = vm)) w ∧
  wp (delete vm v) (λ rv w', vm_wf rv.2 ∧ (rv.1 ≠ Ok () → rv.2 = vm) ∧
    (rv.1 = Ok () → versions rv.2 !! v = None ∧
       ∃ f, versions vm !! v = Some f ∧
         ∀ q, resolve (f_path f) `prefix_of` q → files w' !! q = None)) w.
Proof.
  intros Hs Hwf. split_and!.
  - apply wp_new. intros r w' _ _ Hr _ vm' Hvm' u f Hf. destruct (Hr vm' Hvm') as (Hd & H1 & _).
    destruct (H1 u f Hf) as [-> _]. rw Hd. split; [done|]. exact (proj1 (file_in_snoc _ _)).
  - apply wp_install. intros [u vm'] w' Hok Herr. cbn in *.
    assert (u = Ok () ∨ u ≠ Ok ()) as [Hu|Hu] by (destruct u as [[]|]; auto).
    + split; [|done]. destruct (Hok Hu) as [-> _]. intros v' f. cbn.
      intros [[<- <-]|[_ Hf]]%lookup_insert_Some; [|by apply Hwf].
      split; [done|]. cbn. unfold get_install_path. refine (proj1 (join_file_in _ _ _ _)).
      * unfold get_download_id. destruct (is_new_file_scheme v); by rw str_has_app Hs.
      * unfold get_download_id. destruct (is_new_file_scheme v); rw sapp_length /=; lia.
    + split; [|done]. by rw (Herr Hu).
  - apply wp_delete. intros [u vm'] w' Hok Herr _. cbn in *.
    assert (u = Ok () ∨ u ≠ Ok ()) as [Hu|Hu] by (destruct u as [[]|]; auto).
    + destruct (Hok Hu) as [-> (f & Hf & Hgone)]. split_and!; [|done|].
      * intros v' f' Hf'. cbn in Hf'. apply lookup_delete_Some in Hf' as [_ Hf']. by apply Hwf.
      * intros _. split; [apply lookup_delete_eq|eauto].
    + split_and!; [by rw (Herr Hu)|done|]. intros ?. done.
Qed.
End properties.
