(* ===== verification/Builder.v ===== *)
(** * Builder: src/src/agent/server/builder.rs, and the instances of
    src/src/agent/server/mod.rs that it builds

    The command lines with which the Factorio executable is started. *)

From S2P Require Import Prelude Text Schema Io Errors Settings Downloader Versions Mods Saves.

Open Scope st_scope.

(** ** [tokio::process::Command] *)

(** An argument is a text or the text of a path. *)
Inductive Arg := AStr (s : string) | APath (p : path).

#[export] Instance Arg_eq : EqDecision Arg.
Proof. solve_decision. Defined.

Record Command := MkCommand {
  program : path;
  args : list Arg;
  piped : bool;            (** stdin, stdout and stderr are [Stdio::piped()] *)
  kill_on_drop : bool;
}.

Definition Command_new (p : path) : Command := MkCommand p [] false false.
Definition add_args (a : list Arg) (c : Command) : Command :=
  MkCommand (program c) (args c ++ a) (piped c) (kill_on_drop c).
Definition pipe_and_kill_on_drop (c : Command) : Command :=
  MkCommand (program c) (args c) true true.

(** What is recorded about an instance besides its command. *)
Record InstanceInfo := MkInstanceInfo {
  admin_list : ListFile;
  launch_settings : LaunchSettings.t;
  savefile : ServerStartSaveFile;
  server_settings : ServerSettings.t;
  optional_args : list string;
}.

Record StartableInstance := MkStartable { si_cmd : Command; si_info : InstanceInfo }.
Record StartableShortLivedInstance := MkShortLived { sl_cmd : Command }.

(** [StoppedInstance], without the parts that are only carried along. *)
Record StoppedInstance := MkStopped { exit_status : Z; st_info : InstanceInfo }.

(** The two traits. *)
Class StartableInstanceBuilder (B : Type) := {
  replay_optional_args : B → StoppedInstance → B;
  build : B → StartableInstance;
}.
Class StartableShortLivedInstanceBuilder (B : Type) := {
  build_shortlived : B → StartableShortLivedInstance;
}.

(** [Uuid::new_v4()] *)
Class UuidEnv := { uuid_v4 : nat → string }.

(** [File::create_new] *)
Definition fs_create_new `{IoEnv} (p : path) : ST IoW (result IoErrorKind ()) :=
  io_op (λ t m, match node_at m p with
                | Some _ => (Err AlreadyExists, m)
                | None => pure_write p [] t m
                end).

(** ** The builders *)

Record ServerHostBuilder := MkHostBuilder { hb_cmd : Command; hb_info : InstanceInfo }.
Record SaveCreatorBuilder := MkSaveCreator { sc_cmd : Command; sc_name : string }.

Module ServerBuilder.
Record t := Mk { cmd_builder : Command }.

Definition using_installation (installation : Factorio) : t :=
  Mk (Command_new
        (join (join (join (join (f_path installation) "factorio") "bin") "x64") "factorio")).

Definition with_cli_args (a : list Arg) (b : t) : t := Mk (add_args a (cmd_builder b)).

Section ops.
Context {E : IoEnv} {N : NetEnv} {U : UuidEnv}.

(** The temporary file of one of the two settings and its option. *)
Definition with_settings_file (option_name prefix : string) (json : option string) (b : t) :
    ST IoW (result Error t) :=
  match json with
  | None => st_ret (Ok b)
  | Some json =>
      n <- st_gets tick ;;
      let temp_file_name := join temp_dir (prefix +:+ uuid_v4 n +:+ ".json") in
      _ <-? io (fs_create_new temp_file_name) ;;
      _ <-? io (file_write_all temp_file_name 0 (bytes_of json)) ;;
      _ <-? io file_flush ;;
      st_ret (Ok (with_cli_args [AStr option_name; APath temp_file_name] b))
  end.

Definition creating_savefile (new_savefile_name : string)
    (map_gen_settings map_settings : option string) (b : t) :
    ST IoW (result Error SaveCreatorBuilder) :=
  let b := with_cli_args [AStr "--create"; APath (get_savefile_path new_savefile_name)] b in
  b <-? with_settings_file "--map-gen-settings" "map-gen-settings-" map_gen_settings b ;;
  b <-? with_settings_file "--map-settings" "map-settings-" map_settings b ;;
  st_ret (Ok (MkSaveCreator (cmd_builder b) new_savefile_name)).
End ops.

(** [bool::to_string] *)
Definition bool_to_string (b : bool) : string := if b then "true" else "false".

Definition hosting_savefile {S : Type} (sf : ServerStartSaveFile) (mods : ModManager.t S)
    (al bl wl : ListFile) (ls : LaunchSettings.t) (ss : ServerSettings.t) (b : t) :
    ServerHostBuilder :=
  let b := match sf with
           | Latest => with_cli_args [AStr "--start-server-load-latest"] b
           | Specific savefile_name =>
               with_cli_args [AStr "--start-server"; APath (get_savefile_path savefile_name)] b
           end in
  let b := with_cli_args
             [AStr "--bind"; AStr (addr_to_string (LaunchSettings.server_bind ls));
              AStr "--rcon-bind"; AStr (addr_to_string (LaunchSettings.rcon_bind ls));
              AStr "--rcon-password"; AStr (LaunchSettings.rcon_password ls)] b in
  let b := with_cli_args [AStr "--server-settings"; APath (ServerSettings.file_path ss)] b in
  let b := with_cli_args [AStr "--server-adminlist"; APath (lf_path al)] b in
  let b := with_cli_args [AStr "--server-banlist"; APath (lf_path bl)] b in
  let b := with_cli_args [AStr "--server-whitelist"; APath (lf_path wl)] b in
  let b := with_cli_args [AStr "--use-server-whitelist";
                          AStr (bool_to_string (LaunchSettings.use_whitelist ls))] b in
  let b := with_cli_args [AStr "--mod-directory"; APath (ModManager.mm_path mods)] b in
  MkHostBuilder (cmd_builder b) (MkInstanceInfo al ls sf ss []).
End ServerBuilder.

#[export] Instance host_builder : StartableInstanceBuilder ServerHostBuilder := {|
  replay_optional_args b previous :=
    MkHostBuilder (hb_cmd b)
      (MkInstanceInfo (admin_list (hb_info b)) (launch_settings (hb_info b))
         (savefile (hb_info b)) (server_settings (hb_info b))
         (optional_args (hb_info b) ++ optional_args (st_info previous)));
  build b := MkStartable (pipe_and_kill_on_drop (hb_cmd b)) (hb_info b);
|}.

#[export] Instance save_creator : StartableShortLivedInstanceBuilder SaveCreatorBuilder := {|
  build_shortlived b := MkShortLived (pipe_and_kill_on_drop (sc_cmd b));
|}.

(** ** The command lines *)

(** The value that follows an option on a command line. *)
Fixpoint option_value (o : string) (l : list Arg) : option Arg :=
  match l with
  | AStr s :: ((v :: _) as rest) => if decide (s = o) then Some v else option_value o rest
  | _ :: rest => option_value o rest
  | [] => None
  end.

(** The server is started with the save, the addresses, the password, the
    four files, the whitelist switch and the mods directory it is given, on
    piped standard streams, and is killed when its handle is dropped. *)
Theorem hosting_savefile_command {S : Type} inst name (mods : ModManager.t S) al bl wl ls ss :
  let c := si_cmd (build (ServerBuilder.hosting_savefile (Specific name) mods al bl wl ls ss
                            (ServerBuilder.using_installation inst))) in
  args c =
    [AStr "--start-server"; APath (get_savefile_path name);
     AStr "--bind"; AStr (addr_to_string (LaunchSettings.server_bind ls));
     AStr "--rcon-bind"; AStr (addr_to_string (LaunchSettings.rcon_bind ls));
     AStr "--rcon-password"; AStr (LaunchSettings.rcon_password ls);
     AStr "--server-settings"; APath (ServerSettings.file_path ss);
     AStr "--server-adminlist"; APath (lf_path al);
     AStr "--server-banlist"; APath (lf_path bl);
     AStr "--server-whitelist"; APath (lf_path wl);
     AStr "--use-server-whitelist";
     AStr (ServerBuilder.bool_to_string (LaunchSettings.use_whitelist ls));
     AStr "--mod-directory"; APath (ModManager.mm_path mods)] ∧
  program c = f_path inst ++ [Normal "factorio"; Normal "bin"; Normal "x64"; Normal "factorio"] ∧
  piped c = true ∧ kill_on_drop c = true.
Proof.
  cbn. split; [done|]. split; [|done]. rw !join_simple; [..|done|cbn; lia]; try done; try (cbn; lia).
  by rw -!app_assoc.
Qed.
