(* ===== verification/Proc.v ===== *)
(** * Proc: src/src/agent/server/{mod,proc,rcon}.rs

    The one Factorio process of the agent: starting, stopping and waiting for
    it, the task that reads its standard output, the RCON connection.

    The operating system is the set of child processes that are alive.  What
    a child and the system do is an oracle ([ProcEnv]), indexed like the one
    of the file system by the calls made so far.  The model is of the calls
    that return: a child that ignores SIGTERM keeps the code waiting, with the
    mutex locked, and the step that stops it is then never made. *)

From S2P Require Import Prelude Text Regex Schema Io Errors Settings Downloader Versions Mods Saves.
From S2P Require Import Builder.

Open Scope st_scope.

(** A connection of the [rcon] crate. *)
Record RconConn := MkRcon { rcon_port : Z; rcon_password_used : string; rcon_opened : nat }.

Class ProcEnv := {
(** [Command::spawn] fails *)
spawn_fault : nat → option IoErrorKind;
(** [Child::try_wait]: an error, or the status if the child has exited *)
try_wait_result : nat → nat → result IoErrorKind (option Z);
(** [kill(pid, SIGTERM)]: the errno of a failure *)
sigterm_fault : nat → option Z;
(** [Child::wait], which has no time-out *)
wait_result : nat → nat → result IoErrorKind Z;
(** [rcon::Connection]: connecting to a port, and a command *)
rcon_connect : nat → Z → string → option string;
rcon_cmd : nat → RconConn → string → result string string;
(** the 250 ms the code waits for the lock of the system statistics *)
sysinfo_lock : nat → bool;
sysinfo : nat → SystemResourcesInfo;
}.

(** ** The output of the process *)

(** What the task that reads the standard output owns and shares. *)
Record Output := MkOutput {
  rcon : option RconConn;
  rcon_initialised : bool;
  internal_server_state : InternalServerState;
  player_count : Z;
}.

Definition wrap_u32 (n : Z) : Z := n mod (u32_max + 1).

(** [fetch_add] and [fetch_sub] wrap around. *)
Definition fetch_add_1 (o : Output) : Output :=
  MkOutput (rcon o) (rcon_initialised o) (internal_server_state o) (wrap_u32 (player_count o + 1)).
Definition fetch_sub_1 (o : Output) : Output :=
  MkOutput (rcon o) (rcon_initialised o) (internal_server_state o) (wrap_u32 (player_count o - 1)).
Definition store_count (n : Z) (o : Output) : Output :=
  MkOutput (rcon o) (rcon_initialised o) (internal_server_state o) n.

Section output.
Context {R : RegexEngine} {P : ProcEnv}.

Definition on_state_change (line : string) (o : Output) : Output :=
  match captures STATE_CHANGE_RE line with
  | Some (from :: to :: _) =>
      match state_from_str from with
      | Some _ =>
          match state_from_str to with
          | Some st => MkOutput (rcon o) (rcon_initialised o) st (player_count o)
          | None => o
          end
      | None => o
      end
  | _ => o
  end.

Definition on_join_leave (line : string) (o : Output) : Output :=
  if is_match JOIN_RE line then fetch_add_1 o
  else if is_match LEAVE_RE line then fetch_sub_1 o
  else o.

(** [n] stands for the moment of the connection. *)
Definition on_rcon_ready (n : nat) (password line : string) (o : Output) : Output :=
  if rcon_initialised o then o
  else match captures RCON_READY_RE line with
       | Some (p :: _) =>
           match parse_uint u16_max p with
           | Some port =>
               match rcon_connect n port password with
               | None => MkOutput (Some (MkRcon port password n)) true
                           (internal_server_state o) (player_count o)
               | Some _ => o
               end
           | None => o
           end
       | _ => o
       end.

Definition on_line (n : nat) (password line : string) (o : Output) : Output :=
  on_rcon_ready n password line (on_join_leave line (on_state_change line o)).

(** The loop of [parse_process_stdout] over the results of [next_line] up to
    the end of the stream: the state it leaves and the lines it handed to
    [stdout_handler]. *)
Fixpoint parse_process_stdout (n : nat) (password : string)
    (lines : list (result IoErrorKind string)) (o : Output) : Output * list string :=
  match lines with
  | [] => (o, [])
  | Ok line :: lines' =>
      let r := parse_process_stdout (S n) password lines' (on_line n password line o) in
      (r.1, line :: r.2)
  | Err e :: lines' =>
      if decide (e = InvalidData) then parse_process_stdout (S n) password lines' o
      else (o, [])
  end.

(** The refresh task: the digits of the answer of [/players online count]. *)
Definition digits_of (s : string) : string :=
  string_of (filter (λ c, is_digit c = true) (bytes_of s)).
Definition on_refresh (resp : result string string) (o : Output) : Output :=
  match resp with
  | Ok r => match parse_uint u32_max (digits_of r) with
            | Some count => store_count count o
            | None => o
            end
  | Err _ => o
  end.
End output.

(** ** The process *)

(** [tokio::process::Child]: the process and the command it was spawned with. *)
Record Child := MkChild { child_pid : nat; child_cmd : Command }.

Record StartedInstance := MkStarted {
  process : Child;
  output : Output;
  info : InstanceInfo;
}.

Definition pid (i : StartedInstance) : nat := child_pid (process i).

(** The state: files and clock, the children that are alive, those that were
    sent SIGKILL because their handle was dropped (nobody waits for them to
    exit), the refresh tasks that run, and the slot under the mutex of
    [ProcessManager]. *)
Record ProcW := MkProcW {
  pw_io : IoW;
  live : gset nat;
  killed : gset nat;
  refresh_tasks : gset nat;
  next_pid : nat;
  running_instance : option StartedInstance;
}.

Definition set_io (i : IoW) (w : ProcW) : ProcW :=
  MkProcW i (live w) (killed w) (refresh_tasks w) (next_pid w) (running_instance w).
Definition set_live (l : gset nat) (w : ProcW) : ProcW :=
  MkProcW (pw_io w) l (killed w) (refresh_tasks w) (next_pid w) (running_instance w).
Definition set_killed (k : gset nat) (w : ProcW) : ProcW :=
  MkProcW (pw_io w) (live w) k (refresh_tasks w) (next_pid w) (running_instance w).
Definition set_refresh_tasks (t : gset nat) (w : ProcW) : ProcW :=
  MkProcW (pw_io w) (live w) (killed w) t (next_pid w) (running_instance w).
Definition set_running (r : option StartedInstance) (w : ProcW) : ProcW :=
  MkProcW (pw_io w) (live w) (killed w) (refresh_tasks w) (next_pid w) r.

Definition lift_io {A : Type} (m : ST IoW A) : ST ProcW A := st_zoom pw_io set_io m.

Section process.
Context {P : ProcEnv}.

(** The index of the next call. *)
Definition next_call : ST ProcW nat :=
  lift_io (λ i, (tick i, MkIo (files i) (S (tick i)))).

(** A new child, with its three pipes when they are configured. *)
Definition spawn (c : Command) : ST ProcW (result IoErrorKind Child) :=
  n <- next_call ;;
  match spawn_fault n with
  | Some k => st_ret (Err k)
  | None =>
      w <- st_get ;;
      st_put (MkProcW (pw_io w) ({[next_pid w]} ∪ live w) (killed w) (refresh_tasks w)
                      (S (next_pid w)) (running_instance w)) ;;
      st_ret (Ok (MkChild (next_pid w) c))
  end.

(** The child is no longer alive. *)
Definition reaped (p : nat) : ST ProcW () := st_modify (λ w, set_live (live w ∖ {[p]}) w).

(** Dropping a [Child] whose command had [kill_on_drop] sends it SIGKILL: the
    child ends at some later time, if it does.  Without [kill_on_drop] it just
    goes on. *)
Definition drop_child (c : Child) : ST ProcW () :=
  if kill_on_drop (child_cmd c)
  then st_modify (λ w, set_killed ({[child_pid c]} ∪ killed w) w)
  else st_ret ().

Definition child_try_wait (c : Child) : ST ProcW (result IoErrorKind (option Z)) :=
  n <- next_call ;;
  match try_wait_result n (child_pid c) with
  | Ok (Some s) => reaped (child_pid c) ;; st_ret (Ok (Some s))
  | r => st_ret r
  end.

Definition child_wait (c : Child) : ST ProcW (result IoErrorKind Z) :=
  n <- next_call ;;
  match wait_result n (child_pid c) with
  | Ok s => reaped (child_pid c) ;; st_ret (Ok s)
  | Err e => st_ret (Err e)
  end.

Definition abort_refresh (p : nat) : ST ProcW () :=
  st_modify (λ w, set_refresh_tasks (refresh_tasks w ∖ {[p]}) w).

(** [StartableInstance::start]: the two [take]s give the pipes. *)
Definition start (si : StartableInstance) : ST ProcW (result Error StartedInstance) :=
  c <-? st_map_err Io (spawn (si_cmd si)) ;;
  if negb (piped (si_cmd si)) then drop_child c ;; st_ret (Err ProcessPipeError)
  else
    st_modify (λ w, set_refresh_tasks ({[child_pid c]} ∪ refresh_tasks w) w) ;;
    st_ret (Ok (MkStarted c (MkOutput None false Ready 0) (si_info si))).

(** [StartedInstance::wait]; the handle is dropped when it fails. *)
Definition wait (i : StartedInstance) : ST ProcW (result Error StoppedInstance) :=
  abort_refresh (pid i) ;;
  r <- child_wait (process i) ;;
  match r with
  | Ok s => st_ret (Ok (MkStopped s (info i)))
  | Err e => drop_child (process i) ;; st_ret (Err (Io e))
  end.

(** [StartedInstance::stop].  [Child::id] is [None] only after the child
    was waited for, which [try_wait] has just excluded. *)
Definition stop (i : StartedInstance) : ST ProcW (result Error StoppedInstance) :=
  abort_refresh (pid i) ;;
  r <- child_try_wait (process i) ;;
  match r with
  | Err e => drop_child (process i) ;; st_ret (Err (Io e))
  | Ok (Some s) => st_ret (Ok (MkStopped s (info i)))
  | Ok None =>
      n <- next_call ;;
      match sigterm_fault n with
      | Some errno => drop_child (process i) ;; st_ret (Err (ProcessSignalError errno))
      | None => wait i
      end
  end.

Definition poll_process_exited (i : StartedInstance) : ST ProcW (result Error bool) :=
  r <-? st_map_err Io (child_try_wait (process i)) ;;
  st_ret (Ok (match r with Some _ => true | None => false end)).

(** [StartableShortLivedInstance::start_and_wait] *)
Definition start_and_wait (si : StartableShortLivedInstance) : ST ProcW (result Error Z) :=
  c <-? st_map_err Io (spawn (sl_cmd si)) ;;
  if negb (piped (sl_cmd si)) then drop_child c ;; st_ret (Err ProcessPipeError)
  else
    r <- child_wait c ;;
    match r with
    | Ok s => st_ret (Ok s)
    | Err e => drop_child c ;; st_ret (Err (Io e))
    end.

(** [Rcon::send] *)
Definition rcon_send (c : RconConn) (cmd : string) : ST ProcW (result Error string) :=
  if decide (cmd = "") then st_ret (Err RconEmptyCommand)
  else n <- next_call ;; st_ret (map_err Rcon (rcon_cmd n c cmd)).
End process.

(** ** [ProcessManager]: every operation holds the mutex until it returns *)

Inductive ProcessStatus :=
| PsNotRunning
| PsRunning (ps_player_count : Z) (ps_server_state : InternalServerState).

#[export] Instance ProcessStatus_eq : EqDecision ProcessStatus.
Proof. solve_decision. Defined.

Module ProcessManager.
(** [new]: no process. *)
Definition new (i : IoW) : ProcW := MkProcW i ∅ ∅ ∅ 0 None.

Section ops.
Context {P : ProcEnv}.

Definition system_resources : ST ProcW (result Error SystemResourcesInfo) :=
  n <- next_call ;;
  st_ret (if sysinfo_lock n then Ok (sysinfo n) else Err Timeout).

Definition internal_status : ST ProcW ProcessStatus :=
  mg <- st_gets running_instance ;;
  st_ret (match mg with
          | Some started => PsRunning (player_count (output started))
                              (internal_server_state (output started))
          | None => PsNotRunning
          end).

Definition instance_is_running_or_cleanup : ST ProcW bool :=
  mg <- st_gets running_instance ;;
  match mg with
  | Some running =>
      r <- poll_process_exited running ;;
      match r with
      | Err _ => st_ret true
      | Ok false => st_ret true
      | Ok true =>
          st_modify (set_running None) ;;
          _ <- wait running ;;
          st_ret false
      end
  | None => st_ret false
  end.

Definition status : ST ProcW ProcessStatus :=
  b <- instance_is_running_or_cleanup ;;
  if negb b then st_ret PsNotRunning else internal_status.

Definition start_instance {B : Type} `{StartableInstanceBuilder B} (builder : B) :
    ST ProcW (result Error ()) :=
  mg <- st_gets running_instance ;;
  match mg with
  | Some _ => st_ret (Err ProcessAlreadyRunning)
  | None =>
      running <-? start (build builder) ;;
      st_modify (set_running (Some running)) ;;
      st_ret (Ok ())
  end.

Definition stop_instance : ST ProcW (option StoppedInstance) :=
  mg <- st_gets running_instance ;;
  st_modify (set_running None) ;;
  match mg with
  | None => st_ret None
  | Some running => r <- stop running ;; st_ret (ok r)
  end.

Definition wait_for_instance : ST ProcW (option StoppedInstance) :=
  mg <- st_gets running_instance ;;
  st_modify (set_running None) ;;
  match mg with
  | None => st_ret None
  | Some running => r <- wait running ;; st_ret (ok r)
  end.

Definition start_and_wait_for_shortlived_instance {B : Type}
    `{StartableShortLivedInstanceBuilder B} (builder : B) : ST ProcW (result Error Z) :=
  mg <- st_gets running_instance ;;
  match mg with
  | Some _ => st_ret (Err ProcessAlreadyRunning)
  | None => start_and_wait (build_shortlived builder)
  end.

Definition send_rcon_command_to_instance (cmd : string) : ST ProcW (result Error string) :=
  mg <- st_gets running_instance ;;
  match mg with
  | Some instance =>
      match rcon (output instance) with
      | Some c => rcon_send c cmd
      | None => st_ret (Err RconNotConnected)
      end
  | None => st_ret (Err ProcessNotRunning)
  end.
End ops.
End ProcessManager.

(** ** The steps of the system

    The operations, each atomic under the mutex, interleaved with the tasks
    of the running process: a line of its output, an answer to the refresh
    task's query, and the end of the process. *)

Definition with_output (f : Output → Output) (w : ProcW) : ProcW :=
  match running_instance w with
  | Some i => set_running (Some (MkStarted (process i) (f (output i)) (info i))) w
  | None => w
  end.

Inductive pm_step `{ProcEnv, RegexEngine} : ProcW → ProcW → Prop :=
| step_start (b : ServerHostBuilder) w : pm_step w (ProcessManager.start_instance b w).2
| step_stop w : pm_step w (ProcessManager.stop_instance w).2
| step_wait w : pm_step w (ProcessManager.wait_for_instance w).2
| step_shortlived (b : SaveCreatorBuilder) w :
    pm_step w (ProcessManager.start_and_wait_for_shortlived_instance b w).2
| step_status w : pm_step w (ProcessManager.status w).2
| step_resources w : pm_step w (ProcessManager.system_resources w).2
| step_rcon cmd w : pm_step w (ProcessManager.send_rcon_command_to_instance cmd w).2
| step_line n line w i :
    running_instance w = Some i →
    pm_step w (with_output
      (on_line n (LaunchSettings.rcon_password (launch_settings (info i))) line) w)
| step_refresh resp w i c :
    running_instance w = Some i → pid i ∈ refresh_tasks w → rcon (output i) = Some c →
    pm_step w (with_output (on_refresh resp) w)
| step_exit p w : pm_step w (set_live (live w ∖ {[p]}) w).

(** The processes that may be alive besides the killed ones, and the refresh
    tasks: those of the instance in the slot. *)
Definition owned (w : ProcW) : gset nat :=
  match running_instance w with Some i => {[pid i]} | None => ∅ end.

Definition count_ok (o : Output) : Prop := (0 <= player_count o <= u32_max)%Z.

(** A process that is not held was killed; the one that is held was not. *)
Definition pm_inv (w : ProcW) : Prop :=
  live w ⊆ owned w ∪ killed w ∧ refresh_tasks w ⊆ owned w ∧
  (∀ p, p ∈ killed w → (p < next_pid w)%nat) ∧
  (∀ i, running_instance w = Some i →
     (pid i < next_pid w)%nat ∧ pid i ∉ killed w ∧ kill_on_drop (child_cmd (process i)) = true ∧
     count_ok (output i) ∧ (rcon_initialised (output i) = true ↔ is_Some (rcon (output i)))).

(** ** What the operations do *)

(** The process part of a state. *)
Definition at_proc (w : ProcW) (l k t : gset nat) (n : nat) (r : option StartedInstance) : Prop :=
  live w = l ∧ killed w = k ∧ refresh_tasks w = t ∧ next_pid w = n ∧ running_instance w = r.
Definition same_proc (w w' : ProcW) : Prop :=
  at_proc w' (live w) (killed w) (refresh_tasks w) (next_pid w) (running_instance w).
(** The refresh task of [p] is stopped, and [p] was seen to exit or was killed. *)
Definition exited (p : nat) (w w' : ProcW) : Prop :=
  at_proc w' (live w ∖ {[p]}) (killed w) (refresh_tasks w ∖ {[p]}) (next_pid w) (running_instance w).
Definition dropped (p : nat) (w w' : ProcW) : Prop :=
  at_proc w' (live w) ({[p]} ∪ killed w) (refresh_tasks w ∖ {[p]}) (next_pid w) (running_instance w).
(** [r] is what stopping or waiting for [i] returned. *)
Definition ended (i : StartedInstance) (r : result Error StoppedInstance) (w w' : ProcW) : Prop :=
  match r with
  | Ok s => st_info s = info i ∧ exited (pid i) w w'
  | Err _ => dropped (pid i) w w'
  end.

Ltac proc_eq := unfold ended, exited, dropped, same_proc, at_proc, pid in *; cbn in *; intuition (try congruence).

#[export] Instance same_proc_preorder : PreOrder same_proc.
Proof.
  split; [by intros w|]. intros w1 w2 w3 (A1 & A2 & A3 & A4 & A5) (B1 & B2 & B3 & B4 & B5).
  unfold same_proc, at_proc. by rw B1 B2 B3 B4 B5.
Qed.

Lemma diff_twice (X : gset nat) p : X ∖ {[p]} ∖ {[p]} = X ∖ {[p]}.
Proof. apply set_eq. intros x. rw !elem_of_difference. tauto. Qed.

Section process_facts.
Context {P : ProcEnv}.
Implicit Types w : ProcW.

Lemma wp_next_call Q w :
  (∀ n w', same_proc w w' → files (pw_io w') = files (pw_io w) → Q n w') →
  wp next_call Q w.
Proof. intros HQ. by apply HQ. Qed.

Lemma wp_child_wait c Q w :
  (∀ s w', at_proc w' (live w ∖ {[child_pid c]}) (killed w) (refresh_tasks w) (next_pid w) (running_instance w) →
     Q (Ok s) w') →
  (∀ k w', same_proc w w' → Q (Err k) w') →
  wp (child_wait c) Q w.
Proof.
  intros Hok Herr. unfold child_wait. st_go. apply wp_next_call. intros n w1 Hw1 _.
  destruct (wait_result n (child_pid c)) as [s|k]; [|by apply Herr].
  unfold reaped. st_go. apply Hok. proc_eq.
Qed.

Lemma wp_child_try_wait c Q w :
  (∀ s w', at_proc w' (live w ∖ {[child_pid c]}) (killed w) (refresh_tasks w) (next_pid w) (running_instance w) →
     Q (Ok (Some s)) w') →
  (∀ r w', same_proc w w' → (∀ s, r ≠ Ok (Some s)) → Q r w') →
  wp (child_try_wait c) Q w.
Proof.
  intros Hok Herr. unfold child_try_wait. st_go. apply wp_next_call. intros n w1 Hw1 _.
  destruct (try_wait_result n (child_pid c)) as [[s|]|k]; [|by apply Herr..].
  unfold reaped. st_go. apply Hok. proc_eq.
Qed.

Lemma wp_drop_child c Q w :
  kill_on_drop (child_cmd c) = true →
  (∀ w', at_proc w' (live w) ({[child_pid c]} ∪ killed w) (refresh_tasks w) (next_pid w) (running_instance w) →
     Q () w') →
  wp (drop_child c) Q w.
Proof. intros Hk HQ. unfold drop_child. rw Hk. st_go. by apply HQ. Qed.

Lemma wp_wait i Q w :
  kill_on_drop (child_cmd (process i)) = true →
  (∀ r w', ended i r w w' → Q r w') → wp (wait i) Q w.
Proof.
  intros Hk HQ. unfold wait, abort_refresh. st_go. apply wp_child_wait; cbn.
  - intros s w' Hw'. st_go. apply HQ. proc_eq.
  - intros k w' Hw'. st_go. apply wp_drop_child; [done|]. intros w2 Hw2. st_go. apply HQ. proc_eq.
Qed.

(** After [stop] the process was seen to exit, or it was killed. *)
Lemma wp_stop i Q w :
  kill_on_drop (child_cmd (process i)) = true →
  (∀ r w', ended i r w w' → Q r w') → wp (stop i) Q w.
Proof.
  intros Hk HQ. unfold stop, abort_refresh. st_go. apply wp_child_try_wait; cbn.
  - intros s w' Hw'. st_go. apply HQ. proc_eq.
  - intros [[s|]|k] w1 Hw1 Hr; [by destruct (Hr s)| |].
    + st_go. apply wp_next_call. intros n w2 Hw2 _. destruct (sigterm_fault n) as [e|].
      * st_go. apply wp_drop_child; [done|]. intros w3 Hw3. st_go. apply HQ. proc_eq.
      * apply wp_wait; [done|]. intros r w3 Hw3. apply HQ.
        pose proof (diff_twice (refresh_tasks w) (pid i)). destruct r; proc_eq.
    + st_go. apply wp_drop_child; [done|]. intros w2 Hw2. st_go. apply HQ. proc_eq.
Qed.

(** A started process is new, and its output has said nothing yet. *)
Lemma wp_start si Q w :
  piped (si_cmd si) = true →
  (∀ w', at_proc w' ({[next_pid w]} ∪ live w) (killed w) ({[next_pid w]} ∪ refresh_tasks w)
            (S (next_pid w)) (running_instance w) →
     Q (Ok (MkStarted (MkChild (next_pid w) (si_cmd si)) (MkOutput None false Ready 0) (si_info si))) w') →
  (∀ k w', same_proc w w' → Q (Err (Io k)) w') →
  wp (start si) Q w.
Proof.
  intros Hp Hok Herr. unfold start, spawn. st_go. apply wp_next_call. intros n w1 Hw1 _.
  destruct (spawn_fault n) as [k|]; [by apply Herr|]. st_go. cbn. rw Hp. cbn. st_go.
  assert (next_pid w1 = next_pid w) as -> by proc_eq. apply Hok. proc_eq.
Qed.

(** Of a short-lived instance nothing is left but what was killed. *)
Lemma wp_start_and_wait si Q w :
  piped (sl_cmd si) = true → kill_on_drop (sl_cmd si) = true →
  (∀ r w', refresh_tasks w' = refresh_tasks w → running_instance w' = running_instance w →
     live w' ∖ killed w' ⊆ live w ∖ killed w → killed w' ⊆ {[next_pid w]} ∪ killed w →
     killed w ⊆ killed w' →
     (next_pid w <= next_pid w')%nat → (next_pid w ∈ killed w' → next_pid w ∉ killed w → next_pid w < next_pid w')%nat →
     Q r w') →
  wp (start_and_wait si) Q w.
Proof.
  intros Hp Hk HQ. unfold start_and_wait, spawn. st_go. apply wp_next_call.
  intros n w1 (H1 & H2 & H3 & H4 & H5) _.
  destruct (spawn_fault n) as [k|].
  { apply HQ; rw ?H1 ?H2 ?H4; [done..|set_solver|done|lia|done]. }
  st_go. cbn. rw Hp. cbn. rw H1 H2 H3 H4 H5. st_go. apply wp_child_wait; cbn.
  - intros s w2 (G1 & G2 & G3 & G4 & G5). cbn in *. st_go.
    apply HQ; [congruence..|rw G1 G2; set_solver|set_solver|by rw G2|lia|lia].
  - intros k w2 (G1 & G2 & G3 & G4 & G5). cbn in *. st_go. apply wp_drop_child; [done|].
    intros w3 (F1 & F2 & F3 & F4 & F5). cbn in *. st_go.
    apply HQ; cbn; [congruence..|rw F1 F2 G1 G2; set_solver|rw F2 G2; set_solver|rw F2 G2; set_solver|lia|lia].
Qed.
End process_facts.

(** ** The invariant *)

Section invariant.
Context {P : ProcEnv} {R : RegexEngine}.
Implicit Types w : ProcW.

Lemma pm_inv_same w w' : same_proc w w' → pm_inv w → pm_inv w'.
Proof.
  intros (H1 & H2 & H3 & H4 & H5). unfold pm_inv, owned. by rw H1 H2 H3 H4 H5.
Qed.

(** Nothing is held, and what is still alive was killed. *)
Definition idle w : Prop :=
  live w ⊆ killed w ∧ refresh_tasks w = ∅ ∧ running_instance w = None ∧
  ∀ p, p ∈ killed w → (p < next_pid w)%nat.

Lemma idle_inv w : idle w → pm_inv w.
Proof. intros (H1 & H2 & H3 & H4). unfold pm_inv, owned. rw H2 H3. split_and!; [set_solver|done..]. Qed.

Lemma inv_idle w : pm_inv w → running_instance w = None → idle w.
Proof.
  intros (H1 & H2 & H3 & _) Hr. unfold owned in H1, H2. rw Hr in H1. rw Hr in H2.
  unfold idle. split_and!; [set_solver..|done|done].
Qed.

Lemma ended_idle i r w w' :
  pm_inv w → running_instance w = Some i → ended i r (set_running None w) w' → idle w'.
Proof.
  intros (H1 & H2 & H3 & H4) Hr He. destruct (H4 i Hr) as (Hp & _).
  unfold owned in H1, H2. rw Hr in H1. rw Hr in H2.
  destruct r as [s|e]; [destruct He as [_ He]|]; destruct He as (E1 & E2 & E3 & E4 & E5); cbn in *;
    unfold idle; rw E1 E2 E3 E4 E5; split_and!; try set_solver.
Qed.

(** Polling the running process either finds it running, or ends it. *)
Lemma wp_running_or_cleanup Q w :
  pm_inv w →
  (running_instance w = None → Q false w) →
  (∀ w', idle w' → is_Some (running_instance w) → Q false w') →
  (∀ i w', running_instance w = Some i → same_proc w w' → Q true w') →
  wp ProcessManager.instance_is_running_or_cleanup Q w.
Proof.
  intros Hinv Hnone Hdead Hrun. unfold ProcessManager.instance_is_running_or_cleanup. st_go.
  destruct (running_instance w) as [i|] eqn:Hi; [|by apply Hnone].
  unfold poll_process_exited. st_go. apply wp_child_try_wait.
  - intros s w1 (A1 & A2 & A3 & A4 & A5). cbn [map_err]. st_go. apply wp_wait; [by apply Hinv|].
    intros r w2 Hw2. st_go. apply Hdead; [|done]. eapply (ended_idle i r w1); [|congruence|done].
    destruct Hinv as (H1 & H2 & H3 & H4). unfold pm_inv, owned in *.
    rw A1 A2 A3 A4 A5 Hi. rw Hi in H1 H2 H4. split_and!; [set_solver|done..].
  - intros r w1 Hw1 Hr. cbn. destruct r as [[s|]|k]; [by destruct (Hr s)|st_go; by eapply Hrun..].
Qed.

Lemma status_inv w : pm_inv w → wp ProcessManager.status (λ _ w', pm_inv w') w.
Proof.
  intros Hinv. unfold ProcessManager.status. st_go. apply wp_running_or_cleanup; [done|..].
  - intros _. cbn. by st_go.
  - intros w' Hw' _. cbn. st_go. by apply idle_inv.
  - intros i w' _ Hw'. cbn. unfold ProcessManager.internal_status. st_go.
    by eapply pm_inv_same.
Qed.

Lemma start_inv (b : ServerHostBuilder) w :
  pm_inv w → wp (ProcessManager.start_instance b) (λ _ w', pm_inv w') w.
Proof.
  intros Hinv. unfold ProcessManager.start_instance. st_go.
  destruct (running_instance w) as [i|] eqn:Hi; [done|]. st_go.
  pose proof (inv_idle _ Hinv Hi) as (H1 & H2 & _ & H4).
  apply wp_start; [done| |].
  - intros w' (E1 & E2 & E3 & E4 & E5). st_go. unfold pm_inv, owned, pid. cbn. rw E1 E2 E3 E4 H2.
    split_and!; [set_solver|set_solver|intros p Hp%H4; lia|]. intros i [= <-]. cbn.
    split_and!; [lia|intros Hp%H4; lia|done|unfold count_ok, u32_max; cbn; lia|].
    split; [done|]. by intros [? ?].
  - intros k w' Hw'. by eapply pm_inv_same.
Qed.

Lemma wp_stop_instance w Q :
  pm_inv w →
  (running_instance w = None → Q None w) →
  (∀ i r w', running_instance w = Some i → ended i r (set_running None w) w' → idle w' → Q (ok r) w') →
  wp ProcessManager.stop_instance Q w.
Proof.
  intros Hinv Hn HQ. unfold ProcessManager.stop_instance. st_go.
  destruct (running_instance w) as [i|] eqn:Hi.
  - st_go. apply wp_stop; [by apply Hinv|]. intros r w' Hw'. st_go. eapply HQ; [done|done|by eapply ended_idle].
  - st_go. assert (set_running None w = w) as -> by (destruct w; cbn in *; by subst). by apply Hn.
Qed.

Lemma stop_idle w :
  pm_inv w → wp ProcessManager.stop_instance
    (λ r w', idle w' ∧ ∀ s, r = Some s → ∃ i, running_instance w = Some i ∧ st_info s = info i) w.
Proof.
  intros Hinv. apply wp_stop_instance; [done| |].
  - intros Hn. split; [by apply inv_idle|done].
  - intros i [s|e] w' Hi He Hw'; (split; [done|]); [|done]. intros s' [= <-]. exists i. by destruct He.
Qed.

Lemma wait_idle w :
  pm_inv w → wp ProcessManager.wait_for_instance (λ _ w', idle w') w.
Proof.
  intros Hinv. unfold ProcessManager.wait_for_instance. st_go.
  destruct (running_instance w) as [i|] eqn:Hi.
  - st_go. apply wp_wait; [by apply Hinv|]. intros r w' Hw'. st_go. by eapply ended_idle.
  - st_go. destruct (inv_idle _ Hinv Hi) as (? & ? & ? & ?). done.
Qed.

Lemma shortlived_inv (b : SaveCreatorBuilder) w :
  pm_inv w → wp (ProcessManager.start_and_wait_for_shortlived_instance b)
    (λ r w', pm_inv w' ∧ (is_Some (running_instance w) → r = Err ProcessAlreadyRunning ∧ w' = w) ∧
             (running_instance w = None → idle w')) w.
Proof.
  intros Hinv. unfold ProcessManager.start_and_wait_for_shortlived_instance. st_go.
  destruct (running_instance w) as [i|] eqn:Hi; [by st_go|].
  destruct (inv_idle _ Hinv Hi) as (H1 & H2 & _ & H4).
  apply wp_start_and_wait; [done..|]. intros r w' E1 E2 E3 E4 E5 E6 E7.
  assert (idle w') as Hidle.
  { unfold idle. rw E1 H2 E2 Hi. split_and!; [|done|done|].
    - intros p Hp. destruct (decide (p ∈ killed w')); [done|]. set_solver.
    - intros p Hp. destruct (decide (p ∈ killed w)) as [Hk|Hk]; [apply H4 in Hk; lia|].
      assert (p = next_pid w) as -> by set_solver. by apply E7. }
  split_and!; [by apply idle_inv|by intros []|done].
Qed.
End invariant.

(** ** The output *)

Section output_facts.
Context {R : RegexEngine} {P : ProcEnv}.
Implicit Types o : Output.

Lemma wrap_u32_range n : (0 <= wrap_u32 n <= u32_max)%Z.
Proof. unfold wrap_u32. change (u32_max + 1)%Z with 4294967296%Z.
  pose proof (Z.mod_pos_bound n 4294967296). unfold u32_max. lia. Qed.

Definition rcon_flag o : Prop := rcon_initialised o = true ↔ is_Some (rcon o).

Lemma on_line_ok n pw line o :
  count_ok o → rcon_flag o → count_ok (on_line n pw line o) ∧ rcon_flag (on_line n pw line o).
Proof.
  intros Hc Hf. unfold on_line.
  assert (count_ok (on_state_change line o) ∧ rcon_flag (on_state_change line o)) as [Hc1 Hf1].
  { unfold on_state_change. by repeat case_match. }
  set (o1 := on_state_change line o) in *.
  assert (count_ok (on_join_leave line o1) ∧ rcon_flag (on_join_leave line o1)) as [Hc2 Hf2].
  { unfold on_join_leave. repeat case_match; by split; try apply wrap_u32_range. }
  set (o2 := on_join_leave line o1) in *.
  unfold on_rcon_ready. repeat case_match; by split.
Qed.

Lemma on_refresh_ok resp o :
  count_ok o → rcon_flag o → count_ok (on_refresh resp o) ∧ rcon_flag (on_refresh resp o).
Proof.
  intros Hc Hf. unfold on_refresh. destruct resp as [r|e]; [|done].
  destruct (parse_uint u32_max (digits_of r)) as [c|] eqn:Hp; [|done].
  apply parse_uint_bound in Hp. by split.
Qed.

Lemma with_output_inv f w :
  (∀ i, running_instance w = Some i → count_ok (output i) → rcon_flag (output i) →
     count_ok (f (output i)) ∧ rcon_flag (f (output i))) →
  pm_inv w → pm_inv (with_output f w).
Proof.
  intros Hf (H1 & H2 & H3 & H4). unfold with_output. destruct (running_instance w) as [i|] eqn:Hi.
  2: { unfold pm_inv, owned in *. by rw Hi in H1 H2 H4 |- *. }
  destruct (H4 i eq_refl) as (Hp & Hn & Hk & Hc & Hr). destruct (Hf i eq_refl Hc Hr) as [Hc' Hr'].
  unfold pm_inv, owned in *. rw Hi in H1. rw Hi in H2. cbn.
  split_and!; [done..|]. by intros j [= <-].
Qed.

Lemma pm_step_inv w w' : pm_step w w' → pm_inv w → pm_inv w'.
Proof.
  intros Hstep Hinv. destruct Hstep.
  - by apply (start_inv b).
  - apply idle_inv. by apply (stop_idle w).
  - apply idle_inv. by apply (wait_idle w).
  - by apply (shortlived_inv b).
  - by apply status_inv.
  - eapply pm_inv_same; [|done]. by split_and!.
  - eapply pm_inv_same; [|done]. unfold ProcessManager.send_rcon_command_to_instance.
    unfold st_bind, st_gets. cbn. destruct (running_instance w) as [j|] eqn:Hj; [|by split_and!].
    destruct (rcon (output j)); [|by split_and!]. unfold rcon_send. case_decide; by split_and!.
  - apply with_output_inv; [|done]. intros j _. apply on_line_ok.
  - apply with_output_inv; [|done]. intros j _. apply on_refresh_ok.
  - destruct Hinv as (H1 & H2 & H3 & H4). split; [unfold owned in *; cbn in *; set_solver|].
    exact (conj H2 (conj H3 H4)).
Qed.

(** At most one process is alive that was not killed, and only one that is held. *)
Lemma inv_live w :
  pm_inv w → (size (live w ∖ killed w) <= 1)%nat ∧ (running_instance w = None → live w ⊆ killed w).
Proof.
  intros (H1 & _). unfold owned in H1. destruct (running_instance w) as [j|].
  - split; [|done]. rw -(size_singleton (C := gset nat) (pid j)). apply subseteq_size. set_solver.
  - split; [|set_solver]. assert (live w ∖ killed w = ∅) as -> by set_solver. rw size_empty. lia.
Qed.

(** C6: At every moment every process that is alive is the one the manager
    holds, or one whose handle was dropped when stopping or waiting failed and
    which was sent SIGKILL then; the one that is held was not.  So at most one
    process is alive besides the killed ones, and none when none is held; the
    refresh tasks that run are those of the process that is held; the player
    count is a 32-bit value and an RCON connection is open exactly when the
    output task says so: an invariant of the operations, whatever fails,
    interleaved with the output, the refresh task and the end of the process. *)
Theorem pm_invariant i w :
  rtc pm_step (ProcessManager.new i) w →
  pm_inv w ∧ (size (live w ∖ killed w) <= 1)%nat ∧ (running_instance w = None → live w ⊆ killed w).
Proof.
  intros Hrun. assert (pm_inv w) as Hinv; [|by split; [|apply inv_live]].
  revert Hrun. apply rtc_ind_r; [by apply idle_inv|].
  intros w1 w2 _ Hstep Hinv. by eapply pm_step_inv.
Qed.
End output_facts.

(** ** What the manager promises *)

Section manager_spec.
Context {R : RegexEngine} {P : ProcEnv}.
Implicit Types w : ProcW.

Lemma wp_start_instance (b : ServerHostBuilder) w :
  pm_inv w →
  wp (ProcessManager.start_instance b)
     (λ r w', match running_instance w with
              | Some _ => r = Err ProcessAlreadyRunning ∧ w' = w
              | None =>
                  killed w' = killed w ∧
                  ((r = Ok () ∧ ∃ i, running_instance w' = Some i ∧
                      live w' = {[pid i]} ∪ live w ∧ live w' ∖ killed w' = {[pid i]} ∧
                      child_cmd (process i) = si_cmd (build b) ∧
                      info i = hb_info b ∧ output i = MkOutput None false Ready 0) ∨
                   (∃ k, r = Err (Io k) ∧ live w' = live w ∧ idle w'))
              end) w.
Proof.
  intros Hinv. unfold ProcessManager.start_instance. st_go.
  destruct (running_instance w) as [i|] eqn:Hi; [done|]. st_go.
  destruct (inv_idle _ Hinv Hi) as (H1 & H2 & _ & H4).
  apply wp_start; [done| |].
  - intros w' (E1 & E2 & E3 & E4 & E5). st_go. split; [done|]. left. split; [done|].
    eexists. split; [done|]. unfold pid. cbn. rw E1 E2. split_and!; [done| |done..].
    assert (next_pid w ∉ killed w) by (intros Hk%H4; lia). set_solver.
  - intros k w' Hw'. pose proof Hw' as (E1 & E2 & E3 & E4 & E5). split; [done|]. right. exists k.
    split_and!; [done|done|]. unfold idle. by rw E1 E2 E3 E4 E5.
Qed.

(** C22: Starting: refused without effect when a process is held; otherwise a
    fresh process is the only one alive that was not killed, held with the
    command and the settings it was started with and an output that has said
    nothing, or the spawn failed and nothing runs. *)
Theorem start_instance_spec (b : ServerHostBuilder) w :
  pm_inv w →
  wp (ProcessManager.start_instance b)
     (λ r w', match running_instance w with
              | Some _ => r = Err ProcessAlreadyRunning ∧ w' = w
              | None =>
                  killed w' = killed w ∧
                  ((r = Ok () ∧ ∃ i, running_instance w' = Some i ∧
                      live w' = {[pid i]} ∪ live w ∧ live w' ∖ killed w' = {[pid i]} ∧
                      child_cmd (process i) = si_cmd (build b) ∧
                      info i = hb_info b ∧ output i = MkOutput None false Ready 0) ∨
                   (∃ k, r = Err (Io k) ∧ live w' = live w ∧ idle w'))
              end) w.
Proof. exact (wp_start_instance b w). Qed.

(** C21: Stopping, whatever fails on the way (polling, the signal, waiting):
    afterwards none is held, no refresh task runs and the next start is not
    refused.  Either the process that was held was seen to exit, and what is
    returned is what it was started with; or something failed, nothing is
    returned, and the process was sent SIGKILL when its handle was dropped: it
    may still be alive, and nobody waits for it.  Without a process nothing
    changes. *)
Theorem stop_instance_spec w :
  pm_inv w →
  wp ProcessManager.stop_instance
    (λ r w', running_instance w' = None ∧ refresh_tasks w' = ∅ ∧ live w' ⊆ killed w' ∧
       match running_instance w with
       | Some i =>
           (∃ s, r = Some s ∧ st_info s = info i ∧ live w' = live w ∖ {[pid i]} ∧ killed w' = killed w) ∨
           (r = None ∧ live w' = live w ∧ killed w' = {[pid i]} ∪ killed w)
       | None => r = None ∧ w' = w
       end ∧
       ∀ b : ServerHostBuilder,
         wp (ProcessManager.start_instance b) (λ r' _, r' ≠ Err ProcessAlreadyRunning) w') w.
Proof.
  intros Hinv. assert (∀ w', idle w' → ∀ b : ServerHostBuilder,
    wp (ProcessManager.start_instance b) (λ r' _, r' ≠ Err ProcessAlreadyRunning) w') as Hnext.
  { intros w' Hidle b. eapply wp_wand; [by apply wp_start_instance, idle_inv|].
    destruct Hidle as (_ & _ & -> & _). cbn. by intros r' w'' [_ [[-> _]|(k & -> & _)]]. }
  apply wp_stop_instance; [done| |].
  - intros Hn. pose proof (inv_idle _ Hinv Hn) as Hi. rw Hn. split_and!; [done|apply Hi|apply Hi|done|done|by apply Hnext].
  - intros i r w' Hi He Hidle. rw Hi. split_and!; [apply Hidle..| |by apply Hnext].
    destruct r as [s|e]; cbn in *.
    + destruct He as (Hs & E1 & E2 & _). left. by exists s.
    + destruct He as (E1 & E2 & _). by right.
Qed.

(** The status is of the process that is held: running with its count and
    state when it is still there, and not running, with nothing left alive,
    when none was held or its exit was noticed. *)
Theorem status_spec w :
  pm_inv w →
  wp ProcessManager.status
    (λ r w', match r with
             | PsNotRunning => idle w'
             | PsRunning c s => ∃ i, running_instance w = Some i ∧ same_proc w w' ∧
                 c = player_count (output i) ∧ s = internal_server_state (output i)
             end) w.
Proof.
  intros Hinv. unfold ProcessManager.status. st_go. apply wp_running_or_cleanup; [done|..].
  - intros Hn. cbn. st_go. by apply inv_idle.
  - intros w' Hw' _. by cbn; st_go.
  - intros i w' Hi Hw'. cbn. unfold ProcessManager.internal_status. st_go.
    destruct Hw' as (E1 & E2 & E3 & E4 & E5). rw E5 Hi. st_go. exists i. by split_and!.
Qed.

(** *** The output of a run *)

(** The state that a line announces: the second of the two that the pattern
    finds, when both can be read. *)
Definition announced (line : string) : option InternalServerState :=
  groups ← captures STATE_CHANGE_RE line;
  from ← groups !! 0%nat; to ← groups !! 1%nat;
  _ ← state_from_str from; state_from_str to.

Definition is_join (line : string) : bool := is_match JOIN_RE line.
Definition is_leave (line : string) : bool := negb (is_join line) && is_match LEAVE_RE line.
Definition count_lines (p : string → bool) (ls : list string) : Z :=
  Z.of_nat (length (filter (λ l, p l = true) ls)).

Lemma count_lines_cons p l ls :
  count_lines p (l :: ls) = ((if p l then 1 else 0) + count_lines p ls)%Z.
Proof.
  unfold count_lines. rw filter_cons. destruct (p l); cbn [length decide decide_rel]; [|].
  - by case_decide; cbn [length]; [lia|].
  - by case_decide; [|lia].
Qed.

Lemma on_state_change_eq line o :
  on_state_change line o = MkOutput (rcon o) (rcon_initialised o)
    (default (internal_server_state o) (announced line)) (player_count o).
Proof.
  unfold announced, on_state_change. destruct o as [c f st n].
  destruct (captures STATE_CHANGE_RE line) as [[|from [|to gs]]|]; [done..| |done].
  cbn [mbind option_bind lookup list_lookup output].
  destruct (state_from_str from); [|done]. by destruct (state_from_str to).
Qed.

Lemma on_line_fields n pw line o :
  internal_server_state (on_line n pw line o) = default (internal_server_state o) (announced line) ∧
  player_count (on_line n pw line o) =
    (if is_join line then wrap_u32 (player_count o + 1)
     else if is_leave line then wrap_u32 (player_count o - 1) else player_count o) ∧
  (rcon_initialised o = true → rcon (on_line n pw line o) = rcon o ∧
     rcon_initialised (on_line n pw line o) = true).
Proof.
  unfold on_line, is_leave, is_join.
  assert (∀ o', internal_server_state (on_rcon_ready n pw line o') = internal_server_state o' ∧
    player_count (on_rcon_ready n pw line o') = player_count o' ∧
    (rcon_initialised o' = true → on_rcon_ready n pw line o' = o')) as Hr.
  { intros o'. unfold on_rcon_ready. repeat case_match; split_and!; try done. }
  destruct (Hr (on_join_leave line (on_state_change line o))) as (-> & -> & Hr3). clear Hr.
  unfold on_join_leave in *. rw on_state_change_eq in Hr3. rw on_state_change_eq. cbn in *.
  destruct (is_match JOIN_RE line), (is_match LEAVE_RE line); cbn in *;
    (split_and!; [done..|]); intros Hi; by rw Hr3.
Qed.

(** The lines read: up to the first error that is not invalid UTF-8. *)
Fixpoint lines_read (lines : list (result IoErrorKind string)) : list string :=
  match lines with
  | Ok line :: lines' => line :: lines_read lines'
  | Err e :: lines' => if decide (e = InvalidData) then lines_read lines' else []
  | [] => []
  end.

Lemma wrap_u32_add a b : wrap_u32 (wrap_u32 a + b) = wrap_u32 (a + b).
Proof. unfold wrap_u32. by rw Zplus_mod_idemp_l. Qed.

Lemma wrap_u32_id n : (0 <= n <= u32_max)%Z → wrap_u32 n = n.
Proof. intros H. unfold wrap_u32. apply Z.mod_small. lia. Qed.

Lemma wrap_u32_none o :
  count_ok o →
  player_count o = wrap_u32 (player_count o + count_lines is_join [] - count_lines is_leave []).
Proof.
  intros Hc. rw wrap_u32_id; unfold count_ok in Hc; unfold count_lines; cbn; lia.
Qed.

(** C23: The output of a run: every line that can be read is handed to the
    handler, in order, invalid UTF-8 skipped; the state is the one that the
    last line which announces one switches to, or the one before the run when
    none does; the player count is the starting count plus the joins minus
    the leaves, modulo 2^32; an RCON connection that is open is kept. *)
Theorem process_stdout_spec n pw lines o :
  count_ok o →
  let r := parse_process_stdout n pw lines o in
  let ls := lines_read lines in
  r.2 = ls ∧
  internal_server_state r.1 = default (internal_server_state o) (last (omap announced ls)) ∧
  player_count r.1 =
    wrap_u32 (player_count o + count_lines is_join ls - count_lines is_leave ls) ∧
  (rcon_initialised o = true → rcon r.1 = rcon o).
Proof.
  intros Hc. cbn zeta. revert n o Hc. induction lines as [|[line|e] lines IH]; intros n o Hc; cbn [parse_process_stdout lines_read].
  - cbn. split_and!; [done|done| |done]. by apply wrap_u32_none.
  - destruct (on_line_fields n pw line o) as (H1 & H2 & H3).
    assert (count_ok (on_line n pw line o)) as Hc'.
    { unfold count_ok. rw H2. repeat case_match; [apply wrap_u32_range..|done]. }
    destruct (IH (S n) _ Hc') as (I1 & I2 & I3 & I4). cbn [fst snd].
    split_and!; [by rw I1| | |].
    + rw I2 H1. cbn [omap list_omap]. destruct (announced line) as [st|]; [|done].
      rw last_cons. by destruct (last (omap announced (lines_read lines))).
    + rw I3 H2 !count_lines_cons. unfold is_leave, is_join.
      destruct (is_match JOIN_RE line), (is_match LEAVE_RE line); cbn;
        rw -?Z.add_sub_assoc ?wrap_u32_add; f_equal; lia.
    + intros Hi. destruct (H3 Hi) as [H4 H5]. by rw I4.
  - case_decide; [by apply IH|]. cbn. split_and!; [done|done| |done].
    by apply wrap_u32_none.
Qed.
End manager_spec.

(** ** What can go wrong *)

Section underflow.
Context {R : RegexEngine} {P : ProcEnv}.

Lemma with_output_at f w i :
  running_instance w = Some i →
  with_output f w = set_running (Some (MkStarted (process i) (f (output i)) (info i))) w.
Proof. intros Hi. unfold with_output. by rw Hi. Qed.

(** C40: The player count can wrap below zero: while a server runs that is
    connected to RCON, a player joins after the refresh task's query was
    answered with a count of 0 and before the answer is stored; the stored 0
    replaces the count of the join, and when the player leaves the count becomes
    2^32 - 1.  The three are steps that the system can make. *)
Theorem player_count_underflow n w i c join leave resp :
  running_instance w = Some i → pid i ∈ refresh_tasks w →
  rcon_initialised (output i) = true → rcon (output i) = Some c →
  is_join join = true → is_leave leave = true → parse_uint u32_max (digits_of resp) = Some 0%Z →
  let line l := with_output (on_line n (LaunchSettings.rcon_password (launch_settings (info i))) l) in
  let joined := line join w in
  let refreshed := with_output (on_refresh (Ok resp)) joined in
  let left_ := line leave refreshed in
  pm_step w joined ∧ pm_step joined refreshed ∧ pm_step refreshed left_ ∧
  player_count ∘ output <$> running_instance joined = Some (wrap_u32 (player_count (output i) + 1)) ∧
  player_count ∘ output <$> running_instance refreshed = Some 0%Z ∧
  player_count ∘ output <$> running_instance left_ = Some u32_max.
Proof.
  intros Hi Ht Hf Hc Hj Hl Hr. cbv zeta.
  set (pw := LaunchSettings.rcon_password (launch_settings (info i))).
  destruct (on_line_fields n pw join (output i)) as (_ & J2 & J3). destruct (J3 Hf) as [J4 _]. rw Hj in J2.
  set (o1 := on_line n pw join (output i)) in *.
  assert (on_refresh (Ok resp) o1 = store_count 0 o1) as Hr' by (cbn; by rw Hr).
  destruct (on_line_fields n pw leave (store_count 0 o1)) as (_ & L2 & _).
  assert (is_join leave = false) as Hnj by (unfold is_leave in Hl; by destruct (is_join leave)).
  rw Hnj Hl in L2.
  rw (with_output_at _ _ _ Hi). fold o1. set (w1 := set_running (Some (MkStarted (process i) o1 (info i))) w).
  rw (with_output_at _ w1 _ eq_refl) (with_output_at _ (set_running _ w1) _ eq_refl).
  cbn [output process info]. rw Hr'. split_and!.
  - unfold w1, o1, pw. rw -(with_output_at _ _ _ Hi). by apply step_line.
  - rw -Hr'. rw -(with_output_at _ w1 (MkStarted (process i) o1 (info i)) eq_refl).
    by eapply step_refresh; [done|done|rw J4].
  - set (w2 := set_running _ w1).
    rw -(with_output_at _ w2 (MkStarted (process i) (store_count 0 o1) (info i)) eq_refl).
    by apply (step_line n leave w2 (MkStarted (process i) (store_count 0 o1) (info i))).
  - cbn. by rw J2.
  - done.
  - cbn. by rw L2.
Qed.
End underflow.

Section scenarios.
#[local] Existing Instance backtrack.
Context {P : ProcEnv}.

(** A player can forge the state of the server: the pattern of state
    changes is looked for anywhere in a line, so a chat message that contains
    one is taken for a state change. *)
Theorem chat_forges_state o :
  let line := "2024-01-01 10:00:00 [CHAT] mallory: changing state from(InGame) to(Disconnected)" in
  is_match CHAT_RE line = true ∧
  internal_server_state (on_line 0 "" line o) = Disconnected.
Proof.
  split; [by vm_compute|]. destruct (on_line_fields 0 "" 
    "2024-01-01 10:00:00 [CHAT] mallory: changing state from(InGame) to(Disconnected)" o) as [-> _].
  by vm_compute.
Qed.
End scenarios.
