(* ===== verification/Agent.v ===== *)
(** * Agent: src/src/agent/main.rs

    [AgentController]: the requests of the management server, the replies,
    and the handlers, over the process manager, the version manager and the
    files.  Each handler is one definition, with its early returns, and a
    [Task]: a sequence of atomic steps, between which [System] lets the other
    tasks run.  The lock of the version manager is acquired and dropped where
    the code does; when a handler is run [alone], whether it gets the lock in
    time is decided by the oracle [vm_lock]. *)

From S2P Require Import Prelude Tasks Text Regex Schema Io Errors Settings Downloader Mods Saves Versions.
From S2P Require Import Builder Proc.

Open Scope st_scope.
Open Scope task_scope.

Definition MAX_WS_PAYLOAD_BYTES : Z := 8000000.

(** The state: the process manager with the files, the version manager, the
    texts handed to the WebSocket, the messages put on the broadcast bus. *)
Record AgentW := MkAgentW {
  aw_proc : ProcW;
  aw_vm : VersionManager.t;
  ws_tx : list string;
  global_tx : list AgentStreamingMessage;
}.

Definition set_proc (p : ProcW) (w : AgentW) : AgentW := MkAgentW p (aw_vm w) (ws_tx w) (global_tx w).
Definition set_vm (v : VersionManager.t) (w : AgentW) : AgentW :=
  MkAgentW (aw_proc w) v (ws_tx w) (global_tx w).

Definition lift_p {A : Type} (m : ST ProcW A) : ST AgentW A := st_zoom aw_proc set_proc m.
Definition lift_f {A : Type} (m : ST IoW A) : ST AgentW A := lift_p (lift_io m).

Class AgentEnv := {
(** what build.rs records *)
build_timestamp : string;
git_sha : option string;
(** the lock of the version manager is obtained within 250 ms *)
vm_lock : nat → bool;
(** the first entry of an iteration over the versions *)
hash_next : nat → gmap string Factorio → option (string * Factorio);
(** [ExitStatus::to_string] *)
exit_status_text : Z → string;
}.

(** An iteration starts at some entry, if there is one. *)
Class AgentLaws `{AgentEnv} : Prop := {
  hash_next_Some n m v f : hash_next n m = Some (v, f) → m !! v = Some f;
  hash_next_None n m : hash_next n m = None → m = ∅;
}.

(** A WebSocket message, as tungstenite gives it. *)
Inductive Message := MText (json : string) | MBinary | MPing | MClose | MOther.

(** What [message_loop] does with one item of the stream: leave the loop
    ([None]), or go on after spawning a task for a message. *)
Inductive WsError := WsIo (k : IoErrorKind) | WsOther.

Definition on_incoming (r : result WsError Message) : option (list Message) :=
  match r with
  | Ok MClose => None
  | Ok msg => Some [msg]
  | Err (WsIo BrokenPipe) => None
  | Err _ => Some []
  end.

(** The messages of one connection that a task is spawned for. *)
Fixpoint message_loop (items : list (result WsError Message)) : list Message :=
  match items with
  | [] => []
  | r :: items' =>
      match on_incoming r with
      | None => []
      | Some msgs => msgs ++ message_loop items'
      end
  end.

Section AgentController.
Context {E : IoEnv} {N : NetEnv} {R : RegexEngine} {T : TaskEnv} {Po : ModPortal}.
Context {Zi : ZipEnv} {L : LaunchEnv} {U : UuidEnv} {Ar : Archive} {P : ProcEnv} {D : DebugError}.
Context {MS : Type} {SF : SettingsFile MS} {AE : AgentEnv}.
Context {CL : Codec (list string)} {CLS : Codec LaunchSettings.t} {CSe : Codec Secrets.t}.
Context {CSS : Codec ServerSettingsConfig} {CML : Codec ModList}.
Context {CRq : Codec AgentRequestWithId} {CRs : Codec AgentResponseWithId}.
Context {CSt : Codec AgentStreamingMessage}.

(** ** Steps

    What a handler does between two points where the runtime may turn to
    another task: a routine on the files, an operation of the process manager
    (which holds its mutex throughout), a message on the WebSocket. *)
Definition do_f {A : Type} (m : ST IoW A) : Task AgentW A := atom (lift_f m).
Definition do_p {A : Type} (m : ST ProcW A) : Task AgentW A := atom (lift_p m).

Definition send_message (text : string) : ST AgentW () :=
  st_modify (λ w, MkAgentW (aw_proc w) (aw_vm w) (ws_tx w ++ [text]) (global_tx w)).

(** [timeout(250 ms, version_manager.read() or write())] of a handler that is
    alone succeeds if the lock is obtained in time. *)
#[export] Instance vm_in_time : TimedLock AgentW := λ w, vm_lock (tick (pw_io (aw_proc w))).

(** [vm.versions.iter().next()] *)
Definition first_version : Task AgentW (option (string * Factorio)) :=
  atom (n <- lift_p next_call ;;
        st_gets (λ w, hash_next n (VersionManager.versions (aw_vm w))))%st.

Definition vm_install (version : string) : Task AgentW (result Error ()) :=
  atom (vm <- st_gets aw_vm ;;
        rv <- lift_f (VersionManager.install vm version) ;;
        st_modify (set_vm rv.2) ;;
        st_ret rv.1)%st.

Definition vm_delete (version : string) : Task AgentW (result Error ()) :=
  atom (vm <- st_gets aw_vm ;;
        rv <- lift_f (VersionManager.delete vm version) ;;
        st_modify (set_vm rv.2) ;;
        st_ret rv.1)%st.

(** [ProcessManager::status] takes its mutex twice. *)
Definition proc_status : Task AgentW ProcessStatus :=
  b <- do_p ProcessManager.instance_is_running_or_cleanup ;;
  if negb b then t_ret PsNotRunning else do_p ProcessManager.internal_status.

(** ** Replies

    The four functions build a response with their status, serialise it
    and send the text; an error of the serialiser is only logged. *)
Definition respond (status : OperationStatus) (message : AgentOutMessage) (id : OperationId) :
    Task AgentW () :=
  t <- do_f now ;;
  match enc (MkResponse id status t message) with
  | Err _ => t_ret ()
  | Ok json => atom (send_message json)
  end.

Definition long_running_ack (id : OperationId) : Task AgentW () := respond Ack OOk id.
Definition reply (message : AgentOutMessage) (id : OperationId) : Task AgentW () :=
  respond Ongoing message id.
Definition reply_success (message : AgentOutMessage) (id : OperationId) : Task AgentW () :=
  respond Completed message id.
Definition reply_failed (message : AgentOutMessage) (id : OperationId) : Task AgentW () :=
  respond Failed message id.

(** ** Build information and system statistics *)

Definition build_version (id : OperationId) : Task AgentW () :=
  reply_success (OAgentBuildVersion
    (MkBuildVersion build_timestamp (default "-" git_sha))) id.

Definition system_resources (id : OperationId) : Task AgentW () :=
  r <- do_p ProcessManager.system_resources ;;
  match r with
  | Ok system_resources => reply_success (OSystemResources system_resources) id
  | Err e => reply_failed (OError ("Failed to fetch system resource statistics: " +:+ debug e)) id
  end.

(** ** Server control *)

(** The credentials that a server visible to the public needs: [None] when
    the handler has replied and returned. *)
Definition with_credentials (ss : ServerSettings.t) (id : OperationId) :
    Task AgentW (option ServerSettings.t) :=
  if vis_public (visibility (ServerSettings.config ss)) then
    r <- do_f Secrets.read ;;
    match r with
    | Ok (Some secrets) =>
        if bool_decide (Secrets.username secrets = "") || bool_decide (Secrets.token secrets = "")
        then
          reply_failed
            (OError "Missing credentials required for server visible to public") id ;;
          t_ret None
        else
          let ss := ServerSettings.Mk
            (set_credentials (Some (Secrets.username secrets)) (Some (Secrets.token secrets))
               (ServerSettings.config ss))
            (ServerSettings.file_path ss) in
          r <- do_f (ServerSettings.write ss) ;;
          match r with
          | Err _ => reply_failed (OError "Failed to write to server settings file") id ;;
                     t_ret None
          | Ok _ => t_ret (Some ss)
          end
    | Ok None =>
        reply_failed (OError "Missing credentials required for server visible to public") id ;;
        t_ret None
    | Err _ => reply_failed (OError "Failed to read secrets") id ;; t_ret None
    end
  else t_ret (Some ss).

Definition replay (previous : option StoppedInstance) (b : ServerHostBuilder) :
    ServerHostBuilder :=
  match previous with Some p => replay_optional_args b p | None => b end.

Definition internal_server_start_with_version (version : Factorio)
    (savefile : ServerStartSaveFile) (id : OperationId)
    (opt_restart_instance : option StoppedInstance) : Task AgentW () :=
  exists_ <- match savefile with
             | Specific name => do_f (is_file (get_savefile_path name))
             | Latest => t_ret true
             end ;;
  match exists_, savefile with
  | false, Specific name =>
      reply_failed (OError ("Savefile with name " +:+ name +:+ " does not exist")) id
  | _, Latest => reply_failed (OError "Latest save functionality not implemented") id
  | _, _ =>
  r <- do_f (ModManager.read_or_apply_default (S := MS)) ;;
  match r with
  | Err _ => reply_failed (OError "Failed to read or initialise mod directory") id
  | Ok mods =>
  r <- do_f LaunchSettings.read_or_apply_default ;;
  match r with
  | Err _ => reply_failed (OError "Failed to read or initialise launch settings file") id
  | Ok launch_settings =>
  r <- do_f (ServerSettings.read_or_apply_default (f_path version)) ;;
  match r with
  | Err _ => reply_failed (OError "Failed to read or initialise server settings file") id
  | Ok server_settings =>
  o <- with_credentials server_settings id ;;
  match o with
  | None => t_ret ()
  | Some server_settings =>
  r <- do_f AdminList.read_or_apply_default ;;
  match r with
  | Err _ => reply_failed (OError "Failed to read or initialise admin list file") id
  | Ok admin_list =>
  r <- do_f BanList.read_or_apply_default ;;
  match r with
  | Err _ => reply_failed (OError "Failed to read or initialise ban list file") id
  | Ok ban_list =>
  r <- do_f WhiteList.read_or_apply_default ;;
  match r with
  | Err _ => reply_failed (OError "Failed to read or initialise white list file") id
  | Ok white_list =>
  let builder := replay opt_restart_instance
    (ServerBuilder.hosting_savefile savefile mods admin_list ban_list white_list launch_settings
       server_settings (ServerBuilder.using_installation version)) in
  r <- do_p (ProcessManager.start_instance builder) ;;
  match r with
  | Err e => reply_failed (OError ("Failed to start: " +:+ debug e)) id
  | Ok _ => reply_success OOk id
  end end end end end end end end end.

Definition server_start (savefile : ServerStartSaveFile) (id : OperationId) : Task AgentW () :=
  with_guard GRead
    (v <- first_version ;;
     match v with
     | None => reply_failed ONotInstalled id
     | Some (_, version) => internal_server_start_with_version version savefile id None
     end)
    (reply_failed OConflictingOperation id).

Definition server_stop (id : OperationId) : Task AgentW () :=
  _ <- do_p ProcessManager.stop_instance ;;
  reply_success OOk id.

Definition status_view (s : ProcessStatus) : ServerStatusView :=
  match s with
  | PsNotRunning => NotRunning
  | PsRunning count st =>
      match st with
      | Ready | PreparedToHostGame | CreatingGame => PreGame
      | StInGame | InGameSavingMap => InGame count
      | DisconnectingScheduled | Disconnecting | Disconnected | Closed => PostGame
      end
  end.

Definition server_status (id : OperationId) : Task AgentW () :=
  s <- proc_status ;;
  reply_success (OServerStatus (status_view s)) id.

(** ** Installation management *)

Definition is_some {A} (o : option A) : bool := match o with Some _ => true | None => false end.

(** The last part of [version_install]: the version is there, the previous
    one, if any, is to be removed, and the server restarted if it ran. *)
Definition restart_after_install (version_to_install : string)
    (opt_stopped_instance : option StoppedInstance) (id : OperationId) : Task AgentW () :=
  match opt_stopped_instance with
  | Some previous_instance =>
      reply (OMessage "Restarting server after upgrade") id ;;
      vm <- atom (st_gets aw_vm) ;;
      match VersionManager.versions vm !! version_to_install with
      | Some version =>
          internal_server_start_with_version version (savefile (st_info previous_instance)) id
            (Some previous_instance)
      | None => t_ret ()   (* the code's [unwrap]: the lock is held since the install *)
      end
  | None => reply_success OOk id
  end.

Definition version_install (version_to_install : string) (force_install : bool)
    (id : OperationId) : Task AgentW () :=
  with_guard GWrite (
    long_running_ack id ;;
    v <- first_version ;;
    match v with
    | None =>
        reply (OMessage ("Starting to install version " +:+ version_to_install)) id ;;
        r <- vm_install version_to_install ;;
        match r with
        | Err e => reply_failed (OMessage ("Failed to install: " +:+ debug e)) id
        | Ok _ => reply_success OOk id
        end
    | Some (version_from, _) =>
        let is_reinstall := bool_decide (version_from = version_to_install) in
        if is_reinstall && negb force_install then reply_success OOk id
        else if is_reinstall then
          opt_stopped_instance <- do_p ProcessManager.stop_instance ;;
          (if is_some opt_stopped_instance
           then reply (OMessage "Stopped server for reinstall") id else t_ret ()) ;;
          reply (OMessage ("Starting to reinstall version " +:+ version_to_install)) id ;;
          r <- vm_install version_to_install ;;
          match r with
          | Err e => reply_failed (OError ("Failed to install: " +:+ debug e)) id
          | Ok _ =>
              reply (OMessage ("Reinstalled version " +:+ version_to_install)) id ;;
              restart_after_install version_to_install opt_stopped_instance id
          end
        else
          reply (OMessage ("Starting to install version " +:+ version_to_install)) id ;;
          r <- vm_install version_to_install ;;
          match r with
          | Err e => reply_failed (OError ("Failed to install: " +:+ debug e)) id
          | Ok _ =>
              reply (OMessage ("Installed version " +:+ version_to_install +:+ " for upgrade")) id ;;
              opt_stopped_instance <- do_p ProcessManager.stop_instance ;;
              (if is_some opt_stopped_instance
               then reply (OMessage "Stopped server for upgrade") id else t_ret ()) ;;
              r <- vm_delete version_from ;;
              match r with
              | Err e =>
                  reply_failed (OError ("Failed to remove previous version " +:+ version_from +:+
                    " after upgrading to version " +:+ version_to_install +:+ ": " +:+ debug e)) id
              | Ok _ =>
                  reply (OMessage ("Removed previous version " +:+ version_from +:+
                    " after upgrading to version " +:+ version_to_install)) id ;;
                  restart_after_install version_to_install opt_stopped_instance id
              end
          end
    end)
    (reply_failed OConflictingOperation id).

Definition version_get (id : OperationId) : Task AgentW () :=
  with_guard GRead
    (v <- first_version ;;
     match v with
     | None => reply_success ONotInstalled id
     | Some (_, v) => reply_success (OFactorioVersion (f_version v)) id
     end)
    (reply_failed OConflictingOperation id).

(** ** Saves *)

(** A line of the standard output of a child is put on the broadcast bus. *)
Definition stdout_handler (s : string) : ST AgentW () :=
  (t <- lift_f now ;;
   st_modify (λ w, MkAgentW (aw_proc w) (aw_vm w) (ws_tx w) (global_tx w ++ [MkStreaming t s])))%st.

Definition save_create (save_name : string) (map_gen_settings map_settings : option string)
    (id : OperationId) : Task AgentW () :=
  x <- do_f (exists_savefile save_name) ;;
  match x with
  | Ok true =>
      reply_failed (OError ("Savefile with name " +:+ save_name +:+ " already exists")) id
  | Err e =>
      reply_failed (OError ("Failed to check if savefile with name " +:+ save_name +:+
        " already exists: " +:+ debug e)) id
  | Ok false =>
      with_guard GRead (
        long_running_ack id ;;
        v <- first_version ;;
        match v with
        | None => reply_failed ONotInstalled id
        | Some (_, version) =>
            r <- do_f (fs_create_dir_all SAVEFILE_DIR) ;;
            match r with
            | Err e => reply_failed (OError ("Failed to create save dir: " +:+ debug_io e)) id
            | Ok _ =>
                builder <- do_f (ServerBuilder.creating_savefile save_name map_gen_settings
                                     map_settings (ServerBuilder.using_installation version)) ;;
                match builder with
                | Err e =>
                    reply_failed (OError ("Failed to prepare to create savefile: " +:+ debug e)) id
                | Ok builder =>
                    r <- do_p (ProcessManager.start_and_wait_for_shortlived_instance builder) ;;
                    match r with
                    | Err e => reply_failed (OError ("Savefile creation failed: " +:+ debug e)) id
                    | Ok exit_status =>
                        if decide (exit_status = 0)%Z then reply_success OOk id
                        else reply_failed (OError
                          ("Savefile creation failed: process exited with non-success code " +:+
                           exit_status_text exit_status)) id
                    end
                end
            end
        end)
        (reply_failed OConflictingOperation id)
  end.

Definition save_delete (save_name : string) (id : OperationId) : Task AgentW () :=
  x <- do_f (exists_savefile save_name) ;;
  match x with
  | Ok true =>
      r <- do_f (delete_savefile save_name) ;;
      match r with
      | Err e => reply_failed (OError ("Failed to delete save: " +:+ debug e)) id
      | Ok _ => reply_success OOk id
      end
  | Ok false =>
      reply_failed (OError ("Savefile with name " +:+ save_name +:+ " does not exist")) id
  | Err e => reply_failed (OError ("Failed to list saves: " +:+ debug e)) id
  end.

(** The chunks, each a reply with its offset, and the total as sentinel. *)
Definition save_get (save_name : string) (id : OperationId) : Task AgentW () :=
  x <- do_f (get_savefile save_name) ;;
  match x with
  | Ok (Some savebytes) =>
      long_running_ack id ;;
      let r := number_chunks 0 (chunks (Z.to_nat MAX_WS_PAYLOAD_BYTES) (sb_bytes savebytes)) in
      t_iter (λ part, reply (OSaveFile part) id) r.1 ;;
      reply_success (OSaveFile (sentinel r.2)) id
  | Ok None => reply_failed OSaveNotFound id
  | Err e => reply_failed (OError ("Failed to get save: " +:+ debug e)) id
  end.

Definition save_list (id : OperationId) : Task AgentW () :=
  x <- do_f list_savefiles ;;
  match x with
  | Ok saves => reply_success (OSaveList saves) id
  | Err e => reply_failed (OError ("Failed to list saves: " +:+ debug e)) id
  end.

Definition save_set (save_name : string) (savebytes : SaveBytes) (id : OperationId) :
    Task AgentW () :=
  x <- do_f (set_savefile save_name savebytes) ;;
  match x with
  | Err e => reply_failed (OError
      ("Failed to set savefile with name `" +:+ save_name +:+ "`: " +:+ debug e)) id
  | Ok _ => reply_success OOk id
  end.

(** ** Mods *)

Definition read_mods : Task AgentW (result Error (ModManager.t MS)) :=
  do_f ModManager.read_or_apply_default.

Definition mod_dlcs_get (id : OperationId) : Task AgentW () :=
  r <- read_mods ;;
  match r with
  | Ok m => reply_success (ODlcList (elements (ModManager.dlcs m))) id
  | Err e => reply_failed (OError ("Failed to get DLC: " +:+ debug e)) id
  end.

(** [m.dlcs = dlcs], [m.mods = mods], [m.settings = Some(ms)] *)
Definition with_dlcs (dlcs : gset Dlc) (m : ModManager.t MS) : ModManager.t MS :=
  ModManager.Mk dlcs (ModManager.mods m) (ModManager.settings m) (ModManager.mm_path m).
Definition with_mods (mods : list Mod) (m : ModManager.t MS) : ModManager.t MS :=
  ModManager.Mk (ModManager.dlcs m) mods (ModManager.settings m) (ModManager.mm_path m).
Definition with_settings (ms : MS) (m : ModManager.t MS) : ModManager.t MS :=
  ModManager.Mk (ModManager.dlcs m) (ModManager.mods m) (Some ms) (ModManager.mm_path m).

Definition mod_dlcs_set (dlcs : gset Dlc) (id : OperationId) : Task AgentW () :=
  if decide (Base ∉ dlcs) then
    reply_failed (OError "Failed to set DLC: list must include base") id
  else
  with_guard GRead (
    v <- first_version ;;
    match v with
    | None => reply_failed ONotInstalled id
    | Some (_, v) =>
        if bool_decide (1 < size dlcs)%nat && starts_with "1" (f_version v) then
          reply_failed (OError
            ("Failed to set DLC: list includes non-base DLC which installed game version " +:+
             f_version v +:+ " does not support")) id
        else
          r <- read_mods ;;
          match r with
          | Ok m =>
              r <- do_f (ModManager.apply_metadata_only (with_dlcs dlcs m)) ;;
              match r with
              | Err e => reply_failed (OError
                  ("Unable to write mod list when setting DLC: " +:+ debug e)) id
              | Ok _ => reply_success OOk id
              end
          | Err e => reply_failed (OError ("Failed to initialise mod manager: " +:+ debug e)) id
          end
    end)
    (reply_failed OConflictingOperation id).

Definition mod_list_get (id : OperationId) : Task AgentW () :=
  r <- read_mods ;;
  match r with
  | Ok m =>
      reply_success (OModsList
        ((λ x, MkModObject (mod_name x) (mod_version x)) <$> ModManager.mods m)) id
  | Err e => reply_failed (OError ("Failed to get mods: " +:+ debug e)) id
  end.

(** The built-in mods are filtered out of the header's list. *)
Definition header_mods (mods : list SaveHeaderMod) : list ModObject :=
  (λ shm, MkModObject (shm_name shm) (shm_version shm)) <$>
    filter (λ shm, Dlc_from_str (shm_name shm) = None) mods.

Definition mod_list_extract_from_save (save_name : string) (id : OperationId) : Task AgentW () :=
  x <- do_f (exists_savefile save_name) ;;
  match x with
  | Ok true =>
      h <- do_f (read_header save_name) ;;
      match h with
      | Ok mods => reply_success (OModsList (header_mods mods)) id
      | Err e => reply_failed (OError ("Failed to read savefile header: " +:+ debug e)) id
      end
  | Ok false => reply_failed OSaveNotFound id
  | Err e => reply_failed (OError ("Failed to read savefile: " +:+ debug e)) id
  end.

Definition mod_list_set (mod_list : list ModObject) (id : OperationId) : Task AgentW () :=
  r <- read_mods ;;
  match r with
  | Ok m =>
      s <- do_f Secrets.read ;;
      match s with
      | Ok (Some s) =>
          let m := with_mods ((λ x, MkMod (mo_name x) (mo_version x)) <$> mod_list) m in
          long_running_ack id ;;
          r <- do_f (ModManager.apply m s) ;;
          match r with
          | Ok _ => reply_success OOk id
          | Err e => reply_failed (OError ("Failed to apply mod changes: " +:+ debug e)) id
          end
      | Ok None => reply_failed OMissingSecrets id
      | Err e => reply_failed (OError ("Failed to read secrets: " +:+ debug e)) id
      end
  | Err e => reply_failed (OError ("Failed to initialise mod manager: " +:+ debug e)) id
  end.

Definition mod_settings_get (id : OperationId) : Task AgentW () :=
  r <- read_mods ;;
  match r with
  | Ok m =>
      match ModManager.settings m with
      | Some s =>
          match settings_try_into s with
          | Ok bytes => reply_success (OModSettings (Some bytes)) id
          | Err e => reply_failed (OError ("Failed to parse ModSettings: " +:+ e)) id
          end
      | None => reply_success (OModSettings None) id
      end
  | Err e => reply_failed (OError ("Failed to get mods: " +:+ debug e)) id
  end.

Definition mod_settings_set (ms_bytes : bytes) (id : OperationId) : Task AgentW () :=
  r <- read_mods ;;
  match r with
  | Ok m =>
      match settings_try_from ms_bytes with
      | Ok ms =>
          r <- do_f (ModManager.apply_metadata_only (with_settings ms m)) ;;
          match r with
          | Err e => reply_failed (OError ("Unable to write mod settings: " +:+ debug e)) id
          | Ok _ => reply_success OOk id
          end
      | Err e => reply_failed (OError ("Unable to parse mod settings: " +:+ e)) id
      end
  | Err e => reply_failed (OError ("Failed to get mods: " +:+ debug e)) id
  end.

(** ** Configuration *)

Definition config_admin_list_get (id : OperationId) : Task AgentW () :=
  r <- do_f AdminList.read_or_apply_default ;;
  match r with
  | Ok al => reply_success (OConfigAdminList (lf_list al)) id
  | Err e => reply_failed (OError
      ("Failed to read or initialise admin list file: " +:+ debug e)) id
  end.

Definition config_admin_list_set (l : list string) (id : OperationId) : Task AgentW () :=
  r <- do_f (AdminList.set l) ;;
  match r with
  | Ok _ => reply_success OOk id
  | Err e => reply_failed (OError ("Failed to set admin list: " +:+ debug e)) id
  end.

Definition config_ban_list_get (id : OperationId) : Task AgentW () :=
  r <- do_f BanList.read_or_apply_default ;;
  match r with
  | Ok bl => reply_success (OConfigBanList (lf_list bl)) id
  | Err e => reply_failed (OError
      ("Failed to read or initialise ban list file: " +:+ debug e)) id
  end.

Definition config_ban_list_set (l : list string) (id : OperationId) : Task AgentW () :=
  r <- do_f (BanList.set l) ;;
  match r with
  | Ok _ => reply_success OOk id
  | Err e => reply_failed (OError ("Failed to set ban list: " +:+ debug e)) id
  end.

Definition config_rcon_get (id : OperationId) : Task AgentW () :=
  r <- do_f LaunchSettings.read_or_apply_default ;;
  match r with
  | Ok ls =>
      reply_success (OConfigRcon (MkRconConfig (sa_port (LaunchSettings.rcon_bind ls))
                                               (LaunchSettings.rcon_password ls))) id
  | Err e => reply_failed (OError
      ("Failed to read or initialise launch settings file: " +:+ debug e)) id
  end.

Definition config_rcon_set (password : string) (id : OperationId) : Task AgentW () :=
  r <- do_f LaunchSettings.read_or_apply_default ;;
  match r with
  | Ok ls =>
      r <- do_f (LaunchSettings.write (LaunchSettings.with_password password ls)) ;;
      match r with
      | Err e => reply_failed (OError ("Failed to set launch settings: " +:+ debug e)) id
      | Ok _ => reply_success OOk id
      end
  | Err e => reply_failed (OError
      ("Failed to read or initialise launch settings file: " +:+ debug e)) id
  end.

Definition config_secrets_get (id : OperationId) : Task AgentW () :=
  r <- do_f Secrets.read ;;
  match r with
  | Ok (Some s) =>
      reply_success (OConfigSecrets (Some (MkSecretsObject (Secrets.username s) None))) id
  | Ok None => reply_success (OConfigSecrets None) id
  | Err e => reply_failed (OError ("Failed to read secrets: " +:+ debug e)) id
  end.

Definition config_secrets_set (username token : string) (id : OperationId) : Task AgentW () :=
  r <- do_f (Secrets.write (Secrets.Mk username token)) ;;
  match r with
  | Ok _ => reply_success OOk id
  | Err e => reply_failed (OError ("Failed to set secrets: " +:+ debug e)) id
  end.

Definition stripped (ss : ServerSettings.t) : ServerSettingsConfig :=
  set_credentials None None (ServerSettings.config ss).

Definition config_server_settings_get (id : OperationId) : Task AgentW () :=
  r <- do_f ServerSettings.read ;;
  match r with
  | Ok (Some ss) => reply_success (OConfigServerSettings (stripped ss)) id
  | _ =>
      under_guard GRead (
        v <- first_version ;;
        match v with
        | Some (_, version) =>
            r <- do_f (ServerSettings.read_or_apply_default (f_path version)) ;;
            match r with
            | Ok ss => reply_success (OConfigServerSettings (stripped ss)) id
            | Err e => reply_failed (OError
                ("Failed to read or initialise server settings file: " +:+ debug e)) id
            end
        | None => reply_failed (OError "No server settings saved and no version of Factorio is installed to generate a default") id
        end)
  end.

Definition config_server_settings_set (config : ServerSettingsConfig) (id : OperationId) :
    Task AgentW () :=
  r <- do_f (ServerSettings.set config) ;;
  match r with
  | Ok _ => reply_success OOk id
  | Err e => reply_failed (OError ("Failed to set server settings: " +:+ debug e)) id
  end.

Definition config_white_list_get (id : OperationId) : Task AgentW () :=
  r <- do_f LaunchSettings.read_or_apply_default ;;
  match r with
  | Ok ls =>
      r <- do_f WhiteList.read_or_apply_default ;;
      match r with
      | Ok wl => reply_success (OConfigWhiteList
                   (MkWhitelistObject (LaunchSettings.use_whitelist ls) (lf_list wl))) id
      | Err e => reply_failed (OError
          ("Failed to read or initialise white list file: " +:+ debug e)) id
      end
  | Err e => reply_failed (OError
      ("Failed to read or initialise launch settings file: " +:+ debug e)) id
  end.

Definition config_white_list_set (enabled : bool) (l : list string) (id : OperationId) :
    Task AgentW () :=
  r <- do_f LaunchSettings.read_or_apply_default ;;
  match r with
  | Ok ls =>
      r <- do_f (LaunchSettings.write (LaunchSettings.with_whitelist enabled ls)) ;;
      match r with
      | Err e => reply_failed (OError ("Failed to set launch settings: " +:+ debug e)) id
      | Ok _ =>
          r <- do_f (WhiteList.set l) ;;
          match r with
          | Ok _ => reply_success OOk id
          | Err e => reply_failed (OError ("Failed to set white list: " +:+ debug e)) id
          end
      end
  | Err e => reply_failed (OError
      ("Failed to read or initialise launch settings file: " +:+ debug e)) id
  end.

(** ** In-game *)

Definition rcon_command (cmd : string) (id : OperationId) : Task AgentW () :=
  r <- do_p (ProcessManager.send_rcon_command_to_instance cmd) ;;
  match r with
  | Ok s => reply_success (ORconResponse s) id
  | Err e => reply_failed (OError ("Couldn't send command to RCON: " +:+ debug e)) id
  end.

(** ** Dispatch *)

Definition handle_request (id : OperationId) (r : AgentRequest) : Task AgentW () :=
  match r with
  | BuildVersion => build_version id
  | SystemResources => system_resources id
  | VersionInstall version force_install => version_install version force_install id
  | VersionGet => version_get id
  | ServerStart savefile => server_start savefile id
  | ServerStop => server_stop id
  | ServerStatus => server_status id
  | SaveCreate name map_gen_settings map_settings =>
      save_create name map_gen_settings map_settings id
  | SaveDelete name => save_delete name id
  | SaveGet name => save_get name id
  | SaveList => save_list id
  | SaveSet name savebytes => save_set name savebytes id
  | ModDlcsGet => mod_dlcs_get id
  | ModDlcsSet dlcs => mod_dlcs_set (list_to_set dlcs) id
  | ModListGet => mod_list_get id
  | ModListExtractFromSave name => mod_list_extract_from_save name id
  | ModListSet mods => mod_list_set mods id
  | ModSettingsGet => mod_settings_get id
  | ModSettingsSet ms_bytes => mod_settings_set ms_bytes id
  | ConfigAdminListGet => config_admin_list_get id
  | ConfigAdminListSet admins => config_admin_list_set admins id
  | ConfigBanListGet => config_ban_list_get id
  | ConfigBanListSet users => config_ban_list_set users id
  | ConfigRconGet => config_rcon_get id
  | ConfigRconSet password => config_rcon_set password id
  | ConfigSecretsGet => config_secrets_get id
  | ConfigSecretsSet username token => config_secrets_set username token id
  | ConfigServerSettingsGet => config_server_settings_get id
  | ConfigServerSettingsSet config => config_server_settings_set config id
  | ConfigWhiteListGet => config_white_list_get id
  | ConfigWhiteListSet enabled users => config_white_list_set enabled users id
  | RconCommand cmd => rcon_command cmd id
  end.

(** Only a text that parses is answered. *)
Definition handle_message (msg : Message) : Task AgentW () :=
  match msg with
  | MText json =>
      match dec json with
      | Ok rq => handle_request (rq_operation_id rq) (rq_message rq)
      | Err _ => t_ret ()
      end
  | MBinary | MPing | MClose | MOther => t_ret ()
  end.

(** The task that forwards a message of the bus to a connection. *)
Definition forward_streaming (m : AgentStreamingMessage) : ST AgentW () :=
  match enc m with
  | Err _ => st_ret ()
  | Ok json => send_message json
  end.

(** One line of the standard output of the running process. *)
Definition server_line (n : nat) (line : string) : ST AgentW () :=
  (p <- st_gets aw_proc ;;
  match running_instance p with
  | Some i =>
      st_modify (λ w, set_proc (with_output
        (on_line n (LaunchSettings.rcon_password (launch_settings (info i))) line)
        (aw_proc w)) w) ;;
      stdout_handler line
  | None => st_ret ()
  end)%st.

(** The start of the program, and the stop on SIGINT. *)
Definition startup (i : IoW) : result Error AgentW :=
  let r := VersionManager.new FACTORIO_INSTALL_DIR i in
  match r.1 with
  | Ok vm => Ok (MkAgentW (ProcessManager.new r.2) vm [] [])
  | Err e => Err e
  end.
Definition shutdown : ST AgentW () := (_ <- lift_p ProcessManager.stop_instance ;; st_ret ())%st.
End AgentController.
