(* ===== verification/Protocol.v ===== *)
(** * Protocol: what a request is answered with

    The replies of every handler of [Agent], as the receiver decodes them:
    the order of their statuses, their operation id, and what they contain. *)

From S2P Require Import Prelude Tasks Text Regex Schema Io Errors Settings Downloader Mods Saves Versions.
From S2P Require Import Builder Proc Agent.

Open Scope st_scope.

(** ** The conversation of one operation

    An acknowledgement at most, then progress, then one final status. *)
Inductive Phase := Fresh | InProgress | Done.

#[export] Instance Phase_eq : EqDecision Phase.
Proof. solve_decision. Defined.

Definition next_phase (p : Phase) (s : OperationStatus) : option Phase :=
  match p, s with
  | Fresh, Ack => Some InProgress
  | (Fresh | InProgress), Ongoing => Some InProgress
  | (Fresh | InProgress), (Completed | Failed) => Some Done
  | _, _ => None
  end.

Fixpoint conversation (p : Phase) (id : OperationId) (rs : list AgentResponseWithId) : option Phase :=
  match rs with
  | [] => Some p
  | r :: rs' =>
      if decide (rs_operation_id r = id) then
        match next_phase p (rs_status r) with
        | Some p' => conversation p' id rs'
        | None => None
        end
      else None
  end.

Lemma conversation_app p id rs1 rs2 :
  conversation p id (rs1 ++ rs2) =
  match conversation p id rs1 with Some p' => conversation p' id rs2 | None => None end.
Proof.
  revert p. induction rs1 as [|r rs1 IH]; intros p; [done|]. cbn.
  destruct (decide _); [|done]. destruct (next_phase _ _); [apply IH|done].
Qed.

(** From the start to the end it is what the words say. *)
Lemma conversation_in_progress id rs :
  conversation InProgress id rs = Some Done →
  ∃ prog fin, rs = prog ++ [fin] ∧ Forall (λ r, rs_status r = Ongoing) prog ∧
    (rs_status fin = Completed ∨ rs_status fin = Failed) ∧ Forall (λ r, rs_operation_id r = id) rs.
Proof.
  induction rs as [|r rs IH]; [done|]. cbn. destruct (decide _) as [Hid|]; [|done].
  assert (conversation Done id rs = Some Done → rs = []) as Hdone.
  { destruct rs as [|r' rs']; [done|]. cbn. by destruct (decide _). }
  destruct (rs_status r) eqn:Hs; cbn; [done| | |].
  - intros (prog & fin & -> & Hp & Hf & Hi)%IH. exists (r :: prog), fin. by split_and!; [|constructor| |constructor].
  - intros ->%Hdone. exists [], r. split_and!; [done|done|by left|by constructor].
  - intros ->%Hdone. exists [], r. split_and!; [done|done|by right|by constructor].
Qed.

Lemma conversation_shape id rs :
  conversation Fresh id rs = Some Done →
  ∃ ack prog fin, rs = ack ++ prog ++ [fin] ∧
    (length ack <= 1)%nat ∧ Forall (λ r, rs_status r = Ack) ack ∧
    Forall (λ r, rs_status r = Ongoing) prog ∧
    (rs_status fin = Completed ∨ rs_status fin = Failed) ∧ Forall (λ r, rs_operation_id r = id) rs.
Proof.
  destruct rs as [|r rs]; [done|]. cbn. destruct (decide _) as [Hid|]; [|done].
  assert (conversation Done id rs = Some Done → rs = []) as Hdone.
  { destruct rs as [|r' rs']; [done|]. cbn. by destruct (decide _). }
  destruct (rs_status r) eqn:Hs; cbn.
  - intros (prog & fin & -> & Hp & Hf & Hi)%conversation_in_progress. exists [r], prog, fin.
    split_and!; [done|cbn; lia|by constructor|done|done|by constructor].
  - intros (prog & fin & -> & Hp & Hf & Hi)%conversation_in_progress. exists [], (r :: prog), fin.
    split_and!; [done|cbn; lia|done|by constructor|done|by constructor].
  - intros ->%Hdone. exists [], [], r. split_and!; [done|cbn; lia|done|done|by left|by constructor].
  - intros ->%Hdone. exists [], [], r. split_and!; [done|cbn; lia|done|done|by right|by constructor].
Qed.

(** The records of the credentials and of the server settings are sent without
    the credentials of factorio.com.  The text of an error is any text. *)
Definition credentials_stripped (m : AgentOutMessage) : Prop :=
  match m with
  | OConfigSecrets (Some s) => so_token s = None
  | OConfigServerSettings c => cfg_username c = None ∧ cfg_token c = None
  | _ => True
  end.

(** What a response says of the installed versions is true of [vm]; [want] is
    the version that the request asks to install, if it is one that does. *)
Definition true_of (want : option string) (s : OperationStatus) (m : AgentOutMessage)
    (vm : VersionManager.t) : Prop :=
  match m with
  | ONotInstalled => VersionManager.versions vm = ∅
  | OFactorioVersion v => ∃ k f, VersionManager.versions vm !! k = Some f ∧ f_version f = v
  | _ => True
  end ∧
  (s = Completed → ∀ v, want = Some v → is_Some (VersionManager.versions vm !! v)).

(** What was found at the start of an iteration over the versions. *)
Definition first_of (v : option (string * Factorio)) (vm : VersionManager.t) : Prop :=
  match v with
  | Some (k, f) => VersionManager.versions vm !! k = Some f
  | None => VersionManager.versions vm = ∅
  end.

(** The version a request asks to install. *)
Definition asked (r : AgentRequest) : option string :=
  match r with VersionInstall v _ => Some v | _ => None end.

Create HintDb protocol discriminated.

Section protocol.
Context {E : IoEnv} {N : NetEnv} {R : RegexEngine} {T : TaskEnv} {Po : ModPortal}.
Context {Zi : ZipEnv} {L : LaunchEnv} {U : UuidEnv} {Ar : Archive} {P : ProcEnv} {D : DebugError}.
Context {MS : Type} {SF : SettingsFile MS} {AE : AgentEnv} {AL : AgentLaws}.
Context {CL : Codec (list string)} {CLS : Codec LaunchSettings.t} {CSe : Codec Secrets.t}.
Context {CSS : Codec ServerSettingsConfig} {CML : Codec ModList}.
Context {CRq : Codec AgentRequestWithId} {CRs : Codec AgentResponseWithId}.
Context {CSt : Codec AgentStreamingMessage}.
(** Responses serialise, and decode to what they were. *)
Context {CRsL : CodecLaws AgentResponseWithId} {CRsT : CodecTotal AgentResponseWithId}.
Implicit Types w : AgentW.

(** What the receiver decodes of the texts it was sent. *)
Definition responses (l : list string) : list AgentResponseWithId := omap (λ s, ok (dec s)) l.

(** The agent's invariant, and what the other tasks may do: while the lock of
    the version manager is held the versions do not change. *)
Definition proc_ok w : Prop := pm_inv (aw_proc w).
Definition vm_kept (h : option Guard) w w' : Prop := is_Some h → aw_vm w' = aw_vm w.

#[export] Instance vm_kept_preorder h : PreOrder (vm_kept h).
Proof. split; [done|]. intros w1 w2 w3 H1 H2 Hh. by rw (H2 Hh) (H1 Hh). Qed.

(** A part of the conversation of [id] that leads from phase [p] to [p'] has
    been sent. *)
Definition said (id : OperationId) (p : Phase) w w' (p' : Phase) : Prop :=
  ∃ rs, ws_tx w' = ws_tx w ++ rs ∧ conversation p id (responses rs) = Some p' ∧
    length (responses rs) = length rs ∧ Forall (λ r, credentials_stripped (rs_content r)) (responses rs).

(** What is sent is true when it is sent. *)
Definition honest (want : option string) w w' : Prop :=
  ∃ rs, ws_tx w' = ws_tx w ++ rs ∧
    Forall (λ r, true_of want (rs_status r) (rs_content r) (aw_vm w')) (responses rs).

(** An atomic routine sends such a part, and changes the versions only under
    the write lock. *)
Definition says (want : option string) (id : OperationId) (p : Phase) (h : option Guard) w w' (p' : Phase) : Prop :=
  (h ≠ Some GWrite → aw_vm w' = aw_vm w) ∧ honest want w w' ∧ said id p w w' p'.

Lemma honest_refl want w : honest want w w.
Proof. exists []. by rw app_nil_r. Qed.

Lemma responses_app l1 l2 : responses (l1 ++ l2) = responses l1 ++ responses l2.
Proof. apply omap_app. Qed.

Lemma said_refl id p w : said id p w w p.
Proof. exists []. rw app_nil_r. by split_and!. Qed.
Lemma said_trans id p1 w1 p2 w2 p3 w3 :
  said id p1 w1 w2 p2 → said id p2 w2 w3 p3 → said id p1 w1 w3 p3.
Proof.
  intros (rs1 & E1 & C1 & L1 & N1) (rs2 & E2 & C2 & L2 & N2). exists (rs1 ++ rs2).
  rw E2 E1 responses_app conversation_app C1 !length_app app_assoc.
  split_and!; [done|done|lia|by apply Forall_app].
Qed.

(** From phase [p] and holding [h], whatever the other tasks do in between,
    the task sends a part of the conversation of [id] that ends in phase
    [q a], keeps the invariant, and returns [a] holding [h] again, in a state
    that satisfies [J]. *)
Definition talks {A} (want : option string) (id : OperationId) (p : Phase) (h : option Guard) (t : Task AgentW A)
    (q : A → Phase) (J : A → AgentW → Prop) (w : AgentW) : Prop :=
  safe proc_ok vm_kept (says want id) p h t (λ p' h' a w', p' = q a ∧ h' = h ∧ J a w') w.

Lemma talks_bind {A B} want id p h (t : Task AgentW A) (k : A → Task AgentW B) q1 J1 q J w :
  talks want id p h t q1 J1 w →
  (∀ a w', J1 a w' → talks want id (q1 a) h (k a) q J w') →
  talks want id p h (t_bind t k) q J w.
Proof.
  intros Ht Hk. apply safe_bind. eapply safe_wand; [exact Ht|]. cbn.
  intros p' h' a w' (-> & -> & HJ). by apply Hk.
Qed.

Lemma talks_weaken {A} want id p h (t : Task AgentW A) q J J' w :
  talks want id p h t q J w → (∀ a w', J a w' → J' a w') → talks want id p h t q J' w.
Proof.
  intros Ht HJ. eapply safe_wand; [exact Ht|]. cbn. intros p' h' a w' (? & ? & ?). auto.
Qed.

Lemma talks_ret {A} want id p h (a : A) (q : A → Phase) (J : A → AgentW → Prop) w :
  q a = p → J a w → talks want id p h (t_ret a) q J w.
Proof. intros Hq HJ. unfold talks. by rw -Hq. Qed.

(** An atomic routine that sends nothing. *)
Lemma talks_atom {A} want id p h (m : ST AgentW A) (J : A → AgentW → Prop) w :
  (proc_ok w → wp m (λ a w', proc_ok w' ∧ ws_tx w' = ws_tx w ∧ (h ≠ Some GWrite → aw_vm w' = aw_vm w) ∧
     ∀ w2, vm_kept h w' w2 → J a w2) w) →
  talks want id p h (atom m) (λ _, p) J w.
Proof.
  intros Hm. apply safe_atom. intros Hp. eapply wp_wand; [by apply Hm|]. cbn.
  intros a w' (Hp' & Hws & Hvm & HJ). split; [done|]. exists p. split; [|by auto].
  split; [done|]. split; exists []; rw app_nil_r; by split_and!.
Qed.

Lemma talks_f {A} want id p h (m : ST IoW A) w :
  talks want id p h (do_f m) (λ _, p) (λ _ w', vm_kept h w w') w.
Proof.
  apply talks_atom. intros Hp. unfold lift_f, lift_p, lift_io. st_go. unfold wp. cbn.
  split; [eapply pm_inv_same; [|exact Hp]; by split_and!|]. by split_and!.
Qed.

Lemma talks_p {A} want id p h (m : ST ProcW A) w :
  (∀ pw, pm_inv pw → wp m (λ _ pw', pm_inv pw') pw) →
  talks want id p h (do_p m) (λ _, p) (λ _ w', vm_kept h w w') w.
Proof.
  intros Hm. apply talks_atom. intros Hp. unfold lift_p. st_go. eapply wp_wand; [by apply Hm|].
  cbn. intros a pw' Hp'. by split_and!.
Qed.

Lemma talks_respond want id p h q s m w :
  next_phase p s = Some q → credentials_stripped m →
  (∀ w', vm_kept h w w' → true_of want s m (aw_vm w')) →
  talks want id p h (respond s m id) (λ _, q) (λ _ w', vm_kept h w w') w.
Proof.
  intros Hp Hm Ht. unfold respond. eapply talks_bind; [apply talks_f|]. intros t w1 H1.
  destruct (codec_total (MkResponse id s t m)) as [json Hj]. rw Hj. apply safe_atom.
  intros Hi. unfold send_message. st_go. split; [exact Hi|]. exists q. split.
  - split; [done|]. split.
    { exists [json]. split; [done|]. unfold responses. cbn. rw (codec_roundtrip _ _ Hj). cbn.
      apply Forall_singleton. by apply Ht. }
    exists [json]. unfold responses. cbn. rw (codec_roundtrip _ _ Hj). cbn.
    rw decide_True //= Hp. split_and!; [done..|]. by apply Forall_singleton.
  - intros w2 H2. split_and!; [done|done|]. intros Hh. by rw (H2 Hh) -(H1 Hh).
Qed.

(** The lock is asked for, and dropped when the body is done. *)
Lemma talks_with_guard want id p g (body otherwise : Task AgentW ()) q J w :
  (∀ w', talks want id p (Some g) body q (λ _ _, True) w') →
  (∀ w', talks want id p None otherwise q J w') → (∀ w', J () w') →
  talks want id p None (with_guard g body otherwise) q J w.
Proof.
  intros H1 H2 HJ. apply safe_with_guard; intros w' _; [|apply H2].
  eapply safe_wand; [apply H1|]. cbn. intros p' h' [] w1 (-> & -> & _). by split; [|auto].
Qed.

Lemma talks_under_guard want id p g (body : Task AgentW ()) q J w :
  (∀ w', talks want id p (Some g) body q (λ _ _, True) w') → (∀ w', J () w') →
  talks want id p None (under_guard g body) q J w.
Proof.
  intros H1 HJ. apply safe_under_guard. intros w' _.
  eapply safe_wand; [apply H1|]. cbn. intros p' h' [] w1 (-> & -> & _). by split; [|auto].
Qed.

(** The manager's operations keep its invariant. *)
Lemma keeps_start (b : ServerHostBuilder) pw :
  pm_inv pw → wp (ProcessManager.start_instance b) (λ _ pw', pm_inv pw') pw.
Proof. apply start_inv. Qed.
Lemma keeps_stop pw : pm_inv pw → wp ProcessManager.stop_instance (λ _ pw', pm_inv pw') pw.
Proof.
  intros H. eapply wp_wand; [by apply stop_idle|]. cbn. intros r pw' [Hi _]. by apply idle_inv.
Qed.
Lemma keeps_running pw :
  pm_inv pw → wp ProcessManager.instance_is_running_or_cleanup (λ _ pw', pm_inv pw') pw.
Proof.
  intros H. apply wp_running_or_cleanup; [done|by intros|..].
  - intros w' Hw' _. by apply idle_inv.
  - intros i w' _ Hw'. by eapply pm_inv_same.
Qed.
Lemma keeps_shortlived (b : SaveCreatorBuilder) pw :
  pm_inv pw →
  wp (ProcessManager.start_and_wait_for_shortlived_instance b) (λ _ pw', pm_inv pw') pw.
Proof. intros H. eapply wp_wand; [by apply shortlived_inv|]. by cbn; intros r pw' (? & _). Qed.
Lemma keeps_same {A} (m : ST ProcW A) pw :
  (∀ pw, same_proc pw (m pw).2) → pm_inv pw → wp m (λ _ pw', pm_inv pw') pw.
Proof. intros Hm Hp. by apply (pm_inv_same pw). Qed.
Lemma keeps_resources pw :
  pm_inv pw → wp ProcessManager.system_resources (λ _ pw', pm_inv pw') pw.
Proof. apply keeps_same. intros ?. by split_and!. Qed.
Lemma keeps_rcon cmd pw :
  pm_inv pw → wp (ProcessManager.send_rcon_command_to_instance cmd) (λ _ pw', pm_inv pw') pw.
Proof.
  apply keeps_same. clear pw. intros pw. unfold ProcessManager.send_rcon_command_to_instance.
  unfold st_bind, st_gets. cbn. destruct (running_instance pw) as [i|] eqn:Hi; [|by split_and!].
  destruct (rcon (output i)); [|by split_and!]. unfold rcon_send. case_decide; by split_and!.
Qed.
Lemma keeps_internal_status pw :
  pm_inv pw → wp ProcessManager.internal_status (λ _ pw', pm_inv pw') pw.
Proof. apply keeps_same. intros ?. by split_and!. Qed.

Lemma talks_first_version want id p h w :
  talks want id p h first_version (λ _, p)
    (λ v w', vm_kept h w w' ∧ (is_Some h → first_of v (aw_vm w'))) w.
Proof.
  apply talks_atom. intros Hp. unfold lift_p, next_call, lift_io. st_go. unfold wp at 1. cbn. st_go.
  split; [eapply pm_inv_same; [|exact Hp]; by split_and!|]. split_and!; [done|done|].
  intros w2 H2. split; [done|]. intros Hh. rw (H2 Hh). cbn. unfold first_of.
  destruct (hash_next _ _) as [[k f]|] eqn:Hv; [by eapply hash_next_Some|by eapply hash_next_None].
Qed.

Lemma talks_vm want id p h w :
  talks want id p h (atom (st_gets aw_vm)) (λ _, p)
    (λ vm w', vm = aw_vm w ∧ vm_kept h w w') w.
Proof. apply talks_atom. intros Hp. by st_go. Qed.

(** Installing and deleting a version, under the write lock. *)
Lemma talks_vm_op {A} want id p (op : VersionManager.t → ST IoW (A * VersionManager.t))
    (J : VersionManager.t → A → VersionManager.t → Prop) w :
  (∀ vm i, wp (op vm) (λ rv _, J vm rv.1 rv.2) i) →
  talks want id p (Some GWrite)
    (atom (vm <- st_gets aw_vm ;;
           rv <- lift_f (op vm) ;;
           st_modify (set_vm rv.2) ;;
           st_ret rv.1)%st) (λ _, p) (λ a w', J (aw_vm w) a (aw_vm w')) w.
Proof.
  intros Hop. apply talks_atom. intros Hp. unfold lift_f, lift_p, lift_io. st_go.
  eapply wp_wand; [apply Hop|]. cbn. intros rv i HJ. st_go. split.
  { eapply pm_inv_same; [|exact Hp]. by split_and!. }
  split_and!; [done|by intros []|]. intros w2 H2. by rw (H2 (mk_is_Some _ _ eq_refl)).
Qed.

(** The last word of an operation. *)
Lemma talks_final want id p h s m w :
  p ≠ Done → (s = Completed ∨ s = Failed) → credentials_stripped m →
  (∀ w', vm_kept h w w' → true_of want s m (aw_vm w')) →
  talks want id p h (respond s m id) (λ _, Done) (λ _ _, True) w.
Proof.
  intros Hp Hs Hm Ht. eapply talks_weaken; [apply talks_respond; [|done|done]|done].
  by destruct p, Hs as [-> | ->].
Qed.
End protocol.

(** What the others leave, step by step, while the lock is held. *)
Ltac kept :=
  repeat match goal with
  | H : vm_kept (Some _) _ _ |- _ => specialize (H (mk_is_Some _ _ eq_refl))
  | H : vm_kept (Some _) _ _ ∧ _ |- _ => destruct H
  | H : is_Some (Some _) → _ |- _ => specialize (H (mk_is_Some _ _ eq_refl))
  end;
  repeat match goal with
  | H : aw_vm ?b = aw_vm _, H' : context [aw_vm ?b] |- _ =>
      tryif constr_eq H H' then fail else rw H in H'
  | H : aw_vm ?b = aw_vm _ |- context [aw_vm ?b] => rw H
  end.

(** What is reported is true: most responses say nothing of the versions. *)
Ltac be_true :=
  first [ by intros ? _; split | intros ? ?; kept; split; [try done|try done] ].

(** Symbolic execution of a handler. *)
Ltac talk_step :=
  lazymatch goal with
  | |- talks _ _ _ _ (t_bind (do_f _) _) _ _ _ =>
      eapply talks_bind; [apply talks_f|cbn beta; intros]
  | |- talks _ _ _ _ (t_bind (do_p _) _) _ _ _ =>
      eapply talks_bind; [apply talks_p; intros ? ?; auto with protocol|cbn beta; intros]
  | |- talks _ _ _ _ (t_bind first_version _) _ _ _ =>
      eapply talks_bind; [apply talks_first_version|cbn beta; intros]
  | |- talks _ _ _ _ (t_bind read_mods _) _ _ _ =>
      eapply talks_bind; [apply talks_f|cbn beta; intros]
  | |- talks _ _ _ _ (t_bind (long_running_ack _) _) _ _ _ =>
      eapply talks_bind; [apply (talks_respond _ _ _ _ InProgress); [done|done|be_true]|cbn beta; intros]
  | |- talks _ _ _ _ (t_bind (reply _ _) _) _ _ _ =>
      eapply talks_bind; [apply (talks_respond _ _ _ _ InProgress); [done|done|be_true]|cbn beta; intros]
  | |- talks _ _ _ _ (with_guard _ _ _) _ _ _ =>
      apply talks_with_guard; [intros|intros|done]
  | |- talks _ _ _ _ (under_guard _ _) _ _ _ =>
      apply talks_under_guard; [intros|done]
  | |- talks _ _ _ _ (reply_success _ _) _ _ _ => apply talks_final; [done|by left|try done|be_true]
  | |- talks _ _ _ _ (reply_failed _ _) _ _ _ => apply talks_final; [done|by right|try done|be_true]
  | |- talks _ _ _ _ (match ?x with _ => _ end) _ _ _ => destruct x eqn:?
  | |- talks _ _ _ _ (let _ := _ in _) _ _ _ => cbv zeta
  | |- talks _ _ _ _ (t_bind (reply_failed _ _) _) _ _ _ =>
      eapply talks_bind; [apply talks_final; [done|by right|done|be_true]|cbn beta; intros]
  | |- talks _ _ _ _ (t_ret _) _ _ _ => apply talks_ret; [done|try done]
  end.
Ltac talk := repeat talk_step.

Section handlers.
Context {E : IoEnv} {N : NetEnv} {R : RegexEngine} {T : TaskEnv} {Po : ModPortal}.
Context {Zi : ZipEnv} {L : LaunchEnv} {U : UuidEnv} {Ar : Archive} {P : ProcEnv} {D : DebugError}.
Context {MS : Type} {SF : SettingsFile MS} {AE : AgentEnv} {AL : AgentLaws}.
Context {CL : Codec (list string)} {CLS : Codec LaunchSettings.t} {CSe : Codec Secrets.t}.
Context {CSS : Codec ServerSettingsConfig} {CML : Codec ModList}.
Context {CRq : Codec AgentRequestWithId} {CRs : Codec AgentResponseWithId}.
Context {CSt : Codec AgentStreamingMessage}.
Context {CRsL : CodecLaws AgentResponseWithId} {CRsT : CodecTotal AgentResponseWithId}.
Implicit Types w : AgentW.

#[local] Hint Resolve keeps_start keeps_stop keeps_running keeps_internal_status keeps_shortlived
  keeps_resources keeps_rcon : protocol.

(** A task that carries an operation to its end. *)
Definition finishes (want : option string) (id : OperationId) (p : Phase) (t : Task AgentW ()) : Prop :=
  ∀ w, talks want id p None t (λ _, Done) (λ _ _, True) w.

Lemma talks_with_credentials want id p h ss w :
  p ≠ Done →
  talks want id p h (with_credentials ss id)
    (λ o, match o with Some _ => p | None => Done end)
    (λ o w', match o with Some _ => vm_kept h w w' | None => True end) w.
Proof. intros Hp. unfold with_credentials. talk. all: by etrans. Qed.

Lemma talks_server_start want id p g version sf prev w :
  p ≠ Done → (∀ v, want = Some v → is_Some (VersionManager.versions (aw_vm w) !! v)) →
  talks want id p (Some g) (internal_server_start_with_version (MS := MS) version sf id prev)
    (λ _, Done) (λ _ _, True) w.
Proof.
  intros Hp Hw. unfold internal_server_start_with_version.
  eapply (talks_bind _ _ _ _ _ _ (λ _, p) (λ _ w', vm_kept (Some g) w w')).
  { destruct sf; talk. apply talks_f. }
  intros x w1 H1. talk. all: try done.
  eapply talks_bind; [by apply talks_with_credentials|]. intros o w2 Hc.
  destruct o; talk. all: done.
Qed.

Lemma talks_parts want id h ps w :
  talks want id InProgress h (t_iter (λ part, reply (OSaveFile part) id) ps)
    (λ _, InProgress) (λ _ _, True) w.
Proof.
  revert w. induction ps as [|q ps IH]; intros w; cbn [t_iter]; [talk|]. talk. apply IH.
Qed.

Lemma talks_proc_status want id p w :
  talks want id p None proc_status (λ _, p) (λ _ _, True) w.
Proof.
  unfold proc_status. talk. eapply talks_weaken; [apply talks_p; auto with protocol|done].
Qed.

Lemma talks_vm_install `{!ArchiveLaws} want id p v w :
  talks want id p (Some GWrite) (vm_install v) (λ _, p) (λ r w', r = Ok () →
    aw_vm w' = VersionManager.Mk (VersionManager.install_dir (aw_vm w))
      (<[v := MkFactorio (VersionManager.get_install_path (aw_vm w) v) v]>
         (VersionManager.versions (aw_vm w)))) w.
Proof.
  apply (talks_vm_op want id p (λ vm, VersionManager.install vm v)
    (λ vm r vm', r = Ok () → vm' = VersionManager.Mk (VersionManager.install_dir vm)
      (<[v := MkFactorio (VersionManager.get_install_path vm v) v]> (VersionManager.versions vm)))).
  intros vm i. apply wp_install. intros rv i' Hok _ Hr. by destruct (Hok Hr).
Qed.

Lemma talks_vm_delete want id p v w :
  talks want id p (Some GWrite) (vm_delete v) (λ _, p) (λ r w', r = Ok () →
    aw_vm w' = VersionManager.Mk (VersionManager.install_dir (aw_vm w))
      (base.delete v (VersionManager.versions (aw_vm w)))) w.
Proof.
  apply (talks_vm_op want id p (λ vm, VersionManager.delete vm v)
    (λ vm r vm', r = Ok () → vm' = VersionManager.Mk (VersionManager.install_dir vm)
      (base.delete v (VersionManager.versions vm)))).
  intros vm i. apply wp_delete. intros rv i' Hok _ _ Hr. by destruct (Hok Hr).
Qed.

(** The code's [unwrap] does not panic: the lock is held since the install. *)
Lemma talks_restart id v prev w :
  is_Some (VersionManager.versions (aw_vm w) !! v) →
  talks (Some v) id InProgress (Some GWrite) (restart_after_install (MS := MS) v prev id)
    (λ _, Done) (λ _ _, True) w.
Proof.
  intros Hv. assert (∀ v', Some v = Some v' → is_Some (VersionManager.versions (aw_vm w) !! v')) as Hv'.
  { by intros v' [= <-]. }
  unfold restart_after_install. destruct prev as [s|]; [|talk].
  assert (is_Some (Some GWrite)) as Hg by done.
  eapply talks_bind; [apply (talks_respond _ _ _ _ InProgress); [done|done|be_true]|cbn beta].
  intros _ w1 H1. eapply talks_bind; [apply talks_vm|cbn beta]. intros vm w2 [-> H2].
  rw (H1 Hg). destruct Hv as [f Hf]. rw Hf. apply talks_server_start; [done|]. by rw (H2 Hg) (H1 Hg).
Qed.

(** The progress message about a stopped server. *)
Lemma talks_if_stopped want id h (o : option StoppedInstance) m w :
  talks want id InProgress h (if is_some o then reply (OMessage m) id else t_ret ())
    (λ _, InProgress) (λ _ w', vm_kept h w w') w.
Proof.
  destruct o; cbn [is_some]; [|by apply talks_ret].
  apply (talks_respond _ _ _ _ InProgress); [done|done|be_true].
Qed.

Lemma finishes_version_install `{!ArchiveLaws} id v force :
  finishes (Some v) id Fresh (version_install (MS := MS) v force id).
Proof.
  assert (is_Some (Some GWrite)) as Hg by done.
  intros w. unfold version_install. talk.
  - (* nothing to do *)
    intros _ v' [= <-]. cbn in *.
    match goal with Hb : bool_decide (_ = _) && _ = true |- _ =>
      apply andb_prop in Hb as [->%bool_decide_eq_true _] end. eauto.
  - (* reinstall *)
    eapply talks_bind; [apply talks_if_stopped|cbn beta]. intros _ w1 _. talk.
    eapply talks_bind; [apply talks_vm_install|cbn beta]. intros r w2 Hvm.
    destruct r as [[]|e]; [|talk].
    eapply talks_bind; [apply (talks_respond _ _ _ _ InProgress); [done|done|be_true]|cbn beta]. intros _ w3 Hw3.
    apply talks_restart. rw (Hw3 Hg) (Hvm eq_refl). cbn. rw lookup_insert_eq. eauto.
  - (* upgrade *)
    eapply talks_bind; [apply talks_vm_install|cbn beta]. intros r w2 Hvm.
    destruct r as [[]|e]; [|talk].
    eapply talks_bind; [apply (talks_respond _ _ _ _ InProgress); [done|done|be_true]|cbn beta]. intros _ w3 Hw3.
    eapply talks_bind; [apply talks_p; intros ? ?; auto with protocol|cbn beta]. intros o w4 Hw4.
    eapply talks_bind; [apply talks_if_stopped|cbn beta]. intros _ w5 Hw5.
    eapply talks_bind; [apply talks_vm_delete|cbn beta]. intros r w6 Hdel.
    destruct r as [[]|e]; [|talk].
    eapply talks_bind; [apply (talks_respond _ _ _ _ InProgress); [done|done|be_true]|cbn beta]. intros _ w7 Hw7.
    apply talks_restart. rw (Hw7 Hg) (Hdel eq_refl) (Hw5 Hg) (Hw4 Hg) (Hw3 Hg) (Hvm eq_refl). cbn.
    rw lookup_delete_ne; [rw lookup_insert_eq; eauto|].
    match goal with H : bool_decide (_ = _) = false |- _ => by apply bool_decide_eq_false in H end.
  - (* first install *)
    eapply talks_bind; [apply talks_vm_install|cbn beta]. intros r w2 Hvm.
    destruct r as [[]|e]; talk. intros _ v' [= <-]. rw (Hvm eq_refl). cbn. rw lookup_insert_eq. eauto.
Qed.

Ltac finish_handler f := let w := fresh "w" in intros w; unfold f; talk; try done.

Lemma finishes_server_start id sf : finishes None id Fresh (server_start (MS := MS) sf id).
Proof. finish_handler @server_start. by apply talks_server_start. Qed.

Lemma finishes_save_get id n : finishes None id Fresh (save_get n id).
Proof.
  finish_handler @save_get. eapply talks_bind; [apply talks_parts|cbn beta]. intros. talk.
Qed.

Lemma finishes_server_status id : finishes None id Fresh (server_status id).
Proof.
  finish_handler @server_status. eapply talks_bind; [apply talks_proc_status|cbn beta]. intros. talk.
Qed.

(** Every request is carried to its end. *)
Lemma finishes_request `{!ArchiveLaws} id r : finishes (asked r) id Fresh (handle_request (MS := MS) id r).
Proof.
  destruct r; cbn [handle_request asked].
  - finish_handler @build_version.
  - finish_handler @system_resources.
  - apply finishes_version_install.
  - finish_handler @version_get. by eexists _, _.
  - apply finishes_server_start.
  - finish_handler @server_stop.
  - apply finishes_server_status.
  - finish_handler @save_create.
  - finish_handler @save_delete.
  - apply finishes_save_get.
  - finish_handler @save_list.
  - finish_handler @save_set.
  - finish_handler @mod_dlcs_get.
  - finish_handler @mod_dlcs_set.
  - finish_handler @mod_list_get.
  - finish_handler @mod_list_extract_from_save.
  - finish_handler @mod_list_set.
  - finish_handler @mod_settings_get.
  - finish_handler @mod_settings_set.
  - finish_handler @config_admin_list_get.
  - finish_handler @config_admin_list_set.
  - finish_handler @config_ban_list_get.
  - finish_handler @config_ban_list_set.
  - finish_handler @config_rcon_get.
  - finish_handler @config_rcon_set.
  - finish_handler @config_secrets_get.
  - finish_handler @config_secrets_set.
  - finish_handler @config_server_settings_get.
  - finish_handler @config_server_settings_set.
  - finish_handler @config_white_list_get.
  - finish_handler @config_white_list_set.
  - finish_handler @rcon_command.
Qed.

(** What a request is answered with when nothing else happens. *)
Lemma request_alone `{!ArchiveLaws} id r w :
  pm_inv (aw_proc w) →
  wp (alone (handle_request (MS := MS) id r)) (λ _ w', pm_inv (aw_proc w') ∧ said id Fresh w w' Done) w.
Proof.
  intros Hinv. eapply wp_wand.
  - eapply (safe_alone proc_ok vm_kept (says (asked r) id) (said id)); [apply said_refl|apply said_trans|by intros ????? (_ & _ & ?)|
      by apply (finishes_request id r w)|done].
  - cbn. intros _ w' (Hi & p & h & Hs & -> & _). by split.
Qed.

(** C4: Every request is answered: what the receiver decodes is at most one
    acknowledgement, then progress, then exactly one final status, completed
    or failed, and nothing after it, all with the operation id of the
    request; for every request, every state and every pattern of failures. *)
Theorem request_protocol `{!ArchiveLaws} json rq w :
  dec json = Ok rq → pm_inv (aw_proc w) →
  wp (alone (handle_message (MS := MS) (MText json)))
     (λ _ w', ∃ ack prog fin,
        responses (ws_tx w') = responses (ws_tx w) ++ ack ++ prog ++ [fin] ∧
        (length ack <= 1)%nat ∧ Forall (λ r, rs_status r = Ack) ack ∧
        Forall (λ r, rs_status r = Ongoing) prog ∧
        (rs_status fin = Completed ∨ rs_status fin = Failed) ∧
        Forall (λ r, rs_operation_id r = rq_operation_id rq) (ack ++ prog ++ [fin])) w.
Proof.
  intros Hrq Hinv. unfold handle_message. rw Hrq. eapply wp_wand.
  { by apply (request_alone (rq_operation_id rq) (rq_message rq) w). }
  cbn. intros _ w' (_ & rs & -> & Hc & _). apply conversation_shape in Hc
    as (ack & prog & fin & Hrs & ? & ? & ? & ? & Hid). exists ack, prog, fin.
  rw responses_app Hrs in Hid |- *. done.
Qed.

End handlers.
