(* ===== verification/System.v ===== *)
(** * System: the agent as a whole

    src/src/agent/main.rs: the listener, the connections and their tasks.
    Every message is handled in a task of its own; the steps of all the tasks,
    the lines Factorio prints, the refresh task, the end of the process, the
    messages that are broadcast and the shutdown are the steps of a transition
    system, taken in any order. *)

From S2P Require Import Prelude Tasks Text Regex Schema Io Errors Settings Downloader Mods Saves Versions.
From S2P Require Import Builder Proc Agent Protocol.

Open Scope st_scope.

(** A connection: what was handed to its WebSocket, the messages it received,
    those whose tasks have ended, and whether its loop runs. *)
Record Conn := MkConn {
  c_tx : list string;
  c_received : list Message;
  c_done : list Message;
  c_open : bool;
}.

(** The task that handles a message of a connection: what it holds of the lock
    of the version manager, and what it has yet to do. *)
Record Spawned := MkSpawned {
  t_conn : nat;
  t_msg : Message;
  t_held : option Guard;
  t_prog : Task AgentW ();
}.

(** What the connections share, the connections, and the tasks. *)
Record System := MkSystem {
  shared : AgentW;
  conns : gmap nat Conn;
  tasks : list Spawned;
}.

Definition with_tx (tx : list string) (w : AgentW) : AgentW :=
  MkAgentW (aw_proc w) (aw_vm w) tx (global_tx w).

(** How many tasks hold the lock, and what another can still acquire. *)
Definition holding (g : Guard) (l : list Spawned) : nat := length (filter (λ τ, t_held τ = Some g) l).
Definition available (others : list Spawned) (g : Guard) : Prop :=
  holding GWrite others = 0%nat ∧ (g = GWrite → holding GRead others = 0%nat).

#[export] Instance available_dec others g : Decision (available others g).
Proof. unfold available. apply _. Defined.

Section system.
Context {E : IoEnv} {N : NetEnv} {R : RegexEngine} {T : TaskEnv} {Po : ModPortal}.
Context {Zi : ZipEnv} {L : LaunchEnv} {U : UuidEnv} {Ar : Archive} {P : ProcEnv} {D : DebugError}.
Context {MS : Type} {SF : SettingsFile MS} {AE : AgentEnv} {AL : AgentLaws}.
Context {CL : Codec (list string)} {CLS : Codec LaunchSettings.t} {CSe : Codec Secrets.t}.
Context {CSS : Codec ServerSettingsConfig} {CML : Codec ModList}.
Context {CRq : Codec AgentRequestWithId} {CRs : Codec AgentResponseWithId}.
Context {CSt : Codec AgentStreamingMessage}.

(** A routine that sends on the connection [c], and one that sends nothing. *)
Definition run_on (c : nat) (conn : Conn) (m : ST AgentW ()) (s : System) : System :=
  let w := (m (with_tx (c_tx conn) (shared s))).2 in
  MkSystem (with_tx [] w) (<[c := MkConn (ws_tx w) (c_received conn) (c_done conn) (c_open conn)]> (conns s))
    (tasks s).
Definition run_shared (m : ST AgentW ()) (s : System) : System :=
  MkSystem (with_tx [] (m (with_tx [] (shared s))).2) (conns s) (tasks s).
Definition on_proc (f : ProcW → ProcW) (s : System) : System :=
  MkSystem (set_proc (f (aw_proc (shared s))) (shared s)) (conns s) (tasks s).

Definition spawn_task (c : nat) (m : Message) : Spawned := MkSpawned c m None (handle_message (MS := MS) m).

(** A step of one of the tasks: it sends on the connection it is of; a task
    that has nothing left to do is done. *)
Inductive handler_step : System → System → Prop :=
| hs_step pre τ post conn h' t' w' s :
    tasks s = pre ++ τ :: post → conns s !! t_conn τ = Some conn →
    task_step (available (pre ++ post)) (t_held τ) (t_prog τ) (with_tx (c_tx conn) (shared s)) h' t' w' →
    handler_step s (MkSystem (with_tx [] w')
      (<[t_conn τ := MkConn (ws_tx w') (c_received conn) (c_done conn) (c_open conn)]> (conns s))
      (pre ++ MkSpawned (t_conn τ) (t_msg τ) h' t' :: post))
| hs_done pre τ post conn s :
    tasks s = pre ++ τ :: post → conns s !! t_conn τ = Some conn → t_prog τ = TRet () →
    handler_step s (MkSystem (shared s)
      (<[t_conn τ := MkConn (c_tx conn) (c_received conn) (c_done conn ++ [t_msg τ]) (c_open conn)]> (conns s))
      (pre ++ post)).

Inductive sys_step : System → System → Prop :=
(** [WebSocketListener::run] accepts a connection *)
| sys_accept c s :
    conns s !! c = None →
    sys_step s (MkSystem (shared s) (<[c := MkConn [] [] [] true]> (conns s)) (tasks s))
(** an item of the stream of a connection: a task is spawned, or the loop is left *)
| sys_receive c conn r msgs s :
    conns s !! c = Some conn → c_open conn = true → on_incoming r = Some msgs →
    sys_step s (MkSystem (shared s)
      (<[c := MkConn (c_tx conn) (c_received conn ++ msgs) (c_done conn) true]> (conns s))
      (tasks s ++ (spawn_task c <$> msgs)))
| sys_leave c conn s :
    conns s !! c = Some conn →
    sys_step s (MkSystem (shared s)
      (<[c := MkConn (c_tx conn) (c_received conn) (c_done conn) false]> (conns s)) (tasks s))
(** one of the spawned tasks runs *)
| sys_handle s s' : handler_step s s' → sys_step s s'
(** a broadcast message reaches a connection *)
| sys_stream c conn m s :
    conns s !! c = Some conn → m ∈ global_tx (shared s) →
    sys_step s (run_on c conn (forward_streaming m) s)
(** Factorio prints a line, answers the refresh task, or ends *)
| sys_line n line s : sys_step s (run_shared (server_line n line) s)
| sys_refresh resp i rc s :
    running_instance (aw_proc (shared s)) = Some i → pid i ∈ refresh_tasks (aw_proc (shared s)) →
    rcon (output i) = Some rc →
    sys_step s (on_proc (with_output (on_refresh resp)) s)
| sys_exit p s : sys_step s (on_proc (λ w, set_live (live w ∖ {[p]}) w) s)
(** SIGINT *)
| sys_shutdown s : sys_step s (run_shared shutdown s).

Lemma handlers_run s s' : rtc handler_step s s' → rtc sys_step s s'.
Proof. induction 1 as [|s1 s2 s3 H _ IH]; [done|]. eapply rtc_l; [by apply sys_handle|exact IH]. Qed.

(** What [message_loop] spawns tasks for is what a connection takes in. *)
Lemma message_loop_receives items c conn s :
  conns s !! c = Some conn → c_open conn = true →
  rtc sys_step s (MkSystem (shared s)
    (<[c := MkConn (c_tx conn) (c_received conn ++ message_loop items) (c_done conn) false]> (conns s))
    (tasks s ++ (spawn_task c <$> message_loop items))).
Proof.
  revert conn s. induction items as [|r items IH]; intros conn s Hc Ho; cbn [message_loop].
  { cbn [fmap list_fmap]. rw !app_nil_r. by apply rtc_once, sys_leave. }
  destruct (on_incoming r) as [msgs|] eqn:Hr.
  2: { cbn [fmap list_fmap]. rw !app_nil_r. by apply rtc_once, sys_leave. }
  eapply rtc_l; [by eapply (sys_receive c conn)|].
  pose proof (IH (MkConn (c_tx conn) (c_received conn ++ msgs) (c_done conn) true)
    (MkSystem (shared s) (<[c := MkConn (c_tx conn) (c_received conn ++ msgs) (c_done conn) true]> (conns s))
       (tasks s ++ (spawn_task c <$> msgs)))) as H.
  cbn [conns shared tasks c_tx c_received c_done] in H. rw insert_insert_eq in H.
  rw fmap_app !app_assoc. apply H; [by rw lookup_insert_eq|done].
Qed.

(** *** Schedules

    The tasks taken in a given order: the [i]th one makes a step, which gets
    the lock if it can. *)
Definition step_task (i : nat) (s : System) : option System :=
  τ ← tasks s !! i;
  conn ← conns s !! t_conn τ;
  let pre := take i (tasks s) in
  let post := drop (S i) (tasks s) in
  let w := with_tx (c_tx conn) (shared s) in
  let moved h t w := MkSystem (with_tx [] w)
    (<[t_conn τ := MkConn (ws_tx w) (c_received conn) (c_done conn) (c_open conn)]> (conns s))
    (pre ++ MkSpawned (t_conn τ) (t_msg τ) h t :: post) in
  match t_prog τ with
  | TRet _ => Some (MkSystem (shared s)
      (<[t_conn τ := MkConn (c_tx conn) (c_received conn) (c_done conn ++ [t_msg τ]) (c_open conn)]> (conns s))
      (pre ++ post))
  | TDo m k => Some (moved (t_held τ) (k (m w).1) (m w).2)
  | TLock g timed k =>
      if decide (t_held τ = None ∧ available (pre ++ post) g) then Some (moved (Some g) (k true) w)
      else if timed then Some (moved (t_held τ) (k false) w) else None
  | TUnlock t => Some (moved None t w)
  end.
Fixpoint schedule (l : list nat) (s : System) : option System :=
  match l with
  | [] => Some s
  | i :: l' => step_task i s ≫= schedule l'
  end.

Lemma step_task_sound i s s' : step_task i s = Some s' → handler_step s s'.
Proof.
  unfold step_task. destruct (tasks s !! i) as [τ|] eqn:Hτ; cbn [mbind option_bind]; [|done].
  destruct (conns s !! t_conn τ) as [conn|] eqn:Hc; cbn [mbind option_bind]; [|done].
  apply take_drop_middle in Hτ. symmetry in Hτ.
  set (pre := take i (tasks s)) in *. set (post := drop (S i) (tasks s)) in *.
  destruct (t_prog τ) as [[]|C m k|g timed k|t] eqn:Hp.
  - intros [= <-]. by eapply hs_done.
  - intros [= <-]. eapply (hs_step pre τ post conn); [done..|]. rw Hp. constructor.
  - case_decide as Ha; [intros [= <-]|destruct timed; [intros [= <-]|done]];
      (eapply (hs_step pre τ post conn); [done..|]); rw Hp; [|constructor].
    destruct Ha as [-> Ha]. by constructor.
  - intros [= <-]. eapply (hs_step pre τ post conn); [done..|]. rw Hp. constructor.
Qed.

Lemma schedule_sound l s s' : schedule l s = Some s' → rtc handler_step s s'.
Proof.
  revert s. induction l as [|i l IH]; intros s; cbn; [by intros [= <-]|].
  destruct (step_task i s) as [s1|] eqn:Hs; cbn; [|done]. intros H.
  eapply rtc_l; [by eapply step_task_sound|]. by apply IH.
Qed.

(** The program has started and no one is connected. *)
Definition initial (w : AgentW) : System := MkSystem (with_tx [] w) ∅ [].

(** ** What holds in every reachable state *)

(** What may be sent: a response whose records are without the credentials, or a
    broadcast message. *)
Definition allowed (text : string) : Prop :=
  (∃ r : AgentResponseWithId, dec text = Ok r ∧ credentials_stripped (rs_content r)) ∨
  (∃ m : AgentStreamingMessage, enc m = Ok text).

Context {CRsL : CodecLaws AgentResponseWithId} {CRsT : CodecTotal AgentResponseWithId}.

(** A broadcast message is not read as a response: it has no operation id. *)
Context (stream_no_response :
  ∀ (m : AgentStreamingMessage) text (r : AgentResponseWithId), enc m = Ok text → dec text ≠ Ok r).

(** The operation id of a message that is a request. *)
Definition request_id (m : Message) : option OperationId :=
  match m with
  | MText json => match dec json with
                  | Ok rq => Some (rq_operation_id rq : OperationId)
                  | Err _ => None
                  end
  | _ => None
  end.

(** The version that a message asks to install. *)
Definition asks (m : Message) : option string :=
  match m with
  | MText json => match dec json with
                  | Ok rq => asked (rq_message (rq : AgentRequestWithId))
                  | Err _ => None
                  end
  | _ => None
  end.

(** What a connection was sent under an operation id, as it is decoded. *)
Definition under (id : OperationId) (conn : Conn) : list AgentResponseWithId :=
  filter (λ r, rs_operation_id r = id) (responses (c_tx conn)).

(** No two requests of the connection have the same operation id. *)
Definition distinct (conn : Conn) : Prop := NoDup (omap request_id (c_received conn)).

Definition ended (p : Phase) (h : option Guard) (_ : ()) (_ : AgentW) : Prop := p = Done ∧ h = None.

(** A task that is on its way: safe from here on whatever the others do, and
    what its connection was sent under its id is the conversation so far. *)
Definition on_its_way (w : AgentW) (conn : Conn) (τ : Spawned) (id : OperationId) (p : Phase) : Prop :=
  stays_safe proc_ok vm_kept (says (asks (t_msg τ)) id) p (t_held τ) (t_prog τ) ended w ∧
  (distinct conn → conversation Fresh id (under id conn) = Some p).

Definition task_ok (w : AgentW) (cs : gmap nat Conn) (τ : Spawned) : Prop :=
  ∃ conn, cs !! t_conn τ = Some conn ∧
    match request_id (t_msg τ) with
    | Some id => ∃ p, on_its_way w conn τ id p
    | None => t_prog τ = TRet () ∧ t_held τ = None
    end.

Definition tasks_of (c : nat) (l : list Spawned) : list Spawned := filter (λ τ, t_conn τ = c) l.

Definition conn_ok (l : list Spawned) (c : nat) (conn : Conn) : Prop :=
  Forall allowed (c_tx conn) ∧ c_received conn ≡ₚ c_done conn ++ (t_msg <$> tasks_of c l) ∧
  (distinct conn → ∀ id,
     (id ∈ omap request_id (c_done conn) → conversation Fresh id (under id conn) = Some Done) ∧
     (id ∉ omap request_id (c_received conn) → under id conn = [])).

(** The lock is held by one writer or by readers. *)
Definition lock_ok (l : list Spawned) : Prop :=
  (holding GWrite l <= 1)%nat ∧ (holding GWrite l = 1 → holding GRead l = 0)%nat.

Definition sys_inv (s : System) : Prop :=
  proc_ok (shared s) ∧ lock_ok (tasks s) ∧ Forall (task_ok (shared s) (conns s)) (tasks s) ∧
  map_Forall (conn_ok (tasks s)) (conns s).

(** *** Counting holders *)

Lemma holding_app g l1 l2 : holding g (l1 ++ l2) = (holding g l1 + holding g l2)%nat.
Proof. unfold holding. by rw filter_app length_app. Qed.
Lemma holding_cons g τ l :
  holding g (τ :: l) = ((if decide (t_held τ = Some g) then 1 else 0) + holding g l)%nat.
Proof. unfold holding. rw filter_cons. by destruct (decide _). Qed.

Lemma lock_ok_spawn l (new : list Spawned) :
  Forall (λ τ, t_held τ = None) new → lock_ok l → lock_ok (l ++ new).
Proof.
  intros Hn. assert (∀ g, holding g new = 0%nat) as H0.
  { intros g. induction Hn as [|τ new Hτ _ IH]; [done|]. rw holding_cons IH decide_False //. by rw Hτ. }
  unfold lock_ok. rw !holding_app !H0 !Nat.add_0_r. done.
Qed.

Lemma lock_ok_leave pre τ post : lock_ok (pre ++ τ :: post) → lock_ok (pre ++ post).
Proof. unfold lock_ok. rw !holding_app !holding_cons. repeat case_decide; lia. Qed.

(** A task that holds the lock keeps it, acquires what is available, or drops it. *)
Lemma lock_ok_step pre τ post h' (t t' : Task AgentW ()) w w' :
  task_step (available (pre ++ post)) (t_held τ) t w h' t' w' →
  lock_ok (pre ++ τ :: post) → lock_ok (pre ++ MkSpawned (t_conn τ) (t_msg τ) h' t' :: post).
Proof.
  destruct τ as [c m h prog]. cbn [t_held t_conn t_msg]. unfold lock_ok. rw !holding_app !holding_cons.
  cbn [t_held]. destruct 1 as [h B m' k w|g timed k w [Ha1 Ha2]|h g k w|h t w]; try done.
  - rw !holding_app in Ha1 Ha2. destruct g; repeat case_decide; simplify_eq; try lia.
    specialize (Ha2 eq_refl). lia.
  - repeat case_decide; simplify_eq; lia.
Qed.

(** Who holds the lock is not disturbed by a task without the write lock. *)
Lemma others_kept pre τ post σ w w' :
  lock_ok (pre ++ τ :: post) → σ ∈ pre ++ post → (t_held τ ≠ Some GWrite → aw_vm w' = aw_vm w) →
  vm_kept (t_held σ) w w'.
Proof.
  intros Hl Hσ Hvm [g Hg]. apply Hvm. intros Hw. unfold lock_ok in Hl.
  rw !holding_app !holding_cons decide_True // in Hl.
  apply list_elem_of_split in Hσ as (l1 & l2 & Hsp).
  assert (holding g pre + holding g post = holding g (l1 ++ σ :: l2))%nat as Hc by (rw -Hsp; by rw holding_app).
  rw holding_app holding_cons decide_True // in Hc. destruct g; rw ?decide_False in Hl; try congruence; lia.
Qed.

(** *** What a change of the connections or of the state leaves *)

Lemma task_ok_kept w w' cs τ : vm_kept (t_held τ) w w' → task_ok w cs τ → task_ok w' cs τ.
Proof.
  intros Hk (conn & Hc & H). exists conn. split; [done|]. destruct (request_id (t_msg τ)) as [id|]; [|done].
  destruct H as (p & Hs & Hp). exists p. split; [|done]. intros w2 H2. apply Hs. by etrans.
Qed.

Lemma task_ok_insert w cs τ c conn conn' :
  cs !! c = Some conn →
  (t_conn τ = c → distinct conn' →
     distinct conn ∧ ∀ id, request_id (t_msg τ) = Some id → under id conn' = under id conn) →
  task_ok w cs τ → task_ok w (<[c := conn']> cs) τ.
Proof.
  intros Hc Hd (conn0 & H0 & H). destruct (decide (t_conn τ = c)) as [<-|Hne].
  - exists conn'. rw lookup_insert_eq. split; [done|]. rw Hc in H0. injection H0 as <-.
    destruct (request_id (t_msg τ)) as [id|]; [|done]. destruct H as (p & Hs & Hp). exists p.
    split; [done|]. intros Hd'. destruct (Hd eq_refl Hd') as [Hd1 Hd2]. rw (Hd2 _ eq_refl). by apply Hp.
  - exists conn0. by rw lookup_insert_ne.
Qed.

Lemma conversation_ids p id rs q :
  conversation p id rs = Some q → Forall (λ r, rs_operation_id r = id) rs.
Proof.
  revert p. induction rs as [|r rs IH]; intros p; cbn; [by constructor|].
  case_decide; [|done]. destruct (next_phase _ _); [|done]. intros H'. constructor; [done|by eapply IH].
Qed.

Lemma filter_other id id' (rs : list AgentResponseWithId) :
  id ≠ id' → Forall (λ r, rs_operation_id r = id) rs → filter (λ r, rs_operation_id r = id') rs = [].
Proof.
  intros Hid H. induction H as [|r rs Hr _ IH]; [done|]. rw filter_cons_False; [done|]. congruence.
Qed.

(** What is sent under an id is seen under that id only. *)
Lemma under_sent id id' p q rs conn received done_ open :
  conversation p id (responses rs) = Some q →
  under id' (MkConn (c_tx conn ++ rs) received done_ open) =
    under id' conn ++ (if decide (id = id') then responses rs else []).
Proof.
  intros Hc%conversation_ids. unfold under. cbn [c_tx]. rw responses_app filter_app. case_decide as Hid.
  - subst id'. by rw (filter_all _ _ Hc).
  - by rw (filter_other _ _ _ Hid Hc).
Qed.

Lemma allowed_sent rs :
  length (responses rs) = length rs → Forall (λ r, credentials_stripped (rs_content r)) (responses rs) →
  Forall allowed rs.
Proof.
  intros Hl Hn. induction rs as [|x rs IH]; [done|]. unfold responses in *. cbn in Hl, Hn.
  destruct (dec x) as [r|e] eqn:Hx; cbn in Hl, Hn.
  - apply Forall_cons in Hn as [Hr Hn]. constructor; [left; by exists r|]. apply IH; [lia|done].
  - exfalso. pose proof (length_omap_le (λ s, ok (dec (A := AgentResponseWithId) s)) rs) as Hle. lia.
Qed.

Lemma spawn_safe `{!ArchiveLaws} c m id w :
  request_id m = Some id →
  stays_safe proc_ok vm_kept (says (asks m) id) Fresh None (t_prog (spawn_task c m)) ended w.
Proof.
  intros Hid w' _. destruct m as [json| | | |]; cbn in Hid; try done. cbn [spawn_task t_prog handle_message asks].
  destruct (dec json) as [rq|e]; [|done]. injection Hid as <-.
  eapply safe_wand; [by apply (finishes_request (rq_operation_id rq) (rq_message rq) w')|].
  cbn. by intros p h [] w2 (-> & -> & _).
Qed.

Lemma spawn_idle c m : request_id m = None → t_prog (spawn_task c m) = TRet ().
Proof. destruct m as [json| | | |]; cbn; try done. by destruct (dec json). Qed.

Lemma tasks_of_app c l1 l2 : tasks_of c (l1 ++ l2) = tasks_of c l1 ++ tasks_of c l2.
Proof. apply filter_app. Qed.
Lemma tasks_of_cons c τ l :
  tasks_of c (τ :: l) = (if decide (t_conn τ = c) then [τ] else []) ++ tasks_of c l.
Proof. unfold tasks_of. rw filter_cons. by destruct (decide _). Qed.

Lemma server_line_inv n line w :
  pm_inv (aw_proc w) → pm_inv (aw_proc (server_line n line w).2).
Proof.
  intros H. apply (wp_bind _ _ (λ _ w', pm_inv (aw_proc w'))). unfold wp, st_gets. cbn.
  destruct (running_instance (aw_proc w)) as [i|] eqn:Hi; [|done]. cbn.
  eapply pm_inv_same; [by split_and!|]. apply with_output_inv; [|done]. intros j _. apply on_line_ok.
Qed.


(** *** The steps *)

Lemma msgs_perm c pre τ post :
  t_conn τ = c →
  (t_msg <$> tasks_of c (pre ++ τ :: post)) ≡ₚ t_msg τ :: (t_msg <$> tasks_of c (pre ++ post)).
Proof.
  intros Hc. rw !tasks_of_app tasks_of_cons decide_True // !fmap_app /=. solve_Permutation.
Qed.

(** Two tasks of a connection have different requests. *)
Lemma ids_differ l c conn pre τ post σ id id' :
  conn_ok l c conn → distinct conn → l = pre ++ τ :: post → σ ∈ pre ++ post →
  t_conn τ = c → t_conn σ = c → request_id (t_msg τ) = Some id → request_id (t_msg σ) = Some id' → id ≠ id'.
Proof.
  intros (_ & Hperm & _) Hd -> Hσ Hτc Hσc Hτ Hσi <-. unfold distinct in Hd.
  rw Hperm msgs_perm // omap_app in Hd. cbn in Hd. rw Hτ in Hd.
  apply NoDup_app in Hd as (_ & _ & Hd). apply NoDup_cons in Hd as [Hn _]. apply Hn.
  apply list_elem_of_omap. exists (t_msg σ). split; [|done]. apply list_elem_of_fmap_2.
  by apply list_elem_of_filter.
Qed.

(** The request of a task is not one that is done. *)
Lemma id_pending l c conn pre τ post id :
  conn_ok l c conn → distinct conn → l = pre ++ τ :: post → t_conn τ = c → request_id (t_msg τ) = Some id →
  (id ∉ omap request_id (c_done conn)) ∧ id ∈ omap request_id (c_received conn).
Proof.
  intros (_ & Hperm & _) Hd -> Hc Hid. unfold distinct in Hd. split.
  - rw Hperm msgs_perm // omap_app in Hd. cbn in Hd. rw Hid in Hd.
    apply NoDup_app in Hd as (_ & Hd & _). intros H. by apply (Hd _ H), list_elem_of_here.
  - apply list_elem_of_omap. exists (t_msg τ). split; [|done]. rw Hperm msgs_perm //.
    apply elem_of_app. right. apply list_elem_of_here.
Qed.

(** One connection and what is known of it changes. *)
Lemma conns_insert l l' (cs : gmap nat Conn) c conn :
  map_Forall (conn_ok l) cs → conn_ok l' c conn → (∀ c', c' ≠ c → tasks_of c' l' = tasks_of c' l) →
  map_Forall (conn_ok l') (<[c := conn]> cs).
Proof.
  intros Hall Hc Ho c' conn'. destruct (decide (c' = c)) as [->|Hne].
  - rw lookup_insert_eq. by intros [= <-].
  - rw lookup_insert_ne //. intros Hc'. destruct (Hall _ _ Hc') as (H1 & H2 & H3).
    split_and!; [done| |done]. by rw Ho.
Qed.

Lemma sys_inv_shared w w' cs l :
  sys_inv (MkSystem w cs l) → proc_ok w' → aw_vm w' = aw_vm w → sys_inv (MkSystem w' cs l).
Proof.
  intros (_ & Hl & Ht & Hc) Hp Hv. split_and!; [done..| |done]. cbn [tasks shared conns] in *.
  eapply Forall_impl; [exact Ht|]. intros τ Hτ. eapply task_ok_kept; [|exact Hτ]. by intros _.
Qed.

(** A connection is left, or sent what is not a response. *)
Lemma sys_inv_conn c conn tx open s :
  sys_inv s → conns s !! c = Some conn → Forall allowed tx → responses tx = responses (c_tx conn) →
  sys_inv (MkSystem (shared s) (<[c := MkConn tx (c_received conn) (c_done conn) open]> (conns s)) (tasks s)).
Proof.
  intros (Hp & Hl & Ht & Hc) Hconn Htx Hr.
  assert (∀ id, under id (MkConn tx (c_received conn) (c_done conn) open) = under id conn) as Hu.
  { intros id. unfold under. cbn [c_tx]. by rw Hr. }
  split_and!; [done..| |]; cbn [shared conns tasks].
  - eapply Forall_impl; [exact Ht|]. intros τ. apply (task_ok_insert _ _ _ c conn); [done|]. intros _ Hd. by split.
  - eapply conns_insert; [done| |done]. destruct (Hc _ _ Hconn) as (_ & H2 & H3).
    split_and!; [done..|]. intros Hd id. rw Hu. by apply H3.
Qed.

Lemma sys_inv_accept c s :
  sys_inv s → conns s !! c = None →
  sys_inv (MkSystem (shared s) (<[c := MkConn [] [] [] true]> (conns s)) (tasks s)).
Proof.
  intros (Hp & Hl & Ht & Hc) Hn. split_and!; [done..| |]; cbn [shared conns tasks].
  - eapply Forall_impl; [exact Ht|]. intros τ (conn & Hτ & H). exists conn.
    rw lookup_insert_ne; [done|]. intros Heq. by rw -Heq Hn in Hτ.
  - eapply conns_insert; [done| |done]. split_and!; [done| |by intros _ id; split; [intros ?%elem_of_nil|]].
    assert (tasks_of c (tasks s) = []) as ->; [|done].
    destruct (tasks_of c (tasks s)) as [|τ l] eqn:Hl'; [done|]. exfalso.
    assert (τ ∈ tasks_of c (tasks s)) as [Hτ Hin]%list_elem_of_filter by (rw Hl'; apply list_elem_of_here).
    rw Forall_forall in Ht. destruct (Ht _ Hin) as (conn & Hconn & _). by rw Hτ Hn in Hconn.
Qed.

Lemma sys_inv_receive `{!ArchiveLaws} c conn msgs s :
  sys_inv s → conns s !! c = Some conn →
  sys_inv (MkSystem (shared s)
    (<[c := MkConn (c_tx conn) (c_received conn ++ msgs) (c_done conn) true]> (conns s))
    (tasks s ++ (spawn_task c <$> msgs))).
Proof.
  intros (Hp & Hl & Ht & Hc) Hconn. destruct (Hc _ _ Hconn) as (H1 & H2 & H3).
  set (conn' := MkConn (c_tx conn) (c_received conn ++ msgs) (c_done conn) true).
  assert (distinct conn' → distinct conn ∧ ∀ id m, m ∈ msgs → request_id m = Some id →
    id ∉ omap request_id (c_received conn)) as Hd.
  { unfold distinct. cbn. rw omap_app. intros (Hd1 & Hd2 & _)%NoDup_app. split; [done|].
    intros id m Hm Hid Hin. apply (Hd2 _ Hin), list_elem_of_omap. eauto. }
  split_and!; [done|..]; cbn [shared conns tasks].
  - apply lock_ok_spawn; [|done]. by apply Forall_fmap, Forall_true.
  - apply Forall_app. split.
    + eapply Forall_impl; [exact Ht|]. intros τ. apply (task_ok_insert _ _ _ c conn); [done|].
      intros _ Hd'. by destruct (Hd Hd').
    + apply Forall_fmap, Forall_forall. intros m Hm. exists conn'.
      change (t_conn (spawn_task c m)) with c. change (t_msg (spawn_task c m)) with m.
      rw lookup_insert_eq. split; [done|].
      destruct (request_id m) as [id|] eqn:Hid; [|split; [by apply spawn_idle|done]].
      exists Fresh. split; [by apply spawn_safe|]. intros Hd'. destruct (Hd Hd') as [Hd1 Hd2].
      destruct (H3 Hd1 id) as [_ Hu]. unfold conn'. change (conversation Fresh id (under id conn) = Some Fresh).
      by rw (Hu (Hd2 _ _ Hm Hid)).
  - eapply conns_insert; [done| |].
    + split_and!; [done| |].
      * cbn. rw tasks_of_app fmap_app H2.
        assert (t_msg <$> tasks_of c (spawn_task c <$> msgs) = msgs) as ->.
        { clear. induction msgs as [|m msgs IH]; [done|]. cbn [fmap list_fmap].
          rw tasks_of_cons decide_True //=. by f_equal. }
        by rw app_assoc.
      * intros Hd' id. destruct (Hd Hd') as [Hd1 _]. destruct (H3 Hd1 id) as [Hu1 Hu2].
        split; [done|]. cbn. rw omap_app not_elem_of_app. intros [? _]. by apply Hu2.
    + intros c' Hne. rw tasks_of_app.
      assert (tasks_of c' (spawn_task c <$> msgs) = []) as ->; [|by rw app_nil_r].
      clear -Hne. induction msgs as [|m msgs IH]; [done|]. cbn [fmap list_fmap].
      by rw tasks_of_cons decide_False //=.
Qed.

(** What a step of a task is, seen by the rest. *)
Lemma task_step_inv conn τ id p avail h' t' w' w :
  proc_ok w → on_its_way w conn τ id p →
  task_step avail (t_held τ) (t_prog τ) (with_tx (c_tx conn) w) h' t' w' →
  ∃ rs p', proc_ok w' ∧ (t_held τ ≠ Some GWrite → aw_vm w' = aw_vm w) ∧
    ws_tx w' = c_tx conn ++ rs ∧ conversation p id (responses rs) = Some p' ∧ Forall allowed rs ∧
    Forall (λ r, true_of (asks (t_msg τ)) (rs_status r) (rs_content r) (aw_vm w')) (responses rs) ∧
    stays_safe proc_ok vm_kept (says (asks (t_msg τ)) id) p' h' t' ended w'.
Proof.
  intros Hp [Hs _] Hstep.
  destruct (safe_step proc_ok vm_kept (says (asks (t_msg τ)) id) _ _ _ _ _ _ _ _ _ Hstep Hp Hs)
    as (Hp' & p' & Hd & Hs').
  assert (says (asks (t_msg τ)) id p (t_held τ) (with_tx (c_tx conn) w) w' p')
    as (Hvm & (rs & Hws & Ht) & (rs' & Hws' & Hc & Hl & Hn)).
  { destruct Hd as [Hd|[-> ->]]; [exact Hd|]. split; [done|]. split; [apply honest_refl|apply said_refl]. }
  rw Hws in Hws'. apply app_inv_head in Hws' as <-.
  exists rs, p'. split_and!; try done. by apply allowed_sent.
Qed.

Lemma sys_inv_step pre τ post conn h' t' w' s :
  sys_inv s → tasks s = pre ++ τ :: post → conns s !! t_conn τ = Some conn →
  task_step (available (pre ++ post)) (t_held τ) (t_prog τ) (with_tx (c_tx conn) (shared s)) h' t' w' →
  sys_inv (MkSystem (with_tx [] w')
    (<[t_conn τ := MkConn (ws_tx w') (c_received conn) (c_done conn) (c_open conn)]> (conns s))
    (pre ++ MkSpawned (t_conn τ) (t_msg τ) h' t' :: post)).
Proof.
  intros (Hp & Hl & Ht & Hc) Htasks Hconn Hstep. rw Htasks in Hl Ht. pose proof (Hc _ _ Hconn) as Hok.
  assert (task_ok (shared s) (conns s) τ) as (conn0 & H0 & Hτ).
  { rw Forall_app Forall_cons in Ht. tauto. }
  rw Hconn in H0. injection H0 as <-.
  destruct (request_id (t_msg τ)) as [id|] eqn:Hid.
  2: { destruct Hτ as [Hr _]. rw Hr in Hstep. inversion Hstep. }
  destruct Hτ as (p & Hway). pose proof (proj2 Hway) as Hphase.
  destruct (task_step_inv _ _ _ _ _ _ _ _ _ Hp Hway Hstep) as (rs & p' & Hp' & Hvm & Hws & Hcv & Ha & _ & Hs').
  set (conn' := MkConn (ws_tx w') (c_received conn) (c_done conn) (c_open conn)).
  assert (∀ id', under id' conn' = under id' conn ++ if decide (id = id') then responses rs else []) as Hu.
  { intros id'. unfold conn'. rw Hws. by eapply under_sent. }
  split_and!; cbn [shared conns tasks].
  - exact Hp'.
  - by eapply lock_ok_step.
  - assert (∀ σ, σ ∈ pre ++ post →
      task_ok (with_tx [] w') (<[t_conn τ := conn']> (conns s)) σ) as Hother.
    { intros σ Hσ. apply (task_ok_insert _ _ _ _ conn); [done| |].
      - intros Hsame Hd. split; [done|]. intros id' Hid'. rw Hu decide_False ?app_nil_r //.
        eapply (ids_differ _ _ _ pre τ post σ); [exact Hok|exact Hd|done..].
      - apply (task_ok_kept (shared s)); [by apply (others_kept pre τ post)|].
        rw Forall_forall in Ht. apply Ht. set_solver. }
    apply Forall_app; split; [apply Forall_forall; intros σ Hσ; apply Hother; set_solver|].
    apply Forall_cons; split; [|apply Forall_forall; intros σ Hσ; apply Hother; set_solver].
    exists conn'. cbn [t_conn t_msg]. rw lookup_insert_eq Hid. split; [done|]. exists p'.
    split; [exact Hs'|]. intros Hd. by rw Hu decide_True // conversation_app (Hphase Hd).
  - destruct Hok as (Hal & Hperm & Hans). eapply conns_insert; [done| |].
    + split_and!.
      * cbn. rw Hws. by apply Forall_app.
      * cbn. rw Hperm Htasks !tasks_of_app !tasks_of_cons !decide_True // !fmap_app //.
      * intros Hd id'. destruct (Hans Hd id') as [Hans1 Hans2].
        destruct (id_pending (tasks s) (t_conn τ) conn pre τ post id) as [Hnd Hin]; [by split_and!|done..|].
        split; intros Hid'; rw Hu decide_False ?app_nil_r; try (by intros ->); auto.
    + intros c' Hne. rw Htasks !tasks_of_app !tasks_of_cons. cbn [t_conn]. by rw !decide_False.
Qed.

Lemma sys_inv_done pre τ post conn s :
  sys_inv s → tasks s = pre ++ τ :: post → conns s !! t_conn τ = Some conn → t_prog τ = TRet () →
  sys_inv (MkSystem (shared s)
    (<[t_conn τ := MkConn (c_tx conn) (c_received conn) (c_done conn ++ [t_msg τ]) (c_open conn)]> (conns s))
    (pre ++ post)).
Proof.
  intros (Hp & Hl & Ht & Hc) Htasks Hconn Hprog. rw Htasks in Hl Ht. pose proof (Hc _ _ Hconn) as Hok.
  assert (task_ok (shared s) (conns s) τ) as (conn0 & H0 & Hτ).
  { rw Forall_app Forall_cons in Ht. tauto. }
  rw Hconn in H0. injection H0 as <-.
  assert (∀ id, request_id (t_msg τ) = Some id → distinct conn →
    conversation Fresh id (under id conn) = Some Done) as Hdone.
  { intros id Hid Hd. rw Hid in Hτ. destruct Hτ as (p & Hs & Hph). rw (Hph Hd). f_equal.
    specialize (Hs _ (reflexivity _)). rw Hprog in Hs. by destruct Hs. }
  split_and!; cbn [shared conns tasks]; [done|by eapply lock_ok_leave| |].
  - apply Forall_forall. intros σ Hσ. apply (task_ok_insert _ _ _ _ conn); [done|by intros _ Hd|].
    rw Forall_forall in Ht. apply Ht. set_solver.
  - destruct Hok as (Hal & Hperm & Hans). eapply conns_insert; [done| |].
    + split_and!; [done| |].
      * cbn. rw Hperm Htasks msgs_perm //. solve_Permutation.
      * intros Hd id. destruct (Hans Hd id) as [Hans1 Hans2]. split; [|exact Hans2].
        cbn. rw omap_snoc elem_of_app. intros [Hid|Hid]; [by apply Hans1|].
        destruct (request_id (t_msg τ)) as [id'|]; [|by apply elem_of_nil in Hid].
        apply list_elem_of_singleton in Hid as ->. by apply Hdone.
    + intros c' Hne. rw Htasks !tasks_of_app !tasks_of_cons. by rw !decide_False.
Qed.

Lemma handler_step_inv s s' : handler_step s s' → sys_inv s → sys_inv s'.
Proof. intros [] Hinv; [by eapply sys_inv_step|by eapply sys_inv_done]. Qed.

(** The text of a broadcast message. *)
Definition streamed (m : AgentStreamingMessage) : list string := match enc m with Ok json => [json] | Err _ => [] end.
Lemma run_on_stream c conn m s :
  run_on c conn (forward_streaming m) s = MkSystem (with_tx [] (shared s))
    (<[c := MkConn (c_tx conn ++ streamed m) (c_received conn) (c_done conn) (c_open conn)]> (conns s)) (tasks s).
Proof. unfold run_on, forward_streaming, streamed. destruct (enc m); cbn; by rw ?app_nil_r. Qed.

Lemma sys_step_inv `{!ArchiveLaws} s s' : sys_step s s' → sys_inv s → sys_inv s'.
Proof.
  intros Hstep Hinv. destruct Hstep as
    [c s Hn|c conn r msgs s Hn Ho Hr|c conn s Hn|s s' Hh|c conn m s Hn Hm|n line s|resp i rc s Hi Ht Hrc|p s|s].
  - by apply sys_inv_accept.
  - by apply sys_inv_receive.
  - apply sys_inv_conn; [done..| |done]. apply Hinv in Hn. apply Hn.
  - by eapply handler_step_inv.
  - assert (Forall allowed (c_tx conn)) as Ha by apply (proj2 (proj2 (proj2 Hinv)) _ _ Hn).
    rw run_on_stream. apply (sys_inv_shared (shared s)); [|apply Hinv|done].
    apply sys_inv_conn; [done..| |]; unfold streamed; destruct (enc m) as [json|e] eqn:He; rw ?app_nil_r //.
    + apply Forall_app; split; [done|]. constructor; [right; by exists m|done].
    + rw responses_app. assert (responses [json] = []) as ->; [|by rw app_nil_r].
      unfold responses. cbn. destruct (dec json) as [r|] eqn:Hd; [|done].
      by destruct (stream_no_response m json r).
  - destruct s as [w0 cs l]. eapply sys_inv_shared; [done|by apply server_line_inv, (proj1 Hinv)|]. unfold server_line. cbn.
    unfold st_bind, st_gets. cbn. by destruct (running_instance (aw_proc w0)).
  - destruct s as [w0 cs l]. eapply sys_inv_shared; [done| |done]. apply (pm_step_inv (aw_proc w0)); [|apply Hinv].
    by eapply step_refresh.
  - destruct s as [w0 cs l]. eapply sys_inv_shared; [done| |done].
    by apply (pm_step_inv (aw_proc w0)); [apply step_exit|apply Hinv].
  - destruct s as [w0 cs l]. eapply sys_inv_shared; [done| |done].
    by apply (pm_step_inv (aw_proc w0)); [apply step_stop|apply Hinv].
Qed.

Lemma reachable_inv `{!ArchiveLaws} i w s :
  startup i = Ok w → rtc sys_step (initial w) s → sys_inv s.
Proof.
  intros Hw Hrun. revert Hrun. apply rtc_ind_r.
  - unfold startup in Hw. destruct (VersionManager.new FACTORIO_INSTALL_DIR i).1; simplify_eq.
    split; [by apply idle_inv|]. split; [by unfold lock_ok, holding; cbn; lia|].
    split; [constructor|apply map_Forall_empty].
  - intros s1 s2 _ Hstep Hinv. by eapply sys_step_inv.
Qed.

(** *** The tasks go on, and end *)

Lemma task_step_mono {A} (av1 av2 : Guard → Prop) h (t : Task AgentW A) w h' t' w' :
  (∀ g, av1 g → av2 g) → task_step av1 h t w h' t' w' → task_step av2 h t w h' t' w'.
Proof. intros Hav []; constructor; auto. Qed.

Lemma Forall_or {A} (P1 P2 : A → Prop) l :
  Forall (λ x, P1 x ∨ P2 x) l → Exists P1 l ∨ Forall P2 l.
Proof.
  induction 1 as [|x l [Hx|Hx] _ [IH|IH]]; try (by left; constructor); try (by left; right).
  - by right.
  - right. by constructor.
Qed.

(** A task that waits for the lock and holds nothing. *)
Definition waits (τ : Spawned) : Prop := t_held τ = None ∧ ∃ g k, t_prog τ = TLock g false k.

(** A task that can go on whatever the others hold. *)
Definition can_go (s : System) (τ : Spawned) : Prop :=
  ∃ conn, conns s !! t_conn τ = Some conn ∧
    (t_prog τ = TRet () ∨
     ∃ h' t' w', task_step (λ _, False) (t_held τ) (t_prog τ) (with_tx (c_tx conn) (shared s)) h' t' w').

Lemma goes_or_waits s τ : sys_inv s → τ ∈ tasks s → can_go s τ ∨ waits τ.
Proof.
  intros (Hp & _ & Ht & _) Hτ. rw Forall_forall in Ht. destruct (Ht _ Hτ) as (conn & Hconn & H).
  destruct (request_id (t_msg τ)) as [id|]; [|left; exists conn; tauto].
  destruct H as (p & Hs & _).
  destruct (safe_progress proc_ok vm_kept (says (asks (t_msg τ)) id) (λ _, False) p (t_held τ) (t_prog τ)
    (with_tx (c_tx conn) (shared s)) ended) as [[[] Hr]|[H|H]]; [by apply Hs|done|..].
  - left. exists conn. tauto.
  - left. exists conn. tauto.
  - by right.
Qed.

Lemma handler_progress s : sys_inv s → tasks s = [] ∨ ∃ s', handler_step s s'.
Proof.
  intros Hinv. assert (Forall (λ τ, can_go s τ ∨ waits τ) (tasks s)) as Hall.
  { apply Forall_forall. intros τ. by apply goes_or_waits. }
  apply Forall_or in Hall as [(τ & Hτ & conn & Hconn & Hgo)%Exists_exists|Hw].
  - right. apply list_elem_of_split in Hτ as (pre & post & Hl). destruct Hgo as [Hr|(h' & t' & w' & Hstep)].
    + eexists. by eapply hs_done.
    + eexists. eapply hs_step; [done..|]. eapply task_step_mono; [|exact Hstep]. done.
  - destruct (tasks s) as [|τ post] eqn:Hl; [by left|]. right.
    apply Forall_cons in Hw as [(Hh & g & k & Hk) Hpost].
    destruct Hinv as (_ & _ & Ht & _). rw Hl in Ht. apply Forall_cons in Ht as [(conn & Hconn & _) _].
    assert (∀ g', holding g' post = 0%nat) as H0.
    { intros g'. clear -Hpost. induction Hpost as [|σ post' [Hσ _] _ IH]; [done|].
      rw holding_cons IH decide_False //. by rw Hσ. }
    eexists. eapply (hs_step [] τ post); [done..|]. rw Hh Hk. apply step_lock. by split.
Qed.

(** Every step uses up a part of a task. *)
Lemma handler_wf : well_founded (λ s2 s1, handler_step s1 s2).
Proof.
  apply (wf_projected (shrinks (λ τ' τ, part (t_prog τ') (t_prog τ))) tasks).
  - intros s2 s1 [pre τ post conn h' t' w' s Hl Hc Hstep|pre τ post conn s Hl Hc Hr]; rw Hl; cbn [tasks].
    + constructor. cbn. by eapply step_part.
    + constructor.
  - apply shrinks_wf. apply (wf_projected part t_prog); [done|apply part_wf].
Qed.

Lemma handlers_inv s s' : rtc handler_step s s' → sys_inv s → sys_inv s'.
Proof. induction 1 as [|s1 s2 s3 H _ IH]; [done|]. intros Hi. by eapply IH, handler_step_inv. Qed.

(** The tasks can always be run to their end. *)
Lemma comes_to_rest s : sys_inv s → ∃ s', rtc handler_step s s' ∧ tasks s' = [].
Proof.
  induction (handler_wf s) as [s _ IH]. intros Hinv.
  destruct (handler_progress s Hinv) as [Hn|[s1 Hs1]]; [by exists s|].
  destruct (IH s1 Hs1 (handler_step_inv _ _ Hs1 Hinv)) as (s' & Hrun & Hn). exists s'.
  split; [by eapply rtc_l|done].
Qed.

(** *** A task that is not interrupted *)

Lemma with_tx_self w : with_tx (ws_tx w) (with_tx [] w) = w.
Proof. by destruct w. Qed.

(** The system in which one task has come to [(h, t, w)]. *)
Definition at_config (s : System) pre (τ : Spawned) post conn (k : config (W := AgentW) ()) : System :=
  MkSystem (with_tx [] k.2)
    (<[t_conn τ := MkConn (ws_tx k.2) (c_received conn) (c_done conn) (c_open conn)]> (conns s))
    (pre ++ MkSpawned (t_conn τ) (t_msg τ) k.1.1 k.1.2 :: post).

Lemma own_steps s pre τ post conn k k' :
  rtc (own_step (available (pre ++ post))) k k' →
  rtc handler_step (at_config s pre τ post conn k) (at_config s pre τ post conn k').
Proof.
  induction 1 as [|[[h1 t1] w1] [[h2 t2] w2] k3 Hstep _ IH]; [done|]. eapply rtc_l; [|exact IH].
  unfold own_step in Hstep. cbn [fst snd] in Hstep.
  pose proof (hs_step pre (MkSpawned (t_conn τ) (t_msg τ) h1 t1) post
    (MkConn (ws_tx w1) (c_received conn) (c_done conn) (c_open conn)) h2 t2 w2
    (at_config s pre τ post conn (h1, t1, w1))) as H.
  cbn [at_config t_conn t_msg t_held t_prog c_tx c_received c_done c_open shared conns tasks fst snd] in H.
  rw with_tx_self lookup_insert_eq insert_insert_eq in H. by apply H.
Qed.

(** The conversations of a connection whose requests have distinct ids. *)
Lemma inv_conversations s c conn :
  sys_inv s → conns s !! c = Some conn → distinct conn →
  ∀ id,
    (id ∈ omap request_id (c_done conn) → conversation Fresh id (under id conn) = Some Done) ∧
    (id ∈ omap request_id (c_received conn) → is_Some (conversation Fresh id (under id conn))) ∧
    (id ∉ omap request_id (c_received conn) → under id conn = []).
Proof.
  intros (_ & _ & Ht & Hall) Hc Hd id.
  destruct (Hall _ _ Hc) as (_ & Hperm & Hans). destruct (Hans Hd id) as [H1 H2].
  split_and!; [done| |done]. rw Hperm omap_app elem_of_app. intros [Hin|Hin]; [by rw (H1 Hin)|].
  apply list_elem_of_omap in Hin as (m & Hm & Hid).
  apply list_elem_of_fmap in Hm as (τ & -> & [<- Hτ]%list_elem_of_filter).
  rw Forall_forall in Ht. destruct (Ht _ Hτ) as (conn' & Hc' & Hway). rw Hc in Hc'.
  injection Hc' as <-. rw Hid in Hway. destruct Hway as (p & _ & Hp). by rw (Hp Hd).
Qed.

(** ** What the agent promises *)

(** C1: Every message is handled in a task of its own, and the steps of all the
    tasks come in any order, between the output, the refresh task, the end of
    the process and the shutdown, whatever fails.  Of a connection whose
    requests have distinct operation ids: what it was sent under the id of a
    request that is done is exactly one conversation (at most one
    acknowledgement, progress, one final status and nothing after it); under
    the id of a request that is being handled, the beginning of one; and under
    any other id nothing. *)
Theorem system_protocol `{!ArchiveLaws} i w s c conn :
  startup i = Ok w → rtc sys_step (initial w) s → conns s !! c = Some conn → distinct conn →
  ∀ id,
    (id ∈ omap request_id (c_done conn) → conversation Fresh id (under id conn) = Some Done) ∧
    (id ∈ omap request_id (c_received conn) → is_Some (conversation Fresh id (under id conn))) ∧
    (id ∉ omap request_id (c_received conn) → under id conn = []).
Proof.
  intros Hw Hrun. exact (inv_conversations s c conn (reachable_inv _ _ _ Hw Hrun)).
Qed.

(** C13: In every reachable state of the agent every Factorio process that is
    alive is the one the manager holds, or one that was killed when stopping it
    failed; so at most one is alive besides those.  And everything any
    connection was sent is a broadcast message or decodes as a response; where
    the response is a record of the factorio.com credentials or of the server
    settings, it is without the token, and the settings without the user name
    too.  The free text of an error is not restricted. *)
Theorem system_safe `{!ArchiveLaws} i w s :
  startup i = Ok w → rtc sys_step (initial w) s →
  pm_inv (aw_proc (shared s)) ∧ (size (live (aw_proc (shared s)) ∖ killed (aw_proc (shared s))) <= 1)%nat ∧
  ∀ c conn, conns s !! c = Some conn → Forall allowed (c_tx conn).
Proof.
  intros Hw Hrun. destruct (reachable_inv _ _ _ Hw Hrun) as (Hp & _ & _ & Hall). split; [exact Hp|].
  split; [by apply inv_live|]. intros c conn Hc. by destruct (Hall _ _ Hc).
Qed.

(** C10: No request is left hanging.  From every reachable state the tasks alone
    make only finitely many steps, in whatever order they take them; as long
    as one of them is not done, one of them can make a step, so they never
    wait for each other; and when they have come to the end, every connection
    has been answered in full: each of its requests has its conversation. *)
Theorem requests_end `{!ArchiveLaws} i w s :
  startup i = Ok w → rtc sys_step (initial w) s →
  Acc (λ s2 s1, handler_step s1 s2) s ∧
  ∀ s', rtc handler_step s s' →
    (∃ s'', handler_step s' s'') ∨
    (tasks s' = [] ∧ ∀ c conn, conns s' !! c = Some conn →
       c_done conn ≡ₚ c_received conn ∧
       (distinct conn → ∀ id, id ∈ omap request_id (c_received conn) →
          conversation Fresh id (under id conn) = Some Done)).
Proof.
  intros Hw Hrun. split; [apply handler_wf|]. intros s' Hs.
  pose proof (handlers_inv _ _ Hs (reachable_inv _ _ _ Hw Hrun)) as Hinv.
  destruct (handler_progress s' Hinv) as [Hn|]; [right|by left]. split; [done|].
  destruct Hinv as (_ & _ & _ & Hall). rw Hn in Hall. intros c conn Hc.
  destruct (Hall _ _ Hc) as (_ & Hperm & Hans). cbn in Hperm. rw app_nil_r in Hperm.
  split; [by symmetry|]. intros Hd id Hid. apply (Hans Hd id). by rw -Hperm.
Qed.

(** C11: The installed versions change only in a step of a task that holds the
    lock of the version manager for writing, and then no other task holds it:
    a task that holds the lock finds the versions as it left them, whatever
    other requests are handled at the same time. *)
Theorem versions_locked `{!ArchiveLaws} i w s s' :
  startup i = Ok w → rtc sys_step (initial w) s → sys_step s s' →
  aw_vm (shared s') = aw_vm (shared s) ∨
  ∃ pre τ post, tasks s = pre ++ τ :: post ∧ t_held τ = Some GWrite ∧
    (∃ t', tasks s' = pre ++ MkSpawned (t_conn τ) (t_msg τ) (Some GWrite) t' :: post) ∧
    Forall (λ σ, t_held σ = None) (pre ++ post).
Proof.
  intros Hw Hrun Hstep. pose proof (reachable_inv _ _ _ Hw Hrun) as Hinv.
  destruct Hstep as
    [c s Hn|c conn r msgs s Hn Ho Hr|c conn s Hn|s s' Hh|c conn m s Hn Hm|n line s|resp i' rc s Hi Ht Hrc|p s|s];
    try (by left).
  2: { left. by rw run_on_stream. }
  2: { left. cbn. unfold server_line, st_bind, st_gets. cbn.
       by destruct (running_instance (aw_proc (shared s))). }
  destruct Hh as [pre τ post conn h' t' w' s Hl Hc Hs|pre τ post conn s Hl Hc Hr]; [|by left].
  destruct (decide (t_held τ = Some GWrite)) as [Hg|Hg].
  2: { left. cbn. destruct Hinv as (Hp & _ & Ht & _). rw Hl Forall_app Forall_cons in Ht.
       destruct Ht as (_ & (conn0 & H0 & Hτ) & _). rw Hc in H0. injection H0 as <-.
       destruct (request_id (t_msg τ)) as [id|]; [|destruct Hτ as [Hr _]; rw Hr in Hs; inversion Hs].
       destruct Hτ as (p & Hway).
       destruct (task_step_inv _ _ _ _ _ _ _ _ _ Hp Hway Hs) as (rs & p' & _ & Hvm & _). by apply Hvm. }
  destruct (decide (h' = Some GWrite)) as [->|Hne].
  - right. exists pre, τ, post. split_and!; [done|done|by eexists|]. destruct Hinv as (_ & Hlock & _).
    unfold lock_ok in Hlock. rw Hl !holding_app !holding_cons decide_True // in Hlock.
    apply Forall_forall. intros σ Hσ. apply list_elem_of_split in Hσ as (l1 & l2 & Hsp).
    destruct (t_held σ) as [g|] eqn:Hσ; [|done]. exfalso.
    assert (holding g pre + holding g post = holding g (l1 ++ σ :: l2))%nat as Hcount
      by (rw -Hsp; by rw holding_app).
    rw holding_app holding_cons decide_True // in Hcount.
    destruct g; rw ?decide_False in Hlock; try congruence; lia.
  - left. cbn. rw Hg in Hs. inversion Hs; subst; done.
Qed.

(** What a step sends on a connection: nothing that is a response, or what one
    of its tasks has to say. *)
Lemma sent_in_step s s' c conn conn' :
  sys_inv s → sys_step s s' → conns s !! c = Some conn → conns s' !! c = Some conn' →
  ∃ rs, c_tx conn' = c_tx conn ++ rs ∧ (responses rs = [] ∨
    ∃ τ id, τ ∈ tasks s ∧ t_conn τ = c ∧ request_id (t_msg τ) = Some id ∧
      Forall (λ r, rs_operation_id r = id ∧
        true_of (asks (t_msg τ)) (rs_status r) (rs_content r) (aw_vm (shared s'))) (responses rs)).
Proof.
  intros Hinv Hstep Hc Hc'.
  assert (c_tx conn' = c_tx conn → ∃ rs, c_tx conn' = c_tx conn ++ rs ∧ (responses rs = [] ∨
    ∃ τ id, τ ∈ tasks s ∧ t_conn τ = c ∧ request_id (t_msg τ) = Some id ∧
      Forall (λ r, rs_operation_id r = id ∧
        true_of (asks (t_msg τ)) (rs_status r) (rs_content r) (aw_vm (shared s'))) (responses rs))) as Hnil.
  { intros Heq. exists []. rw app_nil_r. by split; [|left]. }
  destruct Hstep as
    [c0 s Hn|c0 conn0 r msgs s Hn Ho Hr|c0 conn0 s Hn|s s' Hh|c0 conn0 m s Hn Hm|n line s|resp i' rc s Hi Ht Hrc|p s|s];
    try (apply Hnil; cbn in Hc'; congruence).
  1-3: apply Hnil; cbn in Hc'; apply lookup_insert_Some in Hc' as [[-> <-]|[_ Hc']]; cbn; congruence.
  - destruct Hh as [pre τ post conn0 h' t' w' s Hl Hn Hs|pre τ post conn0 s Hl Hn Hr];
      cbn [conns] in Hc'; apply lookup_insert_Some in Hc' as [[<- <-]|[_ Hc']];
      try (apply Hnil; cbn; congruence).
    rw Hc in Hn. injection Hn as <-. destruct Hinv as (Hp & _ & Ht & _). rw Hl in Ht.
    apply Forall_app in Ht as [_ [(conn0 & H0 & Hτ) _]%Forall_cons]. rw Hc in H0. injection H0 as <-.
    destruct (request_id (t_msg τ)) as [id|] eqn:Hid; [|destruct Hτ as [Hr _]; rw Hr in Hs; inversion Hs].
    destruct Hτ as (p & Hway).
    destruct (task_step_inv _ _ _ _ _ _ _ _ _ Hp Hway Hs) as (rs & p' & _ & _ & Hws & Hcv & _ & Htrue & _).
    exists rs. split; [exact Hws|]. right. exists τ, id. split_and!; [|done|done|].
    + rw Hl. apply elem_of_app. right. apply list_elem_of_here.
    + apply Forall_and. split; [by eapply conversation_ids|exact Htrue].
  - rw run_on_stream in Hc'. cbn [conns] in Hc'. apply lookup_insert_Some in Hc' as [[<- <-]|[_ Hc']];
      [|apply Hnil; congruence]. rw Hc in Hn. injection Hn as <-. exists (streamed m). split; [done|]. left.
    unfold streamed, responses. destruct (enc m) as [json|] eqn:He; [|done]. cbn.
    destruct (dec json) as [r|] eqn:Hd; [|done]. by destruct (stream_no_response m json r).
Qed.

Lemma omap_inj_NoDup {A B} (f : A → option B) l x y b :
  NoDup (omap f l) → x ∈ l → y ∈ l → f x = Some b → f y = Some b → x = y.
Proof.
  intros Hd Hx Hy Hfx Hfy. apply list_elem_of_split in Hx as (l1 & l2 & ->).
  rw omap_app in Hd. cbn in Hd. rw Hfx in Hd. apply NoDup_app in Hd as (_ & H1 & [H2 _]%NoDup_cons).
  apply elem_of_app in Hy as [Hy|Hy].
  - destruct (H1 b); [by apply list_elem_of_omap; eauto|apply list_elem_of_here].
  - apply elem_of_cons in Hy as [->|Hy]; [done|]. destruct H2. apply list_elem_of_omap. eauto.
Qed.

(** C12: What the agent reports of the installed versions is true in the state
    in which it is sent, whatever other requests are handled at the same time:
    when it reports that nothing is installed, nothing is; a version that it
    reports is installed; and when a request to install a version is reported
    as done, that version is installed. *)
Theorem reports_true `{!ArchiveLaws} i w s s' c conn conn' :
  startup i = Ok w → rtc sys_step (initial w) s → sys_step s s' →
  conns s !! c = Some conn → conns s' !! c = Some conn' → distinct conn →
  ∃ rs, c_tx conn' = c_tx conn ++ rs ∧ ∀ r, r ∈ responses rs →
    let installed := VersionManager.versions (aw_vm (shared s')) in
    (rs_content r = ONotInstalled → installed = ∅) ∧
    (∀ v, rs_content r = OFactorioVersion v → ∃ k f, installed !! k = Some f ∧ f_version f = v) ∧
    (∀ v m, m ∈ c_received conn → request_id m = Some (rs_operation_id r) → asks m = Some v →
       rs_status r = Completed → is_Some (installed !! v)).
Proof.
  intros Hw Hrun Hstep Hc Hc' Hd. pose proof (reachable_inv _ _ _ Hw Hrun) as Hinv.
  destruct (sent_in_step _ _ _ _ _ Hinv Hstep Hc Hc') as (rs & Heq & Hrs). exists rs. split; [exact Heq|].
  destruct Hrs as [->|(τ & id & Hτ & Hτc & Hid & Hall)]; [by intros r ?%elem_of_nil|].
  intros r Hr. rw Forall_forall in Hall. destruct (Hall r Hr) as (Hrid & Hver & Hdone). cbv zeta.
  split_and!; [by intros Hco; rw Hco in Hver|by intros v Hco; rw Hco in Hver|].
  intros v m Hm Hmid Hv Hs. apply (Hdone Hs). rw -Hv. f_equal. symmetry.
  destruct Hinv as (_ & _ & _ & Hall'). destruct (Hall' _ _ Hc) as (_ & Hperm & _).
  eapply (omap_inj_NoDup request_id (c_received conn)); [exact Hd|exact Hm| |exact Hmid|by rw Hid Hrid].
  rw Hperm. apply elem_of_app. right. apply list_elem_of_fmap_2. by apply list_elem_of_filter.
Qed.

(** Nothing is sent but on a connection. *)
Lemma shared_tx w s : rtc sys_step (initial w) s → ws_tx (shared s) = [].
Proof.
  apply (rtc_ind_r (λ s, ws_tx (shared s) = [])); [done|]. intros s1 s2 _ Hstep.
  destruct Hstep as [| | |s1 s2 []| | | | |]; done.
Qed.

Lemma at_config_start s pre τ post conn :
  ws_tx (shared s) = [] → tasks s = pre ++ τ :: post → conns s !! t_conn τ = Some conn →
  at_config s pre τ post conn (t_held τ, t_prog τ, with_tx (c_tx conn) (shared s)) = s.
Proof.
  intros Htx Hl Hc. unfold at_config. cbn [fst snd].
  assert (<[t_conn τ := MkConn (ws_tx (with_tx (c_tx conn) (shared s))) (c_received conn) (c_done conn) (c_open conn)]>
    (conns s) = conns s) as ->.
  { apply insert_id. rw Hc. by destruct conn. }
  destruct s as [w cs l]. cbn in *. rw Hl. destruct τ, w. cbn in *. by subst.
Qed.

(** The handlers as they are written, alone, are one of the ways in which
    the tasks run: when no other task holds the lock, a message that has just
    arrived can be handled to the end without interruption, and the state and
    what its connection is sent are those of [alone]. *)
Lemma handled_alone `{!ArchiveLaws} i w s pre c m post conn :
  startup i = Ok w → rtc sys_step (initial w) s →
  tasks s = pre ++ spawn_task c m :: post → conns s !! c = Some conn →
  Forall (λ τ, t_held τ = None) (pre ++ post) →
  let w' := (alone (handle_message (MS := MS) m) (with_tx (c_tx conn) (shared s))).2 in
  rtc handler_step s (MkSystem (with_tx [] w')
    (<[c := MkConn (ws_tx w') (c_received conn) (c_done conn ++ [m]) (c_open conn)]> (conns s))
    (pre ++ post)).
Proof.
  intros Hw Hrun Hl Hc Hfree w'. pose proof (reachable_inv _ _ _ Hw Hrun) as (Hp & _).
  assert (∀ g, available (pre ++ post) g) as Hav.
  { assert (∀ g, holding g (pre ++ post) = 0%nat) as H0; [|by split].
    intros g. clear -Hfree. induction Hfree as [|σ l Hσ _ IH]; [done|].
    rw holding_cons IH decide_False //. by rw Hσ. }
  set (w0 := with_tx (c_tx conn) (shared s)) in *. set (τ := spawn_task c m) in *.
  assert (∃ h', rtc (own_step (available (pre ++ post))) (None, t_prog τ, w0) (h', TRet (), w')) as [h' Hsteps].
  { destruct (request_id m) as [id|] eqn:Hid.
    - destruct (alone_steps proc_ok vm_kept (says (asks m) id) (available (pre ++ post)) Fresh None (t_prog τ) ended w0 Hav)
        as [h' Hr]; [by apply (spawn_safe c m id w0 Hid)|done|]. exists h'. subst w'. revert Hr. unfold τ. cbn [t_prog spawn_task].
      by destruct (alone _ w0) as [[] w1].
    - exists None. subst w'. pose proof (spawn_idle c m Hid) as Hr. unfold τ. rw Hr.
      change (handle_message m) with (t_prog (spawn_task c m)). by rw Hr. }
  apply (own_steps s pre τ post conn) in Hsteps.
  change (None, t_prog τ, w0) with (t_held τ, t_prog τ, w0) in Hsteps.
  rw at_config_start // in Hsteps; [|by eapply shared_tx].
  eapply rtc_r; [exact Hsteps|]. set (s1 := at_config _ _ _ _ _ _).
  pose proof (hs_done pre (MkSpawned c m h' (TRet ())) post
    (MkConn (ws_tx w') (c_received conn) (c_done conn) (c_open conn)) s1 eq_refl) as Hdone.
  unfold s1, at_config in Hdone. cbn [shared conns t_conn t_msg t_prog c_tx c_received c_done c_open fst snd] in Hdone.
  change (t_conn τ) with c in Hdone. rw lookup_insert_eq insert_insert_eq in Hdone. by apply Hdone.
Qed.
End system.
