(* ===== verification/Handlers.v ===== *)
(** * Handlers: what the requests do

    The effects of the handlers of [Agent] and the content of their replies,
    one group per part of the API. *)

From S2P Require Import Prelude Tasks Text Regex Schema Io Errors Settings Downloader Mods Saves Versions.
From S2P Require Import Builder Proc Agent Protocol.

Open Scope st_scope.

Section handlers.
Context {E : IoEnv} {N : NetEnv} {R : RegexEngine} {T : TaskEnv} {Po : ModPortal}.
Context {Zi : ZipEnv} {L : LaunchEnv} {U : UuidEnv} {Ar : Archive} {P : ProcEnv} {D : DebugError}.
Context {MS : Type} {SF : SettingsFile MS} {AE : AgentEnv} {AL : AgentLaws}.
Context {CL : Codec (list string)} {CLS : Codec LaunchSettings.t} {CSe : Codec Secrets.t}.
Context {CSS : Codec ServerSettingsConfig} {CML : Codec ModList}.
Context {CRq : Codec AgentRequestWithId} {CRs : Codec AgentResponseWithId}.
Context {CSt : Codec AgentStreamingMessage}.
Context {CRsL : CodecLaws AgentResponseWithId} {CRsT : CodecTotal AgentResponseWithId}.
Implicit Types w : AgentW.

(** The files of the agent. *)
Definition disk w : fs := files (pw_io (aw_proc w)).

(** The handler's last message is a response with this status and content. *)
Definition answered w' (id : OperationId) (s : OperationStatus) (m : AgentOutMessage) : Prop :=
  ∃ sent json t, ws_tx w' = sent ++ [json] ∧ dec json = Ok (MkResponse id s t m).

(** The agent is the same but for the clock and what it has sent. *)
Definition same_agent w w' : Prop :=
  disk w' = disk w ∧ same_proc (aw_proc w) (aw_proc w') ∧ aw_vm w' = aw_vm w.

Lemma wp_respond id s m Q w :
  (∀ w', same_agent w w' → answered w' id s m → Q () w') →
  wp (alone (respond s m id)) Q w.
Proof.
  intros HQ. unfold respond, do_f, lift_f, lift_p, lift_io. st_go. unfold wp at 1, now. cbn.
  destruct (codec_total (MkResponse id s (io_now (tick (pw_io (aw_proc w)))) m)) as [json Hj].
  rw Hj. unfold send_message. st_go. apply HQ; [by split_and!|].
  exists (ws_tx w), json. eexists. split; [done|]. by apply codec_roundtrip.
Qed.

(** What the receiver has decoded last. *)
Definition final_reply w : option AgentResponseWithId := last (responses (ws_tx w)).

Lemma wp_respond_sent id s m Q w :
  (∀ w' t, same_agent w w' → responses (ws_tx w') = responses (ws_tx w) ++ [MkResponse id s t m] →
     Q () w') →
  wp (alone (respond s m id)) Q w.
Proof.
  intros HQ. unfold respond, do_f, lift_f, lift_p, lift_io. st_go. unfold wp at 1, now. cbn.
  destruct (codec_total (MkResponse id s (io_now (tick (pw_io (aw_proc w)))) m)) as [json Hj].
  rw Hj. unfold send_message. st_go. eapply HQ; [by split_and!|]. cbn [ws_tx set_proc].
  rw responses_app. unfold responses at 2. cbn. by rw (codec_roundtrip _ _ Hj).
Qed.

Lemma same_agent_trans w1 w2 w3 : same_agent w1 w2 → same_agent w2 w3 → same_agent w1 w3.
Proof.
  intros (D1 & P1 & V1) (D2 & P2 & V2). split_and!; [by rw D2|by etrans|by rw V2].
Qed.

(** A sequence of progress messages. *)
Lemma wp_replies {A} id (f : A → AgentOutMessage) (l : list A) Q w :
  (∀ w' rs, same_agent w w' → responses (ws_tx w') = responses (ws_tx w) ++ rs →
     Forall (λ r, rs_status r = Ongoing ∧ rs_operation_id r = id) rs → rs_content <$> rs = f <$> l →
     Q () w') →
  wp (alone (t_iter (λ a, reply (f a) id) l)) Q w.
Proof.
  revert Q w. induction l as [|a l IH]; intros Q w HQ; cbn [t_iter]; st_go.
  { apply (HQ w []); [by split_and!|by rw app_nil_r|done|done]. }
  apply wp_respond_sent. intros w1 t Hs1 H1. apply IH. intros w2 rs Hs2 H2 Hst Hc.
  apply (HQ w2 (MkResponse id Ongoing t (f a) :: rs)).
  - by eapply same_agent_trans.
  - by rw H2 H1 -app_assoc.
  - by constructor.
  - cbn. by rw Hc.
Qed.

(** A routine on the files changes nothing else. *)
Lemma wp_lift_f {A} (m : ST IoW A) Q w :
  wp m (λ a i, ∀ w', w' = set_proc (set_io i (aw_proc w)) w → Q a w') (pw_io (aw_proc w)) →
  wp (alone (do_f m)) Q w.
Proof. unfold do_f, lift_f, lift_p, lift_io. intros H. st_go. eapply wp_wand; [exact H|]. cbn. auto. Qed.

Lemma wp_lift_p {A} (m : ST ProcW A) Q w :
  wp m (λ a p, Q a (set_proc p w)) (aw_proc w) → wp (alone (do_p m)) Q w.
Proof. intros H. unfold do_p, lift_p. by st_go. Qed.

Lemma wp_first_version Q w :
  (∀ v w', same_agent w w' →
     match v with
     | Some (n, f) => VersionManager.versions (aw_vm w) !! n = Some f
     | None => VersionManager.versions (aw_vm w) = ∅
     end → Q v w') →
  wp (alone first_version) Q w.
Proof.
  intros HQ. unfold first_version, lift_p. st_go. unfold wp at 1. cbn. st_go.
  apply HQ; [by split_and!|]. destruct (hash_next _ _) as [[n f]|] eqn:Hh.
  - by apply hash_next_Some in Hh.
  - by apply hash_next_None in Hh.
Qed.

(** The chunks a save is cut into fit a message. *)
Lemma number_chunks_bytes i cs : sb_bytes <$> (number_chunks i cs).1 = cs.
Proof. revert i. induction cs as [|c cs IH]; intros i; [done|]. cbn. by rw IH. Qed.

(** What is sent of a stored save. *)
Lemma save_get_sent name b id w :
  no_faults → simple_name name → stored (disk w) (get_savefile_path name) b →
  node_at (disk w) SAVEFILE_DIR = Some Dir →
  let parts := number_chunks 0 (chunks (Z.to_nat MAX_WS_PAYLOAD_BYTES) b) in
  wp (alone (save_get name id))
     (λ _ w', same_agent w w' ∧ ∃ ack rs fin,
        responses (ws_tx w') = responses (ws_tx w) ++ [ack] ++ rs ++ [fin] ∧
        rs_status ack = Ack ∧ Forall (λ r, rs_status r = Ongoing) rs ∧ rs_status fin = Completed ∧
        Forall (λ r, rs_operation_id r = id) ([ack] ++ rs ++ [fin]) ∧
        rs_content <$> rs = OSaveFile <$> parts.1 ∧ rs_content fin = OSaveFile (sentinel parts.2)) w.
Proof.
  intros Hn Hsi Hst Hd parts. unfold save_get. st_go. apply wp_lift_f. eapply wp_wand.
  { by apply (wp_get_savefile name b). }
  cbn. intros r i (Hf & _ & Hr) w1 ->. rw (Hr Hn Hd). st_go.
  apply wp_respond_sent. intros w2 t2 Hs2 H2.
  apply wp_alone_bind, wp_replies. intros w3 rs Hs3 H3 Hon Hc. apply wp_respond_sent.
  intros w4 t4 Hs4 H4. split.
  { apply (same_agent_trans _ (set_proc (set_io i (aw_proc w)) w)); [by split_and!|].
    eapply same_agent_trans; [exact Hs2|]. by eapply same_agent_trans. }
  eexists _, rs, _. split; [by rw H4 H3 H2 -!app_assoc|].
  apply Forall_and in Hon as [Hon Hid]. split_and!; try done.
  constructor; [done|]. apply Forall_app; split; [done|by repeat constructor].
Qed.

Lemma payload_positive : (0 < Z.to_nat MAX_WS_PAYLOAD_BYTES)%nat.
Proof. unfold MAX_WS_PAYLOAD_BYTES. lia. Qed.

(** Downloading a save: a stored save is sent as an acknowledgement, parts
    of at most the payload limit and a final empty part, which a receiver that
    applies them in order turns into the bytes of the save, whatever it had
    before, when no call fails; the agent is unchanged. *)
Theorem save_download name b id w :
  no_faults → simple_name name → stored (disk w) (get_savefile_path name) b →
  node_at (disk w) SAVEFILE_DIR = Some Dir →
  wp (alone (save_get name id))
     (λ _ w', same_agent w w' ∧ ∃ ack parts fin sbs total,
        responses (ws_tx w') = responses (ws_tx w) ++ [ack] ++ parts ++ [fin] ∧
        rs_status ack = Ack ∧ Forall (λ r, rs_status r = Ongoing) parts ∧ rs_status fin = Completed ∧
        rs_content <$> parts = OSaveFile <$> sbs ∧ rs_content fin = OSaveFile (sentinel total) ∧
        Forall (λ sb, Z.of_nat (length (sb_bytes sb)) <= MAX_WS_PAYLOAD_BYTES)%Z sbs ∧
        ∀ old, apply_parts (sbs ++ [sentinel total]) old = b) w.
Proof.
  intros Hn Hsi Hst Hd. eapply wp_wand; [by apply save_get_sent|]. cbv beta zeta.
  intros _ w' (Hs & ack & rs & fin & Hrs & Ha & Hon & Hf & _ & Hc & Hfc). split; [done|].
  eexists ack, rs, fin, _, _. split_and!; [done..| |].
  - apply Forall_forall. intros sb Hsb. apply (list_elem_of_fmap_2 sb_bytes) in Hsb.
    rw number_chunks_bytes in Hsb. unfold chunks in Hsb.
    eapply Forall_forall in Hsb; [|exact (chunks_go_bound _ _ _ payload_positive)].
    cbn in Hsb. pose proof payload_positive. lia.
  - intros old. exact (apply_save_parts _ b old payload_positive).
Qed.

(** The settings of the users: [set] then [get]. *)
Context {CLL : CodecLaws (list string)} {CLT : CodecTotal (list string)}.

Definition config_writable w p : Prop := writable (disk w) p CONFIG_DIR.

(** Setting a list of admins or of banned users and asking for it returns
    it, when no call fails. *)
Theorem config_lists_roundtrip l id id' w :
  no_faults → config_writable w ADMIN_LIST_PATH → config_writable w BAN_LIST_PATH →
  wp (alone (config_admin_list_set l id ;; config_admin_list_get id'))
     (λ _ w', answered w' id' Completed (OConfigAdminList l)) w ∧
  wp (alone (config_ban_list_set l id ;; config_ban_list_get id'))
     (λ _ w', answered w' id' Completed (OConfigBanList l)) w.
Proof.
  intros Hn Ha Hb. destruct config_paths as (_ & Hia & Hib & _). split.
  - unfold config_admin_list_set, config_admin_list_get, AdminList.set, AdminList.read_or_apply_default.
    st_go. apply wp_lift_f, wp_list_set; [done| |by intros e w' _ H; destruct (H Hn)].
    intros i Hs _ w1 ->. apply wp_respond. intros w2 (Hd & _) _. st_go. apply wp_lift_f.
    apply (wp_list_read_or_default_saved _ l); [done|unfold disk in Hd; by rw Hd|done|].
    intros i' _ w3 ->. by apply wp_respond.
  - unfold config_ban_list_set, config_ban_list_get, BanList.set, BanList.read_or_apply_default.
    st_go. apply wp_lift_f, wp_list_set; [done| |by intros e w' _ H; destruct (H Hn)].
    intros i Hs _ w1 ->. apply wp_respond. intros w2 (Hd & _) _. st_go. apply wp_lift_f.
    apply (wp_list_read_or_default_saved _ l); [done|unfold disk in Hd; by rw Hd|done|].
    intros i' _ w3 ->. by apply wp_respond.
Qed.

Context {CLSL : CodecLaws LaunchSettings.t} {CLST : CodecTotal LaunchSettings.t}.

Lemma answered_disk w w' : same_agent w w' → disk w' = disk w.
Proof. by intros (? & _). Qed.

(** C31: The whitelist switch cannot be turned on: after a successful
    [ConfigWhiteListSet] with the switch on, [ConfigWhiteListGet] returns the
    users that were set, and the switch off. *)
Theorem white_list_switch_lost (ls : LaunchSettings.t) (l0 : list string) enabled l id id' w :
  no_faults → dir_ready (disk w) CONFIG_DIR →
  saved (disk w) LAUNCH_SETTINGS_PATH ls → saved (disk w) WHITE_LIST_PATH l0 →
  wp (alone (config_white_list_set enabled l id ;;
           a <- atom st_get ;; config_white_list_get id' ;; t_ret a)%task)
     (λ a w', answered a id Completed OOk ∧
        answered w' id' Completed (OConfigWhiteList (MkWhitelistObject false l))) w.
Proof.
  intros Hn Hrd Hs (s0 & _ & Hs0). destruct config_paths as (Hil & _ & _ & _ & _ & Hiw).
  unfold config_white_list_set, WhiteList.set. st_go. apply wp_lift_f.
  apply (wp_launch_init_saved ls); [done..|]. intros i Hi w1 ->. st_go. apply wp_lift_f.
  assert (writable (disk w) LAUNCH_SETTINGS_PATH CONFIG_DIR) as Hw.
  { split; [done|]. destruct Hs as (s & _ & f & Hf & _). unfold node_at in Hf. by rw Hf. }
  apply wp_launch_write; cbn; rw Hi; [|by intros e i' _ H; destruct (H Hn)].
  intros i1 Hs1 Hk1 w2 ->. st_go. apply wp_lift_f.
  assert (writable (files i1) WHITE_LIST_PATH CONFIG_DIR) as Hww.
  { by eapply (kept_writable LAUNCH_SETTINGS_PATH). }
  apply wp_list_set; [done| |by intros e i' _ H; destruct (H Hn)]. cbn.
  intros i2 Hs2 Hk2 w3 ->. apply wp_respond. intros w4 (Hd4 & _) Hans. st_go.
  unfold disk in Hd4. cbn in Hd4.
  unfold config_white_list_get, WhiteList.read_or_apply_default. st_go. apply wp_lift_f.
  assert (saved (files i2) LAUNCH_SETTINGS_PATH (LaunchSettings.with_whitelist enabled (reread ls)))
    as Hs1'.
  { destruct Hs1 as (s & He & f & Hf & Hb). exists s. split; [done|]. exists f. split; [|done].
    by apply Hk2. }
  rw -Hd4 in Hs1'. apply (wp_launch_init_saved _ _ _ Hs1'); [done|].
  intros i5 Hi5 w5 ->. st_go. apply wp_lift_f.
  apply (wp_list_read_or_default_saved _ l); [done|cbn; by rw Hi5 Hd4|done|].
  intros i6 _ w6 ->. apply wp_respond. intros w7 _ Hans7. st_go. by split.
Qed.

Context {CSeL : CodecLaws Secrets.t} {CSeT : CodecTotal Secrets.t}.
Context {CSSL : CodecLaws ServerSettingsConfig} {CSST : CodecTotal ServerSettingsConfig}.

(** C30: Setting and asking for the rest of the configuration, when no call
    fails: the RCON password comes back with the port of the environment, the
    factorio.com user name without its token, and the server settings with
    the credentials removed and otherwise as they were set. *)
Theorem config_roundtrip (ls : LaunchSettings.t) password user token config id id' w :
  no_faults → dir_ready (disk w) CONFIG_DIR → saved (disk w) LAUNCH_SETTINGS_PATH ls →
  config_writable w SECRETS_PATH → config_writable w SERVER_SETTINGS_PATH →
  wp (alone (config_rcon_set password id ;; config_rcon_get id'))
     (λ _ w', answered w' id' Completed (OConfigRcon (MkRconConfig env_factorio_rcon_port password))) w ∧
  wp (alone (config_secrets_set user token id ;; config_secrets_get id'))
     (λ _ w', answered w' id' Completed (OConfigSecrets (Some (MkSecretsObject user None)))) w ∧
  wp (alone (config_server_settings_set config id ;; config_server_settings_get id'))
     (λ _ w', answered w' id' Completed
                (OConfigServerSettings (set_credentials None None config))) w.
Proof.
  intros Hn Hrd Hs Hse Hss. destruct config_paths as (Hil & _ & _ & Hiss & Hise & _). split_and!.
  - unfold config_rcon_set, config_rcon_get. st_go. apply wp_lift_f.
    apply (wp_launch_init_saved ls); [done..|]. intros i Hi w1 ->. st_go. apply wp_lift_f.
    assert (writable (disk w) LAUNCH_SETTINGS_PATH CONFIG_DIR) as Hw.
    { split; [done|]. destruct Hs as (s & _ & f & Hf & _). unfold node_at in Hf. by rw Hf. }
    apply wp_launch_write; cbn; rw Hi; [|by intros e i' _ H; destruct (H Hn)].
    intros i1 Hs1 _ w2 ->. apply wp_respond. intros w3 (Hd & _) _. st_go. apply wp_lift_f.
    eapply wp_launch_init_saved; [by unfold disk in Hd; rw Hd|done|].
    intros i2 _ w4 ->. by apply wp_respond.
  - unfold config_secrets_set, config_secrets_get, Secrets.write, Secrets.read. st_go. apply wp_lift_f.
    apply (wp_write_serde_saved _ _ _ _ _ _ Hise); [|by intros e i' _ H; destruct (H Hn)].
    intros i1 Hs1 _ w2 ->. apply wp_respond. intros w3 (Hd & _) _. st_go. apply wp_lift_f.
    eapply wp_read_saved; [by unfold disk in Hd; rw Hd|]. intros r i _ _ Hr w4 ->. rw (Hr Hn).
    by apply wp_respond.
  - unfold config_server_settings_set, config_server_settings_get, ServerSettings.set. st_go. apply wp_lift_f.
    apply (wp_write_serde_saved _ _ _ _ _ _ Hiss); [|by intros e i' _ H; destruct (H Hn)].
    intros i1 Hs1 _ w2 ->. apply wp_respond. intros w3 (Hd & _) _. st_go. apply wp_lift_f.
    eapply wp_server_settings_read_saved; [by unfold disk in Hd; rw Hd|done|]. intros i _ w4 ->.
    by apply wp_respond.
Qed.

(** The built-in mods and the mod settings. *)
Context {CMLL : CodecLaws ModList} {CMLT : CodecTotal ModList}.
Context (settings_roundtrip : ∀ (s : MS) b, settings_try_into s = Ok b → settings_try_from b = Ok s).
Context (settings_total : ∀ s : MS, is_ok (settings_try_into s) = true).

(** The mods directory can be read and written, and no mod is called like a
    built-in one. *)
Definition mods_usable (m : fs) : Prop :=
  mods_ready (S := MS) m ∧ writable m MOD_LIST_PATH MOD_DIR ∧ writable m MOD_SETTINGS_PATH MOD_DIR ∧
  Forall (λ x, Dlc_from_str (mod_name x) = None) (disk_mods m).

Lemma usable_writable m (mm : ModManager.t MS) : mods_usable m → metadata_writable m mm.
Proof.
  intros (_ & H1 & H2 & _). split_and!; [done|done| |by intros s _].
  by destruct (codec_total (ModManager.ModList_from mm)) as [s ->].
Qed.

Lemma final_reply_sent w w' r : responses (ws_tx w') = responses (ws_tx w) ++ [r] → final_reply w' = Some r.
Proof. intros H. unfold final_reply. by rw H last_snoc. Qed.

(** A failed operation is not done. *)
Lemma wp_failed_not_done m id (Q : AgentW → Prop) w :
  wp (alone (reply_failed m id)) (λ _ w', (rs_status <$> final_reply w') = Some Completed → Q w') w.
Proof. apply wp_respond_sent. intros w' t _ H. by rw (final_reply_sent _ _ _ H). Qed.

(** The routine that reads the mods of a usable directory. *)
Lemma wp_read_mods Q w :
  no_faults → mods_usable (disk w) →
  (∀ m w', disk w' = disk w → ModManager.mods m = disk_mods (disk w) →
     (∀ l, saved (disk w) MOD_LIST_PATH l →
        ModManager.dlcs m = match ModManager.read_dlcs_from_mod_list l with
                            | Ok d => d | Err _ => {[Base]} end) →
     (∀ b s, stored (disk w) MOD_SETTINGS_PATH b → settings_try_from b = Ok s →
        ModManager.settings m = Some s) → Q (Ok m) w') →
  wp (alone (read_mods (MS := MS))) Q w.
Proof.
  intros Hn (Hr & _) HQ. unfold read_mods. apply wp_lift_f, wp_read_ready; [done|exact Hr|].
  intros m i Hi H1 _ H2 H3 w' ->. by apply HQ.
Qed.

(** What is on disk after the metadata of [m] has been written. *)
Definition metadata_saved (m : ModManager.t MS) w : Prop :=
  mods_ready (S := MS) (disk w) ∧ saved (disk w) MOD_LIST_PATH (ModManager.ModList_from m) ∧
  ∀ s, ModManager.settings m = Some s →
    ∃ b, settings_try_into s = Ok b ∧ stored (disk w) MOD_SETTINGS_PATH b.

Lemma wp_write_metadata m Q w :
  no_faults → mods_usable (disk w) → (∀ w', metadata_saved m w' → Q (Ok ()) w') →
  wp (alone (do_f (ModManager.apply_metadata_only m))) Q w.
Proof.
  intros Hn Hu HQ. apply wp_lift_f, wp_apply_ready; [done|done|by apply usable_writable|apply Hu|].
  intros i H1 H2 H3 w' ->. by apply HQ.
Qed.

Lemma metadata_saved_same m w w' : same_agent w w' → metadata_saved m w → metadata_saved m w'.
Proof. intros (Hd & _). unfold metadata_saved. by rw Hd. Qed.

Lemma wp_mod_dlcs_set dlcs id w :
  no_faults → mods_usable (disk w) →
  wp (alone (mod_dlcs_set (MS := MS) dlcs id))
     (λ _ w', (rs_status <$> final_reply w') = Some Completed → Base ∈ dlcs ∧
        ∃ m, metadata_saved m w' ∧ ModManager.dlcs m = dlcs ∧ no_dlc_mods m) w.
Proof.
  intros Hn Hu. unfold mod_dlcs_set. case_decide as Hb; [apply wp_failed_not_done|].
  apply wp_alone_with_guard; [|apply wp_failed_not_done].
  apply wp_alone_bind, wp_first_version. intros [[n f]|] w2 (Hd2 & _) _; [|apply wp_failed_not_done].
  destruct (_ && _); [apply wp_failed_not_done|]. rw -Hd2 in Hu.
  apply wp_alone_bind, wp_read_mods; [done..|]. intros m w3 Hd3 Hm _ _. rw -Hd3 in Hu.
  apply wp_alone_bind, wp_write_metadata; [done..|]. intros w4 H4. apply wp_respond_sent.
  intros w5 t H5 _ _. split; [done|]. exists (with_dlcs dlcs m).
  split_and!; [by eapply metadata_saved_same|done|]. unfold no_dlc_mods. cbn. rw Hm -Hd3. apply Hu.
Qed.

(** When setting the built-in mods is reported as done, asking for them
    returns the set; and setting the mod settings and asking for them returns
    the settings as the parser writes them, when no call fails. *)
Theorem mods_metadata_handlers dlcs ms_bytes ms id id' w :
  no_faults → mods_usable (disk w) → settings_try_from ms_bytes = Ok ms →
  (let w' := (alone (mod_dlcs_set (MS := MS) dlcs id) w).2 in
   (rs_status <$> final_reply w') = Some Completed →
   Base ∈ dlcs ∧
   answered (alone (mod_dlcs_get (MS := MS) id') w').2 id' Completed (ODlcList (elements dlcs))) ∧
  wp (alone (mod_settings_set (MS := MS) ms_bytes id ;; mod_settings_get (MS := MS) id'))
     (λ _ w', ∃ b, settings_try_into ms = Ok b ∧
        answered w' id' Completed (OModSettings (Some b))) w.
Proof.
  intros Hn Hu Hms. split.
  - intros w1 Hd. destruct (wp_mod_dlcs_set dlcs id w Hn Hu Hd) as (Hb & m & (Hr & Hs & _) & <- & Hm).
    split; [done|]. fold w1 in Hr, Hs. clearbody w1.
    change (wp (alone (mod_dlcs_get (MS := MS) id')) (λ _ w2, answered w2 id' Completed
      (ODlcList (elements (ModManager.dlcs m)))) w1).
    unfold mod_dlcs_get, read_mods. st_go.
    apply wp_lift_f, wp_read_ready; [done|exact Hr|]. intros m' i _ _ _ Hdl _ w2 ->.
    apply wp_respond. intros w3 _ H3.
    specialize (Hdl _ Hs). by rw read_dlcs_from in Hdl; [rw Hdl in H3|..].
  - unfold mod_settings_set, mod_settings_get. apply wp_alone_bind, wp_alone_bind, wp_read_mods; [done..|].
    intros m w1 Hd1 _ _ _. rw -Hd1 in Hu. rw Hms.
    apply wp_alone_bind, wp_write_metadata; [done..|]. intros w2 H2. apply wp_respond. intros w3 H3 _.
    destruct (metadata_saved_same _ _ _ H3 H2) as (Hr & _ & Hset).
    destruct (Hset ms eq_refl) as (b & Hb & Hst). unfold read_mods. st_go.
    apply wp_lift_f, wp_read_ready; [done|exact Hr|]. intros m' i _ _ _ _ Hs w4 ->.
    rw (Hs b ms Hst (settings_roundtrip _ _ Hb)) Hb. apply wp_respond. intros w5 _ H5. by exists b.
Qed.
End handlers.
