(* ===== verification/Lifecycle.v ===== *)
(** * Lifecycle: what starting, stopping and upgrading the server leave

    [internal_server_start_with_version], [server_start], [server_stop] and
    [version_install] of src/src/agent/main.rs: the final status they report
    against the process that runs and the versions that are installed when
    they are done, for every pattern of failures. *)

From S2P Require Import Prelude Tasks Text Regex Schema Io Errors Settings Downloader Mods Saves Versions.
From S2P Require Import Builder Proc Agent Protocol Handlers.

Open Scope st_scope.

Create HintDb quiet discriminated.

Section lifecycle.
Context {E : IoEnv} {N : NetEnv} {R : RegexEngine} {T : TaskEnv} {Po : ModPortal}.
Context {Zi : ZipEnv} {L : LaunchEnv} {U : UuidEnv} {Ar : Archive} {P : ProcEnv} {D : DebugError}.
Context {MS : Type} {SF : SettingsFile MS} {AE : AgentEnv} {AL : AgentLaws}.
Context {CL : Codec (list string)} {CLS : Codec LaunchSettings.t} {CSe : Codec Secrets.t}.
Context {CSS : Codec ServerSettingsConfig} {CML : Codec ModList}.
Context {CRq : Codec AgentRequestWithId} {CRs : Codec AgentResponseWithId}.
Context {CSt : Codec AgentStreamingMessage}.
Context {CRsL : CodecLaws AgentResponseWithId} {CRsT : CodecTotal AgentResponseWithId}.
Implicit Types w : AgentW.

(** ** Routines that leave the process and the installed versions alone *)

Definition same_server w w' : Prop :=
  same_proc (aw_proc w) (aw_proc w') ∧ aw_vm w' = aw_vm w.

#[export] Instance same_server_preorder : PreOrder same_server.
Proof.
  split; [by intros w|]. intros w1 w2 w3 [P1 V1] [P2 V2]. split; [by etrans|by rw V2].
Qed.

Definition quiet {A} (t : Task AgentW A) : Prop := ∀ w, same_server w (alone t w).2.

Lemma quiet_ret {A} (a : A) : quiet (t_ret a).
Proof. by intros w. Qed.
Lemma quiet_bind {A B} (t : Task AgentW A) (k : A → Task AgentW B) :
  quiet t → (∀ a, quiet (k a)) → quiet (t_bind t k).
Proof. intros Ht Hk w. rw alone_bind. etrans; [apply Ht|apply Hk]. Qed.
Lemma quiet_do_f {A} (m : ST IoW A) : quiet (do_f m).
Proof. intros w. by split_and!. Qed.
Lemma quiet_respond s m id : quiet (respond s m id).
Proof.
  apply quiet_bind; [apply quiet_do_f|]. intros t w. destruct (enc _); by split_and!.
Qed.
Lemma quiet_first_version : quiet first_version.
Proof. intros w. by split_and!. Qed.
Lemma quiet_gets {A} (f : AgentW → A) : quiet (atom (st_gets f)).
Proof. by intros w. Qed.

Lemma wp_quiet {A} (t : Task AgentW A) Q w :
  quiet t → (∀ a w', same_server w w' → Q a w') → wp (alone t) Q w.
Proof. intros Hm HQ. apply HQ, Hm. Qed.

(** ** Routines that end with a final reply *)

(** The last response is of the operation, and its status and the state it
    leaves satisfy [S]. *)
Definition final (id : OperationId) (S : OperationStatus → AgentW → Prop) w' : Prop :=
  ∃ r, final_reply w' = Some r ∧ rs_operation_id r = id ∧ S (rs_status r) w'.

Lemma wp_final id s m S w :
  (∀ w', same_server w w' → S s w') → wp (alone (respond s m id)) (λ _, final id S) w.
Proof.
  intros HS. apply wp_respond_sent. intros w' t (_ & Hp & Hv) Hr. eexists. unfold final_reply.
  rw Hr last_snoc. split; [done|]. split; [done|]. by apply HS.
Qed.

Lemma final_weaken id (S S' : OperationStatus → AgentW → Prop) w :
  (∀ s, S s w → S' s w) → final id S w → final id S' w.
Proof. intros H (r & H1 & H2 & H3). exists r. auto. Qed.
End lifecycle.

#[export] Hint Resolve quiet_ret quiet_do_f quiet_respond quiet_first_version quiet_gets : quiet.
#[export] Hint Extern 1 (quiet (t_bind _ _)) => (apply quiet_bind; [|intros ?]) : quiet.
#[export] Hint Extern 1 (quiet (long_running_ack _)) => (unfold long_running_ack) : quiet.
#[export] Hint Extern 1 (quiet (reply _ _)) => (unfold reply) : quiet.
#[export] Hint Extern 1 (quiet (reply_failed _ _)) => (unfold reply_failed) : quiet.
#[export] Hint Extern 1 (quiet (match ?x with _ => _ end)) => (destruct x) : quiet.

Section server.
Context {E : IoEnv} {N : NetEnv} {R : RegexEngine} {T : TaskEnv} {Po : ModPortal}.
Context {Zi : ZipEnv} {L : LaunchEnv} {U : UuidEnv} {Ar : Archive} {P : ProcEnv} {D : DebugError}.
Context {MS : Type} {SF : SettingsFile MS} {AE : AgentEnv} {AL : AgentLaws}.
Context {CL : Codec (list string)} {CLS : Codec LaunchSettings.t} {CSe : Codec Secrets.t}.
Context {CSS : Codec ServerSettingsConfig} {CML : Codec ModList}.
Context {CRq : Codec AgentRequestWithId} {CRs : Codec AgentResponseWithId}.
Context {CSt : Codec AgentStreamingMessage}.
Context {CRsL : CodecLaws AgentResponseWithId} {CRsT : CodecTotal AgentResponseWithId}.
Implicit Types w : AgentW.

(** One quiet step of a handler that started in [w0]. *)
Lemma wp_quiet_bind {A B} w0 (m : Task AgentW A) (k : A → Task AgentW B) Q w :
  same_server w0 w → quiet m → (∀ a w', same_server w0 w' → wp (alone (k a)) Q w') →
  wp (alone (t_bind m k)) Q w.
Proof. intros H0 Hm HQ. apply wp_alone_bind, wp_quiet; [done|]. intros a w' H. apply HQ. by etrans. Qed.

Lemma wp_failed_from id m w0 S w :
  same_server w0 w → (∀ w', same_server w0 w' → S Failed w') →
  wp (alone (reply_failed m id)) (λ _, final id S) w.
Proof. intros H0 HS. apply wp_final. intros w' H. apply HS. by etrans. Qed.
End server.

Ltac quiet_steps :=
  repeat lazymatch goal with
  | H : same_server ?w0 ?w |- wp (alone (t_bind _ _)) _ ?w =>
      eapply (wp_quiet_bind w0); [exact H|by auto 10 with quiet|clear H; intros ? ? H]
  | |- wp (alone (match ?x with _ => _ end)) _ _ => destruct x eqn:?
  | H : same_server ?w0 ?w |- wp (alone (reply_failed _ _)) _ ?w =>
      eapply (wp_failed_from _ _ w0); [exact H|by auto]
  end.

Section start.
Context {E : IoEnv} {N : NetEnv} {R : RegexEngine} {T : TaskEnv} {Po : ModPortal}.
Context {Zi : ZipEnv} {L : LaunchEnv} {U : UuidEnv} {Ar : Archive} {P : ProcEnv} {D : DebugError}.
Context {MS : Type} {SF : SettingsFile MS} {AE : AgentEnv} {AL : AgentLaws}.
Context {CL : Codec (list string)} {CLS : Codec LaunchSettings.t} {CSe : Codec Secrets.t}.
Context {CSS : Codec ServerSettingsConfig} {CML : Codec ModList}.
Context {CRq : Codec AgentRequestWithId} {CRs : Codec AgentResponseWithId}.
Context {CSt : Codec AgentStreamingMessage}.
Context {CRsL : CodecLaws AgentResponseWithId} {CRsT : CodecTotal AgentResponseWithId}.
Implicit Types w : AgentW.

(** A server that is visible to the public has credentials. *)
Definition public_ready (ss : ServerSettings.t) : Prop :=
  vis_public (visibility (ServerSettings.config ss)) = true →
  ∃ username token, cfg_username (ServerSettings.config ss) = Some username ∧ username ≠ "" ∧
    cfg_token (ServerSettings.config ss) = Some token ∧ token ≠ "".

Lemma wp_with_credentials id ss w0 Q w :
  same_server w0 w →
  (∀ o w', same_server w0 w' →
     match o with
     | Some ss' => public_ready ss'
     | None => final id (λ s w', s = Failed ∧ same_server w0 w') w'
     end → Q o w') →
  wp (alone (with_credentials ss id)) Q w.
Proof.
  intros H0 HQ. unfold with_credentials.
  assert (∀ m w1, same_server w0 w1 → wp (alone (reply_failed m id ;; t_ret None)) Q w1) as Hfail.
  { intros m w1 H1. apply wp_alone_bind. eapply wp_wand.
    { by eapply (wp_failed_from _ _ w0 (λ s w', s = Failed ∧ same_server w0 w')). }
    cbn. intros _ w' Hf. st_go. apply HQ; [|done]. by destruct Hf as (r & _ & _ & _ & ?). }
  destruct (vis_public _) eqn:Hpub; [|st_go; apply HQ; [done|]; by intros Hp; rw Hpub in Hp].
  eapply (wp_quiet_bind w0); [done|by auto with quiet|]. intros [[s|]|e] w1 H1; [|by apply Hfail..].
  destruct (bool_decide (Secrets.username s = "")) eqn:Hu; [by apply Hfail|].
  destruct (bool_decide (Secrets.token s = "")) eqn:Ht; [by apply Hfail|]. cbn [orb].
  apply bool_decide_eq_false in Hu, Ht.
  eapply (wp_quiet_bind w0); [done|by auto with quiet|]. intros [[]|e] w2 H2; [|by apply Hfail].
  st_go. apply HQ; [done|]. intros _. by eexists _, _.
Qed.

(** The command of a server that hosts the save [name] with the installation
    [f]. *)
Definition hosts (f : Factorio) (name : string) (c : Command) : Prop :=
  program c = f_path f ++ [Normal "factorio"; Normal "bin"; Normal "x64"; Normal "factorio"] ∧
  take 2 (args c) = [AStr "--start-server"; APath (get_savefile_path name)].

(** What a start with the installation [f] leaves behind under its final
    status; [m] is the disk it finds. *)
Definition start_outcome (f : Factorio) (sf : ServerStartSaveFile) (prev : option StoppedInstance)
    (m : fs) w (s : OperationStatus) w' : Prop :=
  aw_vm w' = aw_vm w ∧ killed (aw_proc w') = killed (aw_proc w) ∧
  match s with
  | Completed =>
      running_instance (aw_proc w) = None ∧
      ∃ name save i, sf = Specific name ∧ node_at m (get_savefile_path name) = Some (File save) ∧
        running_instance (aw_proc w') = Some i ∧
        live (aw_proc w') ∖ killed (aw_proc w') = {[pid i]} ∧
        hosts f name (child_cmd (process i)) ∧ savefile (info i) = sf ∧
        public_ready (server_settings (info i)) ∧
        optional_args (info i) = default [] (optional_args ∘ st_info <$> prev)
  | Failed =>
      running_instance (aw_proc w') = running_instance (aw_proc w) ∧
      live (aw_proc w') = live (aw_proc w)
  | _ => False
  end.

Lemma same_server_failed f sf prev m w w' : same_server w w' → start_outcome f sf prev m w Failed w'.
Proof. intros [(? & ? & ? & ? & ?) ?]. by split_and!. Qed.
#[local] Hint Resolve same_server_failed : core.

(** The last step: the process manager. *)
Lemma wp_start_builder (b : ServerHostBuilder) f name save prev id m w0 w :
  pm_inv (aw_proc w0) → same_server w0 w →
  node_at m (get_savefile_path name) = Some (File save) → hosts f name (hb_cmd b) →
  savefile (hb_info b) = Specific name → public_ready (server_settings (hb_info b)) →
  optional_args (hb_info b) = default [] (optional_args ∘ st_info <$> prev) →
  wp (alone (r <- do_p (ProcessManager.start_instance b) ;;
           match r with
           | Err e => reply_failed (OError ("Failed to start: " +:+ debug e)) id
           | Ok _ => reply_success OOk id
           end)) (λ _, final id (start_outcome f (Specific name) prev m w0)) w.
Proof.
  intros Hinv [Hsp Hv] Hsave Hhost H1 H2 H3. apply wp_alone_bind, wp_lift_p.
  assert (pm_inv (aw_proc w)) as Hinv' by by eapply pm_inv_same.
  eapply wp_wand; [by apply wp_start_instance|]. cbn. intros r p Hr.
  destruct Hsp as (Hl & Hk & Ht & Hn & Hrun). destruct (running_instance (aw_proc w)) as [i|] eqn:Hi.
  - destruct Hr as [-> ->]. apply wp_final. intros w' [(A1 & A2 & A3 & A4 & A5) A6]. cbn in *.
    split_and!; congruence.
  - destruct Hr as [Hkp [(-> & i & I1 & I2 & I3 & I4 & I5 & _)|(k & -> & Hlive & Hidle)]];
      apply wp_final; intros w' [(A1 & A2 & A3 & A4 & A5) A6]; cbn in *.
    + split_and!; [congruence..|]. exists name, save, i. rw A1 A2 I5 I4.
      split_and!; [done|done|congruence|done|exact Hhost|done|done|done].
    + destruct Hidle as (J1 & _ & J3 & _). split_and!; congruence.
Qed.

Lemma wp_file_there w0 p Q w :
  same_server w0 w →
  (∀ b w', same_server w0 w' → (b = true → ∃ f, node_at (disk w) p = Some (File f)) → Q b w') →
  wp (alone (do_f (is_file p))) Q w.
Proof.
  intros H0 HQ. apply wp_lift_f, wp_is_file. intros b Hb _ w' ->. apply HQ; [exact H0|exact Hb].
Qed.

(** Starting a server on a known installation. *)
Lemma wp_server_start version sf id prev w0 w :
  pm_inv (aw_proc w0) → same_server w0 w →
  wp (alone (internal_server_start_with_version (MS := MS) version sf id prev))
    (λ _, final id (start_outcome version sf prev (disk w) w0)) w.
Proof.
  intros Hinv H0. unfold internal_server_start_with_version. destruct sf as [|name].
  { quiet_steps. }
  apply wp_alone_bind, (wp_file_there w0); [done|]. intros b w1 H1 Hb. clear H0.
  destruct b; [|quiet_steps]. destruct (Hb eq_refl) as [save Hsave].
  quiet_steps. apply wp_alone_bind. eapply (wp_with_credentials _ _ w0); [done|].
  intros [ss|] w9 H9 Hss; cbn.
  - quiet_steps. eapply wp_start_builder; try done; try by destruct prev.
    destruct prev; (split; [|done]); cbn; rw !join_simple; [..|done|cbn; lia]; try done; try (cbn; lia);
      by rw -!app_assoc.
  - st_go. eapply final_weaken; [|done]. cbn. intros s [-> ?]. auto.
Qed.

(** C7: A request to start the server: when it is reported as done, an
    installation was there, the save asked for was a file, no server was
    running, and the one process that is now alive (and was not killed before)
    runs the executable of that installation on that save, with credentials if
    it is visible to the public; when it is reported as failed, the process that
    ran before, if any, is still the one that runs. *)
Theorem server_start_outcome sf id w :
  pm_inv (aw_proc w) →
  wp (alone (server_start (MS := MS) sf id))
    (λ _, final id (λ s w', ∃ f, start_outcome f sf None (disk w) w s w' ∧
       (s = Completed → ∃ v, VersionManager.versions (aw_vm w) !! v = Some f))) w.
Proof.
  intros Hinv. unfold server_start. assert (same_server w w) as H0 by done.
  assert (∀ w', same_server w w' → ∃ f, start_outcome f sf None (disk w) w Failed w' ∧
    (Failed = Completed → ∃ v, VersionManager.versions (aw_vm w) !! v = Some f)) as Hfail.
  { intros w' H. exists (scanned [] ""). split; [by auto|done]. }
  apply wp_alone_with_guard; [|by apply (wp_failed_from _ _ w)].
  apply wp_alone_bind, wp_first_version. intros v w2 (Hd2 & Hp2 & Hv2) Hv.
  assert (same_server w w2) as H2 by by split.
  destruct v as [[n f]|]; [|by apply (wp_failed_from _ _ w)].
  eapply wp_wand; [by apply wp_server_start|]. cbn. intros _ w3. apply final_weaken.
  intros s Hs. rw Hd2 in Hs. exists f. split; [done|]. by exists n.
Qed.

(** ** Installing and upgrading *)

Import VersionManager.

Lemma wp_vm_install `{!ArchiveLaws} v Q w :
  (∀ r w', same_proc (aw_proc w) (aw_proc w') →
     match r with
     | Ok _ => ∃ f, versions (aw_vm w') = <[v := f]> (versions (aw_vm w))
     | Err _ => aw_vm w' = aw_vm w
     end → Q r w') →
  wp (alone (vm_install v)) Q w.
Proof.
  intros HQ. unfold vm_install, lift_f, lift_p, lift_io. st_go. apply wp_install. intros rv i Hok Herr.
  st_go. apply HQ; [by split_and!|]. cbn. destruct rv.1 as [[]|e].
  - destruct (Hok eq_refl) as [-> _]. by eexists.
  - by apply Herr.
Qed.

Lemma wp_vm_delete v Q w :
  (∀ r w', same_proc (aw_proc w) (aw_proc w') →
     match r with
     | Ok _ => versions (aw_vm w') = base.delete v (versions (aw_vm w))
     | Err _ => aw_vm w' = aw_vm w
     end → Q r w') →
  wp (alone (vm_delete v)) Q w.
Proof.
  intros HQ. unfold vm_delete, lift_f, lift_p, lift_io. st_go. apply wp_delete. intros rv i Hok Herr _.
  st_go. apply HQ; [by split_and!|]. cbn. destruct rv.1 as [[]|e].
  - by destruct (Hok eq_refl) as [-> _].
  - by apply Herr.
Qed.

Lemma wp_stop_server w0 (Q : option StoppedInstance → AgentW → Prop) w :
  pm_inv (aw_proc w0) → same_server w0 w →
  (∀ o w', idle (aw_proc w') → aw_vm w' = aw_vm w0 →
     (∀ s, o = Some s → ∃ i, running_instance (aw_proc w0) = Some i ∧ st_info s = info i) → Q o w') →
  wp (alone (do_p ProcessManager.stop_instance)) Q w.
Proof.
  intros Hinv [Hp Hv] HQ. apply wp_lift_p. eapply wp_wand; [apply stop_idle; by eapply pm_inv_same|].
  cbn. intros o p [Hi Hs]. apply HQ; [done|done|]. destruct Hp as (_ & _ & _ & _ & <-). exact Hs.
Qed.

(** The server that runs afterwards, if any, hosts the save of the one that
    ran before. *)
Definition same_save w w' : Prop :=
  ∀ i', running_instance (aw_proc w') = Some i' →
    ∃ i, running_instance (aw_proc w) = Some i ∧ savefile (info i') = savefile (info i).

Lemma same_server_save w w' : same_server w w' → same_save w w'.
Proof. intros [(_ & _ & _ & _ & H) _] i Hi. rw H in Hi. eauto. Qed.
Lemma idle_save w w' : idle (aw_proc w') → same_save w w'.
Proof. intros (_ & _ & H & _) i Hi. by rw H in Hi. Qed.

Lemma same_proc_idle p p' : same_proc p p' → idle p → idle p'.
Proof. intros (J1 & J2 & J3 & J4 & J5). unfold idle. by rw J1 J2 J3 J4 J5. Qed.

(** The end of the handler, with the server stopped. *)
Lemma wp_restart v prev id w0 w1 w :
  is_Some (versions (aw_vm w1) !! v) → same_server w1 w → idle (aw_proc w1) →
  (∀ s, prev = Some s → ∃ i, running_instance (aw_proc w0) = Some i ∧ st_info s = info i) →
  wp (alone (restart_after_install (MS := MS) v prev id))
    (λ _, final id (λ s w', (s = Completed ∨ s = Failed) ∧ aw_vm w' = aw_vm w1 ∧ same_save w0 w')) w.
Proof.
  intros [f Hf] H1 Hidle Hprev. unfold restart_after_install. destruct prev as [p|].
  - apply (wp_quiet_bind w1); [done|by auto with quiet|]. intros _ w2 H2.
    apply wp_alone_bind, wp_alone_atom, wp_gets. rw (proj2 H2) Hf. eapply wp_wand.
    { apply (wp_server_start f _ id (Some p) w1); [by apply idle_inv|done]. }
    cbn. intros _ w3. apply final_weaken. intros s (Hv & _ & Hs). destruct s; try done.
    + destruct Hs as (_ & name & save & i & _ & _ & Hi & _ & _ & Hsf & _). split_and!; [by left|done|].
      intros i' Hi'. destruct (Hprev p eq_refl) as (i0 & Hi0 & Hinfo). exists i0. split; [done|].
      rw Hi in Hi'. simplify_eq. by rw Hsf Hinfo.
    + destruct Hs as [Hr _]. split_and!; [by right|done|]. intros i' Hi'.
      rw Hr in Hi'. destruct Hidle as (_ & _ & Hn & _). by rw Hn in Hi'.
  - apply wp_final. intros w' H. assert (same_server w1 w') as H' by by etrans.
    split_and!; [by left|apply H'|]. apply idle_save. by eapply same_proc_idle; [apply H'|].
Qed.

(** What is installed when an installation is reported as done or failed. *)
Definition installed_outcome (v : string) (old new : gmap string Factorio) (s : OperationStatus) : Prop :=
  match s with
  | Completed => dom new = {[v]}
  | Failed => dom new = dom old ∨ dom new = {[v]} ∨ ((v ∉ dom old) ∧ dom new = {[v]} ∪ dom old)
  | _ => False
  end.

Definition install_outcome (v : string) w (s : OperationStatus) w' : Prop :=
  let old := versions (aw_vm w) in
  let new := versions (aw_vm w') in
  installed_outcome v old new s ∧ same_save w w' ∧
  (s = Failed → dom new ≠ dom old → running_instance (aw_proc w') = None ∨ dom new = {[v]}).

Lemma failed_unchanged v w w1 w' :
  idle (aw_proc w1) ∨ same_proc (aw_proc w) (aw_proc w1) → aw_vm w1 = aw_vm w →
  same_server w1 w' → install_outcome v w Failed w'.
Proof.
  intros Hp Hv [(_ & _ & _ & _ & J) Hv']. split_and!.
  - left. by rw Hv' Hv.
  - intros i Hi. rw J in Hi. destruct Hp as [(_ & _ & Hn & _)|(_ & _ & _ & _ & Hn)]; [by rw Hn in Hi|].
    rw Hn in Hi. eauto.
  - intros _ Hd. by rw Hv' Hv in Hd.
Qed.

(** The one version that is installed. *)
Lemma dom_single (m : gmap string Factorio) k f :
  m !! k = Some f → (size m <= 1)%nat → dom m = {[k]}.
Proof.
  intros Hk Hs. apply elem_of_dom_2 in Hk as Hd. rw -size_dom in Hs.
  apply set_eq. intros x. rw elem_of_singleton. split; [|by intros ->].
  intros Hx. destruct (decide (x = k)) as [|Hne]; [done|].
  assert (size ({[x; k]} : gset string) <= size (dom m))%nat as Hle by (apply subseteq_size; set_solver).
  rw size_union in Hle; [|set_solver]. rw !size_singleton in Hle. lia.
Qed.

(** A restart at the end, when only [v] is installed. *)
Lemma wp_restart_outcome v prev id w0 w1 w :
  dom (versions (aw_vm w1)) = {[v]} → same_server w1 w → idle (aw_proc w1) →
  (∀ s, prev = Some s → ∃ i, running_instance (aw_proc w0) = Some i ∧ st_info s = info i) →
  wp (alone (restart_after_install (MS := MS) v prev id)) (λ _, final id (install_outcome v w0)) w.
Proof.
  intros Hd H1 Hi Hprev. eapply wp_wand.
  { apply (wp_restart v prev id w0 w1); [|done..]. apply elem_of_dom. set_solver. }
  cbn. intros _ w'. apply final_weaken. intros s (Hs & Hv & Hsave).
  unfold install_outcome. rw Hv Hd. split_and!; [|done|by right].
  destruct Hs as [-> | ->]; cbn; [done|by right; left].
Qed.

(** The version that is installed is installed again. *)
Lemma wp_reinstall `{!ArchiveLaws} v id w0 w :
  pm_inv (aw_proc w0) → same_server w0 w → dom (versions (aw_vm w0)) = {[v]} →
  wp (alone (opt_stopped_instance <- do_p ProcessManager.stop_instance ;;
      (if is_some opt_stopped_instance
       then reply (OMessage "Stopped server for reinstall") id else t_ret ()) ;;
      reply (OMessage ("Starting to reinstall version " +:+ v)) id ;;
      r <- vm_install v ;;
      match r with
      | Err e => reply_failed (OError ("Failed to install: " +:+ debug e)) id
      | Ok _ =>
          reply (OMessage ("Reinstalled version " +:+ v)) id ;;
          restart_after_install (MS := MS) v opt_stopped_instance id
      end)%task) (λ _, final id (install_outcome v w0)) w.
Proof.
  intros Hinv H0 Hd. apply wp_alone_bind, (wp_stop_server w0); [done..|]. intros o w1 Hi Hv Hs.
  assert (same_server w1 w1) as H1 by done. quiet_steps.
  apply wp_alone_bind, wp_vm_install. intros r w3 Hp3 Hv3.
  assert (idle (aw_proc w3)) as Hi3 by (eapply same_proc_idle; [done|]; by eapply same_proc_idle, Hi; apply H1).
  assert (same_server w3 w3) as H3 by done. destruct H1 as [_ H1].
  destruct r as [[]|e].
  - destruct Hv3 as [f Hf]. quiet_steps. apply (wp_restart_outcome _ _ _ _ w3); [|done..].
    rw Hf H1 Hv dom_insert_L Hd. set_solver.
  - eapply (wp_failed_from _ _ w3); [done|]. intros wz Hz. apply (failed_unchanged _ _ w3); [by left|congruence|done].
Qed.

(** Another version is installed, and the one that was there removed. *)
Lemma wp_upgrade `{!ArchiveLaws} v from id w0 w :
  pm_inv (aw_proc w0) → same_server w0 w → v ≠ from → dom (versions (aw_vm w0)) = {[from]} →
  wp (alone (reply (OMessage ("Starting to install version " +:+ v)) id ;;
      r <- vm_install v ;;
      match r with
      | Err e => reply_failed (OError ("Failed to install: " +:+ debug e)) id
      | Ok _ =>
          reply (OMessage ("Installed version " +:+ v +:+ " for upgrade")) id ;;
          opt_stopped_instance <- do_p ProcessManager.stop_instance ;;
          (if is_some opt_stopped_instance
           then reply (OMessage "Stopped server for upgrade") id else t_ret ()) ;;
          r <- vm_delete from ;;
          match r with
          | Err e =>
              reply_failed (OError ("Failed to remove previous version " +:+ from +:+
                " after upgrading to version " +:+ v +:+ ": " +:+ debug e)) id
          | Ok _ =>
              reply (OMessage ("Removed previous version " +:+ from +:+
                " after upgrading to version " +:+ v)) id ;;
              restart_after_install (MS := MS) v opt_stopped_instance id
          end
      end)%task) (λ _, final id (install_outcome v w0)) w.
Proof.
  intros Hinv H0 Hne Hd. quiet_steps. apply wp_alone_bind, wp_vm_install. intros r w1 Hp1 Hv1.
  destruct H0 as [Hp0 Hv0]. assert (same_proc (aw_proc w0) (aw_proc w1)) as Hp by by etrans.
  assert (same_server w1 w1) as H1 by done. destruct r as [[]|e].
  2: { eapply (wp_failed_from _ _ w1); [done|]. intros w2 H2.
       apply (failed_unchanged _ _ w1); [by right|congruence|done]. }
  destruct Hv1 as [f Hf]. quiet_steps. apply wp_alone_bind, (wp_stop_server w1); [by eapply pm_inv_same|done|].
  intros o w2 Hi2 Hv2 Hs. clear H1. assert (same_server w2 w2) as H2 by done. quiet_steps.
  apply wp_alone_bind, wp_vm_delete. intros r w3 Hp3 Hv3.
  assert (idle (aw_proc w3)) as Hi3 by (eapply same_proc_idle; [done|]; by eapply same_proc_idle, Hi2; apply H2).
  assert (same_server w3 w3) as H3 by done. destruct H2 as [_ H2]. destruct r as [[]|e].
  - quiet_steps. apply (wp_restart_outcome _ _ _ _ w3); [|done|done|].
    + rw Hv3 H2 Hv2 Hf Hv0 dom_delete_L dom_insert_L Hd. set_solver.
    + intros s Hso. destruct Hp as (_ & _ & _ & _ & <-). by apply Hs.
  - eapply (wp_failed_from _ _ w3); [done|]. intros w4 H4. destruct H4 as [Hp4 Hv4].
    assert (dom (versions (aw_vm w4)) = {[v]} ∪ dom (versions (aw_vm w0))) as Hdom.
    { by rw Hv4 Hv3 H2 Hv2 Hf Hv0 dom_insert_L. }
    assert (idle (aw_proc w4)) as Hi4 by by eapply same_proc_idle. split_and!.
    + right. right. rw Hd. split; [set_solver|]. by rw Hdom Hd.
    + by apply idle_save.
    + intros _ _. left. by destruct Hi4 as (_ & _ & ? & _).
Qed.

(** C8: A request to install a version, where at most one was installed: when
    it is reported as done, exactly the version asked for is installed; when
    it is reported as failed, the installed versions are as before, or the new
    one has replaced the old one and only the restart failed, or both are
    installed and no server runs.  A server that runs afterwards hosts the
    save of the one that ran before. *)
Theorem version_install_outcome `{!ArchiveLaws} v force id w :
  pm_inv (aw_proc w) → (size (versions (aw_vm w)) <= 1)%nat →
  wp (alone (version_install (MS := MS) v force id)) (λ _, final id (install_outcome v w)) w.
Proof.
  intros Hinv Hsize. unfold version_install. assert (same_server w w) as H0 by done.
  apply wp_alone_with_guard.
  2: { eapply (wp_failed_from _ _ w); [done|]. intros wz Hz.
       by apply (failed_unchanged _ _ w); [right|done|]. }
  apply (wp_quiet_bind w); [done|by auto with quiet|]. intros _ w2 H2. clear H0.
  apply wp_alone_bind, wp_first_version. intros o w3 (_ & Hp3 & Hv3) Ho.
  assert (same_server w w3) as H3 by (etrans; [exact H2|by split]). destruct H2 as [_ H2]. rw H2 in Ho.
  destruct o as [[from f]|].
  - assert (dom (versions (aw_vm w)) = {[from]}) as Hd by by eapply dom_single.
    case_bool_decide as Heq; cbn [andb].
    + subst from. destruct force; cbn [negb].
      * by apply wp_reinstall.
      * apply wp_final. intros wz Hz. assert (same_server w wz) as H' by by etrans.
        split_and!; [cbn; by rw (proj2 H')|by apply same_server_save|done].
    + by apply wp_upgrade.
  - quiet_steps. apply wp_alone_bind, wp_vm_install. intros r w4 Hp4 Hv4. destruct H3 as [Hp3' Hv3'].
    assert (same_proc (aw_proc w) (aw_proc w4)) as Hp by by etrans.
    destruct r as [[]|e].
    + apply wp_final. intros wz [Hp' Hv']. destruct Hv4 as [f Hf].
      split_and!; [cbn; by rw Hv' Hf Hv3' Ho dom_insert_L dom_empty_L right_id_L| |done].
      intros i Hi. destruct Hp' as (_ & _ & _ & _ & Hr'), Hp as (_ & _ & _ & _ & Hr). rw Hr' Hr in Hi. eauto.
    + apply wp_final. intros wz Hz. apply (failed_unchanged _ _ w4); [by right|congruence|done].
Qed.

End start.
