(* ===== verification/Concrete.v ===== *)
(** * Concrete: an environment in which nothing fails

    Every parameter of the development instantiated: a file system whose calls
    succeed at one fixed time, a network that answers with the address asked
    for, serialisers that write the number a value is encoded as, the
    backtracking regular expressions, a process that does not exit. *)

From S2P Require Import Prelude Text Regex Schema Io Errors Settings Downloader Mods Saves Versions.
From S2P Require Import Builder Proc Agent.

(** ** The data as numbers *)

#[export] Instance ServerVisibilityConfig_countable : Countable ServerVisibilityConfig.
Proof.
  by refine (inj_countable' (λ v, (vis_public v, vis_lan v)) (λ p, MkVisibility p.1 p.2) _); intros [].
Defined.

#[export] Instance AllowCommandsValue_countable : Countable AllowCommandsValue.
Proof.
  refine (inj_countable'
    (λ v, match v with AllowTrue => 0 | AllowFalse => 1 | AdminsOnly => 2 end)%nat
    (λ n, match n with 0 => AllowTrue | 1 => AllowFalse | _ => AdminsOnly end)%nat _).
  by intros [].
Defined.

#[export] Instance ServerSettingsConfig_countable : Countable ServerSettingsConfig.
Proof.
  refine (inj_countable'
    (λ c, ((cfg_name c, description c, tags c, visibility c),
           (autosave_interval c, autosave_only_on_server c, non_blocking_saving c,
            cfg_username c, cfg_token c, game_password c),
           (require_user_verification c, max_players c,
            ignore_player_limit_for_returning_players c, allow_commands c,
            only_admins_can_pause_the_game c),
           (max_upload_in_kilobytes_per_second c, max_upload_slots c,
            minimum_latency_in_ticks c, max_heartbeats_per_second c),
           (minimum_segment_size c, minimum_segment_size_peer_count c,
            maximum_segment_size c, maximum_segment_size_peer_count c)))
    (λ x, let '((a1, a2, a3, a4), (b1, b2, b3, b4, b5, b6), (c1, c2, c3, c4, c5),
                (d1, d2, d3, d4), (e1, e2, e3, e4)) := x in
          MkServerSettingsConfig a1 a2 a3 a4 b1 b2 b3 b4 b5 b6 c1 c2 c3 c4 c5 d1 d2 d3 d4 e1 e2 e3 e4)
    _).
  by intros [].
Defined.

#[export] Instance ModObject_countable : Countable ModObject.
Proof.
  by refine (inj_countable' (λ m, (mo_name m, mo_version m)) (λ p, MkModObject p.1 p.2) _); intros [].
Defined.
#[export] Instance Save_countable : Countable Save.
Proof.
  by refine (inj_countable' (λ s, (save_name s, save_last_modified s)) (λ p, MkSave p.1 p.2) _);
    intros [].
Defined.
#[export] Instance SaveBytes_countable : Countable SaveBytes.
Proof.
  by refine (inj_countable' (λ s, (multipart_start s, sb_bytes s)) (λ p, MkSaveBytes p.1 p.2) _);
    intros [].
Defined.
#[export] Instance ModListElem_countable : Countable ModListElem.
Proof.
  by refine (inj_countable' (λ e, (elem_name e, elem_enabled e, elem_version e))
    (λ p, MkModListElem p.1.1 p.1.2 p.2) _); intros [].
Defined.
#[export] Instance ServerStatusView_countable : Countable ServerStatusView.
Proof.
  refine (inj_countable'
    (λ s, match s with
          | NotRunning => inl 0%nat | PreGame => inl 1%nat | PostGame => inl 2%nat
          | InGame n => inr n
          end)
    (λ x, match x with
          | inl 0 => NotRunning | inl 1 => PreGame | inl _ => PostGame
          | inr n => InGame n
          end)%nat _).
  by intros [].
Defined.
#[export] Instance OperationStatus_countable : Countable OperationStatus.
Proof.
  refine (inj_countable'
    (λ s, match s with Ack => 0 | Ongoing => 1 | Completed => 2 | Failed => 3 end)%nat
    (λ n, match n with 0 => Ack | 1 => Ongoing | 2 => Completed | _ => Failed end)%nat _).
  by intros [].
Defined.

(** The content of a reply, by the type it carries. *)
Definition OutCode : Type :=
  (string * string) +
  (nat +
  ((Z * list Z * Z * Z) +
  (ServerStatusView +
  (list Save +
  (SaveBytes +
  (option bytes +
  (list ModObject +
  (list Dlc +
  (ServerSettingsConfig +
  (option (string * option string) +
  ((Z * string) +
  ((bool * list string) +
  ((bool * list string) +
  ((nat * string))))))))))))))).

Definition to_code (m : AgentOutMessage) : OutCode :=
  match m with
  | OAgentBuildVersion v => inl (bv_timestamp v, bv_commit_hash v)
  | OOk => inr (inl 0%nat)
  | OConflictingOperation => inr (inl 1%nat)
  | OMissingSecrets => inr (inl 2%nat)
  | ONotInstalled => inr (inl 3%nat)
  | OSaveNotFound => inr (inl 4%nat)
  | OSystemResources s => inr (inr (inl (cpu_total s, cpus s, mem_total_bytes s, mem_used_bytes s)))
  | OServerStatus s => inr (inr (inr (inl s)))
  | OSaveList l => inr (inr (inr (inr (inl l))))
  | OSaveFile b => inr (inr (inr (inr (inr (inl b)))))
  | OModSettings b => inr (inr (inr (inr (inr (inr (inl b))))))
  | OModsList l => inr (inr (inr (inr (inr (inr (inr (inl l)))))))
  | ODlcList l => inr (inr (inr (inr (inr (inr (inr (inr (inl l))))))))
  | OConfigServerSettings c => inr (inr (inr (inr (inr (inr (inr (inr (inr (inl c)))))))))
  | OConfigSecrets s => inr (inr (inr (inr (inr (inr (inr (inr (inr (inr (inl ((λ x, (so_username x, so_token x)) <$> s)))))))))))
  | OConfigRcon r => inr (inr (inr (inr (inr (inr (inr (inr (inr (inr (inr (inl (rc_port r, rc_password r))))))))))))
  | OConfigWhiteList w => inr (inr (inr (inr (inr (inr (inr (inr (inr (inr (inr (inr (inl (wo_enabled w, wo_users w)))))))))))))
  | OConfigAdminList l => inr (inr (inr (inr (inr (inr (inr (inr (inr (inr (inr (inr (inr (inl (true, l))))))))))))))
  | OConfigBanList l => inr (inr (inr (inr (inr (inr (inr (inr (inr (inr (inr (inr (inr (inl (false, l))))))))))))))
  | OMessage s => inr (inr (inr (inr (inr (inr (inr (inr (inr (inr (inr (inr (inr (inr ((0%nat, s)))))))))))))))
  | OError s => inr (inr (inr (inr (inr (inr (inr (inr (inr (inr (inr (inr (inr (inr ((1%nat, s)))))))))))))))
  | OFactorioVersion s => inr (inr (inr (inr (inr (inr (inr (inr (inr (inr (inr (inr (inr (inr ((2%nat, s)))))))))))))))
  | ORconResponse s => inr (inr (inr (inr (inr (inr (inr (inr (inr (inr (inr (inr (inr (inr ((3%nat, s)))))))))))))))
  end.

Definition of_code (x : OutCode) : AgentOutMessage :=
  match x with
  | inl v =>
      OAgentBuildVersion (MkBuildVersion v.1 v.2)
  | inr (inl n) =>
      match n with 0 => OOk | 1 => OConflictingOperation | 2 => OMissingSecrets | 3 => ONotInstalled
      | _ => OSaveNotFound end%nat
  | inr (inr (inl s)) =>
      OSystemResources (MkSystemResources s.1.1.1 s.1.1.2 s.1.2 s.2)
  | inr (inr (inr (inl s))) =>
      OServerStatus s
  | inr (inr (inr (inr (inl l)))) =>
      OSaveList l
  | inr (inr (inr (inr (inr (inl b))))) =>
      OSaveFile b
  | inr (inr (inr (inr (inr (inr (inl b)))))) =>
      OModSettings b
  | inr (inr (inr (inr (inr (inr (inr (inl l))))))) =>
      OModsList l
  | inr (inr (inr (inr (inr (inr (inr (inr (inl l)))))))) =>
      ODlcList l
  | inr (inr (inr (inr (inr (inr (inr (inr (inr (inl c))))))))) =>
      OConfigServerSettings c
  | inr (inr (inr (inr (inr (inr (inr (inr (inr (inr (inl s)))))))))) =>
      OConfigSecrets ((λ x, MkSecretsObject x.1 x.2) <$> s)
  | inr (inr (inr (inr (inr (inr (inr (inr (inr (inr (inr (inl r))))))))))) =>
      OConfigRcon (MkRconConfig r.1 r.2)
  | inr (inr (inr (inr (inr (inr (inr (inr (inr (inr (inr (inr (inl w)))))))))))) =>
      OConfigWhiteList (MkWhitelistObject w.1 w.2)
  | inr (inr (inr (inr (inr (inr (inr (inr (inr (inr (inr (inr (inr (inl l))))))))))))) =>
      if l.1 : bool then OConfigAdminList l.2 else OConfigBanList l.2
  | inr (inr (inr (inr (inr (inr (inr (inr (inr (inr (inr (inr (inr (inr (s)))))))))))))) =>
      match s.1 with 0 => OMessage s.2 | 1 => OError s.2 | 2 => OFactorioVersion s.2
      | _ => ORconResponse s.2 end%nat
  end.

#[export] Instance OutCode_countable : Countable OutCode.
Proof. unfold OutCode. apply _. Defined.
#[export] Instance AgentOutMessage_countable : Countable AgentOutMessage.
Proof.
  refine (inj_countable' to_code of_code _).
  intros m. destruct m as [| | |v| | | |w|r|o| | | | | | | | | | | | |s]; try done.
  - by destruct v.
  - by destruct w.
  - by destruct r.
  - by destruct o as [[]|].
  - by destruct s.
Defined.

#[export] Instance AgentResponseWithId_countable : Countable AgentResponseWithId.
Proof.
  by refine (inj_countable' (λ r, (rs_operation_id r, rs_status r, rs_timestamp r, rs_content r))
    (λ x, MkResponse x.1.1.1 x.1.1.2 x.1.2 x.2) _); intros [].
Defined.

#[export] Instance AgentStreamingMessage_countable : Countable AgentStreamingMessage.
Proof.
  by refine (inj_countable' (λ m, (sm_timestamp m, sm_server_stdout m))
    (λ x, MkStreaming x.1 x.2) _); intros [].
Defined.

#[export] Existing Instances LaunchSettings.eq_dec Secrets.eq_dec.

Section settings.
#[local] Instance IpAddr_eq : EqDecision IpAddr.
Proof. solve_decision. Defined.
#[local] Instance SocketAddr_eq : EqDecision SocketAddr.
Proof. solve_decision. Defined.
#[local] Instance IpAddr_countable : Countable IpAddr.
Proof.
  by refine (inj_countable'
    (λ ip, match ip with V4 a b c d => inl (a, b, c, d) | V6 t => inr t end)
    (λ x, match x with inl y => V4 y.1.1.1 y.1.1.2 y.1.2 y.2 | inr t => V6 t end) _); intros [].
Defined.
#[local] Instance SocketAddr_countable : Countable SocketAddr.
Proof.
  by refine (inj_countable' (λ a, (sa_ip a, sa_port a)) (λ x, MkSocketAddr x.1 x.2) _); intros [].
Defined.

#[export] Instance LaunchSettings_countable : Countable LaunchSettings.t.
Proof.
  by refine (inj_countable'
    (λ l, (LaunchSettings.server_bind l, LaunchSettings.rcon_bind l,
           LaunchSettings.rcon_password l, LaunchSettings.use_whitelist l))
    (λ x, LaunchSettings.Mk x.1.1.1 x.1.1.2 x.1.2 x.2) _); intros [].
Defined.
End settings.

#[export] Instance Secrets_countable : Countable Secrets.t.
Proof.
  by refine (inj_countable' (λ s, (Secrets.username s, Secrets.token s))
    (λ x, Secrets.Mk x.1 x.2) _); intros [].
Defined.

(** ** The environment *)

Module Calm.
#[export] Instance io : IoEnv := {|
  io_fault _ := None;
  io_torn _ := None;
  io_left _ _ := true;
  io_now _ := 1000%Z;
  io_dir_modified _ := 0%Z;
|}.

Lemma calm : no_faults.
Proof. by intros n. Qed.

(** Every address is answered with its own text. *)
#[export] Instance net : NetEnv := {|
  net_get _ uri := Ok (MkHttpResponse None (Ok (bytes_of uri)));
  temp_dir := [RootDir; Normal "tmp"];
|}.

#[export] Instance regex : RegexEngine := backtrack.
#[export] Instance tasks : TaskEnv := {| task_keys _ := []; task_cut _ := 1%nat |}.
#[export] Instance portal : ModPortal := {|
  mod_info_from_json _ := Ok [MkRelease "1.0.0" "/download"];
|}.
#[export] Instance zip : ZipEnv := {|
  zip_entries _ := Ok [("save/level.dat0", Ok [])];
  zip_upstream _ := "upstream";
  parse_save_header _ := Ok [MkHeaderMod "base" "2.0.0"; MkHeaderMod "rso" "1.0.0"];
|}.
#[export] Instance launch : LaunchEnv := {|
  env_factorio_port := 34197%Z;
  env_factorio_rcon_port := 27015%Z;
  env_random_password _ := "generated";
|}.
#[export] Instance uuid : UuidEnv := {| uuid_v4 := pretty |}.
#[export] Instance debug_error : DebugError := {|
  debug e := match e with Io NotFound => "Io(NotFound)" | _ => "error" end;
  debug_io e := match e with NotFound => "NotFound" | _ => "error" end;
|}.

(** The archives hold an empty directory. *)
#[export] Instance archive : Archive := {| tar_unpack _ p := fs_create_dir_all p |}.

#[export] Instance archive_laws : ArchiveLaws.
Proof.
  split; intros b p w; cbn [tar_unpack archive].
  - intros q H1 H2. apply (wp_fs_create_dir_all p (λ _ w', node_of (files w') q = node_of (files w) q)).
    intros r m' _ Hlong _ _ _. by apply Hlong.
  - intros q n _ Hn.
    apply (wp_fs_create_dir_all p (λ _ w', node_of (files w') q = Some n)). intros r m' Hk _ _ _ _. by apply Hk.
  - apply (wp_fs_create_dir_all p (λ r w', r = Ok () → node_at (files w') p = Some Dir)).
    intros r m' _ _ _ Hd _. exact Hd.
Qed.

#[export] Instance proc : ProcEnv := {|
  spawn_fault _ := None;
  try_wait_result _ _ := Ok None;
  sigterm_fault _ := None;
  wait_result _ _ := Ok 0%Z;
  rcon_connect _ _ _ := None;
  rcon_cmd _ _ _ := Ok "";
  sysinfo_lock _ := true;
  sysinfo _ := MkSystemResources 0 [] 0 0;
|}.

#[export] Instance agent : AgentEnv := {|
  build_timestamp := "2024-01-01T00:00:00Z";
  git_sha := None;
  vm_lock _ := true;
  hash_next _ m := head (map_to_list m);
  exit_status_text _ := "exit status: 0";
|}.

#[export] Instance agent_laws : AgentLaws.
Proof.
  split; cbn.
  - intros _ m v f H. apply elem_of_map_to_list. destruct (map_to_list m) as [|x l]; [done|].
    cbn in H. simplify_eq. by left.
  - intros _ m H. apply map_to_list_empty_iff. by destruct (map_to_list m).
Qed.

(** The mod settings are kept as they are. *)
#[export] Instance settings : SettingsFile bytes := {|
  settings_try_from b := Ok b;
  settings_try_into b := Ok b;
|}.

#[export] Instance codec {A} `{Countable A} : Codec A := countable_codec.
#[export] Instance codec_laws {A} `{Countable A} : CodecLaws A := countable_codec_laws.
#[export] Instance codec_total {A} `{Countable A} : CodecTotal A := countable_codec_total.

(** Requests are read from a table. *)
Definition requests (t : list (string * AgentRequestWithId)) : Codec AgentRequestWithId :=
  table_codec t.

(** The directories of a deployment, and files in them. *)
Definition mkfile (b : bytes) : node := File (MkFile b 0 (Some 0%Z)).
Definition text {A} `{Countable A} (a : A) : node := mkfile (bytes_of (bits_of (encode a))).
Definition dirs : fs :=
  {[ parse_path "data" := Dir; CONFIG_DIR := Dir; MOD_DIR := Dir; SAVEFILE_DIR := Dir;
     FACTORIO_INSTALL_DIR := Dir; [RootDir; Normal "tmp"] := Dir; cache_dir := Dir ]}.
Definition disk_of (m : fs) : IoW := MkIo (m ∪ dirs) 0.
Definition idle_proc (m : fs) : ProcW := ProcessManager.new (disk_of m).
Definition agent_of (m : fs) : AgentW :=
  MkAgentW (idle_proc m) (VersionManager.Mk FACTORIO_INSTALL_DIR ∅) [] [].

Lemma stored_mkfile m p b : node_at m p = Some (mkfile b) → stored m p b.
Proof. intros H. by exists (MkFile b 0 (Some 0%Z)). Qed.
Lemma saved_text {A} `{Countable A} m p (a : A) : node_at m p = Some (text a) → saved m p a.
Proof. intros Ha. eexists. split; [done|]. by apply stored_mkfile. Qed.
End Calm.
