(* ===== verification/MgmtErrors.v ===== *)
(** * MgmtErrors: src/src/mgmt-server/error.rs

    The errors of the management server, and the HTTP answer each one is. *)

From S2P Require Import Prelude Text Io Errors.

Module Mgmt.

(** The payloads of the external error types are their text. *)
Inductive Error :=
| AgentCommunicationError
| AgentDisconnected
| AgentInternalError (s : string)
| AgentTimeout
| AuthInvalid
| AuthRefreshUnavailable
| BadRequest (s : string)
| Db (s : string)
| InternalMessaging (s : string)
| Misconfiguration (s : string)
| MetricInvalidKey (s : string)
| NotImplemented
| Rpc (s : string)
| FactorioDatFileParseError (e : string)
| DiscordAlertingDisabled
| InvalidLink
| ModSettingsNotInitialised
| SaveNotFound
| SecretsNotInitialised
| DbExternal (e : string)
| Discord (e : string)
| Io (k : IoErrorKind)
| Json (e : string)
| Reqwest (e : string)
| WebSocket (e : string).

(** The status codes of Rocket's [Status] constants. *)
Definition status (e : Error) : Z :=
  match e with
  | AgentCommunicationError | AgentDisconnected | WebSocket _ => 502
  | AgentTimeout => 504
  | AgentInternalError _ | Db _ | DbExternal _ | Discord _ | DiscordAlertingDisabled
  | InternalMessaging _ | Io _ | Json _ | Reqwest _ | FactorioDatFileParseError _
  | Misconfiguration _ | NotImplemented | Rpc _ => 500
  | BadRequest _ | AuthInvalid | AuthRefreshUnavailable | MetricInvalidKey _ => 400
  | SaveNotFound | InvalidLink => 404
  | ModSettingsNotInitialised | SecretsNotInitialised => 204
  end%Z.

Record ErrorResponse := MkErrorResponse { error : string }.

(** [{:?}] of an error, derived by the compiler. *)
Class DebugMgmtError := { debug : Error → string }.

(** The answer: its status, its content type and its body. *)
Record Response := MkResponse { r_status : Z; content_type : string; body : string }.

Definition respond_to `{DebugMgmtError, Codec ErrorResponse} (e : Error) : Response :=
  let json := match enc (MkErrorResponse (debug e)) with
              | Ok s => s
              | Err _ => "{{" +:+ String "034" "error" +:+ String "034" ": " +:+
                         String "034" "error serialising error message!" +:+ String "034" "}}"
              end in
  MkResponse (status e) "application/json" json.
End Mgmt.
