(* ===== verification/Order.v ===== *)
(** * Order: the byte order of strings, and cutting and padding them

    The rest of the standard library's [str] that the keys of the database
    need: the order of [Ord for str] ([String.leb] is the order of the bytes),
    [split_at], [trim_start_matches], [trim_end_matches], [repeat] and the
    padding of [format!("{:0>12}")]. *)

From S2P Require Import Prelude Text.
From stdpp Require Export sorting.

(** ** Operations *)

Fixpoint repeat_char (c : ascii) (n : nat) : string :=
  match n with O => "" | S n' => String c (repeat_char c n') end.

(** [{:0>width}] *)
Definition pad_left (c : ascii) (width : nat) (s : string) : string :=
  repeat_char c (width - String.length s) +:+ s.

(** [s.split_at(n)], which panics ([None]) when [n] is past the end or inside
    a character. *)
Definition is_char_boundary (s : string) : bool :=
  match s with String c _ => negb (cont c) | EmptyString => true end.
Fixpoint split_at (n : nat) (s : string) : option (string * string) :=
  match n, s with
  | O, _ => if is_char_boundary s then Some ("", s) else None
  | S n', String c s' => prod_map (String c) id <$> split_at n' s'
  | S _, EmptyString => None
  end.

Fixpoint trim_start_matches (c : ascii) (s : string) : string :=
  match s with
  | String d s' => if Ascii.eqb d c then trim_start_matches c s' else s
  | EmptyString => ""
  end.
Fixpoint trim_end_matches (c : ascii) (s : string) : string :=
  match s with
  | String d s' =>
      match trim_end_matches c s' with
      | EmptyString => if Ascii.eqb d c then "" else String d ""
      | t => String d t
      end
  | EmptyString => ""
  end.

(** ** What they do *)

Lemma repeat_char_length c n : String.length (repeat_char c n) = n.
Proof. induction n as [|n IH]; cbn; [done|by rw IH]. Qed.

Lemma pad_left_length c width s :
  (String.length s <= width)%nat → String.length (pad_left c width s) = width.
Proof. intros H. unfold pad_left. rw sapp_length repeat_char_length. lia. Qed.

Lemma split_at_app n a b :
  String.length a = n → is_char_boundary b = true → split_at n (a +:+ b) = Some (a, b).
Proof. intros <- Hb. induction a as [|c a IH]; cbn; [by rw Hb|by rw IH]. Qed.

Lemma str_has_cons c d s : str_has c (String d s) = Ascii.eqb d c || str_has c s.
Proof. unfold str_has. cbn. by rw negb_andb negb_involutive. Qed.

Lemma trim_end_repeat c s n :
  str_has c s = false → trim_end_matches c (s +:+ repeat_char c n) = s.
Proof.
  induction s as [|d s IH].
  - intros _. cbn. induction n as [|n IH]; cbn; [done|]. by rw IH Ascii.eqb_refl.
  - rw str_has_cons orb_false_iff. intros [Hd Hs]. cbn. rw (IH Hs). destruct s; [|done]. by rw Hd.
Qed.

Lemma trim_start_none c s : str_has c s = false → trim_start_matches c s = s.
Proof. destruct s as [|d s]; [done|]. rw str_has_cons orb_false_iff. cbn. by intros [-> _]. Qed.

Lemma str_has_none (p : ascii → bool) c s : p c = false → str_all p s = true → str_has c s = false.
Proof.
  intros Hc. induction s as [|d s IH]; [done|]. cbn [str_all]. rw andb_true_iff str_has_cons.
  intros [Hd Hs]. rw (IH Hs) orb_false_r. apply Ascii.eqb_neq. intros ->. by rw Hc in Hd.
Qed.

Lemma str_has_repeat c d n : d ≠ c → str_has c (repeat_char d n) = false.
Proof.
  intros H. induction n as [|n IH]; [done|]. cbn [repeat_char]. rw str_has_cons IH orb_false_r.
  by apply Ascii.eqb_neq.
Qed.

(** A well-formed text starts at a character. *)
Lemma valid_boundary s : valid_utf8 s = true → is_char_boundary s = true.
Proof.
  destruct s as [|c s]; [done|]. unfold valid_utf8, is_char_boundary. cbn.
  destruct (cont c) eqn:Hc; [|done]. unfold utf8_next, utf8_lead, cont, byte_in in *.
  apply andb_true_iff in Hc as [H1 H2]. apply N.leb_le in H1, H2.
  repeat match goal with
  | |- context [(?a <=? ?b)%N] => destruct (N.leb_spec a b); try lia
  end; done.
Qed.

(** ** The byte order *)

Lemma ascii_compare_refl c : Ascii.compare c c = Eq.
Proof. apply N.compare_refl. Qed.

Lemma leb_app p a b : String.leb (p +:+ a) (p +:+ b) = String.leb a b.
Proof.
  unfold String.leb. induction p as [|c p IH]; [done|]. cbn.
  by rw ascii_compare_refl.
Qed.

(** What lies between two texts with a common beginning has it too. *)
Lemma between_prefix p a b k :
  String.leb (p +:+ a) k = true → String.leb k (p +:+ b) = true → ∃ c, k = p +:+ c.
Proof.
  revert k. unfold String.leb. induction p as [|x p IH]; intros k; [by exists k|].
  destruct k as [|y k]; cbn; [done|].
  destruct (Ascii.compare x y) eqn:Hxy; [|rw Ascii.compare_antisym Hxy /=|done].
  - apply Ascii.compare_eq_iff in Hxy. subst y. rw ascii_compare_refl.
    intros H1 H2. destruct (IH k H1 H2) as [c ->]. by exists c.
  - done.
Qed.

(** ** Decimal numbers of the same length *)

Lemma is_digit_val c : is_digit c = true → (0 <= digit_val c <= 9)%Z.
Proof.
  unfold is_digit, digit_val. rw andb_true_iff !N.leb_le. lia.
Qed.

Lemma parse_digits_range s : ∀ acc v,
  parse_digits acc s = Some v →
  (acc * 10 ^ Z.of_nat (String.length s) <= v < (acc + 1) * 10 ^ Z.of_nat (String.length s))%Z.
Proof.
  induction s as [|c s IH]; intros acc v; cbn [parse_digits String.length].
  { intros [= <-]. cbn. lia. }
  destruct (is_digit c) eqn:Hc; [|done]. intros Hv%IH. apply is_digit_val in Hc.
  rw Nat2Z.inj_succ Z.pow_succ_r; [|lia].
  assert (0 < 10 ^ Z.of_nat (String.length s))%Z by (apply Z.pow_pos_nonneg; lia). nia.
Qed.

(** The byte order of two numbers written with as many digits is their order. *)
Lemma digits_compare s1 : ∀ s2 acc v1 v2,
  String.length s1 = String.length s2 →
  parse_digits acc s1 = Some v1 → parse_digits acc s2 = Some v2 →
  String.compare s1 s2 = (v1 ?= v2)%Z.
Proof.
  induction s1 as [|c1 s1 IH]; intros [|c2 s2] acc v1 v2 Hl; try done; cbn [parse_digits].
  { intros [= <-] [= <-]. by rw Z.compare_refl. }
  injection Hl as Hl. destruct (is_digit c1) eqn:H1; [|done]. destruct (is_digit c2) eqn:H2; [|done].
  intros Hv1 Hv2. cbn. destruct (Ascii.compare c1 c2) eqn:Hc.
  - apply Ascii.compare_eq_iff in Hc. subst c2. by eapply IH.
  - symmetry. apply Z.compare_lt_iff. apply parse_digits_range in Hv1, Hv2. rw Hl in Hv1.
    unfold Ascii.compare in Hc. apply (proj1 (N.compare_lt_iff _ _)) in Hc.
    assert (digit_val c1 + 1 <= digit_val c2)%Z by (unfold digit_val; lia).
    assert (0 < 10 ^ Z.of_nat (String.length s2))%Z by (apply Z.pow_pos_nonneg; lia). nia.
  - symmetry. apply Z.compare_gt_iff. apply parse_digits_range in Hv1, Hv2. rw Hl in Hv1.
    unfold Ascii.compare in Hc. apply (proj1 (N.compare_gt_iff _ _)) in Hc.
    assert (digit_val c2 + 1 <= digit_val c1)%Z by (unfold digit_val; lia).
    assert (0 < 10 ^ Z.of_nat (String.length s2))%Z by (apply Z.pow_pos_nonneg; lia). nia.
Qed.

Lemma parse_digits_zeros n s : parse_digits 0 (repeat_char "0" n +:+ s) = parse_digits 0 s.
Proof. induction n as [|n IH]; [done|]. cbn. exact IH. Qed.

Lemma parse_digits_of_N (n : N) : parse_digits 0 (pretty n) = Some (Z.of_N n).
Proof.
  unfold pretty, pretty_N. case_decide as Hn; [by subst n|]. by rw parse_digits_pretty.
Qed.

(** A padded number reads as the number. *)
Lemma parse_uint_padded max width (n : N) :
  (Z.of_N n <= max)%Z → parse_uint max (pad_left "0" width (pretty n)) = Some (Z.of_N n).
Proof.
  intros Hmax. unfold pad_left. destruct (width - String.length (pretty n))%nat as [|k] eqn:Hk.
  { by apply parse_uint_pretty. }
  unfold parse_uint. cbn [repeat_char String.append].
  change (parse_digits 0 (String "0" (repeat_char "0" k +:+ pretty n)))
    with (parse_digits 0 (repeat_char "0" k +:+ pretty n)).
  rw parse_digits_zeros parse_digits_of_N. by destruct (Z.leb_spec (Z.of_N n) max); [|lia].
Qed.

Lemma padded_compare (width : nat) (n m : N) :
  (String.length (pretty n) <= width)%nat → (String.length (pretty m) <= width)%nat →
  String.compare (pad_left "0" width (pretty n)) (pad_left "0" width (pretty m)) = (n ?= m)%N.
Proof.
  intros Hn Hm. rw (digits_compare _ _ 0 (Z.of_N n) (Z.of_N m)).
  - by rw N2Z.inj_compare.
  - by rw !pad_left_length.
  - unfold pad_left. by rw parse_digits_zeros parse_digits_of_N.
  - unfold pad_left. by rw parse_digits_zeros parse_digits_of_N.
Qed.

(** ** The strict order, and sorted lists *)

Definition str_lt (a b : string) : Prop := String.compare a b = Lt.

#[export] Instance str_lt_dec a b : Decision (str_lt a b).
Proof. unfold str_lt. destruct (String.compare a b); [by right|by left|by right]. Defined.

Lemma str_compare_refl a : String.compare a a = Eq.
Proof. induction a as [|c a IH]; cbn; [done|]. by rw ascii_compare_refl. Qed.

Lemma str_compare_eq a b : String.compare a b = Eq ↔ a = b.
Proof. split; [apply String.compare_eq_iff|intros ->; apply str_compare_refl]. Qed.

Lemma str_lt_gt a b : str_lt a b ↔ String.compare b a = Gt.
Proof. unfold str_lt. rw (String.compare_antisym a b). by destruct (String.compare b a). Qed.

#[export] Instance str_lt_irrefl : Irreflexive str_lt.
Proof. intros a. unfold complement, str_lt. by rw str_compare_refl. Qed.

#[export] Instance str_lt_trans : Transitive str_lt.
Proof.
  unfold str_lt. intros a. induction a as [|x a IH]; intros [|y b] [|z c]; cbn; try done.
  assert (∀ p q, Ascii.compare p q = Lt ↔ (Ascii.N_of_ascii p < Ascii.N_of_ascii q)%N) as Hlt
    by (intros p q; apply N.compare_lt_iff).
  destruct (Ascii.compare x y) eqn:Hxy; destruct (Ascii.compare y z) eqn:Hyz; try done.
  - apply Ascii.compare_eq_iff in Hxy as <-. rw Hyz. apply IH.
  - apply Ascii.compare_eq_iff in Hxy as <-. by rw Hyz.
  - apply Ascii.compare_eq_iff in Hyz as <-. by rw Hxy.
  - apply (proj1 (Hlt _ _)) in Hxy, Hyz. assert (Ascii.compare x z = Lt) as -> by (apply (proj2 (Hlt _ _)); lia). done.
Qed.

Lemma leb_iff a b : String.leb a b = true ↔ a = b ∨ str_lt a b.
Proof.
  unfold String.leb, str_lt. destruct (String.compare a b) eqn:H; split; try done.
  - intros _. left. by apply str_compare_eq.
  - by right.
  - intros [->|?]; [|done]. by rw str_compare_refl in H.
Qed.

#[export] Instance leb_trans : Transitive (λ a b, String.leb a b = true).
Proof.
  intros a b c. rw !leb_iff. intros [->|H1] [->|H2]; auto. right. by etrans.
Qed.

Section sorted.
Context {A : Type} (R : relation A) `{!Irreflexive R, !Transitive R}.

Lemma sorted_NoDup l : StronglySorted R l → NoDup l.
Proof.
  induction 1 as [|x l _ IH Hx]; constructor; [|done]. intros Hin.
  rw Forall_forall in Hx. by apply (irreflexivity R x), Hx.
Qed.

(** A strictly sorted list is determined by its elements. *)
Lemma sorted_ext l1 l2 :
  StronglySorted R l1 → StronglySorted R l2 → (∀ x, x ∈ l1 ↔ x ∈ l2) → l1 = l2.
Proof.
  intros H1 H2 Hx. apply (StronglySorted_unique_strong R); [|done..|].
  - intros x y _ _ Hxy Hyx. exfalso. apply (irreflexivity R x). by etrans.
  - apply NoDup_Permutation; [by apply sorted_NoDup..|done].
Qed.

(** What follows a position of a strictly sorted list. *)
Lemma sorted_drop l n y :
  StronglySorted R l → l !! n = Some y → ∀ x, x ∈ drop n l ↔ x ∈ l ∧ (x = y ∨ R y x).
Proof.
  intros Hs Hy x. rw -(take_drop n l) in Hs. apply StronglySorted_app in Hs as (Hlt & _ & Hs).
  rw -{2}(take_drop n l) elem_of_app. assert (y ∈ drop n l) as Hin.
  { by rw (drop_S l y n Hy) elem_of_cons; left. }
  rw (drop_S l y n Hy) in Hs Hin Hlt |- *. apply StronglySorted_cons in Hs as [Hall _].
  rw Forall_forall in Hall. split.
  - intros Hx. split; [by right|]. apply elem_of_cons in Hx as [->|Hx]; [by left|]. right. by apply Hall.
  - intros [[Ht|Hd] Hor]; [|done]. exfalso.
    assert (R x y) as Hxy by by apply Hlt. destruct Hor as [->|Hyx]; [by apply (irreflexivity R y)|].
    apply (irreflexivity R x). by etrans.
Qed.

Lemma sorted_filter (P : A → Prop) `{∀ x, Decision (P x)} l :
  StronglySorted R l → StronglySorted R (filter P l).
Proof.
  induction 1 as [|x l Hs IH Hx]; [constructor|]. rw filter_cons. case_decide; [|done].
  apply StronglySorted_cons. split; [|done]. rw Forall_forall in Hx. rw Forall_forall.
  intros y Hy. apply list_elem_of_filter in Hy as [_ Hy]. by apply Hx.
Qed.

Lemma sorted_reverse l : StronglySorted R l → StronglySorted (flip R) (reverse l).
Proof.
  induction 1 as [|x l Hs IH Hx]; [constructor|]. rw reverse_cons. apply StronglySorted_app.
  split_and!; [|done|by repeat constructor]. intros a b Ha Hb. rw Forall_forall in Hx.
  rw list_elem_of_singleton in Hb. rw elem_of_reverse in Ha. subst b. by apply Hx.
Qed.
End sorted.

Lemma sorted_Forall2 {A B} (R : relation A) (R' : relation B) (Q : A → B → Prop) l l' :
  (∀ x y x' y', x ∈ l → y ∈ l → R x y → Q x x' → Q y y' → R' x' y') →
  StronglySorted R l → Forall2 Q l l' → StronglySorted R' l'.
Proof.
  intros HR Hs Hq. revert HR Hs. induction Hq as [|x x' l l' Hx Hq IH]; intros HR Hs; [constructor|].
  apply StronglySorted_cons in Hs as [Hall Hs]. apply StronglySorted_cons. split.
  - rw Forall_forall. intros y' Hy'. apply list_elem_of_lookup in Hy' as [i Hi].
    destruct (Forall2_lookup_r _ _ _ _ _ Hq Hi) as (y & Hy & Hyq). apply list_elem_of_lookup_2 in Hy.
    rw Forall_forall in Hall. eapply (HR x y); [by left|by right|by apply Hall|done|done].
  - apply IH; [|done]. intros a b a' b' Ha Hb. apply HR; by right.
Qed.

Lemma sorted_fmap_strong {A B} (R : relation A) (R' : relation B) (f : A → B) l :
  (∀ x y, x ∈ l → y ∈ l → R x y → R' (f x) (f y)) → StronglySorted R l → StronglySorted R' (f <$> l).
Proof.
  intros Hf Hs. apply (sorted_Forall2 R R' (λ x y, y = f x) l); [|done|].
  - intros x y x' y' Hx Hy Hxy -> ->. by apply Hf.
  - clear. induction l; by constructor.
Qed.

(** A list whose elements with a property come first. *)
Lemma filter_first {A} (P : A → Prop) `{∀ x, Decision (P x)} l :
  StronglySorted (λ a b, P b → P a) l → l = filter P l ++ filter (λ x, ¬ P x) l.
Proof.
  induction 1 as [|x l Hs IH Hx]; [done|]. rw !filter_cons. destruct (decide (P x)) as [Hp|Hp].
  - rw decide_False; [by cbn; f_equal|naive_solver].
  - rw decide_True; [|done]. assert (filter P l = []) as Hnil.
    { destruct (filter P l) as [|y l'] eqn:Hf; [done|]. exfalso.
      assert (y ∈ filter P l) as [Hy Hin]%list_elem_of_filter by (rw Hf; by left).
      rw Forall_forall in Hx. by apply Hp, (Hx y). }
    rw Hnil in IH |- *. cbn in *. by rw -IH.
Qed.

(** ** Well-formed text *)

Lemma utf8_next_app c a b n :
  utf8_next c a = Valid n → (Nat.pred n <= String.length a)%nat ∧ utf8_next c (a +:+ b) = Valid n.
Proof.
  unfold utf8_next. destruct (byte_in 0 127 c); [intros [= <-]; cbn; split; [lia|done]|].
  destruct (utf8_lead c) as [[[k lo] hi]|]; [|done]. destruct a as [|c2 a]; [done|]. cbn.
  destruct (byte_in lo hi c2); [|done]. destruct (k =? 2)%nat; [intros [= <-]; cbn; split; [lia|done]|].
  destruct a as [|c3 a]; [done|]. cbn. destruct (cont c3); [|done].
  destruct (k =? 3)%nat; [intros [= <-]; cbn; split; [lia|done]|].
  destruct a as [|c4 a]; [done|]. cbn. destruct (cont c4); [|done]. intros [= <-]. cbn. split; [lia|done].
Qed.

Lemma valid_utf8_app a b : valid_utf8 a = true → valid_utf8 b = true → valid_utf8 (a +:+ b) = true.
Proof.
  unfold valid_utf8. intros Ha Hb.
  assert (∀ k, (k <= String.length a)%nat → (utf8_walk k true a).1 = true →
    (utf8_walk k true (a +:+ b)).1 = true) as H; [|apply H; [lia|done]].
  clear Ha. induction a as [|c a IH]; intros k Hk Ha; cbn in *.
  { by replace k with 0%nat by lia. }
  destruct k as [|k]; cbn in *; [|apply IH; [lia|done]].
  destruct (utf8_next c a) as [n|n] eqn:Hn; [|done].
  apply (utf8_next_app _ _ b) in Hn as [Hl ->]. cbn in *. by apply IH.
Qed.

Lemma repeat_char_plus c n m : repeat_char c n +:+ repeat_char c m = repeat_char c (n + m).
Proof. induction n as [|n IH]; cbn; [done|]. by rw IH. Qed.

Lemma str_all_repeat p c n : p c = true → str_all p (repeat_char c n) = true.
Proof. intros Hc. induction n as [|n IH]; [done|]. cbn. by rw Hc IH. Qed.

Lemma str_lt_app p a b : str_lt (p +:+ a) (p +:+ b) ↔ str_lt a b.
Proof.
  unfold str_lt. induction p as [|c p IH]; cbn; [done|]. by rw ascii_compare_refl.
Qed.

Lemma str_trichotomy a b : str_lt a b ∨ a = b ∨ str_lt b a.
Proof.
  destruct (String.compare a b) eqn:H; [right; left; by apply str_compare_eq|by left|].
  right. right. by apply str_lt_gt.
Qed.

(** ** Numbers of at most so many digits *)

Lemma pretty_N_go_length n s k :
  (n < 10 ^ N.of_nat k)%N → (String.length (pretty_N_go n s) <= String.length s + k)%nat.
Proof.
  revert n s. induction k as [|k IH]; intros n s Hn.
  { replace n with 0%N by (cbn in Hn; lia). rw pretty_N_go_0. lia. }
  destruct (decide (n = 0%N)) as [->|Hn0]; [rw pretty_N_go_0; lia|].
  rw pretty_N_go_step; [|lia]. etrans; [apply IH|cbn; lia].
  rw Nat2N.inj_succ N.pow_succ_r' in Hn. apply N.Div0.div_lt_upper_bound; lia.
Qed.

Lemma pretty_length_le (n : N) (k : nat) :
  (0 < k)%nat → (String.length (pretty n) <= k)%nat ↔ (n < 10 ^ N.of_nat k)%N.
Proof.
  intros Hk. split; intros H.
  - pose proof (parse_digits_range _ _ _ (parse_digits_of_N n)) as [_ Hn].
    assert (10 ^ Z.of_nat (String.length (pretty n)) <= 10 ^ Z.of_nat k)%Z
      by (apply Z.pow_le_mono_r; lia).
    apply N2Z.inj_lt. rw N2Z.inj_pow nat_N_Z. lia.
  - unfold pretty, pretty_N. case_decide; [done|]. by apply (pretty_N_go_length n "").
Qed.

Lemma digits_utf8 s : str_all is_digit s = true → valid_utf8 s = true.
Proof.
  intros H. apply valid_utf8_ascii. eapply str_all_impl; [|exact H]. intros c. unfold is_digit, byte_in.
  rw !andb_true_iff !N.leb_le. lia.
Qed.
