(* ===== verification/Db.v ===== *)
(** * Db: src/src/mgmt-server/db.rs

    The database of the management server: records in column families, read
    one at a time or in ranges.

    RocksDB is the interface [RocksDb]: its calls are routines on a state of
    its own, which decides which of them fail.  [RocksLaws] is what it
    documents: the contents of its column families are maps, a call that
    succeeds does what it says, and an iterator yields the records in the order
    of their keys, from where it was put, until it ends or fails. *)

From S2P Require Import Prelude Text Order MgmtErrors.

Open Scope st_scope.

(** ** RocksDB *)

Inductive Direction := Forward | Reverse.
Inductive IteratorMode := Start | End | From (key : string) (d : Direction).

Definition mode_direction (m : IteratorMode) : Direction :=
  match m with Start => Forward | End => Reverse | From _ d => d end.

Class RocksDb (S H : Type) := {
  rocks_cf_handle : string → S → option H;
  rocks_create_cf : string → ST S (result string ());
  rocks_get : H → string → ST S (result string (option string));
  rocks_put : H → string → string → ST S (result string ());
  rocks_iterator : H → IteratorMode → ST S (list (result string (string * string)));
}.

(** *** What an iterator yields *)

Definition kv_le (a b : string * string) : Prop := String.leb a.1 b.1 = true.


#[export] Instance kv_le_dec a b : Decision (kv_le a b).
Proof. unfold kv_le. apply _. Defined.

Definition listing (m : gmap string string) : list (string * string) := merge_sort kv_le (map_to_list m).

Definition scan (mode : IteratorMode) (m : gmap string string) : list (string * string) :=
  match mode with
  | Start => listing m
  | End => reverse (listing m)
  | From k Forward => filter (λ x, String.leb k x.1 = true) (listing m)
  | From k Reverse => reverse (filter (λ x, String.leb x.1 k = true) (listing m))
  end.

(** The records that a mode covers, and their order. *)
Definition covers (mode : IteratorMode) (k : string) : Prop :=
  match mode with
  | Start | End => True
  | From k0 Forward => String.leb k0 k = true
  | From k0 Reverse => String.leb k k0 = true
  end.
Definition comes_before (d : Direction) (a b : string * string) : Prop :=
  match d with Forward => str_lt a.1 b.1 | Reverse => str_lt b.1 a.1 end.

#[export] Instance comes_before_irrefl d : Irreflexive (comes_before d).
Proof. intros a. unfold complement. destruct d; cbn; apply str_lt_irrefl. Qed.
#[export] Instance comes_before_trans d : Transitive (comes_before d).
Proof. intros a b c. destruct d; cbn; intros H1 H2; by etrans. Qed.

Lemma elem_of_listing m x : x ∈ listing m ↔ m !! x.1 = Some x.2.
Proof. unfold listing. rw merge_sort_Permutation. destruct x. apply elem_of_map_to_list. Qed.

Lemma listing_sorted m : StronglySorted (comes_before Forward) (listing m).
Proof.
  assert (StronglySorted kv_le (listing m)) as Hs.
  { apply StronglySorted_merge_sort.
    - intros a b c. unfold kv_le. apply leb_trans.
    - intros a b. apply String.leb_total. }
  assert (NoDup (listing m).*1) as Hnd.
  { unfold listing. rw (merge_sort_Permutation kv_le). apply NoDup_fst_map_to_list. }
  revert Hnd. induction Hs as [|x l Hs IH Hx]; [constructor|]. cbn. rw NoDup_cons. intros [Hn Hnd].
  apply StronglySorted_cons. split; [|by apply IH]. rw Forall_forall in Hx. rw Forall_forall.
  intros y Hy. destruct (proj1 (leb_iff _ _) (Hx y Hy)) as [Heq|Hlt]; [|done].
  exfalso. apply Hn. rw Heq. by apply list_elem_of_fmap_2.
Qed.

Lemma scan_sorted mode m : StronglySorted (comes_before (mode_direction mode)) (scan mode m).
Proof.
  pose proof (listing_sorted m) as Hs.
  destruct mode as [| |k [|]]; cbn.
  - exact Hs.
  - apply (sorted_reverse (comes_before Forward)), Hs.
  - by apply (sorted_filter (comes_before Forward)).
  - apply (sorted_reverse (comes_before Forward)). by apply (sorted_filter (comes_before Forward)).
Qed.

Lemma elem_of_scan mode m x : x ∈ scan mode m ↔ m !! x.1 = Some x.2 ∧ covers mode x.1.
Proof.
  destruct mode as [| |k [|]]; cbn;
    rw ?elem_of_reverse ?list_elem_of_filter ?elem_of_listing; naive_solver.
Qed.

(** Going on from a record is what follows it. *)
Lemma scan_continue k d m n y :
  scan (From k d) m !! n = Some y → scan (From y.1 d) m = drop n (scan (From k d) m).
Proof.
  intros Hy. pose proof (scan_sorted (From k d) m) as Hs. cbn [mode_direction] in Hs.
  apply (sorted_ext (comes_before d)); [apply (scan_sorted (From y.1 d))| |].
  - rw -(take_drop n (scan _ m)) in Hs. by eapply StronglySorted_app_1_r.
  - intros x. rw (sorted_drop (comes_before d) _ n y Hs Hy) !elem_of_scan.
    apply list_elem_of_lookup_2 in Hy. rw elem_of_scan in Hy. destruct Hy as [Hm Hc].
    assert (m !! x.1 = Some x.2 → x.1 = y.1 → x = y) as Heq.
    { intros Hx Hxy. destruct x, y; cbn in *. subst. by rw Hm in Hx; simplify_eq. }
    destruct d; cbn in *; rw !leb_iff in Hc |- *; split.
    + intros [Hx [Hk|Hk]]; [by rw (Heq Hx (eq_sym Hk)); auto|].
      split_and!; [done| |by right]. right. destruct Hc as [->|Hc]; [done|by etrans].
    + intros [[Hx Hk] [->|Hyx]]; auto.
    + intros [Hx [Hk|Hk]]; [by rw (Heq Hx Hk); auto|].
      split_and!; [done| |by right]. right. destruct Hc as [<-|Hc]; [done|by etrans].
    + intros [[Hx Hk] [->|Hyx]]; auto.
Qed.

(** *** The laws *)

Class RocksLaws (S H : Type) `{RocksDb S H} := {
  contents : S → gmap string (gmap string string);
  cf_of : H → string;
  cf_handle_law n s : match rocks_cf_handle n s with
                      | Some h => cf_of h = n ∧ is_Some (contents s !! n)
                      | None => contents s !! n = None
                      end;
  create_cf_law n s : contents s !! n = None →
    wp (rocks_create_cf n) (λ r s', match r with
      | Ok _ => contents s' = <[n := ∅]> (contents s)
      | Err _ => contents s' = contents s
      end) s;
  get_law h k m s : contents s !! cf_of h = Some m →
    wp (rocks_get h k) (λ r s', contents s' = contents s ∧
      match r with Ok v => v = m !! k | Err _ => True end) s;
  put_law h k v m s : contents s !! cf_of h = Some m →
    wp (rocks_put h k v) (λ r s', match r with
      | Ok _ => contents s' = <[cf_of h := <[k := v]> m]> (contents s)
      | Err _ => contents s' = contents s ∨ contents s' = <[cf_of h := <[k := v]> m]> (contents s)
      end) s;
  iterator_law h mode m s : contents s !! cf_of h = Some m →
    wp (rocks_iterator h mode) (λ items s', contents s' = contents s ∧
      ∃ l e, items = (Ok <$> l) ++ e ∧
        ((l = scan mode m ∧ e = []) ∨ (l `prefix_of` scan mode m ∧ ∃ x, e = [Err x]))) s;
}.

(** No call fails. *)
Class RocksReliable (S H : Type) `{RocksDb S H} : Prop := {
  create_cf_ok n s : is_ok (rocks_create_cf n s).1 = true;
  get_ok h k s : is_ok (rocks_get h k s).1 = true;
  put_ok h k v s : is_ok (rocks_put h k v s).1 = true;
  iterator_ok h mode s : Forall (λ r, is_ok r = true) (rocks_iterator h mode s).1;
}.

(** ** The database *)

Record Cf := MkCf { cf_name : string }.
Record Record_ := MkRecord { key : string; value : string }.
Inductive RangeDirection := DirForward | DirBackward.
Record ReadRange := MkReadRange { records : list Record_; continue_from : option string }.

(** The bytes of RocksDB as a record. *)
Definition to_record (x : string * string) : Record_ := MkRecord (from_utf8_lossy x.1) (from_utf8_lossy x.2).

(** The loop of [read_range_internal], from its index [i], over what the
    iterator still yields; [count] is a [u32]. *)
Fixpoint read_records (items : list (result string (string * string))) (i count : Z) : list Record_ * option string :=
  if (i <? count)%Z then
    match items with
    | Ok x :: items' =>
        if (i =? count - 1)%Z then
          ([to_record x],
           match items' with Ok y :: _ => Some (from_utf8_lossy y.1) | _ => None end)
        else let r := read_records items' (i + 1) count in (to_record x :: r.1, r.2)
    | _ => ([], None)
    end
  else ([], None).

Section db.
Context {S H : Type} {DB : RocksDb S H}.

Definition create_cf (name : Cf) : ST S (result Mgmt.Error ()) :=
  st_map_err Mgmt.DbExternal (rocks_create_cf (cf_name name)).

Definition get_or_create_cf_handle (cf : Cf) : ST S (result Mgmt.Error H) :=
  found <- st_gets (rocks_cf_handle (cf_name cf)) ;;
  match found with
  | Some h => st_ret (Ok h)
  | None =>
      _ <-? create_cf cf ;;
      created <- st_gets (rocks_cf_handle (cf_name cf)) ;;
      st_ret match created with
             | Some h => Ok h
             | None => Err (Mgmt.Db "Could not create new CF")
             end
  end.

Definition read (cf : Cf) (k : string) : ST S (result Mgmt.Error (option Record_)) :=
  cfh <-? get_or_create_cf_handle cf ;;
  opt_value_bytes <-? st_map_err Mgmt.DbExternal (rocks_get cfh k) ;;
  st_ret (Ok ((λ v, MkRecord k (from_utf8_lossy v)) <$> opt_value_bytes)).

Definition read_range_internal (cfh : H) (mode : IteratorMode) (count : Z) :
    ST S (result Mgmt.Error ReadRange) :=
  iter <- rocks_iterator cfh mode ;;
  let r := read_records iter 0 count in
  st_ret (Ok (MkReadRange r.1 r.2)).

Definition read_range (cf : Cf) (k : string) (direction : RangeDirection) (count : Z) :
    ST S (result Mgmt.Error ReadRange) :=
  cfh <-? get_or_create_cf_handle cf ;;
  let mode := match direction with
              | DirForward => From k Forward
              | DirBackward => From k Reverse
              end in
  read_range_internal cfh mode count.

Definition read_range_head (cf : Cf) (count : Z) : ST S (result Mgmt.Error ReadRange) :=
  cfh <-? get_or_create_cf_handle cf ;;
  read_range_internal cfh Start count.

Definition read_range_tail (cf : Cf) (count : Z) : ST S (result Mgmt.Error ReadRange) :=
  cfh <-? get_or_create_cf_handle cf ;;
  read_range_internal cfh End count.

Definition write (cf : Cf) (record : Record_) : ST S (result Mgmt.Error ()) :=
  cfh <-? get_or_create_cf_handle cf ;;
  st_map_err Mgmt.DbExternal (rocks_put cfh (key record) (value record)).
End db.

(** ** A page *)

Definition page (l : list (string * string)) (count : Z) : ReadRange :=
  MkReadRange (to_record <$> take (Z.to_nat count) l)
    (if (0 <? count)%Z then (λ x, from_utf8_lossy x.1) <$> l !! Z.to_nat count else None).

(** The loop reads a page of what comes before the first error. *)
Lemma read_records_page l e i count :
  (0 <= i)%Z → (e = [] ∨ ∃ x, e = [Err x]) →
  let r := read_records ((Ok <$> l) ++ e) i count in MkReadRange r.1 r.2 = page l (count - i).
Proof.
  intros Hi He. revert i Hi. induction l as [|x l IH]; intros i Hi; cbn [fmap list_fmap app].
  { assert (read_records e i count = ([], None)) as ->.
    { destruct He as [->|[x ->]]; cbn; by destruct (i <? count)%Z. }
    cbv zeta. unfold page. rw take_nil lookup_nil. by destruct (0 <? count - i)%Z. }
  cbn [read_records]. destruct (Z.ltb_spec i count) as [Hlt|Hge].
  2: { unfold page. replace (Z.to_nat (count - i)) with 0%nat by lia.
       by destruct (Z.ltb_spec 0 (count - i)); [lia|]. }
  destruct (Z.eqb_spec i (count - 1)) as [->|Hne].
  - cbv zeta. unfold page. replace (count - (count - 1))%Z with 1%Z by lia. cbn. f_equal.
    destruct l as [|y l]; cbn; [|done]. by destruct He as [->|[z ->]].
  - specialize (IH (i + 1)%Z ltac:(lia)). cbv zeta in IH |- *.
    unfold page in *. injection IH as IH1 IH2. cbn [fst snd]. rw IH1 IH2.
    replace (Z.to_nat (count - i)) with (1 + Z.to_nat (count - (i + 1)))%nat by lia.
    destruct (Z.ltb_spec 0 (count - (i + 1))); [|lia]. destruct (Z.ltb_spec 0 (count - i)); [|lia].
    done.
Qed.

(** ** What the operations do *)

(** The contents once the column family is there. *)
Definition with_cf (n : string) (m : gmap string (gmap string string)) : gmap string (gmap string string) :=
  <[n := default ∅ (m !! n)]> m.
Definition cf_contents (n : string) (m : gmap string (gmap string string)) : gmap string string :=
  default ∅ (m !! n).

Section specs.
Context {S H : Type} {DB : RocksDb S H} {DL : RocksLaws S H}.

Lemma wp_get_or_create cf s (Q : result Mgmt.Error H → S → Prop) :
  (∀ h s', cf_of h = cf_name cf → contents s' = with_cf (cf_name cf) (contents s) → Q (Ok h) s') →
  (∀ e s', (RocksReliable S H → False) → contents s' = contents s → Q (Err e) s') →
  wp (get_or_create_cf_handle cf) Q s.
Proof.
  intros HQ HE. unfold get_or_create_cf_handle. apply wp_bind, wp_gets.
  pose proof (cf_handle_law (cf_name cf) s) as Hh. destruct (rocks_cf_handle (cf_name cf) s) as [h|].
  { destruct Hh as [Hh [m Hm]]. apply wp_ret, HQ; [done|]. unfold with_cf. rw Hm /=. by rw insert_id. }
  apply wp_try. unfold create_cf. apply wp_map_err. pose proof (create_cf_law _ _ Hh) as Hc.
  unfold wp in Hc |- * at 1. destruct (rocks_create_cf (cf_name cf) s) as [r s'] eqn:Hr. cbn in Hc |- *.
  destruct r as [[]|e]; cbn.
  - apply wp_bind, wp_gets. pose proof (cf_handle_law (cf_name cf) s') as Hh'.
    destruct (rocks_cf_handle (cf_name cf) s') as [h|].
    + apply wp_ret, HQ; [by destruct Hh'|]. unfold with_cf. by rw Hh.
    + by rw Hc lookup_insert_eq in Hh'.
  - apply HE; [|done]. intros Hrel. pose proof (create_cf_ok (cf_name cf) s) as Hok. by rw Hr in Hok.
Qed.

(** A range read, in whichever mode: a page of the records there are, up to
    the first failure of the iterator. *)
Definition range_post (cf : Cf) (mode : IteratorMode) (count : Z) (s : S)
    (r : result Mgmt.Error ReadRange) (s' : S) : Prop :=
  match r with
  | Ok rr =>
      contents s' = with_cf (cf_name cf) (contents s) ∧
      ∃ l, rr = page l count ∧ l `prefix_of` scan mode (cf_contents (cf_name cf) (contents s)) ∧
        (RocksReliable S H → l = scan mode (cf_contents (cf_name cf) (contents s)))
  | Err _ => (RocksReliable S H → False) ∧ contents s' = contents s
  end.

Lemma wp_range cf mode count s :
  wp (cfh <-? get_or_create_cf_handle cf ;; read_range_internal cfh mode count)
    (range_post cf mode count s) s.
Proof.
  apply wp_try, wp_get_or_create; [|done]. intros h s1 Hh Hc.
  unfold read_range_internal. apply wp_bind.
  assert (contents s1 !! cf_of h = Some (cf_contents (cf_name cf) (contents s))) as Hm.
  { rw Hc Hh. unfold with_cf. by rw lookup_insert_eq. }
  pose proof (iterator_law h mode _ s1 Hm) as Hi. unfold wp in Hi |- *.
  assert (RocksReliable S H → Forall (λ r, is_ok r = true) (rocks_iterator h mode s1).1) as Hok
    by (intros; apply iterator_ok).
  destruct (rocks_iterator h mode s1) as [items s2]. cbn [fst snd] in Hi, Hok |- *.
  destruct Hi as (Hc2 & l & e & -> & He). cbn [range_post]. split; [by rw Hc2|].
  exists l. split_and!.
  - pose proof (read_records_page l e 0 count ltac:(done)) as Hpg. rw Z.sub_0_r in Hpg. apply Hpg.
    destruct He as [[_ ->]|[_ He]]; [by left|by right].
  - by destruct He as [[-> _]|[He _]].
  - intros Hrel. destruct He as [[-> _]|[_ [x ->]]]; [done|]. apply Hok in Hrel.
    apply Forall_app in Hrel as [_ Hrel]. apply Forall_cons in Hrel as [Hrel _]. done.
Qed.

Lemma wp_read_range cf k direction count s :
  wp (read_range cf k direction count)
    (range_post cf (From k match direction with DirForward => Forward | DirBackward => Reverse end) count s) s.
Proof.
  pose proof (wp_range cf (From k match direction with DirForward => Forward | DirBackward => Reverse end)
    count s) as Hw. by destruct direction.
Qed.

(** Reading makes the column family when it is not there, and changes no record. *)
Definition same_records (s s' : S) : Prop :=
  ∀ n, cf_contents n (contents s') = cf_contents n (contents s).

Lemma range_post_same cf mode count s r s' : range_post cf mode count s r s' → same_records s s'.
Proof.
  assert (∀ n, cf_contents n (with_cf (cf_name cf) (contents s)) = cf_contents n (contents s)) as Hw.
  { intros n. unfold cf_contents, with_cf. destruct (decide (cf_name cf = n)) as [->|Hne].
    - by rw lookup_insert_eq.
    - by rw lookup_insert_ne. }
  unfold same_records. destruct r as [rr|e]; cbn; [intros [-> _]|intros [_ ->]]; auto.
Qed.

(** ** Pages of a range *)

Definition range_mode (k : string) (direction : RangeDirection) : IteratorMode :=
  From k match direction with DirForward => Forward | DirBackward => Reverse end.

(** C32: A page of a range.  What is read is the first [count] of the records
    that the iterator yields before it ends or fails, in the order of the asked
    direction from the asked key; the page says where to continue exactly when
    the iterator yields one more, and the range from there is what is left of
    the range.  So when no call fails and the keys are text, pages that follow
    each other give the range once and in order; when the iterator fails within
    the page, the page is short and says that the range ends there.  No record
    is changed. *)
Theorem read_range_page cf k direction count s :
  let range q := scan (range_mode q direction) (cf_contents (cf_name cf) (contents s)) in
  (0 < count)%Z → Forall (λ x, valid_utf8 x.1 = true) (range k) →
  wp (read_range cf k direction count) (λ r s', same_records s s' ∧
    match r with
    | Ok rr => ∃ l unread, range k = l ++ unread ∧ (RocksReliable S H → unread = []) ∧
        records rr = to_record <$> take (Z.to_nat count) l ∧
        match continue_from rr with
        | Some k' => (Z.to_nat count < length l)%nat ∧ range k' = drop (Z.to_nat count) (range k)
        | None => (length l <= Z.to_nat count)%nat
        end
    | Err _ => RocksReliable S H → False
    end) s.
Proof.
  intros range Hcount Hutf. eapply wp_wand; [apply wp_read_range|]. intros r s1 Hr.
  split; [by eapply range_post_same|]. destruct r as [rr|]; cbn [range_post] in Hr; [|by intros HR; destruct (proj1 Hr HR)].
  destruct Hr as (Hc & l & -> & [unread Hl] & Hrel). exists l, unread.
  change (range k = l ++ unread) in Hl. split_and!; [exact Hl| |done|].
  - intros HR. specialize (Hrel HR). change (l = range k) in Hrel. rw Hl in Hrel.
    apply (f_equal length) in Hrel. rw length_app in Hrel. by destruct unread; [|cbn in Hrel; lia].
  - unfold page. destruct (Z.ltb_spec 0 count); [|lia]. cbn [continue_from].
    destruct (l !! Z.to_nat count) as [y|] eqn:Hy; cbn [fmap option_fmap option_map]; [|by apply lookup_ge_None in Hy].
    assert (range k !! Z.to_nat count = Some y) as Hky by (rw Hl; by apply lookup_app_l_Some).
    split; [by eapply lookup_lt_Some|]. rw from_utf8_lossy_valid; [by apply scan_continue|].
    rw Forall_forall in Hutf. apply Hutf. by eapply list_elem_of_lookup_2.
Qed.

(** ** Records *)

Lemma wp_db_read cf k s :
  wp (read cf k) (λ r s', match r with
    | Ok v => contents s' = with_cf (cf_name cf) (contents s) ∧
        v = (λ v, MkRecord k (from_utf8_lossy v)) <$> cf_contents (cf_name cf) (contents s) !! k
    | Err _ => RocksReliable S H → False
    end) s.
Proof.
  apply wp_try, wp_get_or_create; [|done]. intros h s1 Hh Hc.
  assert (contents s1 !! cf_of h = Some (cf_contents (cf_name cf) (contents s))) as Hm.
  { rw Hc Hh. unfold with_cf. by rw lookup_insert_eq. }
  pose proof (get_law h k _ s1 Hm) as Hg. assert (RocksReliable S H → is_ok (rocks_get h k s1).1 = true) as Hok
    by (intros; apply get_ok).
  unfold wp in Hg. apply wp_try, wp_map_err. unfold wp at 1. destruct (rocks_get h k s1) as [[v|e] s2]; cbn in *.
  - destruct Hg as [Hc2 ->]. by rw Hc2.
  - intros Hr. by apply Hok in Hr.
Qed.

Lemma wp_write cf record s :
  wp (write cf record) (λ r s', match r with
    | Ok _ => contents s' =
        <[cf_name cf := <[key record := value record]> (cf_contents (cf_name cf) (contents s))]> (contents s)
    | Err _ => RocksReliable S H → False
    end) s.
Proof.
  apply wp_try, wp_get_or_create; [|done]. intros h s1 Hh Hc.
  assert (contents s1 !! cf_of h = Some (cf_contents (cf_name cf) (contents s))) as Hm.
  { rw Hc Hh. unfold with_cf. by rw lookup_insert_eq. }
  pose proof (put_law h (key record) (value record) _ s1 Hm) as Hp.
  assert (RocksReliable S H → is_ok (rocks_put h (key record) (value record) s1).1 = true) as Hok
    by (intros; apply put_ok).
  unfold wp in Hp. apply wp_map_err. unfold wp. destruct (rocks_put _ _ _ s1) as [[[]|e] s2]; cbn in *.
  - rw Hp Hc Hh. unfold with_cf. by rw insert_insert_eq.
  - intros Hr. by apply Hok in Hr.
Qed.

(** A record that is reported as written is what reading its key in its
    column family gives; every other key, of this column family and of the
    others, reads as it did before; a read can only fail when a call of the
    database does. *)
Theorem write_read cf record s :
  wp (write cf record) (λ r s', match r with
    | Ok _ => ∀ cf' k',
        match (read cf' k' s').1 with
        | Ok v => v = if decide (cf_name cf' = cf_name cf ∧ k' = key record)
                      then Some (MkRecord k' (from_utf8_lossy (value record)))
                      else (λ v, MkRecord k' (from_utf8_lossy v)) <$>
                             cf_contents (cf_name cf') (contents s) !! k'
        | Err _ => RocksReliable S H → False
        end
    | Err _ => RocksReliable S H → False
    end) s.
Proof.
  eapply wp_wand; [apply wp_write|]. cbv beta. intros [[]|e] s2 Hw; [|done].
  intros cf' k'. pose proof (wp_db_read cf' k' s2) as Hr. unfold wp in Hr.
  destruct (read cf' k' s2) as [[v|e] s3]; cbn in *; [|done]. destruct Hr as [_ ->].
  rw Hw. unfold cf_contents. destruct (decide (cf_name cf = cf_name cf')) as [Heq|Hne].
  - rw Heq lookup_insert_eq /=. destruct (decide (key record = k')) as [<-|Hk].
    + rw lookup_insert_eq. by rw decide_True.
    + rw lookup_insert_ne // decide_False; [done|naive_solver].
  - rw lookup_insert_ne // decide_False; [done|naive_solver].
Qed.
End specs.
