(* ===== verification/Metrics.v ===== *)
(** * Metrics: src/src/mgmt-server/metrics.rs and routes/metrics.rs

    Data points of metrics, the keys under which the database has them, and
    the pages of a metric that the management server hands out.

    A key is 64 bytes long: the period, the name of the metric padded with
    [#], and the tick padded with zeros, so that the order of the keys is that
    of the ticks of each metric. *)

From S2P Require Import Prelude Text Order MgmtErrors Db.

Open Scope st_scope.

(** [f64]: the texts it reads and the text it is written as. *)
Class F64 := {
  f64 : Type;
  f64_zero : f64;
  f64_parse : string → option f64;
  f64_to_string : f64 → string;
}.
Class F64Laws `{F64} : Prop := {
  f64_roundtrip x : f64_parse (f64_to_string x) = Some x;
  f64_text x : valid_utf8 (f64_to_string x) = true;
}.

(** [str::to_lowercase], by the tables of Unicode; in ASCII it is this. *)
Definition ascii_lower (c : ascii) : ascii :=
  if byte_in 65 90 c then Ascii.ascii_of_N (Ascii.N_of_ascii c + 32) else c.
Fixpoint string_lower (s : string) : string :=
  match s with "" => "" | String c s' => String (ascii_lower c) (string_lower s') end.
Class UnicodeCase := {
  to_lowercase : string → string;
  to_lowercase_ascii s : str_all (byte_in 0 127) s = true → to_lowercase s = string_lower s;
}.

Definition METRICS_CF_PREFIX : string := "metrics".
Definition MAX_METRIC_NAME_LENGTH : nat := 44.
Definition MAX_TICK_STRING_LENGTH : nat := 12.
(** 12 digits *)
Definition MAX_TICK : N := 999999999999.

(** ** Periods and ticks *)

Module MetricPeriod.
Inductive t := PT24H | PT12H | PT06H | PT01H | PT30M | PT05M | PT01M | PT30S | PT05S.

#[export] Instance t_eq : EqDecision t.
Proof. solve_decision. Defined.

Definition to_string (p : t) : string :=
  match p with
  | PT24H => "PT24H" | PT12H => "PT12H" | PT06H => "PT06H" | PT01H => "PT01H" | PT30M => "PT30M"
  | PT05M => "PT05M" | PT01M => "PT01M" | PT30S => "PT30S" | PT05S => "PT05S"
  end.

Definition try_from (value : string) : result Mgmt.Error t :=
  if bool_decide (value = "PT24H") then Ok PT24H
  else if bool_decide (value = "PT12H") then Ok PT12H
  else if bool_decide (value = "PT06H") then Ok PT06H
  else if bool_decide (value = "PT01H") then Ok PT01H
  else if bool_decide (value = "PT30M") then Ok PT30M
  else if bool_decide (value = "PT05M") then Ok PT05M
  else if bool_decide (value = "PT01M") then Ok PT01M
  else if bool_decide (value = "PT30S") then Ok PT30S
  else if bool_decide (value = "PT05S") then Ok PT05S
  else Err (Mgmt.MetricInvalidKey ("Invalid metric period " +:+ value)).
End MetricPeriod.

Record Tick := MkTick { tick_n : N }.
Definition Tick_to_string (t : Tick) : string :=
  "T" +:+ pad_left "0" MAX_TICK_STRING_LENGTH (pretty (tick_n t)).

Definition get_cf (period : MetricPeriod.t) : Cf :=
  MkCf (METRICS_CF_PREFIX +:+ "_" +:+ MetricPeriod.to_string period).

(** ** Keys

    [None] is a panic: the subtraction of [usize] when the name is too long. *)
Definition pad_metric_name (metric_name : string) : option string :=
  if (String.length metric_name <=? MAX_METRIC_NAME_LENGTH)%nat
  then Some (metric_name +:+ repeat_char "#" (MAX_METRIC_NAME_LENGTH - String.length metric_name))
  else None.

Definition get_lookup_key (period : MetricPeriod.t) (metric_name : string) (tick : Tick) : option string :=
  padded ← pad_metric_name metric_name;
  Some (MetricPeriod.to_string period +:+ "#" +:+ padded +:+ "#" +:+ Tick_to_string tick).

Module DataPoint.
Section data_point.
Context {F : F64}.

Record t := Mk {
  metric_name : string;
  period : MetricPeriod.t;
  tick : Tick;
  value : f64;
}.

Definition validate_metric_name (name : string) : result Mgmt.Error () :=
  if str_has "#" name then
    Err (Mgmt.MetricInvalidKey ("Metric name " +:+ name +:+ " contains disallowed character '#'"))
  else if (MAX_METRIC_NAME_LENGTH <? String.length name)%nat then
    Err (Mgmt.MetricInvalidKey ("Metric name " +:+ name +:+ " longer than maximum supported length of "
                                +:+ pretty (N.of_nat MAX_METRIC_NAME_LENGTH) +:+ " bytes"))
  else Ok ().

Definition new (name : string) (p : MetricPeriod.t) (tk : Tick) (v : f64) : result Mgmt.Error t :=
  match validate_metric_name name with
  | Err e => Err e
  | Ok _ =>
      if (MAX_TICK_STRING_LENGTH <? String.length (pretty (tick_n tk)))%nat then
        Err (Mgmt.MetricInvalidKey ("Requested tick " +:+ pretty (tick_n tk)
               +:+ " greater than maximum supported tick of " +:+ repeat_char "9" MAX_TICK_STRING_LENGTH))
      else Ok (Mk name p tk v)
  end.

(** [None] is a panic of [split_at]. *)
Definition try_from (key : string) (v : f64) : option (result Mgmt.Error t) :=
  if negb (String.length key =? 64)%nat then
    Some (Err (Mgmt.MetricInvalidKey ("Given metric key '" +:+ key +:+ "' has an incorrect length")))
  else
    '(period_str, key) ← split_at 6 key;
    match MetricPeriod.try_from (trim_end_matches "#" period_str) with
    | Err e => Some (Err e)
    | Ok p =>
        '(name, key) ← split_at (MAX_METRIC_NAME_LENGTH + 1) key;
        let name := trim_end_matches "#" name in
        let tick_str := trim_start_matches "T" key in
        Some match parse_uint u64_max tick_str with
             | Some tick_u64 => new name p (MkTick (Z.to_N tick_u64)) v
             | None => Err (Mgmt.MetricInvalidKey ("Unable to parse tick value from '" +:+ tick_str +:+ "'"))
             end
    end.

Definition key (dp : t) : option string := get_lookup_key (period dp) (metric_name dp) (tick dp).
End data_point.
End DataPoint.

(** ** The key of a data point *)

Section keys.
Context {F : F64}.
Implicit Types dp : DataPoint.t.

(** What [DataPoint::new] lets through, of a name that is a string. *)
Record well_formed dp : Prop := {
  wf_hash : str_has "#" (DataPoint.metric_name dp) = false;
  wf_length : (String.length (DataPoint.metric_name dp) <= MAX_METRIC_NAME_LENGTH)%nat;
  wf_utf8 : valid_utf8 (DataPoint.metric_name dp) = true;
  wf_tick : (tick_n (DataPoint.tick dp) <= MAX_TICK)%N;
}.

Lemma validate_Ok name :
  DataPoint.validate_metric_name name = Ok () ↔
  str_has "#" name = false ∧ (String.length name <= MAX_METRIC_NAME_LENGTH)%nat.
Proof.
  unfold DataPoint.validate_metric_name. destruct (str_has "#" name); [naive_solver|].
  destruct (Nat.ltb_spec MAX_METRIC_NAME_LENGTH (String.length name)); naive_solver lia.
Qed.

Lemma tick_length (n : N) : (String.length (pretty n) <= MAX_TICK_STRING_LENGTH)%nat ↔ (n <= MAX_TICK)%N.
Proof. unfold MAX_TICK_STRING_LENGTH, MAX_TICK. rw pretty_length_le; [|lia]. cbn. lia. Qed.

Lemma new_Ok name p tk v dp :
  DataPoint.new name p tk v = Ok dp ↔
  dp = DataPoint.Mk name p tk v ∧ str_has "#" name = false ∧
  (String.length name <= MAX_METRIC_NAME_LENGTH)%nat ∧ (tick_n tk <= MAX_TICK)%N.
Proof.
  unfold DataPoint.new. pose proof (validate_Ok name) as Hv.
  destruct (DataPoint.validate_metric_name name) as [[]|e].
  2: { split; [done|]. intros (_ & H1 & H2 & _). pose proof (proj2 Hv (conj H1 H2)). done. }
  destruct (proj1 Hv eq_refl) as [H1 H2].
  rw -tick_length. destruct (Nat.ltb_spec MAX_TICK_STRING_LENGTH (String.length (pretty (tick_n tk)))).
  - split; [done|]. intros (_ & _ & _ & H3). lia.
  - naive_solver lia.
Qed.

(** The parts of a key. *)
Definition key_prefix (p : MetricPeriod.t) (name : string) : string :=
  MetricPeriod.to_string p +:+ "#" +:+ name +:+
  repeat_char "#" (MAX_METRIC_NAME_LENGTH + 1 - String.length name) +:+ "T".
Definition key_tick (n : N) : string := pad_left "0" MAX_TICK_STRING_LENGTH (pretty n).

Lemma lookup_key_parts p name tk :
  (String.length name <= MAX_METRIC_NAME_LENGTH)%nat →
  get_lookup_key p name tk = Some (key_prefix p name +:+ key_tick (tick_n tk)).
Proof.
  intros Hl. unfold get_lookup_key, pad_metric_name. destruct (Nat.leb_spec (String.length name) MAX_METRIC_NAME_LENGTH); [|lia].
  cbn. f_equal. unfold key_prefix, Tick_to_string, key_tick.
  replace (MAX_METRIC_NAME_LENGTH + 1 - String.length name)%nat
    with (MAX_METRIC_NAME_LENGTH - String.length name + 1)%nat by lia.
  rw -repeat_char_plus !sapp_assoc. done.
Qed.

Lemma key_tick_length n : (n <= MAX_TICK)%N → String.length (key_tick n) = MAX_TICK_STRING_LENGTH.
Proof. intros Hn. apply pad_left_length, tick_length, Hn. Qed.

Lemma period_length p : String.length (MetricPeriod.to_string p) = 5%nat.
Proof. by destruct p. Qed.

Lemma period_roundtrip p : MetricPeriod.try_from (MetricPeriod.to_string p) = Ok p.
Proof. by destruct p. Qed.

Lemma key_tick_digits n : str_all is_digit (key_tick n) = true.
Proof. unfold key_tick, pad_left. rw str_all_app str_all_repeat //=. apply pretty_N_digits. Qed.

Lemma key_utf8 p name n :
  valid_utf8 name = true → valid_utf8 (key_prefix p name +:+ key_tick n) = true.
Proof.
  intros Hn. unfold key_prefix. rw !sapp_assoc.
  apply valid_utf8_app; [by destruct p|]. apply valid_utf8_app; [done|]. apply valid_utf8_app; [done|].
  apply valid_utf8_app; [by apply valid_utf8_ascii, str_all_repeat|]. apply valid_utf8_app; [done|].
  apply digits_utf8, key_tick_digits.
Qed.

(** Two names with a common beginning of their keys are the same. *)
Lemma key_prefix_inj p name name' a b :
  str_has "#" name = false → str_has "#" name' = false →
  (String.length name <= MAX_METRIC_NAME_LENGTH)%nat → (String.length name' <= MAX_METRIC_NAME_LENGTH)%nat →
  key_prefix p name +:+ a = key_prefix p name' +:+ b → name = name'.
Proof.
  intros H1 H2 Hl1 Hl2. unfold key_prefix. rw !sapp_assoc. intros Heq%sapp_inj_l%sapp_inj_l.
  rw -!(sapp_assoc name) -!(sapp_assoc name') in Heq. apply sapp_inj_len in Heq as [Heq _].
  - apply (f_equal (trim_end_matches "#")) in Heq.
    by rw (trim_end_repeat "#" name _ H1) (trim_end_repeat "#" name' _ H2) in Heq.
  - rw !sapp_length !repeat_char_length. lia.
Qed.

Lemma key_length p name n :
  (String.length name <= MAX_METRIC_NAME_LENGTH)%nat → (n <= MAX_TICK)%N →
  String.length (key_prefix p name +:+ key_tick n) = 64%nat.
Proof.
  intros Hl Ht%key_tick_length. generalize dependent (key_tick n). intros k Hk. unfold key_prefix.
  rw !sapp_length period_length repeat_char_length Hk.
  unfold MAX_METRIC_NAME_LENGTH, MAX_TICK_STRING_LENGTH in *. cbn. lia.
Qed.

Lemma key_parts p name n :
  key_prefix p name +:+ key_tick n =
  (MetricPeriod.to_string p +:+ "#") +:+
    (name +:+ repeat_char "#" (MAX_METRIC_NAME_LENGTH + 1 - String.length name)) +:+ "T" +:+ key_tick n.
Proof. unfold key_prefix. by rw !sapp_assoc. Qed.

(** A key reads as the data point. *)
Lemma try_from_key dp v :
  well_formed dp →
  ∃ k, DataPoint.key dp = Some k ∧ String.length k = 64%nat ∧ valid_utf8 k = true ∧
    DataPoint.try_from k v =
      Some (Ok (DataPoint.Mk (DataPoint.metric_name dp) (DataPoint.period dp) (DataPoint.tick dp) v)).
Proof.
  destruct dp as [name p [n] v0]. intros [Hh Hl Hu Ht]. cbn in *.
  unfold DataPoint.key. cbn [DataPoint.period DataPoint.metric_name DataPoint.tick].
  rw lookup_key_parts //. eexists. split; [done|].
  split_and!; [|by apply key_utf8|]; cbn [tick_n] in *.
  { by apply key_length. }
  unfold DataPoint.try_from. rw key_length //. cbn [Nat.eqb negb]. rw key_parts.
  rw (split_at_app 6); [|by rw sapp_length period_length|].
  2: { apply valid_boundary. rw sapp_assoc. apply valid_utf8_app; [done|].
       apply valid_utf8_app; [by apply valid_utf8_ascii, str_all_repeat|].
       apply valid_utf8_app; [done|]. apply digits_utf8, key_tick_digits. }
  cbn [mbind option_bind].
  assert (trim_end_matches "#" (MetricPeriod.to_string p +:+ "#") = MetricPeriod.to_string p) as ->
    by by destruct p.
  rw period_roundtrip (split_at_app 45); cbn [mbind option_bind].
  2: { rw sapp_length repeat_char_length. unfold MAX_METRIC_NAME_LENGTH in *. lia. }
  2: { done. }
  rw trim_end_repeat //. f_equal.
  assert (trim_start_matches "T" ("T" +:+ key_tick n) = key_tick n) as ->.
  { change (trim_start_matches "T" (key_tick n) = key_tick n).
    apply trim_start_none, (str_has_none is_digit); [done|]. apply key_tick_digits. }
  unfold key_tick. rw parse_uint_padded; [|unfold MAX_TICK, u64_max in *; lia]. cbv beta iota.
  rw N2Z.id. by apply new_Ok.
Qed.
End keys.

(** ** routes/metrics.rs *)

Module MetricsPeriod.
Inductive t := P1D | PT12H | PT6H | PT1H | PT30M | PT5M | PT1M | PT30S | PT5S.

Definition from (mp : MetricPeriod.t) : t :=
  match mp with
  | MetricPeriod.PT24H => P1D
  | MetricPeriod.PT12H => PT12H
  | MetricPeriod.PT06H => PT6H
  | MetricPeriod.PT01H => PT1H
  | MetricPeriod.PT30M => PT30M
  | MetricPeriod.PT05M => PT5M
  | MetricPeriod.PT01M => PT1M
  | MetricPeriod.PT30S => PT30S
  | MetricPeriod.PT05S => PT5S
  end.
End MetricsPeriod.

Definition try_parse_metrics_period (str : string) : option MetricPeriod.t :=
  if bool_decide (str = "PT5S") then Some MetricPeriod.PT05S
  else if bool_decide (str = "PT30S") then Some MetricPeriod.PT30S
  else if bool_decide (str = "PT1M") then Some MetricPeriod.PT01M
  else if bool_decide (str = "PT5M") then Some MetricPeriod.PT05M
  else if bool_decide (str = "PT30M") then Some MetricPeriod.PT30M
  else if bool_decide (str = "PT1H") then Some MetricPeriod.PT01H
  else if bool_decide (str = "PT6H") then Some MetricPeriod.PT06H
  else if bool_decide (str = "PT12H") then Some MetricPeriod.PT12H
  else if bool_decide (str = "P1D") then Some MetricPeriod.PT24H
  else None.

(** [u64 as i64] *)
Definition as_i64 (n : N) : Z :=
  let z := (Z.of_N n mod 2 ^ 64)%Z in if (z <? 2 ^ 63)%Z then z else (z - 2 ^ 64)%Z.

Section routes.
Context {F : F64} {UC : UnicodeCase} {S H : Type} {DB : RocksDb S H}.

Record MetricsDataPoint := MkMetricsDataPoint {
  md_tick : Z;
  md_period : MetricsPeriod.t;
  md_value : f64;
}.
Record MetricsPaginationObject := MkMetricsPage {
  next : option string;
  datapoints : list MetricsDataPoint;
}.

(** The loop over the records of the page; [None] is a panic. *)
Fixpoint collect (name : string) (next : option string) (rs : list Record_) :
    option (option string * list DataPoint.t) :=
  match rs with
  | [] => Some (next, [])
  | r :: rs' =>
      match f64_parse (value r) with
      | Some v =>
          converted ← DataPoint.try_from (key r) v;
          match converted with
          | Ok dp =>
              if negb (bool_decide (DataPoint.metric_name dp = name)) then Some (None, [])
              else '(next, datapoints) ← collect name next rs'; Some (next, dp :: datapoints)
          | Err _ => collect name next rs'
          end
      | None => collect name next rs'
      end
  end.

Definition to_rest (dp : DataPoint.t) : MetricsDataPoint :=
  MkMetricsDataPoint (as_i64 (tick_n (DataPoint.tick dp))) (MetricsPeriod.from (DataPoint.period dp))
    (DataPoint.value dp).

(** What is made of the range that was read. *)
Definition to_page (name : string) (ret : ReadRange) :
    option (result Mgmt.Error MetricsPaginationObject) :=
  next ← match continue_from ret with
         | None => Some (Ok None)
         | Some k =>
             converted ← DataPoint.try_from k f64_zero;
             Some (map_ok (λ dp, Some (pretty (tick_n (DataPoint.tick dp)))) converted)
         end;
  match next with
  | Err e => Some (Err e)
  | Ok next =>
      '(next, datapoints) ← collect name next (records ret);
      Some (Ok (MkMetricsPage next (to_rest <$> datapoints)))
  end.

Definition get (name period : string) (count : Z) (direction : string) (from : option N) :
    ST S (option (result Mgmt.Error MetricsPaginationObject)) :=
  match try_parse_metrics_period period with
  | None => st_ret (Some (Err (Mgmt.BadRequest ("Invalid metric period " +:+ period))))
  | Some period =>
      let cf := get_cf period in
      match DataPoint.validate_metric_name name with
      | Err e => st_ret (Some (Err e))
      | Ok _ =>
          let lower := to_lowercase direction in
          match (if bool_decide (lower = "forward") then Ok DirForward
                 else if bool_decide (lower = "backward") then Ok DirBackward
                 else Err (Mgmt.BadRequest ("Invalid direction '" +:+ lower
                             +:+ "', expected Forward or Backward"))) with
          | Err e => st_ret (Some (Err e))
          | Ok range_direction =>
              let tick := match from, range_direction with
                          | Some from_key, _ => MkTick from_key
                          | None, DirForward => MkTick 0
                          | None, DirBackward => MkTick MAX_TICK
                          end in
              match get_lookup_key period name tick with
              | None => st_ret None
              | Some lookup_key =>
                  ret <- read_range cf lookup_key range_direction count ;;
                  st_ret match ret with
                         | Err e => Some (Err e)
                         | Ok ret => to_page name ret
                         end
              end
          end
      end
  end.
End routes.

(** ** Pages of a metric *)

Section pages.
Context {F : F64} {UC : UnicodeCase} {S H : Type} {DB : RocksDb S H} {DL : RocksLaws S H}.
Implicit Types (dp : DataPoint.t) (x : string * string) (m : gmap string string).

(** A record of the database that holds a data point, and a column family
    that holds nothing else. *)
Definition holds (p : MetricPeriod.t) x dp : Prop :=
  well_formed dp ∧ DataPoint.period dp = p ∧ DataPoint.key dp = Some x.1 ∧
  valid_utf8 x.2 = true ∧ f64_parse x.2 = Some (DataPoint.value dp).
Definition only_points (p : MetricPeriod.t) m : Prop :=
  ∀ k v, m !! k = Some v → ∃ dp, holds p (k, v) dp.

(** The data points of a metric on one side of a tick, in the order of their
    ticks. *)
Definition in_scope (direction : RangeDirection) (from n : N) : Prop :=
  match direction with DirForward => (from <= n)%N | DirBackward => (n <= from)%N end.
Definition tick_before (direction : RangeDirection) (dp dp' : DataPoint.t) : Prop :=
  let n := tick_n (DataPoint.tick dp) in
  let n' := tick_n (DataPoint.tick dp') in
  match direction with DirForward => (n < n')%N | DirBackward => (n' < n)%N end.
Definition points_of (p : MetricPeriod.t) m (name : string) (direction : RangeDirection) (from : N)
    (ps : list DataPoint.t) : Prop :=
  StronglySorted (tick_before direction) ps ∧
  ∀ dp, dp ∈ ps ↔ (∃ x, m !! x.1 = Some x.2 ∧ holds p x dp) ∧ DataPoint.metric_name dp = name ∧
                  in_scope direction from (tick_n (DataPoint.tick dp)).

#[local] Instance tick_before_irrefl d : Irreflexive (tick_before d).
Proof. intros dp. unfold complement, tick_before. destruct d; lia. Qed.
#[local] Instance tick_before_trans d : Transitive (tick_before d).
Proof. intros a b c. unfold tick_before. destruct d; lia. Qed.

Lemma holds_key p x dp :
  holds p x dp → x.1 = key_prefix p (DataPoint.metric_name dp) +:+ key_tick (tick_n (DataPoint.tick dp)).
Proof.
  intros ([_ Hl _ _] & <- & Hk & _). unfold DataPoint.key in Hk. rw lookup_key_parts // in Hk. by simplify_eq.
Qed.

Lemma holds_read p x dp :
  holds p x dp → to_record x = MkRecord x.1 x.2 ∧
  ∀ v, DataPoint.try_from x.1 v = Some (Ok (DataPoint.Mk (DataPoint.metric_name dp) (DataPoint.period dp)
                                               (DataPoint.tick dp) v)).
Proof.
  intros (Hwf & _ & Hk & Hv & _). split.
  - destruct (try_from_key dp f64_zero Hwf) as (k & Hk' & _ & Hu & _). rw Hk in Hk'. simplify_eq.
    unfold to_record. by rw !from_utf8_lossy_valid.
  - intros v. destruct (try_from_key dp v Hwf) as (k & Hk' & _ & _ & Ht). rw Hk in Hk'. by simplify_eq.
Qed.

(** The order of the keys of a metric is that of the ticks. *)
Lemma key_order p name n n' :
  (n <= MAX_TICK)%N → (n' <= MAX_TICK)%N →
  str_lt (key_prefix p name +:+ key_tick n) (key_prefix p name +:+ key_tick n') ↔ (n < n')%N.
Proof.
  intros H1 H2. rw str_lt_app. unfold str_lt, key_tick.
  rw padded_compare; [apply N.compare_lt_iff|by apply tick_length..].
Qed.

Lemma key_order_le p name n n' :
  (n <= MAX_TICK)%N → (n' <= MAX_TICK)%N →
  String.leb (key_prefix p name +:+ key_tick n) (key_prefix p name +:+ key_tick n') = true ↔ (n <= n')%N.
Proof.
  intros H1 H2. rw leb_iff key_order //. split.
  - intros [Heq%sapp_inj_l|?]; [|lia]. apply (f_equal (parse_digits 0)) in Heq.
    unfold key_tick, pad_left in Heq. rw !parse_digits_zeros !parse_digits_of_N in Heq.
    injection Heq as Heq. lia.
  - intros Hn. destruct (decide (n = n')) as [<-|]; [by left|right; lia].
Qed.

(** The loop over records that hold data points, those of the metric first. *)
Lemma collect_points p name next l ps qs :
  Forall2 (holds p) l (ps ++ qs) → Forall (λ dp, DataPoint.metric_name dp = name) ps →
  Forall (λ dp, DataPoint.metric_name dp ≠ name) qs →
  collect name next (to_record <$> l) = Some (match qs with [] => next | _ => None end, ps).
Proof.
  intros Hl Hp Hq. revert l Hl. induction Hp as [|dp ps Hdp Hp IH]; intros l Hl; cbn [app] in Hl.
  - destruct Hq as [|q qs Hname Hq]; [by apply Forall2_nil_inv_r in Hl as ->|].
    apply Forall2_cons_inv_r in Hl as (x & l' & Hx & _ & ->). destruct (holds_read _ _ _ Hx) as [Hr Ht].
    destruct Hx as (_ & _ & _ & _ & Hv). cbn [fmap list_fmap collect].
    rw Hr. cbn [value key]. rw Hv Ht. cbn [mbind option_bind].
    by rw bool_decide_eq_false_2.
  - apply Forall2_cons_inv_r in Hl as (x & l' & Hx & Hl & ->). destruct (holds_read _ _ _ Hx) as [Hr Ht].
    destruct Hx as (_ & _ & _ & _ & Hv). cbn [fmap list_fmap collect].
    rw Hr. cbn [value key]. rw Hv Ht. cbn [mbind option_bind].
    rw bool_decide_eq_true_2 //. cbn [negb]. rw (IH _ Hl). by destruct dp.
Qed.

Definition rocks_direction (direction : RangeDirection) : Direction :=
  match direction with DirForward => Forward | DirBackward => Reverse end.

(** What lies between the start of a range and a key of the metric is of the
    metric. *)
Lemma same_metric p name direction from x y dx dy :
  str_has "#" name = false → (String.length name <= MAX_METRIC_NAME_LENGTH)%nat →
  covers (From (key_prefix p name +:+ key_tick from) (rocks_direction direction)) x.1 →
  comes_before (rocks_direction direction) x y → holds p x dx → holds p y dy →
  DataPoint.metric_name dy = name → DataPoint.metric_name dx = name.
Proof.
  intros Hh Hl Hc Hlt Hx Hy Hname. pose proof (holds_key _ _ _ Hx) as Hkx.
  pose proof (holds_key _ _ _ Hy) as Hky. rw Hname in Hky. destruct Hx as ([Hh' Hl' _ _] & _).
  assert (∃ c, x.1 = key_prefix p name +:+ c) as [c Hk].
  { destruct direction; cbn in Hc, Hlt; rw Hky in Hlt.
    - eapply between_prefix; [exact Hc|]. apply leb_iff. by right.
    - eapply between_prefix; [|exact Hc]. apply leb_iff. by right. }
  rw Hk in Hkx. symmetry. by eapply key_prefix_inj.
Qed.

Lemma holds_inj p x dp dp' : holds p x dp → holds p x dp' → dp = dp'.
Proof.
  intros H1 H2. destruct (holds_read _ _ _ H1) as [_ Ht1]. destruct (holds_read _ _ _ H2) as [_ Ht2].
  destruct H1 as (_ & _ & _ & _ & Hv1), H2 as (_ & _ & _ & _ & Hv2). rw Hv1 in Hv2.
  pose proof (Ht1 (DataPoint.value dp)) as Ht. rw Ht2 in Ht. destruct dp, dp'; cbn in *. naive_solver.
Qed.

Lemma in_scope_covers p name direction from x dp :
  (from <= MAX_TICK)%N → holds p x dp → DataPoint.metric_name dp = name →
  in_scope direction from (tick_n (DataPoint.tick dp)) ↔
  covers (From (key_prefix p name +:+ key_tick from) (rocks_direction direction)) x.1.
Proof.
  intros Hfrom Hdp Hname. rw (holds_key _ _ _ Hdp) Hname. destruct Hdp as ([_ _ _ Ht] & _).
  by destruct direction; cbn; rw key_order_le.
Qed.

Lemma mine_sorted p name direction l dps :
  StronglySorted (comes_before (rocks_direction direction)) l → Forall2 (holds p) l dps →
  StronglySorted (tick_before direction) (filter (λ dp, DataPoint.metric_name dp = name) dps).
Proof.
  intros Hs Hdps. set (mine := λ dp, DataPoint.metric_name dp = name).
  assert (StronglySorted (λ a b, mine a → mine b → tick_before direction a b) dps) as Hd.
  { eapply sorted_Forall2; [|exact Hs|exact Hdps]. intros x y a b _ _ Hxy Ha Hb Hma Hmb.
    pose proof (holds_key _ _ _ Ha) as Hka. pose proof (holds_key _ _ _ Hb) as Hkb.
    unfold mine in Hma, Hmb. rw Hma in Hka. rw Hmb in Hkb.
    destruct Ha as ([_ _ _ Hta] & _), Hb as ([_ _ _ Htb] & _). unfold tick_before.
    destruct direction; cbn in Hxy; rw Hka Hkb key_order // in Hxy. }
  apply (sorted_filter _ mine) in Hd. eapply (sorted_Forall2 _ _ (λ a b, a = b ∧ mine a)); [|exact Hd|].
  - intros a b a' b' _ _ Hab [<- Ha] [<- Hb]. by apply Hab.
  - apply Forall_Forall2_diag, Forall_forall. intros dp [Hdp _]%list_elem_of_filter. done.
Qed.

Lemma scan_points p m name direction from ps :
  only_points p m → str_has "#" name = false → (String.length name <= MAX_METRIC_NAME_LENGTH)%nat →
  (from <= MAX_TICK)%N → points_of p m name direction from ps →
  ∃ qs, Forall2 (holds p)
          (scan (From (key_prefix p name +:+ key_tick from) (rocks_direction direction)) m) (ps ++ qs) ∧
        Forall (λ dp, DataPoint.metric_name dp ≠ name) qs.
Proof.
  intros Honly Hh Hl Hfrom [Hps Hin].
  pose proof (elem_of_scan (From (key_prefix p name +:+ key_tick from) (rocks_direction direction)) m) as Hel.
  pose proof (scan_sorted (From (key_prefix p name +:+ key_tick from) (rocks_direction direction)) m) as Hs.
  change (mode_direction _) with (rocks_direction direction) in Hs. set (l := scan _ m) in *. clearbody l.
  assert (∃ dps, Forall2 (holds p) l dps) as [dps Hdps].
  { clear -Honly Hel. assert (∀ x, x ∈ l → m !! x.1 = Some x.2) as H'
      by (intros x Hx; by apply Hel). clear Hel. induction l as [|x l IH]; [by exists []|].
    destruct (Honly x.1 x.2) as [dp Hdp]; [apply H'; by left|].
    destruct IH as [dps Hdps]; [intros y Hy; apply H'; by right|].
    exists (dp :: dps). constructor; [by destruct x|done]. }
  set (mine := λ dp, DataPoint.metric_name dp = name).
  exists (filter (λ dp, ¬ mine dp) dps).
  assert (StronglySorted (λ a b, mine b → mine a) dps) as Hfirst.
  { eapply sorted_Forall2; [|exact Hs|exact Hdps]. intros x y dx dy Hx _ Hxy Hdx Hdy.
    eapply same_metric; [done..| |exact Hxy|done|done]. by apply Hel. }
  assert (ps = filter mine dps) as Heq.
  { apply (sorted_ext (tick_before direction)); [done| |].
    - by eapply mine_sorted.
    - intros dp. rw Hin list_elem_of_filter. split.
      + intros ((x & Hx & Hdp) & Hname & Hscope).
        assert (x ∈ l) as Hxl by (apply Hel; split; [done|by eapply in_scope_covers]).
        apply list_elem_of_lookup in Hxl as [i Hi].
        destruct (Forall2_lookup_l _ _ _ _ _ Hdps Hi) as (dp' & Hi' & Hdp').
        rw (holds_inj _ _ _ _ Hdp Hdp') in Hname |- *. split; [done|]. by eapply list_elem_of_lookup_2.
      + intros [Hname [i Hi]%list_elem_of_lookup].
        destruct (Forall2_lookup_r _ _ _ _ _ Hdps Hi) as (x & Hx%list_elem_of_lookup_2%Hel & Hdp).
        destruct Hx as [Hx Hc]. split_and!; [by exists x|done|]. by eapply in_scope_covers. }
  rw Heq -filter_first //. split; [done|]. apply Forall_forall. intros dp [Hdp _]%list_elem_of_filter. done.
Qed.

Lemma as_i64_small n : (n <= MAX_TICK)%N → as_i64 n = Z.of_N n.
Proof.
  unfold as_i64, MAX_TICK. intros Hn. rw Z.mod_small; [|lia].
  destruct (Z.ltb_spec (Z.of_N n) (2 ^ 63)); [done|lia].
Qed.

Lemma to_rest_point p x dp :
  holds p x dp →
  to_rest dp = MkMetricsDataPoint (Z.of_N (tick_n (DataPoint.tick dp))) (MetricsPeriod.from p) (DataPoint.value dp).
Proof. intros ([_ _ _ Ht] & <- & _). unfold to_rest. by rw as_i64_small. Qed.

(** What is made of a range that starts with the points of the metric. *)
Lemma to_page_points p name count l ps qs :
  (0 <= count)%Z → Forall2 (holds p) l (ps ++ qs) →
  Forall (λ dp, DataPoint.metric_name dp = name) ps →
  Forall (λ dp, DataPoint.metric_name dp ≠ name) qs →
  to_page name (page l count) =
    Some (Ok (MkMetricsPage
      match take (Z.to_nat count - length ps) qs with
      | [] => if (0 <? count)%Z then
                (λ dp, pretty (tick_n (DataPoint.tick dp))) <$> (ps ++ qs) !! Z.to_nat count
              else None
      | _ => None
      end
      (to_rest <$> take (Z.to_nat count) ps))).
Proof.
  intros Hcount Hl Hp Hq. unfold to_page, page. cbn [continue_from records].
  assert (Forall2 (holds p) (take (Z.to_nat count) l)
            (take (Z.to_nat count) ps ++ take (Z.to_nat count - length ps) qs)) as Ht.
  { rw -take_app. by apply Forall2_take. }
  pose proof (λ nx, collect_points p name nx _ _ _ Ht (Forall_take _ _ _ Hp) (Forall_take _ _ _ Hq)) as Hcol.
  destruct (0 <? count)%Z; [|cbn [mbind option_bind]; rw Hcol; by destruct (take _ qs)].
  destruct (l !! Z.to_nat count) as [y|] eqn:Hy; cbn [fmap option_fmap option_map].
  - destruct (Forall2_lookup_l _ _ _ _ _ Hl Hy) as (dy & Hdy & Hh). rw Hdy.
    destruct (holds_read _ _ _ Hh) as [Hr Htry]. unfold to_record in Hr. injection Hr as Hr _.
    rw Hr Htry. cbn [mbind option_bind map_ok]. rw Hcol. by destruct (take _ qs).
  - cbn [mbind option_bind]. rw Hcol. apply (Forall2_length _ _ _) in Hl as Hlen.
    apply lookup_ge_None in Hy. rw lookup_ge_None_2; [by destruct (take _ qs)|lia].
Qed.
(** C24: A page of a metric is the first [count] of its data points on the asked
    side of the tick, in the order of their ticks, whatever other metrics are
    in the database; when there are more, [next] is the tick of the next one,
    and when the page is not full there is no [next]. *)
Theorem metric_page {HR : RocksReliable S H}
    s name period p count direction dir from ps :
  let m := cf_contents (cf_name (get_cf p)) (contents s) in
  let from_tick := match from, dir with
                   | Some n, _ => n
                   | None, DirForward => 0%N
                   | None, DirBackward => MAX_TICK
                   end in
  try_parse_metrics_period period = Some p →
  DataPoint.validate_metric_name name = Ok () →
  to_lowercase direction = match dir with DirForward => "forward" | DirBackward => "backward" end →
  (0 <= count)%Z → (from_tick <= MAX_TICK)%N →
  only_points p m → points_of p m name dir from_tick ps →
  wp (get name period count direction from) (λ r _, ∃ nx,
    r = Some (Ok (MkMetricsPage nx
          ((λ dp, MkMetricsDataPoint (Z.of_N (tick_n (DataPoint.tick dp))) (MetricsPeriod.from p)
                    (DataPoint.value dp)) <$> take (Z.to_nat count) ps))) ∧
    ((0 < count < Z.of_nat (length ps))%Z →
       nx = (λ dp, pretty (tick_n (DataPoint.tick dp))) <$> ps !! Z.to_nat count) ∧
    ((Z.of_nat (length ps) < count)%Z → nx = None)) s.
Proof.
  intros m from_tick Hp Hname Hdir Hcount Hfrom Honly Hps. unfold get. rw Hp Hname Hdir.
  apply validate_Ok in Hname as [Hh Hl].
  destruct (scan_points p m name dir from_tick ps Honly Hh Hl Hfrom Hps) as (qs & Hscan & Hqs).
  assert ((if bool_decide ((match dir with DirForward => "forward" | DirBackward => "backward" end) = "forward")
           then Ok DirForward
           else if bool_decide ((match dir with DirForward => "forward" | DirBackward => "backward" end) = "backward")
           then Ok DirBackward
           else Err (Mgmt.BadRequest ("Invalid direction '" +:+
                  match dir with DirForward => "forward" | DirBackward => "backward" end
                  +:+ "', expected Forward or Backward"))) = Ok dir) as -> by by destruct dir.
  assert (get_lookup_key p name match from, dir with
            | Some from_key, _ => MkTick from_key
            | None, DirForward => MkTick 0
            | None, DirBackward => MkTick MAX_TICK
            end = Some (key_prefix p name +:+ key_tick from_tick)) as ->
    by (destruct from, dir; by apply lookup_key_parts).
  apply wp_bind. eapply wp_wand; [apply wp_read_range|]. intros r s1 Hr. apply wp_ret.
  destruct r as [rr|e]; cbn [range_post] in Hr; [|by destruct (proj1 Hr HR)].
  destruct Hr as (_ & l & -> & _ & Hfull). rw (Hfull HR) {l Hfull}.
  destruct Hps as [_ Hin]. assert (Forall (λ dp, DataPoint.metric_name dp = name) ps) as Hmine.
  { apply Forall_forall. intros dp Hdp. by apply Hin in Hdp as (_ & ? & _). }
  rw (to_page_points p name count _ ps qs) //. eexists. split_and!.
  - do 3 f_equal. apply list_fmap_ext. intros i dp Hdp%list_elem_of_lookup_2.
    apply elem_of_take in Hdp as (j & Hj & _). apply list_elem_of_lookup_2, Hin in Hj as ((x & _ & Hx) & _).
    by eapply to_rest_point.
  - intros [Hpos Hlt]. replace (Z.to_nat count - length ps)%nat with 0%nat by lia. cbn [take].
    destruct (Z.ltb_spec 0 count); [|lia]. rw lookup_app_l //. lia.
  - intros Hlt. destruct qs as [|q qs]; [|by replace (Z.to_nat count - length ps)%nat
      with (Datatypes.S (Z.to_nat count - length ps - 1)) by lia].
    rw take_nil app_nil_r lookup_ge_None_2; [by destruct (0 <? count)%Z|lia].
Qed.

(** C34: The key of a data point that was accepted has 64 bytes and reads as the
    data point, and the order of the bytes of the keys of a metric is the
    order of their ticks. *)
Theorem metric_keys p name tk v dp :
  valid_utf8 name = true → DataPoint.new name p tk v = Ok dp →
  ∃ k, DataPoint.key dp = Some k ∧ String.length k = 64%nat ∧ DataPoint.try_from k v = Some (Ok dp) ∧
    ∀ tk' v' dp', DataPoint.new name p tk' v' = Ok dp' →
      ∃ k', DataPoint.key dp' = Some k' ∧ (str_lt k k' ↔ (tick_n tk < tick_n tk')%N).
Proof.
  intros Hu (-> & Hh & Hl & Ht)%new_Ok.
  destruct (try_from_key (DataPoint.Mk name p tk v) v) as (k & Hk & Hlen & _ & Htry); [done|].
  exists k. split_and!; [done..|]. intros tk' v' dp' (-> & _ & _ & Ht')%new_Ok.
  unfold DataPoint.key in Hk |- *. cbn in Hk |- *. rw lookup_key_parts // in Hk. simplify_eq.
  rw lookup_key_parts //. eexists. split; [done|]. by apply key_order.
Qed.
End pages.
