(* ===== verification/Events.v ===== *)
(** * Events: src/src/mgmt-server/events/mod.rs and broker.rs

    The event broker of the management server: topics on which events are
    published, and subscribers that see what is published after them.

    A topic is a [tokio::sync::broadcast] channel.  It is modelled as all that
    was sent on it; a receiver holds how much of it is behind it.  What the
    channel still keeps is its last [capacity] messages, and a receiver that
    is further behind is moved up to them. *)

From S2P Require Import Prelude Text.

Definition TopicName := string.

Record Event := MkEvent {
  tags : gmap TopicName string;
  timestamp : Z;
  content : string;
}.

#[export] Instance Event_eq : EqDecision Event.
Proof. solve_decision. Defined.

Definition OPERATION_TOPIC_NAME : TopicName := "operation".
Definition STDOUT_TOPIC_NAME : TopicName := "stdout".
Definition CHAT_TOPIC_NAME : TopicName := "chat".
Definition JOIN_TOPIC_NAME : TopicName := "join".
Definition LEAVE_TOPIC_NAME : TopicName := "leave".
Definition RPC_TOPIC_NAME : TopicName := "rpc".
Definition SERVERSTATE_TOPIC_NAME : TopicName := "serverstate".

Inductive StdoutTopicCategory :=
| CatChat | CatChatDiscordEcho | CatJoinLeave | CatRpc | CatServerState | CatSystemLog.

#[export] Instance StdoutTopicCategory_eq : EqDecision StdoutTopicCategory.
Proof. solve_decision. Defined.

(** The derived [Display] and [FromStr]. *)
Definition cat_to_string (c : StdoutTopicCategory) : string :=
  match c with
  | CatChat => "chat"
  | CatChatDiscordEcho => "chat_discord_echo"
  | CatJoinLeave => "joinleave"
  | CatRpc => "rpc"
  | CatServerState => "serverstate"
  | CatSystemLog => "systemlog"
  end.
Definition all_cats : list StdoutTopicCategory :=
  [CatChat; CatChatDiscordEcho; CatJoinLeave; CatRpc; CatServerState; CatSystemLog].
Definition cat_from_str (s : string) : option StdoutTopicCategory :=
  snd <$> list_find (λ c, cat_to_string c = s) all_cats.

(** The messages a channel keeps: at least the capacity it was made with. *)
Class BroadcastEnv := { kept_messages : nat → nat }.
Class BroadcastLaws `{BroadcastEnv} : Prop := { keeps_capacity n : (n <= kept_messages n)%nat }.

Definition TOPIC_CAPACITY : nat := 100.

(** ** The broker *)

Record EventBroker := MkBroker { topics : gmap TopicName (list Event) }.

Definition EventBroker_new : EventBroker := MkBroker ∅.

(** What was sent on a topic. *)
Definition sent_on (b : EventBroker) (t : TopicName) : list Event := default [] (topics b !! t).

(** [topic.send(event)], or [create_topic_and_publish]: a channel that is new
    has no receiver, so what is sent on it reaches no one. *)
Definition publish_on (b : EventBroker) (t : TopicName) (e : Event) : EventBroker :=
  match topics b !! t with
  | Some log => MkBroker (<[t := log ++ [e]]> (topics b))
  | None => MkBroker (<[t := [e]]> (topics b))
  end.

(** The loop of [publish] over the topics of the event, in the order in which
    the [HashMap] of its tags gives them. *)
Fixpoint publish_loop (ts : list TopicName) (e : Event) (b : EventBroker) : EventBroker :=
  match ts with
  | [] => b
  | t :: ts' => publish_loop ts' e (publish_on b t e)
  end.
Definition publish (e : Event) (b : EventBroker) : EventBroker :=
  publish_loop (map_to_list (tags e)).*1 e b.

(** A subscriber: its receiver's topic and position, its filter, and what
    [buffered] has taken from the channel ahead of time. *)
Record Subscriber := MkSubscriber {
  topic_name : TopicName;
  position : nat;
  matches : string → bool;
  ahead : list Event;
}.

(** [topic.subscribe()], or [create_topic_with_receiver]. *)
Definition subscribe (t : TopicName) (f : string → bool) (b : EventBroker) :
    Subscriber * EventBroker :=
  match topics b !! t with
  | Some log => (MkSubscriber t (length log) f [], b)
  | None => (MkSubscriber t 0 f [], MkBroker (<[t := []]> (topics b)))
  end.

(** The closure of [filter_map]. *)
Definition selects (s : Subscriber) (e : Event) : bool :=
  match tags e !! topic_name s with Some v => matches s v | None => false end.

(** [buffered(20)]: the messages that are there are taken and filtered until
    twenty wait. *)
Fixpoint fill (s : Subscriber) (unread : list Event) : Subscriber :=
  match unread with
  | [] => s
  | e :: unread' =>
      if (20 <=? length (ahead s))%nat then s
      else fill (MkSubscriber (topic_name s) (S (position s)) (matches s)
                   (if selects s e then ahead s ++ [e] else ahead s)) unread'
  end.

Section poll.
Context {BE : BroadcastEnv}.

(** A receiver that has lagged is moved to the oldest message that is kept. *)
Definition catch_up (b : EventBroker) (s : Subscriber) : Subscriber :=
  let n := length (sent_on b (topic_name s)) in
  MkSubscriber (topic_name s) (position s `max` (n - kept_messages TOPIC_CAPACITY))
    (matches s) (ahead s).

(** [sub.next()]: [None] while there is nothing. *)
Definition poll (b : EventBroker) (s : Subscriber) : option Event * Subscriber :=
  let s := catch_up b s in
  let s := fill s (drop (position s) (sent_on b (topic_name s))) in
  match ahead s with
  | [] => (None, s)
  | e :: l => (Some e, MkSubscriber (topic_name s) (position s) (matches s) l)
  end.
End poll.

(** ** A subscriber is a queue *)

(** What a subscriber is still to receive. *)
Definition unread (b : EventBroker) (s : Subscriber) : list Event :=
  drop (position s) (sent_on b (topic_name s)).
Definition selected (s : Subscriber) (l : list Event) : list Event :=
  filter (λ e, selects s e = true) l.
Definition pending (b : EventBroker) (s : Subscriber) : list Event :=
  ahead s ++ selected s (unread b s).

Lemma selected_cons s e l :
  selected s (e :: l) = (if selects s e then [e] else []) ++ selected s l.
Proof.
  unfold selected. destruct (selects s e) eqn:Hs.
  - by rw filter_cons_True.
  - rw filter_cons_False; [done|]. by rw Hs.
Qed.

Lemma sent_on_publish_on b t e t' :
  sent_on (publish_on b t e) t' = if decide (t = t') then sent_on b t' ++ [e] else sent_on b t'.
Proof.
  unfold sent_on, publish_on. destruct (decide (t = t')) as [<-|Hne].
  - destruct (topics b !! t); cbn; by rw lookup_insert_eq.
  - destruct (topics b !! t); cbn; by rw lookup_insert_ne.
Qed.

Lemma sent_on_publish_loop ts e b t :
  NoDup ts →
  sent_on (publish_loop ts e b) t = if decide (t ∈ ts) then sent_on b t ++ [e] else sent_on b t.
Proof.
  revert b. induction ts as [|t' ts IH]; intros b Hnd; cbn [publish_loop].
  { case_decide as H; [by apply elem_of_nil in H|done]. }
  apply NoDup_cons in Hnd as [Hnot Hnd]. rw (IH _ Hnd) sent_on_publish_on.
  repeat case_decide; try done; exfalso; set_solver.
Qed.

(** An event is sent once on each topic it is tagged with, whatever order the
    map of its tags is iterated in. *)
Lemma sent_on_publish e b t :
  sent_on (publish e b) t =
  sent_on b t ++ match tags e !! t with Some _ => [e] | None => [] end.
Proof.
  unfold publish. rw (sent_on_publish_loop _ _ _ _ (NoDup_fst_map_to_list _)).
  assert (t ∈ (map_to_list (tags e)).*1 ↔ is_Some (tags e !! t)) as Hiff.
  { rw list_elem_of_fmap. split.
    - intros ([k v] & -> & Hkv). apply elem_of_map_to_list in Hkv. eauto.
    - intros [v Hv]. exists (t, v). by rw elem_of_map_to_list. }
  destruct (tags e !! t) as [v|].
  - case_decide as H; [done|]. destruct H. apply Hiff. eauto.
  - case_decide as H; [|by rw app_nil_r]. by apply Hiff in H as [? ?].
Qed.

Definition in_range (b : EventBroker) (s : Subscriber) : Prop :=
  (position s <= length (sent_on b (topic_name s)))%nat.

Lemma selected_ext s s' l :
  topic_name s' = topic_name s → matches s' = matches s → selected s' l = selected s l.
Proof. intros Ht Hm. unfold selected, selects. by rw Ht Hm. Qed.

(** Publishing puts the event at the end of the queues that select it. *)
Lemma pending_publish e b s :
  in_range b s →
  in_range (publish e b) s ∧
  pending (publish e b) s = pending b s ++ (if selects s e then [e] else []).
Proof.
  unfold in_range, pending, unread. intros Hr. rw sent_on_publish. split; [rw length_app; lia|].
  rw (drop_app_le _ _ _ Hr). unfold selected. rw filter_app app_assoc. f_equal.
  destruct (selects s e) eqn:Hs.
  - unfold selects in Hs. destruct (tags e !! topic_name s) as [v|] eqn:Hv; [|done].
    rw filter_cons_True //. unfold selects. by rw Hv.
  - destruct (tags e !! topic_name s); [|done]. by rw filter_cons_False // Hs.
Qed.

(** Subscribing makes an empty queue and does not touch the others. *)
Lemma pending_subscribe t f b s0 :
  let r := subscribe t f b in
  pending r.2 r.1 = [] ∧ in_range r.2 r.1 ∧
  pending r.2 s0 = pending b s0 ∧ (in_range b s0 → in_range r.2 s0).
Proof.
  unfold subscribe, pending, unread, in_range. destruct (topics b !! t) as [log|] eqn:Ht; cbn.
  - assert (sent_on b t = log) as Hl by (unfold sent_on; by rw Ht). rw Hl drop_all. done.
  - assert (∀ t', sent_on (MkBroker (<[t := []]> (topics b))) t' = sent_on b t') as Hs.
    { intros t'. unfold sent_on. cbn. destruct (decide (t = t')) as [<-|].
      - by rw lookup_insert_eq Ht.
      - by rw lookup_insert_ne. }
    assert (sent_on b t = []) as Hl by (unfold sent_on; by rw Ht). rw !Hs Hl. done.
Qed.

(** Taking messages ahead keeps the queue. *)
Lemma fill_pending s l :
  let s' := fill s l in
  topic_name s' = topic_name s ∧ matches s' = matches s ∧
  ∃ k, position s' = (position s + k)%nat ∧ (k <= length l)%nat ∧
    ahead s' ++ selected s (drop k l) = ahead s ++ selected s l ∧
    (ahead s' = [] → k = length l).
Proof.
  revert s. induction l as [|e l IH]; intros s; cbn [fill].
  { split_and!; [done..|]. exists 0%nat. by rw Nat.add_0_r. }
  destruct (20 <=? length (ahead s))%nat eqn:Hlen.
  { split_and!; [done..|]. exists 0%nat. split_and!; [by rw Nat.add_0_r|lia|done|].
    intros Ha. rw Ha in Hlen. done. }
  destruct (IH (MkSubscriber (topic_name s) (S (position s)) (matches s)
    (if selects s e then ahead s ++ [e] else ahead s))) as (Ht & Hm & k & Hp & Hk & Ha & Hnil).
  split_and!; [done..|]. exists (S k). cbn [drop length].
  assert (∀ l, selected (MkSubscriber (topic_name s) (S (position s)) (matches s)
    (if selects s e then ahead s ++ [e] else ahead s)) l = selected s l) as Hsel
    by (intros l'; by apply selected_ext).
  rw !Hsel in Ha. cbn [position ahead] in Hp, Ha. split_and!; [rw Hp; lia|lia| |].
  - rw Ha. unfold selected. destruct (selects s e) eqn:He.
    + by rw filter_cons_True // -app_assoc.
    + by rw filter_cons_False // He.
  - intros H. by rw (Hnil H).
Qed.

Section queue.
Context {BE : BroadcastEnv}.

Lemma catch_up_pending b s :
  in_range b s →
  in_range b (catch_up b s) ∧ pending b (catch_up b s) `sublist_of` pending b s ∧
  ((length (unread b s) <= kept_messages TOPIC_CAPACITY)%nat → catch_up b s = s).
Proof.
  unfold in_range, catch_up, pending, unread. cbn. intros Hr.
  rw length_drop. split_and!; [lia| |].
  - apply sublist_app; [done|]. unfold selected, selects. cbn.
    match goal with |- filter ?P (drop ?n ?l) `sublist_of` _ => set (k := n) end.
    replace k with (position s + (k - position s))%nat by lia.
    rw -drop_drop. rw -{2}(take_drop (k - position s) (drop (position s) _)) filter_app.
    apply sublist_inserts_l. done.
  - intros Hk. rw Nat.max_l; [by destruct s|lia].
Qed.

(** Receiving takes the first of the queue. *)
Lemma poll_pending b s :
  in_range b s →
  let r := poll b s in
  topic_name r.2 = topic_name s ∧ matches r.2 = matches s ∧ in_range b r.2 ∧
  (position (catch_up b s) <= position r.2)%nat ∧
  pending b (catch_up b s) = match r.1 with Some e => [e] | None => [] end ++ pending b r.2 ∧
  (r.1 = None → pending b r.2 = []).
Proof.
  intros Hr. destruct (catch_up_pending b s Hr) as (Hr' & _). unfold poll.
  set (s1 := catch_up b s) in *. assert (topic_name s1 = topic_name s ∧ matches s1 = matches s) as [Ht Hm]
    by done.
  destruct (fill_pending s1 (drop (position s1) (sent_on b (topic_name s1))))
    as (Ht2 & Hm2 & k & Hp & Hk & Ha & Hnil).
  cbv zeta. set (s2 := fill s1 _) in *. clearbody s1 s2. rw length_drop in Hk Hnil.
  assert (pending b s1 = ahead s2 ++ selected s2 (unread b s2)) as Hpend.
  { rw (selected_ext s1 s2) //. unfold pending, unread. by rw Ht2 Hp -drop_drop Ha. }
  assert (in_range b s2) as Hr2 by (unfold in_range in *; rw Ht2 Hp; lia).
  destruct (ahead s2) as [|e l] eqn:Hahead; cbn [fst snd].
  - split_and!; [by rw Ht2 Ht|by rw Hm2 Hm|done|lia|rw Hpend; unfold pending; by rw Hahead|].
    intros _. unfold pending, unread. rw Hahead Ht2 Hp (Hnil eq_refl).
    rw drop_ge; [done|unfold in_range in Hr'; lia].
  - split_and!; [by rw Ht2 Ht|by rw Hm2 Hm|done|cbn; lia|by rw Hpend|done].
Qed.

(** What happens to the broker, and when the subscriber is polled. *)
Inductive Act := Publish (e : Event) | Subscribe (t : TopicName) (f : string → bool) | Next.

Fixpoint run (acts : list Act) (b : EventBroker) (s : Subscriber) :
    list Event * (EventBroker * Subscriber) :=
  match acts with
  | [] => ([], (b, s))
  | Publish e :: acts' => run acts' (publish e b) s
  | Subscribe t f :: acts' => run acts' (subscribe t f b).2 s
  | Next :: acts' =>
      let r := poll b s in
      let x := run acts' b r.2 in
      (match r.1 with Some e => [e] | None => [] end ++ x.1, x.2)
  end.

Definition published (acts : list Act) : list Event :=
  omap (λ a, match a with Publish e => Some e | _ => None end) acts.

(** C18: A subscriber is a queue of the events that are published on its topic
    and selected by its filter after it has subscribed: under every
    interleaving of publishing, subscribing and polling it receives them in
    order and at most once, and all of them as long as it is at most the
    capacity of the channel behind. *)
Theorem subscriber_fifo `{!BroadcastLaws} acts b s :
  in_range b s →
  let x := run acts b s in
  x.1 ++ pending x.2.1 x.2.2 `sublist_of` pending b s ++ selected s (published acts) ∧
  ((length (unread b s) + length (published acts) <= TOPIC_CAPACITY)%nat →
   x.1 ++ pending x.2.1 x.2.2 = pending b s ++ selected s (published acts)).
Proof.
  revert b s. induction acts as [|a acts IH]; intros b s Hr; cbn [run].
  { unfold published, selected. cbn. by rw app_nil_r. }
  destruct a as [e|t f|]; cbn [fst snd].
  - destruct (pending_publish e b s Hr) as [Hr' Hp]. destruct (IH _ _ Hr') as [H1 H2].
    change (published (Publish e :: acts)) with (e :: published acts).
    rw Hp -app_assoc -selected_cons in H1 H2.
    split; [exact H1|]. intros Hl. apply H2. cbn [length] in Hl.
    unfold unread in *. rw sent_on_publish length_drop length_app. rw length_drop in Hl.
    unfold in_range in Hr. destruct (tags e !! _); cbn; lia.
  - change (published (Subscribe t f :: acts)) with (published acts).
    destruct (pending_subscribe t f b s) as (_ & _ & Hp & Hr'). destruct (IH _ _ (Hr' Hr)) as [H1 H2].
    rw Hp in H1 H2. split; [exact H1|]. intros Hl. apply H2.
    assert (unread (subscribe t f b).2 s = unread b s) as ->; [|exact Hl].
    unfold unread. f_equal. unfold subscribe, sent_on. destruct (topics b !! t) eqn:Ht; [done|]. cbn.
    destruct (decide (t = topic_name s)) as [<-|]; [by rw lookup_insert_eq Ht|by rw lookup_insert_ne].
  - change (published (Next :: acts)) with (published acts).
    destruct (catch_up_pending b s Hr) as (Hr1 & Hsub & Hc).
    destruct (poll_pending b s Hr) as (Ht & Hm & Hr2 & Hpos & Hp & _). destruct (IH _ _ Hr2) as [H1 H2].
    rw (selected_ext _ _ _ Ht Hm) in H1 H2. rw -app_assoc. split.
    + etrans; [by apply sublist_app, H1|]. rw app_assoc -Hp. by apply sublist_app; [exact Hsub|].
    + intros Hl. pose proof (keeps_capacity TOPIC_CAPACITY) as Hk.
      rw H2.
      * rw (app_assoc _ (pending b (poll b s).2)) -Hp Hc; [done|lia].
      * unfold unread in *. rw length_drop Ht. rw length_drop in Hl.
        assert (position s <= position (poll b s).2)%nat by (etrans; [|exact Hpos]; cbn; lia). lia.
Qed.
End queue.
