(* ===== verification/Clients.v ===== *)
(** * Clients: src/src/mgmt-server/clients.rs

    The management server's client of the agent: requests are published on
    the event broker for the WebSocket to take, what the agent sends is tagged
    and published, and whoever made a request waits on the topic of operations
    for the responses with its id. *)

From S2P Require Import Prelude Text Regex Schema Errors Builder MgmtErrors Events.
Import Mgmt.

Open Scope st_scope.

(** ** Tags *)

(** [str::trim] leaves nothing: every character is a Unicode white space. *)
Definition ws1 (a : ascii) : bool := byte_in 9 13 a || byte_in 32 32 a.
Definition ws2 (a b : ascii) : bool := byte_in 194 194 a && (byte_in 133 133 b || byte_in 160 160 b).
Definition ws3 (a b c : ascii) : bool :=
  (byte_in 225 225 a && byte_in 154 154 b && byte_in 128 128 c) ||
  (byte_in 226 226 a && byte_in 128 128 b &&
     (byte_in 128 138 c || byte_in 168 169 c || byte_in 175 175 c)) ||
  (byte_in 226 226 a && byte_in 129 129 b && byte_in 159 159 c) ||
  (byte_in 227 227 a && byte_in 128 128 b && byte_in 128 128 c).
Fixpoint is_blank (s : string) : bool :=
  match s with
  | EmptyString => true
  | String a s1 =>
      if ws1 a then is_blank s1
      else match s1 with
           | String b s2 =>
               if ws2 a b then is_blank s2
               else match s2 with
                    | String c s3 => if ws3 a b c then is_blank s3 else false
                    | EmptyString => false
                    end
           | EmptyString => false
           end
  end.

(** The group of a match: the code unwraps it, every pattern here has it. *)
Definition group (gs : list string) (i : nat) : string := default "" (gs !! (i - 1)%nat).

Section tags.
Context {R : RegexEngine}.

Definition tag_server_stdout_message (message : string) (tags : gmap TopicName string) :
    gmap TopicName string :=
  match captures CHAT_DISCORD_ECHO_RE message with
  | Some _ => <[STDOUT_TOPIC_NAME := cat_to_string CatChatDiscordEcho]> tags
  | None =>
  match captures CHAT_RE message with
  | Some gs =>
      <[CHAT_TOPIC_NAME := group gs 2 +:+ ": " +:+ group gs 3]>
        (<[STDOUT_TOPIC_NAME := cat_to_string CatChat]> tags)
  | None =>
  match captures JOIN_RE message with
  | Some gs =>
      <[JOIN_TOPIC_NAME := group gs 2]> (<[STDOUT_TOPIC_NAME := cat_to_string CatJoinLeave]> tags)
  | None =>
  match captures LEAVE_RE message with
  | Some gs =>
      <[LEAVE_TOPIC_NAME := group gs 2]> (<[STDOUT_TOPIC_NAME := cat_to_string CatJoinLeave]> tags)
  | None =>
  match captures RPC_RE message with
  | Some gs =>
      <[RPC_TOPIC_NAME := group gs 1]> (<[STDOUT_TOPIC_NAME := cat_to_string CatRpc]> tags)
  | None =>
  match captures STATE_CHANGE_RE message with
  | Some gs =>
      match state_from_str (group gs 1) with
      | Some from =>
          match state_from_str (group gs 2) with
          | Some to =>
              <[STDOUT_TOPIC_NAME := cat_to_string CatSystemLog]>
                (<[SERVERSTATE_TOPIC_NAME := state_as_ref from +:+ " " +:+ state_as_ref to]>
                   (<[STDOUT_TOPIC_NAME := cat_to_string CatServerState]> tags))
          | None => tags
          end
      | None => tags
      end
  | None => <[STDOUT_TOPIC_NAME := cat_to_string CatSystemLog]> tags
  end end end end end end.

Context {CRs : Codec AgentResponseWithId} {CSt : Codec AgentStreamingMessage}.

Definition tag_incoming_message (s : string) : option Event :=
  match dec (A := AgentResponseWithId) s with
  | Ok r => Some (MkEvent {[OPERATION_TOPIC_NAME := rs_operation_id r]} (rs_timestamp r) s)
  | Err _ =>
      match dec (A := AgentStreamingMessage) s with
      | Ok m => Some (MkEvent (tag_server_stdout_message (sm_server_stdout m) ∅) (sm_timestamp m) s)
      | Err _ => None
      end
  end.

(** ** The connection *)

(** What tungstenite gives. *)
Inductive WsMessage := WText (s : string) | WBinary | WPing | WPong | WClose | WFrame.

(** [publish_incoming_task] over the items of the stream: the broker, and the
    count of missed pings, that it leaves. *)
Fixpoint publish_incoming (items : list (result string WsMessage)) (b : EventBroker)
    (consecutive_missed_pings : Z) : EventBroker * Z :=
  match items with
  | [] => (b, consecutive_missed_pings)
  | Err _ :: _ | Ok WClose :: _ => (b, consecutive_missed_pings)
  | Ok (WText s) :: items' =>
      publish_incoming items'
        match tag_incoming_message s with Some event => publish event b | None => b end
        consecutive_missed_pings
  | Ok WPong :: items' => publish_incoming items' b (Z.min consecutive_missed_pings 0)
  | Ok (WBinary | WPing | WFrame) :: items' => publish_incoming items' b consecutive_missed_pings
  end.

(** [keep_alive_task]: a round is run while fewer than three pings are
    missed: it sleeps, during which a pong may be received, sends a ping and
    counts it; [fetch_add] wraps at 8 bits. *)
Definition keep_alive_round (pong : bool) (consecutive_missed_pings : Z) : option Z :=
  if (consecutive_missed_pings <? 3)%Z
  then Some (((if pong then Z.min consecutive_missed_pings 0 else consecutive_missed_pings) + 1) mod 256)%Z
  else None.

(** The loop over the rounds, given whether each has received a pong: the
    count, or [None] when it has ended before. *)
Fixpoint keep_alive (pongs : list bool) (consecutive_missed_pings : Z) : option Z :=
  match pongs with
  | [] => Some consecutive_missed_pings
  | pong :: pongs' => keep_alive_round pong consecutive_missed_pings ≫= keep_alive pongs'
  end.
End tags.

(** ** Requests *)

Definition OUTGOING_TOPIC_NAME : TopicName := "_AGENT_OUTGOING".

(** [AgentApiClient], and the number of calls made so far. *)
Record ClientW := MkClientW { event_broker : EventBroker; ws_connected : bool; ncalls : nat }.

(** The address of the agent as text, and [Utc::now()]. *)
Class ClientEnv := { ws_addr : string; utc_now : nat → Z }.

(** The subscription of [connect] to the requests, and its filter. *)
Definition subscribe_outgoing `{ClientEnv} (b : EventBroker) : Subscriber * EventBroker :=
  subscribe OUTGOING_TOPIC_NAME (λ s, bool_decide (ws_addr = s)) b.

Section requests.
Context {U : UuidEnv} {CE : ClientEnv}.
Context {CRq : Codec AgentRequestWithId} {CRs : Codec AgentResponseWithId}.

Definition send_request_and_subscribe (request : AgentRequest) :
    ST ClientW (result Error (OperationId * Subscriber)) :=
  w <- st_get ;;
  if negb (ws_connected w) then st_ret (Err AgentDisconnected)
  else
  let id := uuid_v4 (ncalls w) in
  match enc (MkRequest id request) with
  | Err e => st_put (MkClientW (event_broker w) (ws_connected w) (S (ncalls w))) ;;
             st_ret (Err (Json e))
  | Ok content =>
      let event := MkEvent {[OUTGOING_TOPIC_NAME := ws_addr]} (utc_now (ncalls w)) content in
      let r := subscribe OPERATION_TOPIC_NAME (λ v, bool_decide (v = id)) (event_broker w) in
      st_put (MkClientW (publish event r.2) (ws_connected w) (S (ncalls w))) ;;
      st_ret (Ok (id, r.1))
  end.

Definition default_message_handler (m : AgentOutMessage) : Error :=
  match m with
  | OAgentBuildVersion _ | OConfigAdminList _ | OConfigBanList _ | OConfigRcon _ | OConfigSecrets _
  | OConfigServerSettings _ | OConfigWhiteList _ | ODlcList _ | OFactorioVersion _ | OMessage _
  | OModsList _ | OModSettings _ | ORconResponse _ | OSaveFile _ | OSaveList _ | OServerStatus _
  | OSystemResources _ | OOk => AgentCommunicationError
  | OError e => AgentInternalError e
  | OConflictingOperation => AgentInternalError "Invalid operation at this time"
  | OMissingSecrets => AgentInternalError "Missing secrets"
  | ONotInstalled => AgentInternalError "Factorio not installed"
  | OSaveNotFound => SaveNotFound
  end.

(** What [timeout(d, sub.next())] ends with: the time is up, the stream has
    ended, or an event. *)
Inductive Waited := Elapsed | Ended | Got (e : Event).

Definition response_or_timeout {T : Type} (w : Waited)
    (response_handler : AgentResponseWithId → result Error T) : result Error T :=
  match w with
  | Got e =>
      match dec (A := AgentResponseWithId) (content e) with
      | Ok response_with_id => response_handler response_with_id
      | Err e => Err (Json e)
      end
  | Ended => Err AgentDisconnected
  | Elapsed => Err AgentTimeout
  end.

(** A stream is what it yields, and whether it has ended. *)
Definition is_final (e : Event) : bool :=
  match dec (A := AgentResponseWithId) (content e) with
  | Ok r => match rs_status r with Ack | Ongoing => false | Completed | Failed => true end
  | Err _ => false
  end.

(** The stream is cancelled by a task once a final status has passed: up to
    [late] more events can pass before that task has run. *)
Fixpoint fuse_agent_response_stream (late : nat) (s : list Event) : list Event * bool :=
  match s with
  | [] => ([], false)
  | e :: s' =>
      if is_final e then (e :: take late s', true)
      else let r := fuse_agent_response_stream late s' in (e :: r.1, r.2)
  end.

(** [rest] is what the subscription yields after the first event. *)
Definition ack_or_timeout (w : Waited) (late : nat) (rest : list Event) (operation_id : OperationId) :
    result Error (OperationId * (list Event * bool)) :=
  match w with
  | Got e =>
      match dec (A := AgentResponseWithId) (content e) with
      | Ok response_with_id =>
          match rs_status response_with_id with
          | Ack => Ok (operation_id, fuse_agent_response_stream late rest)
          | _ => Err (default_message_handler (rs_content response_with_id))
          end
      | Err e => Err (Json e)
      end
  | Ended => Err AgentDisconnected
  | Elapsed => Err AgentTimeout
  end.
End requests.

(** ** The operations of the client

    An operation that is answered by one response is its request, how long
    it waits (in milliseconds) and what it makes of the content; one that runs
    long waits for the acknowledgement. *)
Record Call (T : Type) := MkCall {
  request : AgentRequest;
  timeout : Z;
  response_handler : AgentOutMessage → result Error T;
}.
Arguments MkCall {T}.
Arguments request {T}.
Arguments timeout {T}.
Arguments response_handler {T}.

Record LongCall := MkLongCall { long_request : AgentRequest; no_ack_timeout : Z }.

(** The handler of the operations that only succeed or fail. *)
Definition unit_handler (m : AgentOutMessage) : result Error () :=
  match m with OOk => Ok () | m => Err (default_message_handler m) end.

(** The check of a save's name. *)
Definition named {A} (savefile_name : string) (a : A) : result Error A :=
  if is_blank savefile_name then Err (BadRequest "Empty savefile name") else Ok a.

Module AgentApiClient.
Definition build_version : Call BuildVersionInfo :=
  MkCall BuildVersion 500
    (λ m, match m with OAgentBuildVersion v => Ok v | m => Err (default_message_handler m) end).
Definition system_resources : Call SystemResourcesInfo :=
  MkCall SystemResources 500
    (λ m, match m with OSystemResources s => Ok s | m => Err (default_message_handler m) end).
Definition version_install (version : string) (force_install : bool) : LongCall :=
  MkLongCall (VersionInstall version force_install) 500.
Definition version_get : Call (option string) :=
  MkCall VersionGet 500
    (λ m, match m with
          | OFactorioVersion v => Ok (Some v)
          | ONotInstalled => Ok None
          | m => Err (default_message_handler m)
          end).
Definition server_start (savefile : ServerStartSaveFile) : Call () :=
  MkCall (ServerStart savefile) 2000 unit_handler.
Definition server_stop : Call () := MkCall ServerStop 2000 unit_handler.
Definition server_status : Call ServerStatusView :=
  MkCall ServerStatus 500
    (λ m, match m with OServerStatus s => Ok s | m => Err (default_message_handler m) end).
Definition save_create (savefile_name : string) (map_gen_settings map_settings : option string) :
    result Error LongCall :=
  named savefile_name (MkLongCall (SaveCreate savefile_name map_gen_settings map_settings) 500).
Definition save_delete (savefile_name : string) : result Error (Call ()) :=
  named savefile_name (MkCall (SaveDelete savefile_name) 10000 unit_handler).
Definition save_get (savefile_name : string) : result Error LongCall :=
  named savefile_name (MkLongCall (SaveGet savefile_name) 500).
Definition save_put (savefile_name : string) (savebytes : SaveBytes) : result Error (Call ()) :=
  named savefile_name (MkCall (SaveSet savefile_name savebytes) 10000 unit_handler).
Definition save_list : Call (list Save) :=
  MkCall SaveList 500
    (λ m, match m with OSaveList saves => Ok saves | m => Err (default_message_handler m) end).
Definition mod_dlcs_get : Call (gset Dlc) :=
  MkCall ModDlcsGet 500
    (λ m, match m with ODlcList l => Ok (list_to_set l) | m => Err (default_message_handler m) end).
Definition mod_dlcs_set (dlcs : gset Dlc) : Call () :=
  MkCall (ModDlcsSet (elements dlcs)) 500 unit_handler.
Definition mod_list_get : Call (list ModObject) :=
  MkCall ModListGet 500
    (λ m, match m with OModsList mods => Ok mods | m => Err (default_message_handler m) end).
Definition mod_list_extract_from_save (savefile_name : string) : result Error (Call (list ModObject)) :=
  named savefile_name (MkCall (ModListExtractFromSave savefile_name) 500
    (λ m, match m with OModsList mods => Ok mods | m => Err (default_message_handler m) end)).
Definition mod_list_set (mods : list ModObject) : LongCall := MkLongCall (ModListSet mods) 500.
Definition mod_settings_get : Call bytes :=
  MkCall ModSettingsGet 500
    (λ m, match m with
          | OModSettings (Some b) => Ok b
          | OModSettings None => Err ModSettingsNotInitialised
          | m => Err (default_message_handler m)
          end).
Definition mod_settings_set (b : bytes) : Call () := MkCall (ModSettingsSet b) 500 unit_handler.
Definition config_adminlist_get : Call (list string) :=
  MkCall ConfigAdminListGet 500
    (λ m, match m with OConfigAdminList l => Ok l | m => Err (default_message_handler m) end).
Definition config_adminlist_set (admins : list string) : Call () :=
  MkCall (ConfigAdminListSet admins) 500 unit_handler.
Definition config_banlist_get : Call (list string) :=
  MkCall ConfigBanListGet 500
    (λ m, match m with OConfigBanList l => Ok l | m => Err (default_message_handler m) end).
Definition config_banlist_set (users : list string) : Call () :=
  MkCall (ConfigBanListSet users) 500 unit_handler.
Definition config_rcon_get : Call RconConfig :=
  MkCall ConfigRconGet 500
    (λ m, match m with OConfigRcon c => Ok c | m => Err (default_message_handler m) end).
(** the port is read only *)
Definition config_rcon_set (c : RconConfig) : Call () :=
  MkCall (ConfigRconSet (rc_password c)) 500 unit_handler.
Definition config_secrets_get : Call SecretsObject :=
  MkCall ConfigSecretsGet 500
    (λ m, match m with
          | OConfigSecrets (Some s) => Ok (MkSecretsObject (so_username s) None)
          | OConfigSecrets None => Err SecretsNotInitialised
          | m => Err (default_message_handler m)
          end).
Definition config_secrets_set (s : SecretsObject) : Call () :=
  MkCall (ConfigSecretsSet (so_username s) (default "" (so_token s))) 500 unit_handler.
Definition config_server_settings_get : Call ServerSettingsConfig :=
  MkCall ConfigServerSettingsGet 500
    (λ m, match m with OConfigServerSettings c => Ok c | m => Err (default_message_handler m) end).
Definition config_server_settings_set (c : ServerSettingsConfig) : Call () :=
  MkCall (ConfigServerSettingsSet c) 500 unit_handler.
Definition config_whitelist_get : Call WhitelistObject :=
  MkCall ConfigWhiteListGet 500
    (λ m, match m with OConfigWhiteList wl => Ok wl | m => Err (default_message_handler m) end).
Definition config_whitelist_set (enabled : bool) (users : list string) : Call () :=
  MkCall (ConfigWhiteListSet enabled users) 500 unit_handler.
Definition rcon_command (command : string) : Call string :=
  MkCall (RconCommand command) 500
    (λ m, match m with ORconResponse r => Ok r | m => Err (default_message_handler m) end).
End AgentApiClient.

(** *** Running an operation

    What the wait for the agent's answer ends with, and what the stream of a
    long operation gives after the first event, by the number of the call. *)
Class AgentAnswers := {
  waited : nat → Waited;
  streamed : nat → list Event;
  late : nat → nat;
}.

Section run.
Context {U : UuidEnv} {CE : ClientEnv} {AA : AgentAnswers}.
Context {CRq : Codec AgentRequestWithId} {CRs : Codec AgentResponseWithId}.

(** The body that the operations share: the request is sent, and its response
    is waited for. *)
Definition run_call {T} (c : Call T) : ST ClientW (result Error T) :=
  n <- st_gets ncalls ;;
  _ <-? send_request_and_subscribe (request c) ;;
  st_ret (response_or_timeout (waited n) (λ r, response_handler c (rs_content r))).

Definition run_long_call (c : LongCall) : ST ClientW (result Error (OperationId * (list Event * bool))) :=
  n <- st_gets ncalls ;;
  sent <-? send_request_and_subscribe (long_request c) ;;
  st_ret (ack_or_timeout (waited n) (late n) (streamed n) (fst sent)).

(** An operation that checks its arguments first. *)
Definition run_named {C T} (run : C → ST ClientW (result Error T)) (c : result Error C) :
    ST ClientW (result Error T) :=
  match c with Ok c => run c | Err e => st_ret (Err e) end.
End run.

(** ** Keeping alive *)

(** The pings sent since the last pong was received; the rounds are given from
    the last one. *)
Fixpoint unanswered (pongs : list bool) : Z :=
  match pongs with
  | [] => 0
  | true :: _ => 1
  | false :: pongs' => 1 + unanswered pongs'
  end.

Lemma keep_alive_snoc pongs p n : keep_alive (pongs ++ [p]) n = keep_alive pongs n ≫= keep_alive_round p.
Proof.
  revert n. induction pongs as [|q pongs IH]; intros n; cbn; [by destruct (keep_alive_round p n)|].
  destruct (keep_alive_round q n) as [m|]; [apply IH|done].
Qed.

Lemma unanswered_nonneg l : (0 <= unanswered l)%Z.
Proof. induction l as [|[] l IH]; cbn; lia. Qed.

Lemma keep_alive_count pongs m : keep_alive pongs 0 = Some m → m = unanswered (reverse pongs) ∧ (0 <= m <= 3)%Z.
Proof.
  revert m. induction pongs as [|p pongs IH] using rev_ind; intros m.
  { intros [= <-]. cbn. lia. }
  rw keep_alive_snoc reverse_snoc. intros (n & Hn & Hr)%bind_Some. destruct (IH n Hn) as [-> Hb].
  unfold keep_alive_round in Hr. destruct (Z.ltb_spec (unanswered (reverse pongs)) 3); [|done]. simplify_eq.
  destruct p; cbn [unanswered]; rw Z.mod_small; lia.
Qed.

(** C39: The task that watches the connection runs as long as fewer than three
    pings have been sent since the last pong, and ends then: a connection that
    has gone silent is given up after three rounds, and one that answers every
    ping before the next is never given up. *)
Theorem keep_alive_ends pongs :
  (∀ p, (unanswered (reverse pongs) < 3)%Z → keep_alive pongs 0 ≠ None → keep_alive (pongs ++ [p]) 0 ≠ None) ∧
  (∀ p, (3 <= unanswered (reverse pongs))%Z → keep_alive (pongs ++ [p]) 0 = None) ∧
  (∀ p, keep_alive (pongs ++ [false; false; false; p]) 0 = None) ∧
  (Forall (λ p, p = true) pongs → keep_alive pongs 0 ≠ None).
Proof.
  assert (∀ l p, (unanswered (reverse l) < 3)%Z → keep_alive l 0 ≠ None → keep_alive (l ++ [p]) 0 ≠ None) as Hgo.
  { intros l p Hl Hn. rw keep_alive_snoc. destruct (keep_alive l 0) as [m|] eqn:Hm; [|done].
    apply keep_alive_count in Hm as [-> _]. cbn. unfold keep_alive_round.
    by destruct (Z.ltb_spec (unanswered (reverse l)) 3); [|lia]. }
  assert (∀ l p, (3 <= unanswered (reverse l))%Z → keep_alive (l ++ [p]) 0 = None) as Hend.
  { intros l p Hl. rw keep_alive_snoc. destruct (keep_alive l 0) as [m|] eqn:Hm; [|done].
    apply keep_alive_count in Hm as [-> _]. cbn. unfold keep_alive_round.
    by destruct (Z.ltb_spec (unanswered (reverse l)) 3); [lia|]. }
  split_and!; [apply Hgo|apply Hend| |].
  - intros p. change [false; false; false; p] with ([false; false; false] ++ [p]). rw app_assoc. apply Hend.
    rw reverse_app. cbn. pose proof (unanswered_nonneg (reverse pongs)). lia.
  - intros Hall. induction pongs as [|p pongs IH] using rev_ind; [done|].
    apply Forall_app in Hall as [Hall Hp]. apply Hgo; [|by apply IH].
    destruct pongs as [|q pongs _] using rev_ind; [cbn; lia|]. apply Forall_app in Hall as [_ Hq].
    apply Forall_cons in Hq as [-> _]. by rw reverse_snoc.
Qed.

(** ** What is tagged with what *)

Ltac in_category c :=
  solve [exists c; split; [done|]; split; [by simplify_map_eq|]; repeat split; intros;
    repeat match goal with
    | H : is_Some _ |- _ => destruct H
    | H : _ ∨ _ |- _ => destruct H
    end; first [done | by simplify_map_eq | by left; simplify_map_eq | by right; simplify_map_eq]].

Section tag_facts.
Context {R : RegexEngine}.

(** Every line is put under one category, except a state change with an
    unknown state, which is published nowhere. *)
Lemma stdout_tags_cases message :
  let t := tag_server_stdout_message message ∅ in
  t = ∅ ∨ ∃ c, c ≠ CatServerState ∧ t !! STDOUT_TOPIC_NAME = Some (cat_to_string c) ∧
    (is_Some (t !! CHAT_TOPIC_NAME) ↔ c = CatChat) ∧
    (is_Some (t !! JOIN_TOPIC_NAME) ∨ is_Some (t !! LEAVE_TOPIC_NAME) ↔ c = CatJoinLeave) ∧
    (is_Some (t !! RPC_TOPIC_NAME) ↔ c = CatRpc) ∧
    (is_Some (t !! SERVERSTATE_TOPIC_NAME) → c = CatSystemLog).
Proof.
  unfold tag_server_stdout_message.
  repeat match goal with |- context [match ?x with _ => _ end] => destruct x end;
    first [by left|right].
  all: first [in_category CatChatDiscordEcho|in_category CatChat|in_category CatJoinLeave
    |in_category CatRpc|in_category CatSystemLog].
Qed.

Lemma stdout_tags_no_operation message :
  tag_server_stdout_message message ∅ !! OPERATION_TOPIC_NAME = None.
Proof.
  unfold tag_server_stdout_message.
  repeat match goal with |- context [match ?x with _ => _ end] => destruct x end; by simplify_map_eq.
Qed.
End tag_facts.

(** ** Delivery *)

Section delivery.
Context {R : RegexEngine} {CRs : Codec AgentResponseWithId} {CSt : Codec AgentStreamingMessage}.

(** The responses that a receiver of these events decodes. *)
Definition decoded (l : list Event) : list AgentResponseWithId := omap (λ e, ok (dec (content e))) l.

(** The subscriber that waits for the operation [id]. *)
Definition awaits (id : OperationId) (s : Subscriber) : Prop :=
  topic_name s = OPERATION_TOPIC_NAME ∧ ∀ v, matches s v = true ↔ v = id.

Lemma tagged_response id s text e r :
  awaits id s → tag_incoming_message text = Some e → dec text = Ok r →
  content e = text ∧ selects s e = bool_decide (rs_operation_id r = id).
Proof.
  unfold tag_incoming_message, selects. intros [-> Hm] He Hr. rw Hr in He. simplify_eq. cbn.
  split; [done|]. rw lookup_singleton_eq. apply eq_bool_prop_intro. rw bool_decide_spec -Hm.
  by destruct (matches _ _).
Qed.

Lemma tagged_other id s text e x :
  awaits id s → tag_incoming_message text = Some e → dec (A := AgentResponseWithId) text = Err x →
  selects s e = false.
Proof.
  unfold tag_incoming_message, selects. intros [-> _] He Hr. rw Hr in He.
  destruct (dec (A := AgentStreamingMessage) text) as [m|]; [|done]. simplify_eq. cbn. by rw stdout_tags_no_operation.
Qed.

(** Texts that arrive are put in the queue of who waits for them: exactly the
    responses of its operation, in order, each as the text that was sent. *)
Lemma delivered id s texts b n :
  awaits id s → in_range b s →
  let b' := (publish_incoming (Ok ∘ WText <$> texts) b n).1 in
  in_range b' s ∧ ∃ q, pending b' s = pending b s ++ q ∧ length (decoded q) = length q ∧
    decoded q = filter (λ r, rs_operation_id r = id) (omap (λ t, ok (dec t)) texts).
Proof.
  intros Ha. revert b. induction texts as [|text texts IH]; intros b Hr.
  { cbn. split; [done|]. exists []. by rw app_nil_r. }
  cbn [fmap list_fmap publish_incoming compose]. cbn [omap list_omap].
  destruct (tag_incoming_message text) as [e|] eqn:He.
  - destruct (pending_publish e b s Hr) as [Hr' Hp].
    destruct (IH _ Hr') as (Hr2 & q & Hq & Hl & Hd). split; [exact Hr2|]. rw Hq Hp -app_assoc.
    destruct (dec text) as [r|x] eqn:Hdec; cbn [ok].
    + destruct (tagged_response _ _ _ _ _ Ha He Hdec) as [Hc ->]. case_bool_decide as Hid.
      * exists (e :: q). split; [done|]. rw filter_cons_True //. unfold decoded in *. cbn.
        rw Hc Hdec. cbn. by rw Hl Hd.
      * exists q. by rw filter_cons_False.
    + rw (tagged_other _ _ _ _ _ Ha He Hdec). by exists q.
  - assert (ok (dec (A := AgentResponseWithId) text) = None) as Hn.
    { unfold tag_incoming_message in He. by destruct (dec text). }
    rw Hn. by apply IH.
Qed.
End delivery.

(** ** Operations *)

Section operations.
Context {CRs : Codec AgentResponseWithId}.

(** The fused stream of a conversation is the conversation, and ends. *)
Lemma fused_stream late prog fin e0 ps ef :
  Forall (λ r, rs_status r = Ongoing) prog → (rs_status fin = Completed ∨ rs_status fin = Failed) →
  e0 = ps ++ [ef] → Forall2 (λ e r, dec (content e) = Ok r) ps prog → dec (content ef) = Ok fin →
  fuse_agent_response_stream late e0 = (e0, true).
Proof.
  intros Hp Hf -> Hps Hef. induction Hps as [|e r ps prog He Hps IH]; cbn.
  - unfold is_final. rw Hef. by destruct Hf as [-> | ->]; rw take_nil.
  - apply Forall_cons in Hp as [Hr Hp]. unfold is_final at 1. rw He Hr. by rw IH.
Qed.
End operations.
