(* ===== verification/Reconnect.v ===== *)
(** * Reconnect: the connections of src/src/mgmt-server/clients.rs

    [AgentApiClient::new] keeps connecting to the agent.  A connection is three
    tasks: one pings, one writes the requests that are published, one publishes
    what arrives.  As soon as one of them ends the connection is given up and
    another is made; the other two are detached and go on.

    The tasks are steps that come in any order; making a request is one too. *)

From S2P Require Import Prelude Text Regex Schema Errors Builder MgmtErrors Events Clients.

Open Scope st_scope.

(** ** State *)

(** A connection: the subscription to the requests, the count of missed pings,
    which tasks run, and what was written to its socket. *)
Record AgentConn := MkAgentConn {
  outgoing_stream : Subscriber;
  consecutive_missed_pings : Z;
  keep_alive_task : bool;
  forward_outgoing_task : bool;
  publish_incoming_task : bool;
  written : list string;
}.

(** The loop of [new]: about to connect, or awaiting the end of a connection. *)
Inductive LoopState := Connecting | Watching (i : nat).

Record ClientSys := MkClientSys {
  api_client : ClientW;
  agent_conns : list AgentConn;
  reconnect_loop : LoopState;
}.

Definition alive (c : AgentConn) : bool :=
  keep_alive_task c && forward_outgoing_task c && publish_incoming_task c.

Section reconnect.
Context {R : RegexEngine} {BE : BroadcastEnv} {U : UuidEnv} {CE : ClientEnv}.
Context {CRq : Codec AgentRequestWithId} {CRs : Codec AgentResponseWithId} {CSt : Codec AgentStreamingMessage}.

Definition AgentApiClient_new (b : EventBroker) : ClientSys := MkClientSys (MkClientW b false 0) [] Connecting.

Definition set_conn (i : nat) (c : AgentConn) (s : ClientSys) : ClientSys :=
  MkClientSys (api_client s) (<[i := c]> (agent_conns s)) (reconnect_loop s).
Definition set_broker (b : EventBroker) (s : ClientSys) : ClientSys :=
  MkClientSys (MkClientW b (ws_connected (api_client s)) (ncalls (api_client s)))
    (agent_conns s) (reconnect_loop s).

(** ** Steps *)

(** [connect] has succeeded. *)
Definition connect (s : ClientSys) : ClientSys :=
  let r := subscribe_outgoing (event_broker (api_client s)) in
  MkClientSys (MkClientW r.2 true (ncalls (api_client s)))
    (agent_conns s ++ [MkAgentConn r.1 0 true true true []]) (Watching (length (agent_conns s))).

(** One of the tasks has ended. *)
Definition abandon (s : ClientSys) : ClientSys :=
  MkClientSys (MkClientW (event_broker (api_client s)) false (ncalls (api_client s)))
    (agent_conns s) Connecting.

(** A round of the task that pings. *)
Definition ping (c : AgentConn) : AgentConn :=
  match keep_alive_round false (consecutive_missed_pings c) with
  | Some n => MkAgentConn (outgoing_stream c) n true (forward_outgoing_task c) (publish_incoming_task c) (written c)
  | None => MkAgentConn (outgoing_stream c) (consecutive_missed_pings c) false (forward_outgoing_task c)
              (publish_incoming_task c) (written c)
  end.

(** A round of the task that writes requests; [ok] is whether the write
    succeeds. *)
Definition forward_outgoing (ok : bool) (b : EventBroker) (c : AgentConn) : AgentConn :=
  let r := poll b (outgoing_stream c) in
  match r.1 with
  | Some e =>
      MkAgentConn r.2 (consecutive_missed_pings c) (keep_alive_task c) ok (publish_incoming_task c)
        (if ok then written c ++ [content e] else written c)
  | None =>
      MkAgentConn r.2 (consecutive_missed_pings c) (keep_alive_task c) true (publish_incoming_task c) (written c)
  end.

(** Something arrives: the task publishes it, or ends. *)
Definition ends (item : result string WsMessage) : bool :=
  match item with Err _ | Ok WClose => true | _ => false end.
Definition receive (item : result string WsMessage) (b : EventBroker) (c : AgentConn) : EventBroker * AgentConn :=
  let r := publish_incoming [item] b (consecutive_missed_pings c) in
  (r.1, MkAgentConn (outgoing_stream c) r.2 (keep_alive_task c) (forward_outgoing_task c) (negb (ends item)) (written c)).

Inductive conn_step : ClientSys → ClientSys → Prop :=
| step_connect s : reconnect_loop s = Connecting → conn_step s (connect s)
| step_abandon s i c :
    reconnect_loop s = Watching i → agent_conns s !! i = Some c → alive c = false → conn_step s (abandon s)
| step_ping s i c : agent_conns s !! i = Some c → keep_alive_task c = true → conn_step s (set_conn i (ping c) s)
| step_forward s i c ok :
    agent_conns s !! i = Some c → forward_outgoing_task c = true →
    conn_step s (set_conn i (forward_outgoing ok (event_broker (api_client s)) c) s)
| step_receive s i c item :
    agent_conns s !! i = Some c → publish_incoming_task c = true →
    let r := receive item (event_broker (api_client s)) c in
    conn_step s (set_broker r.1 (set_conn i r.2 s))
| step_request s rq :
    conn_step s (MkClientSys (send_request_and_subscribe rq (api_client s)).2 (agent_conns s) (reconnect_loop s)).

(** ** Invariant *)

(** Every connection, given up or not, has a subscription to the requests for
    this agent; the client says it is connected exactly while a connection is
    watched, the last one. *)
Record conns_inv (s : ClientSys) : Prop := {
  ci_out c : c ∈ agent_conns s →
    in_range (event_broker (api_client s)) (outgoing_stream c) ∧
    topic_name (outgoing_stream c) = OUTGOING_TOPIC_NAME ∧ matches (outgoing_stream c) ws_addr = true;
  ci_loop : match reconnect_loop s with
            | Connecting => ws_connected (api_client s) = false
            | Watching i => ws_connected (api_client s) = true ∧ S i = length (agent_conns s)
            end;
}.

Definition subscribed (b : EventBroker) (c : AgentConn) : Prop :=
  in_range b (outgoing_stream c) ∧ topic_name (outgoing_stream c) = OUTGOING_TOPIC_NAME ∧
  matches (outgoing_stream c) ws_addr = true.

(** A broker to which more was published, or subscribed. *)
Definition grown (b b' : EventBroker) : Prop := ∀ t, sent_on b t `prefix_of` sent_on b' t.

Lemma grown_refl b : grown b b.
Proof. by intros t. Qed.
Lemma grown_trans b1 b2 b3 : grown b1 b2 → grown b2 b3 → grown b1 b3.
Proof. intros H1 H2 t. etrans; [apply H1|apply H2]. Qed.
Lemma grown_publish e b : grown b (publish e b).
Proof. intros t. rw sent_on_publish. by apply prefix_app_r. Qed.
Lemma grown_subscribe t f b : grown b (subscribe t f b).2.
Proof.
  intros t'. unfold subscribe, sent_on. destruct (topics b !! t) as [log|] eqn:Ht; [done|]. cbn.
  destruct (decide (t = t')) as [<-|Hne]; [by rw lookup_insert_eq Ht|by rw lookup_insert_ne].
Qed.
Lemma grown_subscribed b b' c : grown b b' → subscribed b c → subscribed b' c.
Proof.
  intros Hg (Hr & Ht & Hm). split_and!; [|done..]. unfold in_range in *. rw Ht in Hr |- *.
  etrans; [exact Hr|]. apply prefix_length, Hg.
Qed.
Lemma grown_incoming items b n : grown b (publish_incoming items b n).1.
Proof.
  revert b n. induction items as [|[[s| | | | |]|e] items IH]; intros b n; cbn; try apply IH; try apply grown_refl.
  eapply grown_trans; [|apply IH]. destruct (tag_incoming_message s); [apply grown_publish|apply grown_refl].
Qed.
Lemma wp_request_grown rq w :
  wp (send_request_and_subscribe rq)
    (λ _ w', grown (event_broker w) (event_broker w') ∧ ws_connected w' = ws_connected w) w.
Proof.
  unfold send_request_and_subscribe. apply wp_bind, wp_get. destruct (negb (ws_connected w)) eqn:Hw.
  { apply wp_ret. split; [apply grown_refl|done]. }
  destruct (enc (MkRequest (uuid_v4 (ncalls w)) rq)) as [text|e]; apply wp_bind, wp_put, wp_ret; cbn.
  - split; [|done]. eapply grown_trans; [apply grown_subscribe|apply grown_publish].
  - split; [apply grown_refl|done].
Qed.

(** Changing one connection, and publishing. *)
Lemma conns_inv_update s i c b :
  conns_inv s → (∃ c0, agent_conns s !! i = Some c0) → grown (event_broker (api_client s)) b → subscribed b c →
  conns_inv (set_broker b (set_conn i c s)).
Proof.
  intros [Ho Hl] [c0 Hi] Hg Hc. split.
  - cbn. intros c' Hc'. apply list_elem_of_lookup in Hc' as [j Hj]. apply list_lookup_insert_Some in Hj
      as [(-> & <- & _)|(_ & Hj)]; [exact Hc|].
    apply (grown_subscribed _ b c' Hg), Ho. by eapply list_elem_of_lookup_2.
  - cbn. rw length_insert. exact Hl.
Qed.

Lemma set_broker_same s : set_broker (event_broker (api_client s)) s = s.
Proof. by destruct s as [[]]. Qed.

Lemma forward_subscribed ok b c : subscribed b c → subscribed b (forward_outgoing ok b c).
Proof.
  intros (Hr & Ht & Hm). destruct (poll_pending b (outgoing_stream c) Hr) as (Ht' & Hm' & Hr' & _).
  unfold subscribed, forward_outgoing. destruct (poll b (outgoing_stream c)) as [[e|] s']; cbn in *;
    by rw Ht' Hm'.
Qed.

Lemma conn_step_inv s s' : conn_step s s' → conns_inv s → conns_inv s'.
Proof.
  intros Hs Hinv. pose proof Hinv as [Ho Hl].
  destruct Hs as [s Hc|s i c Hw Hi Ha|s i c Hi Hk|s i c ok Hi Hf|s i c item Hi Hp r|s rq].
  - split; [|cbn; rw length_app /=; split; [done|lia]].
    cbn. intros c [Hin|Hin%list_elem_of_singleton]%elem_of_app.
    + apply (grown_subscribed (event_broker (api_client s))); [apply grown_subscribe|by apply Ho].
    + subst c. cbn. destruct (pending_subscribe OUTGOING_TOPIC_NAME (λ s, bool_decide (ws_addr = s))
        (event_broker (api_client s)) (subscribe_outgoing (event_broker (api_client s))).1) as (_ & Hr & _).
      split_and!; [exact Hr|..]; unfold subscribe_outgoing, subscribe; destruct (topics _ !! _); cbn; try done;
        by apply bool_decide_eq_true.
  - split; [exact Ho|done].
  - rw -(set_broker_same (set_conn i (ping c) s)). apply conns_inv_update; [done|eauto|apply grown_refl|].
    assert (subscribed (event_broker (api_client s)) c) as Hsub by by apply Ho; eapply list_elem_of_lookup_2.
    unfold ping. by destruct (keep_alive_round _ _).
  - rw -(set_broker_same (set_conn i _ s)). apply conns_inv_update; [done|eauto|apply grown_refl|].
    apply forward_subscribed, Ho. by eapply list_elem_of_lookup_2.
  - assert (grown (event_broker (api_client s)) r.1) as Hg by apply grown_incoming.
    apply conns_inv_update; [done|eauto|exact Hg|].
    apply (grown_subscribed _ _ c Hg), Ho. by eapply list_elem_of_lookup_2.
  - destruct (wp_request_grown rq (api_client s)) as [Hg Hc]. split; cbn; [|by rw Hc].
    intros c Hin. by apply (grown_subscribed _ _ c Hg), Ho.
Qed.

Lemma conns_reachable b s : rtc conn_step (AgentApiClient_new b) s → conns_inv s.
Proof.
  intros Hrun. assert (conns_inv (AgentApiClient_new b)) as H0.
  { split; [|done]. cbn. by intros c Hc%elem_of_nil. }
  revert H0. induction Hrun as [|s1 s2 s3 Hs _ IH]; [done|]. intros H0. by eapply IH, conn_step_inv.
Qed.

(** C29: A request that is made while a connection is watched is put in the
    queue of that connection's writing task, as one text; and in the queue of
    every connection that was given up before as well: where the writing task
    of such a connection still runs, because it is only the pings that went
    unanswered, the agent is sent the request once more. *)
Theorem request_fans_out b s rq `{!CodecTotal AgentRequestWithId} `{!BroadcastLaws} :
  rtc conn_step (AgentApiClient_new b) s → ws_connected (api_client s) = true →
  (∃ i c, reconnect_loop s = Watching i ∧ agent_conns s !! i = Some c) ∧
  wp (send_request_and_subscribe rq) (λ _ w', ∃ e,
    enc (MkRequest (uuid_v4 (ncalls (api_client s))) rq) = Ok (content e) ∧
    ∀ i c, agent_conns s !! i = Some c →
      pending (event_broker w') (outgoing_stream c) =
        pending (event_broker (api_client s)) (outgoing_stream c) ++ [e] ∧
      ((length (unread (event_broker w') (outgoing_stream c)) <= TOPIC_CAPACITY)%nat →
       pending (event_broker (api_client s)) (outgoing_stream c) = [] →
       written (forward_outgoing true (event_broker w') c) = written c ++ [content e])) (api_client s).
Proof.
  intros Hrun%conns_reachable Hc. pose proof Hrun as [Ho Hl]. split.
  - destruct (reconnect_loop s) as [|i]; [congruence|]. destruct Hl as [_ Hl].
    destruct (lookup_lt_is_Some_2 (agent_conns s) i) as [c Hi]; [lia|]. eauto.
  - unfold send_request_and_subscribe. apply wp_bind, wp_get. rw Hc. cbn [negb].
    set (id := uuid_v4 _). destruct (codec_total (MkRequest id rq)) as [text Htext]. rw Htext.
    apply wp_bind, wp_put, wp_ret. cbn [event_broker].
    set (sub := subscribe _ _ _). set (ev := MkEvent _ _ _). exists ev. split; [done|]. intros i c Hi.
    assert (subscribed (event_broker (api_client s)) c) as (Hr & Ht & Hm)
      by by apply Ho; eapply list_elem_of_lookup_2.
    destruct (pending_subscribe OPERATION_TOPIC_NAME (λ v, bool_decide (v = id)) (event_broker (api_client s))
      (outgoing_stream c)) as (_ & _ & Hs3 & Hs4). fold sub in Hs3, Hs4.
    destruct (pending_publish ev sub.2 (outgoing_stream c) (Hs4 Hr)) as [Hr' Hp].
    assert (selects (outgoing_stream c) ev = true) as Hsel.
    { unfold selects. rw Ht. cbn. rw lookup_singleton_eq. exact Hm. }
    rw Hsel Hs3 in Hp. split; [exact Hp|]. intros Hlen Hnil. rw Hnil in Hp.
    destruct (poll_pending (publish ev sub.2) (outgoing_stream c) Hr') as (_ & _ & _ & _ & Hq & Hnone).
    destruct (catch_up_pending (publish ev sub.2) (outgoing_stream c) Hr') as (_ & _ & Hcu).
    rw Hcu in Hq; [|etrans; [exact Hlen|apply keeps_capacity]]. rw Hp in Hq.
    unfold forward_outgoing. destruct (poll _ _) as [[e|] s']; cbn [fst snd] in *.
    + injection Hq as -> _. done.
    + rw (Hnone eq_refl) in Hq. done.
Qed.
End reconnect.
