(* ===== verification/Links.v ===== *)
(** * Links: src/src/mgmt-server/link_download.rs and routes/download.rs

    Download links: a link stands for something to download until a clean-up
    finds it older than an hour.  Times are in milliseconds; the link of
    [create_link] is the text of a new UUID, and the time of each operation
    the one it reads. *)

From S2P Require Import Prelude Text Schema Errors Builder MgmtErrors Events Clients.

Open Scope st_scope.

Definition CLEANUP_INTERVAL : Z := 15 * 60 * 1000.
Definition LINK_EXPIRY : Z := 60 * 60 * 1000.

Inductive LinkDownloadTarget := TSavefile (id : string) | TModSettingsDat.

Definition LinkMap := gmap string (LinkDownloadTarget * Z).

(** ** The manager *)

Module LinkDownloadManager.
Definition new : LinkMap := ∅.

Definition create_link (link : string) (now : Z) (target : LinkDownloadTarget) (links : LinkMap) :
    string * LinkMap := (link, <[link := (target, now)]> links).

Definition get_link (link : string) (links : LinkMap) : option LinkDownloadTarget := fst <$> links !! link.

(** One round of [cleanup_job]. *)
Definition cleanup (now : Z) (links : LinkMap) : LinkMap :=
  filter (λ x, negb (LINK_EXPIRY <? now - x.2.2)%Z = true) links.
End LinkDownloadManager.
Import LinkDownloadManager.

(** What happens to the map: links are made, and clean-ups run. *)
Inductive LinkAct := Create (link : string) (now : Z) (target : LinkDownloadTarget) | CleanUp (now : Z).

Definition link_act (a : LinkAct) (links : LinkMap) : LinkMap :=
  match a with
  | Create link now target => (create_link link now target links).2
  | CleanUp now => cleanup now links
  end.

Definition link_run (acts : list LinkAct) (links : LinkMap) : LinkMap := foldl (flip link_act) links acts.

(** No clean-up finds a link of [t0] expired. *)
Definition no_expiry (t0 : Z) (acts : list LinkAct) : Prop :=
  ∀ now, CleanUp now ∈ acts → (now - t0 <= LINK_EXPIRY)%Z.
Definition not_remade (link : string) (acts : list LinkAct) : Prop :=
  ∀ now target, Create link now target ∉ acts.

Lemma lookup_cleanup now links link v :
  cleanup now links !! link = Some v ↔ links !! link = Some v ∧ (now - v.2 <= LINK_EXPIRY)%Z.
Proof.
  unfold cleanup. rw map_lookup_filter_Some. cbn.
  destruct (Z.ltb_spec LINK_EXPIRY (now - v.2)); cbn; naive_solver lia.
Qed.

Lemma link_run_keeps link target t0 acts links :
  links !! link = Some (target, t0) → no_expiry t0 acts → not_remade link acts →
  link_run acts links !! link = Some (target, t0).
Proof.
  revert links. induction acts as [|a acts IH]; intros links Hl Hn Hm; [done|]. cbn. apply IH.
  - destruct a as [link' now' target'|now']; cbn.
    + rw lookup_insert_ne; [done|]. intros ->. eapply Hm. by left.
    + apply lookup_cleanup. split; [done|]. cbn. apply Hn. by left.
  - intros now Hin. apply Hn. by right.
  - intros now target' Hin. eapply Hm. by right.
Qed.

(** A link that is not made again is as it was, or gone. *)
Lemma link_run_cases link acts links :
  not_remade link acts →
  link_run acts links !! link = links !! link ∨ link_run acts links !! link = None.
Proof.
  revert links. induction acts as [|a acts IH]; intros links Hm; [by left|].
  change (link_run (a :: acts) links) with (link_run acts (link_act a links)).
  assert (link_act a links !! link = links !! link ∨ link_act a links !! link = None) as Ha.
  { destruct a as [link' now' target'|now']; cbn.
    - left. rw lookup_insert_ne; [done|]. intros ->. eapply Hm. by left.
    - destruct (cleanup now' links !! link) as [v|] eqn:Hv; [|by right].
      apply lookup_cleanup in Hv as [-> _]. by left. }
  destruct (IH (link_act a links)) as [-> | ->]; [|naive_solver..].
  intros now target' Hin. eapply Hm. by right.
Qed.

(** C36: A link gives its target as long as no clean-up has run more than an
    hour after it was made, and nothing for ever after the first that has,
    whatever other links are made and cleaned up. *)
Theorem link_lifetime link now target acts links :
  not_remade link acts →
  (no_expiry now acts →
   get_link link (link_run acts (create_link link now target links).2) = Some target) ∧
  (∀ before t after, acts = before ++ CleanUp t :: after → (LINK_EXPIRY < t - now)%Z →
   get_link link (link_run acts (create_link link now target links).2) = None).
Proof.
  intros Hm. assert ((create_link link now target links).2 !! link = Some (target, now)) as Hl
    by by cbn; rw lookup_insert_eq.
  generalize dependent ((create_link link now target links).2). intros m Hl. unfold get_link. split.
  - intros Hn. by rw (link_run_keeps link target now).
  - intros before t after -> Ht.
    assert (not_remade link before ∧ not_remade link after) as [Hb Ha].
    { split; intros n' t' Hin; apply (Hm n' t'); set_solver. }
    unfold link_run. rw foldl_app. cbn [foldl].
    assert (cleanup t (link_run before m) !! link = None) as Hnone.
    { destruct (cleanup t _ !! link) as [v|] eqn:Hc; [|done]. exfalso.
      apply lookup_cleanup in Hc as [Hc Hle]. destruct (link_run_cases link before m Hb) as [Heq|Heq];
        rw Heq in Hc; [|done]. rw Hl in Hc. simplify_eq. cbn in Hle. lia. }
    destruct (link_run_cases link after (cleanup t (link_run before m)) Ha) as [Heq|Heq];
      unfold link_run in Heq, Hnone; cbn [flip link_act]; rw Heq; [by rw Hnone|done].
Qed.

(** ** routes/download.rs *)

(** The closure of [filter_map] in [download_save]. *)
Definition part_of_event `{Codec AgentResponseWithId} (e : Event) : option bytes :=
  match dec (A := AgentResponseWithId) (content e) with
  | Ok m =>
      match rs_content m with
      | OSaveFile sb => if is_sentinel sb then None else Some (sb_bytes sb)
      | _ => None
      end
  | Err _ => None
  end.

(** What is sent to the browser: a stream of bytes, and the name of the file. *)
Record DownloadResponder := MkDownload { inner : list bytes; content_disposition : string }.

Definition DownloadResponder_new (inner : list bytes) (download_filename : string) : DownloadResponder :=
  MkDownload inner ("attachment; filename=" +:+ download_filename).

Section download.
Context {U : UuidEnv} {CE : ClientEnv} {AA : AgentAnswers}.
Context {CRq : Codec AgentRequestWithId} {CRs : Codec AgentResponseWithId}.

Definition download_save (id : string) : ST ClientW (result Mgmt.Error (list bytes)) :=
  r <-? run_named run_long_call (AgentApiClient.save_get id) ;;
  st_ret (Ok (omap part_of_event (fst (snd r)))).

Definition download_mod_settings_dat : ST ClientW (result Mgmt.Error (list bytes)) :=
  bytes <-? run_call AgentApiClient.mod_settings_get ;; st_ret (Ok [bytes]).

Definition download (links : LinkMap) (link_id : string) : ST ClientW (result Mgmt.Error DownloadResponder) :=
  match get_link link_id links with
  | Some (TSavefile id) =>
      source_stream <-? download_save id ;;
      st_ret (Ok (DownloadResponder_new source_stream (id +:+ ".zip")))
  | Some TModSettingsDat =>
      source_stream <-? download_mod_settings_dat ;;
      st_ret (Ok (DownloadResponder_new source_stream "mod-settings.dat"))
  | None => st_ret (Err Mgmt.InvalidLink)
  end.
End download.
