(* ===== verification/WsServer.v ===== *)
(** * WsServer: src/src/mgmt-server/ws.rs

    The WebSocket server for the browsers.  A stream is offered at a path;
    the first connection to the path takes it, and what the stream yields is
    forwarded to it until one of the two ends.

    The tasks of the code are the steps of [ws_step], which come in any order:
    [stream_at] is called, a connection asks for a path, its handshake ends, a
    stream that nobody took times out, an event is forwarded, a connection
    ends. *)

From S2P Require Import Prelude Text Events.

(** ** State *)

(** The call of [stream_at] waits for a connection; forwards to it, having
    sent these texts; or is over. *)
Inductive StreamState := Waiting | Connected (sent : list string) | Finished.

#[export] Instance StreamState_eq : EqDecision StreamState.
Proof. solve_decision. Defined.

(** A call of [stream_at]: its path, what its stream still yields, and where
    it is. *)
Record StreamAt := MkStreamAt { s_path : string; s_rest : list Event; s_state : StreamState }.

Record WebSocketServer := MkWs {
  port : Z;
  use_wss : bool;
  dynamic_streams_waiting : gmap string nat;   (** path to the call that waits *)
  handshakes : list nat;                       (** taken, the handshake is going on *)
  calls : list StreamAt;
}.

Definition WebSocketServer_new (port : Z) (use_wss : bool) : WebSocketServer := MkWs port use_wss ∅ [] [].

Definition set_call (i : nat) (f : StreamAt → StreamAt) (s : WebSocketServer) : WebSocketServer :=
  MkWs (port s) (use_wss s) (dynamic_streams_waiting s) (handshakes s) (alter f i (calls s)).
Definition set_waiting (f : gmap string nat → gmap string nat) (s : WebSocketServer) : WebSocketServer :=
  MkWs (port s) (use_wss s) (f (dynamic_streams_waiting s)) (handshakes s) (calls s).
Definition set_handshakes (f : list nat → list nat) (s : WebSocketServer) : WebSocketServer :=
  MkWs (port s) (use_wss s) (dynamic_streams_waiting s) (f (handshakes s)) (calls s).
Definition with_state (st : StreamState) (c : StreamAt) : StreamAt := MkStreamAt (s_path c) (s_rest c) st.

(** ** Operations *)

(** The start of [stream_at]: an earlier call that waits at the path loses its
    sender. *)
Definition stream_at (path : string) (stream : list Event) (s : WebSocketServer) : WebSocketServer :=
  let i := length (calls s) in
  MkWs (port s) (use_wss s) (<[path := i]> (dynamic_streams_waiting s)) (handshakes s)
    (calls s ++ [MkStreamAt path stream Waiting]).

(** [on_request]: [false] refuses the connection with status 400. *)
Definition on_request (path : string) (s : WebSocketServer) : bool * WebSocketServer :=
  match dynamic_streams_waiting s !! path with
  | Some i => (true, set_handshakes (cons i) (set_waiting (delete path) s))
  | None => (false, s)
  end.

(** The rest of [route]: the connection is handed to the call, which is gone
    when it has timed out; without one the call's sender is dropped. *)
Definition handshake_done (i : nat) (accepted : bool) (s : WebSocketServer) : WebSocketServer :=
  set_handshakes (filter (λ j, j ≠ i))
    (set_call i (λ c, match s_state c with
                      | Waiting => with_state (if accepted then Connected [] else Finished) c
                      | _ => c
                      end) s).

(** Nobody has connected in time. *)
Definition unconnected_timeout (i : nat) (s : WebSocketServer) : WebSocketServer :=
  match calls s !! i with
  | Some c => match s_state c with
              | Waiting => set_waiting (delete (s_path c)) (set_call i (with_state Finished) s)
              | _ => s
              end
  | None => s
  end.

(** The sender of the call was dropped: another call has its path. *)
Definition sender_dropped (i : nat) (s : WebSocketServer) : WebSocketServer :=
  match calls s !! i with
  | Some c =>
      if bool_decide (s_state c = Waiting ∧ dynamic_streams_waiting s !! s_path c ≠ Some i ∧ i ∉ handshakes s)
      then set_call i (with_state Finished) s else s
  | None => s
  end.

(** The stream yields an event, which is sent. *)
Definition forward (i : nat) (s : WebSocketServer) : WebSocketServer :=
  set_call i (λ c, match s_state c, s_rest c with
                   | Connected sent, e :: rest =>
                       MkStreamAt (s_path c) rest (Connected (sent ++ [content e]))
                   | _, _ => c
                   end) s.

(** The stream has ended, the browser has closed, or an hour has passed. *)
Definition finish (i : nat) (s : WebSocketServer) : WebSocketServer :=
  set_call i (λ c, match s_state c with Connected _ => with_state Finished c | _ => c end) s.

Inductive ws_step : WebSocketServer → WebSocketServer → Prop :=
| ws_stream_at path stream s : ws_step s (stream_at path stream s)
| ws_request path s : ws_step s (on_request path s).2
| ws_handshake i ok s : i ∈ handshakes s → ws_step s (handshake_done i ok s)
| ws_timeout i s : ws_step s (unconnected_timeout i s)
| ws_dropped i s : ws_step s (sender_dropped i s)
| ws_forward i s : ws_step s (forward i s)
| ws_finish i s : ws_step s (finish i s).

(** ** Invariant *)

(** A path leads to a call that waits at that path; a handshake is for one
    that was made, once, and that no path leads to any more; what is connected
    was in a handshake before. *)
Record ws_inv (s : WebSocketServer) : Prop := {
  inv_waiting p i : dynamic_streams_waiting s !! p = Some i →
    ∃ c, calls s !! i = Some c ∧ s_path c = p ∧ s_state c = Waiting;
  inv_handshakes i : i ∈ handshakes s →
    ∃ c, calls s !! i = Some c ∧ (s_state c = Waiting ∨ s_state c = Finished);
  inv_apart p i : dynamic_streams_waiting s !! p = Some i → i ∉ handshakes s;
  inv_once : NoDup (handshakes s);
}.

Lemma lookup_set_call i f s j :
  calls (set_call i f s) !! j = (if decide (i = j) then f <$> calls s !! j else calls s !! j).
Proof.
  cbn. case_decide as H; [subst; apply list_lookup_alter_eq|by apply list_lookup_alter_ne].
Qed.

(** Changing a call that is not waited for keeps the invariant. *)
Lemma set_call_inv i f s :
  ws_inv s →
  (∀ c, s_path (f c) = s_path c) →
  (∀ c, calls s !! i = Some c → s_state (f c) = s_state c ∨
     (∀ p, dynamic_streams_waiting s !! p ≠ Some i) ∧ (i ∈ handshakes s → s_state (f c) = Finished)) →
  ws_inv (set_call i f s).
Proof.
  intros [Hw Hh Ha Ho] Hp Hf. split; [|intros j Hj|exact Ha|exact Ho].
  - intros p j Hpj. rw lookup_set_call. destruct (Hw p j Hpj) as (c & Hc & Hcp & Hcw).
    case_decide as Heq; [subst j|by exists c]. exists (f c). rw Hc. split; [done|]. rw Hp.
    destruct (Hf c Hc) as [-> | [Hno _]]; [done|]. by destruct (Hno p).
  - cbn in Hj. rw lookup_set_call. destruct (Hh j Hj) as (c & Hc & Hs).
    case_decide as Heq; [subst j|by exists c]. exists (f c). rw Hc. split; [done|].
    destruct (Hf c Hc) as [-> | [_ ->]]; [done|by right|done].
Qed.

Lemma delete_waiting_inv p s : ws_inv s → ws_inv (set_waiting (delete p) s).
Proof.
  intros [Hw Hh Ha Ho]. split; [|exact Hh| |exact Ho]; intros p' i Hi; cbn in Hi;
    apply lookup_delete_Some in Hi as [_ Hi]; [by apply Hw|by eapply Ha].
Qed.

Lemma stream_at_inv path stream s : ws_inv s → ws_inv (stream_at path stream s).
Proof.
  intros [Hw Hh Ha Ho]. split; unfold stream_at; cbn [dynamic_streams_waiting handshakes calls]; [| | |exact Ho].
  - intros p i [[<- <-]|[Hne Hi]]%lookup_insert_Some.
    + eexists. split; [apply list_lookup_middle; done|done].
    + destruct (Hw p i Hi) as (c & Hc & ?). exists c. by rw lookup_app_l; [|by eapply lookup_lt_Some].
  - intros i Hi. destruct (Hh i Hi) as (c & Hc & ?). exists c.
    by rw lookup_app_l; [|by eapply lookup_lt_Some].
  - intros p i [[<- <-]|[Hne Hi]]%lookup_insert_Some; [|by eapply Ha].
    intros Hin. destruct (Hh _ Hin) as (c & Hc%lookup_lt_Some & _). lia.
Qed.

Lemma on_request_inv path s : ws_inv s → ws_inv (on_request path s).2.
Proof.
  intros [Hw Hh Ha Ho]. unfold on_request. destruct (dynamic_streams_waiting s !! path) as [i|] eqn:Hi; [|done].
  destruct (Hw path i Hi) as (c & Hc & Hcp & Hcw). split; cbn [snd dynamic_streams_waiting handshakes calls set_handshakes set_waiting].
  - intros p j [_ Hj]%lookup_delete_Some. by apply Hw.
  - intros j [->|Hj]%elem_of_cons; [|by apply Hh]. exists c. auto.
  - intros p j [Hne Hj]%lookup_delete_Some. rw not_elem_of_cons. split; [|by eapply Ha].
    intros ->. destruct (Hw p i Hj) as (c' & Hc' & Hcp' & _). rw Hc in Hc'. simplify_eq.
  - apply NoDup_cons. split; [by eapply Ha|done].
Qed.

Lemma handshake_done_inv i ok s : i ∈ handshakes s → ws_inv s → ws_inv (handshake_done i ok s).
Proof.
  intros Hin Hinv. pose proof Hinv as [Hw Hh Ha Ho].
  assert (∀ p j, dynamic_streams_waiting s !! p = Some j → j ≠ i) as Hne by (intros p j Hj ->; by eapply Ha).
  split; unfold handshake_done; cbn [dynamic_streams_waiting handshakes set_handshakes set_call].
  - intros p j Hj. destruct (Hw p j Hj) as (c & Hc & ?). exists c. split; [|done].
    cbn. rw list_lookup_alter_ne; [done|]. intros <-. by eapply Hne.
  - intros j [Hji Hj]%list_elem_of_filter. destruct (Hh j Hj) as (c & Hc & ?). exists c. split; [|done].
    cbn. by rw list_lookup_alter_ne.
  - intros p j Hj [_ Hin']%list_elem_of_filter. by eapply Ha.
  - by apply NoDup_filter.
Qed.

Lemma ws_step_inv s s' : ws_step s s' → ws_inv s → ws_inv s'.
Proof.
  intros [path stream s0|path s0|i ok s0 Hi|i s0|i s0|i s0|i s0] Hinv.
  - by apply stream_at_inv.
  - by apply on_request_inv.
  - by apply handshake_done_inv.
  - unfold unconnected_timeout. destruct (calls s0 !! i) as [c|] eqn:Hc; [|done].
    destruct (s_state c) eqn:Hs; [|done..].
    change (ws_inv (set_call i (with_state Finished) (set_waiting (delete (s_path c)) s0))).
    apply set_call_inv; [by apply delete_waiting_inv|done|]. intros c' Hc'. right. split; [|done].
    intros p Hpd. cbn in Hpd. apply lookup_delete_Some in Hpd as [Hne Hp].
    destruct (inv_waiting _ Hinv p i Hp) as (c2 & Hc2 & Hp2 & _).
    rw Hc in Hc2. simplify_eq.
  - unfold sender_dropped. destruct (calls s0 !! i) as [c|] eqn:Hc; [|done]. case_bool_decide as Hb; [|done].
    destruct Hb as (Hs & Hno & Hnh). apply set_call_inv; [done..|]. intros c' Hc'. right. split; [|done].
    intros p Hp. destruct (inv_waiting _ Hinv p i Hp) as (c2 & Hc2 & <- & _). rw Hc in Hc2. simplify_eq.
  - apply set_call_inv; [done| |].
    + intros c. by destruct (s_state c), (s_rest c).
    + intros c Hc. destruct (s_state c) as [|sent|] eqn:Hs; [by left| |by left].
      right. split.
      * intros p Hp. destruct (inv_waiting _ Hinv p i Hp) as (c2 & Hc2 & _ & Hw2). rw Hc in Hc2. simplify_eq.
        by rw Hw2 in Hs.
      * intros Hin. destruct (inv_handshakes _ Hinv i Hin) as (c2 & Hc2 & [H2|H2]); rw Hc in Hc2; simplify_eq;
          by rw H2 in Hs.
  - apply set_call_inv; [done| |].
    + intros c. by destruct (s_state c).
    + intros c Hc. destruct (s_state c) as [|sent|] eqn:Hs; [by left| |by left]. right. split; [|done].
      intros p Hp. destruct (inv_waiting _ Hinv p i Hp) as (c2 & Hc2 & _ & Hw2). rw Hc in Hc2. simplify_eq.
      by rw Hw2 in Hs.
Qed.

Lemma ws_reachable port use_wss s : rtc ws_step (WebSocketServer_new port use_wss) s → ws_inv s.
Proof.
  intros Hrun. assert (ws_inv (WebSocketServer_new port use_wss)) as H0.
  { split; cbn; [intros p i; by rw lookup_empty|by intros i Hi%elem_of_nil|intros p i; by rw lookup_empty|constructor]. }
  revert H0. induction Hrun as [|s1 s2 s3 Hs _ IH]; [done|]. intros H0. by eapply IH, ws_step_inv.
Qed.

(** ** What a browser receives *)

(** The call at a path: what it has sent and what it still has to send are
    the stream. *)
Definition on_track (path : string) (stream : list Event) (c : StreamAt) : Prop :=
  s_path c = path ∧
  match s_state c with
  | Waiting => s_rest c = stream
  | Connected sent => sent ++ (content <$> s_rest c) = content <$> stream
  | Finished => True
  end.

Lemma set_call_track path stream i j f s :
  (∀ c, on_track path stream c → on_track path stream (f c)) →
  (∃ c, calls s !! i = Some c ∧ on_track path stream c) →
  ∃ c, calls (set_call j f s) !! i = Some c ∧ on_track path stream c.
Proof.
  intros Hf (c & Hc & Ht). rw lookup_set_call. case_decide; [|by exists c].
  subst j. exists (f c). rw Hc. split; [done|by apply Hf].
Qed.

Lemma finished_track path stream c : on_track path stream c → on_track path stream (with_state Finished c).
Proof. by intros [Hp _]. Qed.

Lemma step_track path stream i s s' :
  ws_step s s' → (∃ c, calls s !! i = Some c ∧ on_track path stream c) →
  ∃ c, calls s' !! i = Some c ∧ on_track path stream c.
Proof.
  intros [p st s0|p s0|j ok s0 Hj|j s0|j s0|j s0|j s0] Ht.
  - destruct Ht as (c & Hc & Ht). exists c. split; [|done]. cbn. by apply lookup_app_l_Some.
  - unfold on_request. by destruct (dynamic_streams_waiting s0 !! p).
  - apply (set_call_track path stream i j); [|done]. intros c [Hp Hc].
    destruct (s_state c) eqn:Hs; [|by split; [|by rw Hs]..]. destruct ok; split; try done. cbn. by rw Hc.
  - unfold unconnected_timeout. destruct (calls s0 !! j) as [c|]; [|done]. destruct (s_state c); [|done..].
    apply (set_call_track path stream i j (with_state Finished) s0); [|done]. apply finished_track.
  - unfold sender_dropped. destruct (calls s0 !! j) as [c|]; [|done]. case_bool_decide; [|done].
    apply set_call_track; [|done]. apply finished_track.
  - apply set_call_track; [|done]. intros c [Hp Hc].
    destruct (s_state c) as [|sent|] eqn:Hs; [by split; [|by rw Hs]| |by split; [|by rw Hs]].
    destruct (s_rest c) as [|e rest] eqn:Hr; [by split; [|by rw Hs Hr]|]. split; [done|].
    cbn in Hc |- *. by rw -app_assoc.
  - apply set_call_track; [|done]. intros c [Hp Hc].
    destruct (s_state c) as [|sent|] eqn:Hs; [by split; [|by rw Hs]|done|by split; [|by rw Hs]].
Qed.

(** C20: Of a stream that is offered at a path, the browser that connects there
    receives the contents in order, from the first and without a gap, however
    calls, connections, time-outs and events interleave; a path can be taken
    once, and leads to no call that is connected or over. *)
Theorem stream_forwarded port use_wss s0 path stream s :
  rtc ws_step (WebSocketServer_new port use_wss) s0 → rtc ws_step (stream_at path stream s0) s →
  (∃ c, calls s !! length (calls s0) = Some c ∧ s_path c = path ∧
     ∀ sent, s_state c = Connected sent → sent ++ (content <$> s_rest c) = content <$> stream) ∧
  (∀ p, (on_request p (on_request p s).2).1 = false) ∧
  (∀ p i c, dynamic_streams_waiting s !! p = Some i → calls s !! i = Some c →
     s_path c = p ∧ s_state c = Waiting).
Proof.
  intros H0 Hrun. assert (ws_inv s) as Hinv.
  { apply (ws_reachable port use_wss). etrans; [exact H0|]. eapply rtc_l; [|exact Hrun]. constructor. }
  split_and!.
  - assert (∃ c, calls (stream_at path stream s0) !! length (calls s0) = Some c ∧ on_track path stream c) as Ht.
    { eexists. split; [by apply list_lookup_middle|done]. }
    clear H0 Hinv. induction Hrun as [s1|s1 s2 s3 Hs _ IH]; [|by eapply IH, step_track].
    destruct Ht as (c & Hc & Hp & Ht). exists c. split_and!; [done..|]. intros sent Hs. by rw Hs in Ht.
  - intros p. unfold on_request at 2. destruct (dynamic_streams_waiting s !! p) as [i|] eqn:Hi; unfold on_request; cbn.
    + by rw lookup_delete_eq.
    + by rw Hi.
  - intros p i c Hi Hc. destruct (inv_waiting _ Hinv p i Hi) as (c' & Hc' & ? & ?). rw Hc in Hc'. by simplify_eq.
Qed.
