(* ===== verification/Auth.v ===== *)
(** * Auth: src/src/mgmt-server/auth.rs, guards.rs and routes/auth.rs

    Who a request is from, and whether that is the administrator: the tokens
    and identities that are kept, Discord's answers as an oracle, and the
    guards that the routes put before their handlers.

    Times are in seconds and unbounded; the bounds of chrono's times are not
    modelled. *)

From S2P Require Import Prelude Text Regex Errors MgmtErrors.

Open Scope st_scope.

(** ** Data *)

Inductive AuthnProvider := ProviderNone | ProviderDiscord (client_id client_secret : string).

Record UserIdentity := MkUserIdentity { sub : string }.

#[export] Instance UserIdentity_eq : EqDecision UserIdentity.
Proof. solve_decision. Defined.

Definition anonymous : UserIdentity := MkUserIdentity "anonymous".

Record DiscordUser := MkDiscordUser {
  du_id : string;
  username : string;
  discriminator : string;
}.
Definition UserIdentity_from (du : DiscordUser) : UserIdentity := MkUserIdentity (du_id du).

Record OAuthTokenFullResponse := MkTokenFull {
  tf_access_token : string;
  token_type : string;
  tf_expires_in : Z;
  refresh_token : string;
  scope : string;
}.
Record OAuthTokenResponse := MkToken { access_token : string; expires_in : option Z }.

(** [i64 as i32] *)
Definition as_i32 (z : Z) : Z :=
  let m := (z mod 2 ^ 32)%Z in if (m <? 2 ^ 31)%Z then m else (m - 2 ^ 32)%Z.

Definition DISCORD_TOKEN_URL : string := "https://discord.com/api/oauth2/token".
Definition DISCORD_IDENTITY_URL : string := "https://discord.com/api/users/@me".

Inductive FormBody := Form (body : gmap string string) | JsonBody (body : gmap string string).

(** ** Discord

    The answer of a request: it could not be sent, or there is a response,
    which may have an error status, and whose text may not be readable. *)
Record HttpResponse := MkHttp { status_error : option string; text : result string string }.
Class DiscordApi := {
  http_post : nat → string → FormBody → result string HttpResponse;
  http_get_bearer : nat → string → string → result string HttpResponse;
}.

Record AuthnManager := MkAuthn {
  provider : AuthnProvider;
  token_to_id_map : gmap string UserIdentity;
  refresh_token_map : gmap string (string * Z);
  http_calls : nat;
}.

Definition AuthnManager_new (p : AuthnProvider) : AuthnManager := MkAuthn p ∅ ∅ 0.

Definition set_ids (f : gmap string UserIdentity → gmap string UserIdentity) (m : AuthnManager) :=
  MkAuthn (provider m) (f (token_to_id_map m)) (refresh_token_map m) (http_calls m).
Definition set_refresh (f : gmap string (string * Z) → gmap string (string * Z)) (m : AuthnManager) :=
  MkAuthn (provider m) (token_to_id_map m) (f (refresh_token_map m)) (http_calls m).
Definition called (m : AuthnManager) :=
  MkAuthn (provider m) (token_to_id_map m) (refresh_token_map m) (S (http_calls m)).

(** One round of the task that sweeps the maps. *)
Definition sweep (now : Z) (m : AuthnManager) : AuthnManager :=
  let expired := (map_to_list (filter (λ x, (x.2.2 < now)%Z) (refresh_token_map m))).*1 in
  foldl (λ m k, set_ids (delete k) (set_refresh (delete k) m)) m expired.

Record AuthzManager := MkAuthz { admin : UserIdentity }.
Definition authorize (mgr : AuthzManager) (id : UserIdentity) : bool := bool_decide (id = admin mgr).

(** The headers of a request, each with its first value, and what a guard
    makes of them. *)
Definition Headers := string → option string.

Module Outcome.
Inductive t (A E : Type) := Success (a : A) | Error (status : Z) (e : E) | Forward (status : Z).
Arguments Success {A E} a.
Arguments Error {A E} status e.
Arguments Forward {A E} status.
End Outcome.

Inductive AuthError := Missing | Malformed | TokenInvalid | InternalError | Unauthorized.

(** *** The requests to Discord *)

Section authn.
Context {DA : DiscordApi} {CT : Codec OAuthTokenFullResponse} {CU : Codec DiscordUser}.

Definition post (url : string) (body : FormBody) : ST AuthnManager (result string HttpResponse) :=
  n <- st_gets http_calls ;; st_modify called ;; st_ret (http_post n url body).
Definition get_bearer (url token : string) : ST AuthnManager (result string HttpResponse) :=
  n <- st_gets http_calls ;; st_modify called ;; st_ret (http_get_bearer n url token).

(** [resp.error_for_status()?] *)
Definition error_for_status (r : HttpResponse) : result Mgmt.Error HttpResponse :=
  match status_error r with Some e => Err (Mgmt.Reqwest e) | None => Ok r end.

(** The new tokens are stored, and the access token handed out. *)
Definition store_tokens (now : Z) (t : OAuthTokenFullResponse) :
    ST AuthnManager (result Mgmt.Error OAuthTokenResponse) :=
  let expiry := (now + tf_expires_in t)%Z in
  st_modify (set_refresh <[tf_access_token t := (refresh_token t, expiry)]>) ;;
  st_ret (Ok (MkToken (tf_access_token t) (Some (as_i32 (tf_expires_in t))))).

Definition oauth_grant (now : Z) (code redirect_uri : string) :
    ST AuthnManager (result Mgmt.Error OAuthTokenResponse) :=
  p <- st_gets provider ;;
  match p with
  | ProviderDiscord client_id client_secret =>
      let body := <["client_id" := client_id]> (<["client_secret" := client_secret]>
        (<["grant_type" := "authorization_code"]> (<["code" := code]>
          (<["redirect_uri" := redirect_uri]> ∅)))) in
      resp <-? st_map_err Mgmt.Reqwest (post DISCORD_TOKEN_URL (Form body)) ;;
      resp <-? st_ret (error_for_status resp) ;;
      text <-? st_ret (map_err Mgmt.Reqwest (text resp)) ;;
      token_response <-? st_ret (map_err Mgmt.Json (dec text)) ;;
      store_tokens now token_response
  | ProviderNone => st_ret (Err Mgmt.AuthInvalid)
  end.

Definition oauth_refresh (now : Z) (original_token : string) :
    ST AuthnManager (result Mgmt.Error OAuthTokenResponse) :=
  p <- st_gets provider ;;
  match p with
  | ProviderDiscord client_id client_secret =>
      found <- st_gets (λ m, refresh_token_map m !! original_token) ;;
      st_modify (set_refresh (delete original_token)) ;;
      match found with
      | Some (refresh_token, expiry) =>
          if (now <? expiry)%Z then
            let body := <["client_id" := client_id]> (<["client_secret" := client_secret]>
              (<["grant_type" := "refresh_token"]> (<["refresh_token" := refresh_token]> ∅))) in
            result <-? st_map_err Mgmt.Reqwest (post DISCORD_TOKEN_URL (JsonBody body)) ;;
            text <-? st_ret (map_err Mgmt.Reqwest (text result)) ;;
            token_response <-? st_ret (map_err Mgmt.Json (dec text)) ;;
            store_tokens now token_response
          else st_ret (Err Mgmt.AuthRefreshUnavailable)
      | None => st_ret (Err (Mgmt.BadRequest "invalid token presented"))
      end
  | ProviderNone => st_ret (Err Mgmt.AuthInvalid)
  end.

Definition get_id_details (token : string) : ST AuthnManager (result Mgmt.Error UserIdentity) :=
  p <- st_gets provider ;;
  match p with
  | ProviderDiscord _ _ =>
      cached <- st_gets (λ m, token_to_id_map m !! token) ;;
      match cached with
      | Some cached_id => st_ret (Ok cached_id)
      | None =>
          resp <-? st_map_err Mgmt.Reqwest (get_bearer DISCORD_IDENTITY_URL token) ;;
          resp <-? st_ret (error_for_status resp) ;;
          text <-? st_ret (map_err Mgmt.Reqwest (text resp)) ;;
          discord_user <-? st_ret (map_err Mgmt.Json (dec (A := DiscordUser) text)) ;;
          let user_id := UserIdentity_from discord_user in
          st_modify (set_ids <[token := user_id]>) ;;
          st_ret (Ok user_id)
      end
  | ProviderNone => st_ret (Err Mgmt.AuthInvalid)
  end.

(** ** guards.rs *)

Definition UserIdentity_guard (headers : Headers) : ST AuthnManager (Outcome.t UserIdentity AuthError) :=
  p <- st_gets provider ;;
  match p with
  | ProviderNone => st_ret (Outcome.Success anonymous)
  | ProviderDiscord _ _ =>
      match headers "Authorization" with
      | Some h =>
          match strip_prefix "Bearer " h with
          | Some token =>
              id <- get_id_details token ;;
              st_ret match id with Ok id => Outcome.Success id | Err _ => Outcome.Error 403 TokenInvalid end
          | None => st_ret (Outcome.Error 403 Malformed)
          end
      | None => st_ret (Outcome.Error 403 Missing)
      end
  end.

Definition AuthorizedUser_guard (mgr : AuthzManager) (headers : Headers) :
    ST AuthnManager (Outcome.t UserIdentity AuthError) :=
  id <- UserIdentity_guard headers ;;
  st_ret match id with
         | Outcome.Success id => if authorize mgr id then Outcome.Success id else Outcome.Error 403 Unauthorized
         | Outcome.Error s e => Outcome.Error s e
         | Outcome.Forward s => Outcome.Forward s
         end.

(** routes/auth.rs *)
Definition discord_grant (now : Z) (code : string) (redirect_uri : option string) :
    ST AuthnManager (result Mgmt.Error OAuthTokenResponse) :=
  match redirect_uri with
  | Some redirect_uri => oauth_grant now code redirect_uri
  | None => st_ret (Err (Mgmt.BadRequest "Unable to decode value of redirect_uri parameter"))
  end.
End authn.

(** *** The guards of single headers *)

Record HostHeader := MkHost { hostname : string; host : string }.
Definition HostHeader_guard (headers : Headers) : Outcome.t HostHeader () :=
  match headers "Host" with
  | Some h =>
      Outcome.Success (MkHost match split_once ":" h with Some (name, _) => name | None => h end h)
  | None => Outcome.Forward 500
  end.

Inductive HeaderError := HeaderMissing | HeaderFormat.

(** [usize] has 64 bits. *)
Definition ContentLengthHeader_guard (headers : Headers) : Outcome.t Z HeaderError :=
  match headers "Content-Length" with
  | Some h => match parse_uint u64_max h with
              | Some length => Outcome.Success length
              | None => Outcome.Error 400 HeaderFormat
              end
  | None => Outcome.Error 400 HeaderMissing
  end.

Record ContentRangeHeader := MkContentRange { range_start : Z; range_end : Z; range_length : Z }.
Definition ContentRangeHeader_guard `{RegexEngine} (headers : Headers) :
    Outcome.t ContentRangeHeader HeaderError :=
  match headers "Content-Range" with
  | Some h =>
      default (Outcome.Error 400 HeaderFormat)
        (gs ← captures CONTENT_RANGE_RE h;
         start ← gs !! 0%nat; start ← parse_uint u64_max start;
         end_ ← gs !! 1%nat; end_ ← parse_uint u64_max end_;
         length ← gs !! 2%nat; length ← parse_uint u64_max length;
         Some (Outcome.Success (MkContentRange start end_ length)))
  | None => Outcome.Error 400 HeaderMissing
  end.

(** ** What is known of a token *)

Section facts.
Context {DA : DiscordApi} {CT : Codec OAuthTokenFullResponse} {CU : Codec DiscordUser}.
Implicit Types m : AuthnManager.

(** Discord has answered for the token that it is this user's. *)
Definition vouched (token : string) (id : UserIdentity) : Prop :=
  ∃ n text du, http_get_bearer n DISCORD_IDENTITY_URL token = Ok (MkHttp None (Ok text)) ∧
    dec text = Ok du ∧ id = UserIdentity_from du.

(** What happens to the manager. *)
Inductive auth_step : AuthnManager → AuthnManager → Prop :=
| auth_grant now code uri m : auth_step m (oauth_grant now code uri m).2
| auth_refresh now token m : auth_step m (oauth_refresh now token m).2
| auth_details token m : auth_step m (get_id_details token m).2
| auth_sweep now m : auth_step m (sweep now m).

Definition auth_inv m : Prop := ∀ token id, token_to_id_map m !! token = Some id → vouched token id.

(** The operations on the tokens leave the identities alone. *)
Lemma store_tokens_ids now t m : token_to_id_map (store_tokens now t m).2 = token_to_id_map m.
Proof. done. Qed.

Lemma oauth_grant_ids now code uri m :
  wp (oauth_grant now code uri) (λ _ m', token_to_id_map m' = token_to_id_map m ∧ provider m' = provider m) m.
Proof.
  unfold oauth_grant, post, error_for_status, store_tokens. st_go. destruct (provider m) eqn:Hp; st_go; [done|].
  repeat match goal with |- context [match ?x with _ => _ end] => destruct x; cbn; st_go; try done end.
Qed.

Lemma oauth_refresh_ids now token m :
  wp (oauth_refresh now token) (λ _ m', token_to_id_map m' = token_to_id_map m ∧ provider m' = provider m) m.
Proof.
  unfold oauth_refresh, post, error_for_status, store_tokens. st_go. destruct (provider m) eqn:Hp; st_go; [done|].
  repeat match goal with |- context [match ?x with _ => _ end] => destruct x; cbn; st_go; try done end.
Qed.

(** What [get_id_details] answers, and what it keeps. *)
Lemma wp_get_id_details token m :
  auth_inv m →
  wp (get_id_details token) (λ r m', auth_inv m' ∧ provider m' = provider m ∧
    refresh_token_map m' = refresh_token_map m ∧
    (∀ t id, token_to_id_map m !! t = Some id → token_to_id_map m' !! t = Some id) ∧
    ∀ id, r = Ok id → vouched token id ∧ token_to_id_map m' !! token = Some id) m.
Proof.
  intros Hinv. unfold get_id_details, get_bearer, error_for_status. st_go.
  destruct (provider m) eqn:Hp; st_go; [done|].
  destruct (token_to_id_map m !! token) as [id|] eqn:Hid; st_go.
  { split_and!; try done. intros id' [= <-]. auto. }
  destruct (http_get_bearer _ _ _) as [[[e|] text]|e] eqn:Hr; cbn; st_go; try done.
  destruct text as [text|e]; cbn; st_go; [|done].
  destruct (dec text) as [du|e] eqn:Hdu; cbn; st_go; [|done].
  assert (vouched token (UserIdentity_from du)) as Hv by by eexists _, text, du.
  split_and!; try done.
  - intros t id. cbn. destruct (decide (token = t)) as [<-|Hne].
    + rw lookup_insert_eq. by intros [= <-].
    + rw lookup_insert_ne //. apply Hinv.
  - intros t id Ht. cbn. rw lookup_insert_ne //. intros <-. by rw Hid in Ht.
  - intros id [= <-]. cbn. by rw lookup_insert_eq.
Qed.

(** *** Sweeping *)

Lemma sweep_lookup ks m t :
  let m' := foldl (λ m k, set_ids (delete k) (set_refresh (delete k) m)) m ks in
  provider m' = provider m ∧
  token_to_id_map m' !! t = (if decide (t ∈ ks) then None else token_to_id_map m !! t) ∧
  refresh_token_map m' !! t = (if decide (t ∈ ks) then None else refresh_token_map m !! t).
Proof.
  revert m. induction ks as [|k ks IH]; intros m; cbn [foldl]; [done|].
  destruct (IH (set_ids (delete k) (set_refresh (delete k) m))) as (Hp & Hi & Hr).
  split_and!; [exact Hp|rw Hi|rw Hr]; cbn [token_to_id_map refresh_token_map set_ids set_refresh].
  all: destruct (decide (t = k)) as [->|Hne].
  all: first [rw lookup_delete_eq; repeat case_decide; set_solver
             |rw lookup_delete_ne //; repeat case_decide; set_solver].
Qed.

Lemma sweep_spec now m t :
  provider (sweep now m) = provider m ∧
  match refresh_token_map m !! t with
  | Some (r, expiry) =>
      if (expiry <? now)%Z
      then token_to_id_map (sweep now m) !! t = None ∧ refresh_token_map (sweep now m) !! t = None
      else token_to_id_map (sweep now m) !! t = token_to_id_map m !! t ∧
           refresh_token_map (sweep now m) !! t = Some (r, expiry)
  | None => token_to_id_map (sweep now m) !! t = token_to_id_map m !! t ∧
            refresh_token_map (sweep now m) !! t = None
  end.
Proof.
  unfold sweep. set (ks := (map_to_list _).*1).
  assert (t ∈ ks ↔ ∃ r e, refresh_token_map m !! t = Some (r, e) ∧ (e < now)%Z) as Hks.
  { unfold ks. rw list_elem_of_fmap. split.
    - intros ([k [r e]] & -> & Hin). apply elem_of_map_to_list, map_lookup_filter_Some in Hin as [Hin He].
      by exists r, e.
    - intros (r & e & Hr & He). exists (t, (r, e)). split; [done|].
      by apply elem_of_map_to_list, map_lookup_filter_Some. }
  destruct (sweep_lookup ks m t) as (Hp & Hi & Hr). split; [exact Hp|]. rw Hi Hr.
  destruct (refresh_token_map m !! t) as [[r e]|] eqn:Ht.
  - destruct (Z.ltb_spec e now); case_decide as Hin; try done; exfalso.
    + apply Hin, Hks. eauto.
    + apply Hks in Hin as (? & ? & ? & ?). simplify_eq. lia.
  - case_decide as Hin; [|done]. apply Hks in Hin as (? & ? & ? & ?). done.
Qed.

Lemma auth_step_inv m m' : auth_step m m' → auth_inv m → auth_inv m' ∧ provider m' = provider m.
Proof.
  intros [now code uri m0|now token m0|token m0|now m0] Hinv.
  - destruct (oauth_grant_ids now code uri m0) as [H1 H2]. unfold auth_inv. by rw H1 H2.
  - destruct (oauth_refresh_ids now token m0) as [H1 H2]. unfold auth_inv. by rw H1 H2.
  - destruct (wp_get_id_details token m0 Hinv) as (H1 & H2 & _). done.
  - split; [|by destruct (sweep_spec now m0 "")]. intros t id Ht. apply Hinv.
    destruct (sweep_spec now m0 t) as [_ H]. destruct (refresh_token_map m0 !! t) as [[r e]|].
    + destruct (e <? now)%Z; destruct H as [H _]; [by rw H in Ht|by rw H in Ht].
    + destruct H as [H _]. by rw H in Ht.
Qed.

Lemma auth_reachable p m : rtc auth_step (AuthnManager_new p) m → auth_inv m ∧ provider m = p.
Proof.
  intros Hrun. assert (auth_inv (AuthnManager_new p) ∧ provider (AuthnManager_new p) = p) as H0
    by (split; [intros t id; cbn; by rw lookup_empty|done]).
  revert H0. generalize (AuthnManager_new p) as m0, Hrun. clear Hrun.
  intros m0 Hrun. induction Hrun as [|m1 m2 m3 Hs _ IH]; [done|].
  intros [Hinv Hp]. apply IH. destruct (auth_step_inv _ _ Hs Hinv) as [H1 H2]. by rw H2.
Qed.

(** Looking at who a request is from is a step, or nothing. *)
Lemma wp_UserIdentity p headers m :
  rtc auth_step (AuthnManager_new p) m →
  wp (UserIdentity_guard headers) (λ _ m', rtc auth_step (AuthnManager_new p) m') m.
Proof.
  intros Hrun. unfold UserIdentity_guard. st_go. destruct (provider m); st_go; [done|].
  destruct (headers "Authorization") as [h|]; st_go; [|done].
  destruct (strip_prefix "Bearer " h) as [token|]; st_go; [|done].
  unfold wp. pose proof (rtc_r _ _ _ Hrun (auth_details token m)) as Hd.
  by destruct (get_id_details token m).
Qed.

(** A request that is the administrator's. *)
Definition from_admin (p : AuthnProvider) (mgr : AuthzManager) (headers : Headers) : Prop :=
  match p with
  | ProviderNone => admin mgr = anonymous
  | ProviderDiscord _ _ => ∃ token, headers "Authorization" = Some ("Bearer " +:+ token) ∧
                             vouched token (admin mgr)
  end.

Lemma wp_AuthorizedUser p mgr headers m :
  rtc auth_step (AuthnManager_new p) m →
  wp (AuthorizedUser_guard mgr headers) (λ r m', rtc auth_step (AuthnManager_new p) m' ∧
    ∀ id, r = Outcome.Success id → id = admin mgr ∧ from_admin p mgr headers) m.
Proof.
  intros Hrun. destruct (auth_reachable _ _ Hrun) as [Hinv Hp].
  unfold AuthorizedUser_guard, UserIdentity_guard, from_admin. st_go. rw Hp.
  destruct p as [|cid cs]; st_go.
  { unfold authorize. split; [done|]. case_bool_decide; [|done]. intros id [= <-]. done. }
  destruct (headers "Authorization") as [h|]; st_go; [|done].
  destruct (strip_prefix "Bearer " h) as [token|] eqn:Hh; st_go; [|done].
  apply strip_prefix_Some in Hh as ->.
  pose proof (wp_get_id_details token m Hinv) as (_ & _ & _ & _ & Hv). unfold wp.
  split; [eapply rtc_r; [exact Hrun|apply auth_details]|].
  destruct (get_id_details token m) as [[id|e] m']; cbn in *; [|done].
  unfold authorize. case_bool_decide as Ha; [|done]. intros id' [= <-]. split; [done|].
  exists token. split; [done|]. rw -Ha. by apply Hv.
Qed.

(** C19: Only the administrator passes the guard of the routes: in every state
    the manager can reach, a request that is let through is the
    administrator's, and, when Discord is the provider, carries a bearer token
    for which Discord has answered that it is the administrator's. *)
Theorem authorized_is_admin p mgr headers m :
  rtc auth_step (AuthnManager_new p) m →
  wp (AuthorizedUser_guard mgr headers) (λ r _, ∀ id, r = Outcome.Success id →
    id = admin mgr ∧
    match p with
    | ProviderNone => admin mgr = anonymous
    | ProviderDiscord _ _ => ∃ token, headers "Authorization" = Some ("Bearer " +:+ token) ∧
                               vouched token (admin mgr)
    end) m.
Proof. intros Hrun. eapply wp_wand; [by apply wp_AuthorizedUser|]. by intros r m' [_ H]. Qed.

(** A step keeps an identity, or is a sweep that finds its grant expired. *)
Lemma auth_step_keeps token id m m' :
  auth_inv m → token_to_id_map m !! token = Some id → auth_step m m' →
  token_to_id_map m' !! token = Some id ∨
  ∃ now r expiry, m' = sweep now m ∧ refresh_token_map m !! token = Some (r, expiry) ∧ (expiry < now)%Z.
Proof.
  intros Hinv Hid Hs. destruct Hs as [now code uri m0|now t m0|t m0|now m0].
  - left. destruct (oauth_grant_ids now code uri m0) as [H _]. by rw H.
  - left. destruct (oauth_refresh_ids now t m0) as [H _]. by rw H.
  - left. destruct (wp_get_id_details t m0 Hinv) as (_ & _ & _ & H & _). by apply H.
  - destruct (sweep_spec now m0 token) as [_ H]. destruct (refresh_token_map m0 !! token) as [[r e]|] eqn:Hr.
    + destruct (Z.ltb_spec e now) as [Hlt|_]; [right; by exists now, r, e|left]. destruct H as [H _]. by rw H.
    + left. destruct H as [H _]. by rw H.
Qed.

(** C37: An identity that is kept for a token is what [get_id_details] answers,
    without asking Discord, as long as no sweep has found the token's grant
    expired: after any steps either it still is, or among them was a sweep, at a
    time after the expiry of the grant, in a state in which it still was.  That
    sweep gives it up.  So for a token that was not granted by this server it is
    never given up, whatever Discord says of the token later. *)
Theorem identity_kept p token id m :
  rtc auth_step (AuthnManager_new p) m → p ≠ ProviderNone → token_to_id_map m !! token = Some id →
  (∀ m', rtc auth_step m m' →
     get_id_details token m' = (Ok id, m') ∨
     ∃ m1 now r expiry, rtc auth_step m m1 ∧ get_id_details token m1 = (Ok id, m1) ∧
       refresh_token_map m1 !! token = Some (r, expiry) ∧ (expiry < now)%Z ∧
       rtc auth_step (sweep now m1) m') ∧
  (∀ now r expiry, refresh_token_map m !! token = Some (r, expiry) → (expiry < now)%Z →
     token_to_id_map (sweep now m) !! token = None) ∧
  (∀ m', refresh_token_map m !! token = None →
     rtc (λ a b, auth_step a b ∧ refresh_token_map b !! token = None) m m' →
     get_id_details token m' = (Ok id, m')).
Proof.
  intros Hreach Hp Hid. apply auth_reachable in Hreach as [Hinv Hpm].
  assert (∀ m, provider m = p → token_to_id_map m !! token = Some id →
    get_id_details token m = (Ok id, m)) as Hget.
  { intros m0 Hp0 Hid0. unfold get_id_details, st_bind, st_gets. cbn. rw Hp0. destruct p; [done|]. by rw /= Hid0. }
  split_and!.
  - intros m' Hrun. revert Hpm Hid Hinv. induction Hrun as [m0|m0 m1 m2 Hs Hrun IH]; intros Hp0 Hid0 Hinv0.
    { left. by apply Hget. }
    destruct (auth_step_inv _ _ Hs Hinv0) as [Hinv1 Hp1].
    destruct (auth_step_keeps _ _ _ _ Hinv0 Hid0 Hs) as [Hid1|(now & r & e & -> & Hr & He)].
    + destruct IH as [IH|(m3 & now & r & e & H1 & H2)]; [by rw Hp1|done|done|by left|right].
      exists m3, now, r, e. split; [by eapply rtc_l|done].
    + right. exists m0, now, r, e. split_and!; [done|by apply Hget|done..].
  - intros now r expiry Hr Hlt. destruct (sweep_spec now m token) as [_ H]. rw Hr in H.
    destruct (Z.ltb_spec expiry now); [by destruct H|lia].
  - intros m' Hr0 Hrun. revert Hpm Hid Hinv Hr0.
    induction Hrun as [m0|m0 m1 m2 [Hs Hr1] _ IH]; intros Hp0 Hid0 Hinv0 Hr0; [by apply Hget|].
    destruct (auth_step_inv _ _ Hs Hinv0) as [Hinv1 Hp1].
    destruct (auth_step_keeps _ _ _ _ Hinv0 Hid0 Hs) as [Hid1|(now & r & e & _ & Hr & _)]; [|congruence].
    by apply IH; [rw Hp1|..].
Qed.
End facts.
