(* ===== verification/Discord.v ===== *)
(** * Discord: src/src/mgmt-server/discord.rs

    The chat link between the game and a Discord channel, and alerts.  The
    serenity crate, which talks to Discord, is outside: what is modelled is
    what is put in the queues to it, and what is made of what it hands over. *)

From S2P Require Import Prelude Order Text Regex Schema Errors Builder MgmtErrors Events Clients.

Open Scope st_scope.

(** [str::replace] of a character. *)
Fixpoint replace_char (c : ascii) (by_ : string) (s : string) : string :=
  match s with
  | "" => ""
  | String d s' => if Ascii.eqb d c then by_ +:+ replace_char c by_ s' else String d (replace_char c by_ s')
  end.

(** [str::split_once] of a string. *)
Fixpoint split_once_str (p s : string) : option (string * string) :=
  match strip_prefix p s with
  | Some rest => Some ("", rest)
  | None =>
      match s with
      | "" => None
      | String c s' => prod_map (String c) id <$> split_once_str p s'
      end
  end.

(** ** From the game to Discord *)

(** The subscriber of the chat: the nickname and the message for the webhook. *)
Definition chat_line (event : Event) : option (string * string) :=
  line ← tags event !! CHAT_TOPIC_NAME; split_once_str ": " line.

Definition join_line (event : Event) : option string :=
  (λ user, "**" +:+ user +:+ " has joined the server**") <$> tags event !! JOIN_TOPIC_NAME.
Definition leave_line (event : Event) : option string :=
  (λ user, "**" +:+ user +:+ " has left the server**") <$> tags event !! LEAVE_TOPIC_NAME.

Definition parse_serverstate_topic_value (states_str : string) :
    option (InternalServerState * InternalServerState) :=
  '(from, to) ← split_once " " states_str;
  from ← state_from_str from; to ← state_from_str to; Some (from, to).

(** The filter of the subscription, and its loop. *)
Definition statechange_filter (states_str : string) : bool :=
  match parse_serverstate_topic_value states_str with
  | Some (from, to) =>
      match to with
      | StInGame => negb (bool_decide (from = InGameSavingMap))
      | Closed => true
      | _ => false
      end
  | None => false
  end.
Definition statechange_line (event : Event) : option string :=
  serverstate_val ← tags event !! SERVERSTATE_TOPIC_NAME;
  '(_, to) ← parse_serverstate_topic_value serverstate_val;
  match to with
  | StInGame => Some "**Server started**"
  | Closed => Some "**Server stopped**"
  | _ => None
  end.

(** ** From Discord to the game *)

Record Message := MkMessage {
  channel_id : N;
  author_bot : bool;
  author_name : string;
  msg_content : string;
}.
Record Handler := MkHandler { listen_channel_id : N; chat_link_preserve_achievements : bool }.

Definition backslash : ascii := "092".
Definition quote : ascii := "039".

Definition escape (s : string) : string :=
  replace_char quote (String backslash (String quote "")) (replace_char backslash (String backslash (String backslash "")) s).

(** The command of [Handler::message], if the message is one for the game. *)
Definition chat_command (h : Handler) (msg : Message) : option string :=
  if (channel_id msg =? listen_channel_id h)%N && negb (author_bot msg) then
    let message_text := escape (author_name msg +:+ ": " +:+ msg_content msg) in
    Some (if chat_link_preserve_achievements h
          then "[Discord] " +:+ message_text
          else "/silent-command game.print('[Discord] " +:+ message_text +:+ "')")
  else None.

(** What a command is answered with: a text, or a table of fields with their
    texts, some of them in line. *)
Inductive InteractionResponse :=
| Content (s : string)
| Embed (title : string) (fields : list (string * string * bool)).

(** ["{:.2}%"] of a load, and of the quotient of two sizes. *)
Class PercentText := { percent : Z → string; percent_of : Z → Z → string }.
Section handler.
Context {U : UuidEnv} {CE : ClientEnv} {AA : AgentAnswers}.
Context {CRq : Codec AgentRequestWithId} {CRs : Codec AgentResponseWithId}.

Definition message (h : Handler) (msg : Message) : ST ClientW () :=
  match chat_command h msg with
  | Some command => run_call (AgentApiClient.rcon_command command) ;; st_ret ()
  | None => st_ret ()
  end.

(** [commands::server_save]: the content of the response. *)
Definition server_save : ST ClientW string :=
  r <- run_call (AgentApiClient.rcon_command "/server-save") ;;
  st_ret match r with
         | Err _ => "Failed to execute RCON command /server-save"
         | Ok _ => "Ok"
         end.

Context {PT : PercentText} {DE : Mgmt.DebugMgmtError}.

(** [commands::system_resources] *)
Definition resource_fields (s : SystemResourcesInfo) : list (string * string * bool) :=
  [("CPU total", percent (cpu_total s), false)]
  ++ imap (λ i cpu, ("cpu" +:+ pretty (N.of_nat i), percent cpu, true)) (cpus s)
  ++ [("Memory used", percent_of (mem_used_bytes s) (mem_total_bytes s), false)].
Definition resources_command : ST ClientW InteractionResponse :=
  r <- run_call AgentApiClient.system_resources ;;
  st_ret match r with
         | Ok s => Embed "System resource statistics" (resource_fields s)
         | Err e => Content ("Failed to get system resource statistics: " +:+ Mgmt.debug e)
         end.

(** [Handler::interaction_create] for a command of this name. *)
Definition interaction_create (name : string) : ST ClientW (option InteractionResponse) :=
  if bool_decide (name = "server-save") then r <- server_save ;; st_ret (Some (Content r))
  else if bool_decide (name = "system-resources") then r <- resources_command ;; st_ret (Some r)
  else st_ret None.

(** The presence that [ready] shows every time it asks for the status. *)
Definition presence (ss : ServerStatusView) : string :=
  match ss with
  | NotRunning | PreGame | PostGame => "Server offline"
  | InGame player_count => pretty (Z.to_N player_count) +:+ " players online"
  end.
Definition update_presence : ST ClientW (option string) :=
  r <- run_call AgentApiClient.server_status ;;
  st_ret match r with Ok ss => Some (presence ss) | Err _ => None end.
End handler.

(** ** Alerts *)

(** [MessageBuilder::mention] of a user. *)
Class Mention := { mention : N → string }.

(** The client: its alert channel, whose task receives while [alerting]; and
    what is in the queue to it. *)
Record DiscordClient := MkDiscord { alert_channel_id : option N; alerting : bool }.
Definition Alerts := list string.

(** [tx.send(message)] *)
Definition send_alert (d : DiscordClient) (message : string) : ST Alerts (result Mgmt.Error ()) :=
  match alert_channel_id d with
  | Some _ =>
      if alerting d then st_modify (λ q, q ++ [message]) ;; st_ret (Ok ())
      else st_ret (Err (Mgmt.InternalMessaging "Failed to send alert"))
  | None => st_ret (Err Mgmt.DiscordAlertingDisabled)
  end.

(** [None] is the panic of [UserId::new(0)]. *)
Definition oneshot_alert `{Mention} (d : DiscordClient) (target_id : option string) (alert_msg : string) :
    ST Alerts (option (result Mgmt.Error ())) :=
  match target_id with
  | Some target_id =>
      match parse_uint u64_max target_id with
      | Some target_id =>
          match alert_channel_id d with
          | Some _ =>
              if (target_id =? 0)%Z then st_ret None
              else r <- send_alert d ("**ALERT**" +:+ " for " +:+ mention (Z.to_N target_id) +:+ ": " +:+ alert_msg) ;;
                   st_ret (Some r)
          | None => st_ret (Some (Err Mgmt.DiscordAlertingDisabled))
          end
      | None => st_ret (Some (Err (Mgmt.BadRequest "Invalid target id")))
      end
  | None => r <- send_alert d ("**ALERT**" +:+ ": " +:+ alert_msg) ;; st_ret (Some r)
  end.

(** What Discord answers when it is asked for the members of the channel's
    guild: [Ok None] when the channel is not in a guild. *)
Record Member := MkMember { m_id : N; m_name : string; m_discriminator : option N; m_bot : bool }.
Class DiscordMembers := { members_of : N → result string (option (result string (list Member))) }.

Definition member_name (m : Member) : string :=
  match m_discriminator m with
  | Some d => m_name m +:+ "#" +:+ pad_left "0" 4 (pretty d)
  | None => m_name m
  end.

Definition get_user_list `{DiscordMembers} (d : DiscordClient) : result Mgmt.Error (gmap string string) :=
  match alert_channel_id d with
  | Some channel =>
      match members_of channel with
      | Err e => Err (Mgmt.Discord e)
      | Ok (Some (Err e)) => Err (Mgmt.Discord e)
      | Ok (Some (Ok members)) =>
          Ok (foldl (λ users m, <[pretty (m_id m) := member_name m]> users) ∅
                (filter (λ m, m_bot m = false) members))
      | Ok None => Err (Mgmt.Misconfiguration "Discord alerting is enabled, but a non-guild channel id was specified which is unsupported")
      end
  | None => Err Mgmt.DiscordAlertingDisabled
  end.

(** ** What reaches the game *)

(** A string literal of Lua between single quotes, from after the first: what
    it stands for and what follows.  It cannot contain the end of a line. *)
Fixpoint lua_string (s : string) : option (string * string) :=
  match s with
  | "" => None
  | String c s' =>
      if Ascii.eqb c quote then Some ("", s')
      else if Ascii.eqb c backslash then
        match s' with
        | String d s'' =>
            if Ascii.eqb d quote || Ascii.eqb d backslash
            then prod_map (String d) id <$> lua_string s'' else None
        | "" => None
        end
      else if Ascii.eqb c "010" || Ascii.eqb c "013" then None
      else prod_map (String c) id <$> lua_string s'
  end.
Definition one_line (s : string) : bool := negb (str_has "010" s || str_has "013" s).

Lemma escape_cons c s :
  escape (String c s) =
    (if Ascii.eqb c backslash || Ascii.eqb c quote then String backslash (String c "") else String c "")
    +:+ escape s.
Proof.
  unfold escape. cbn [replace_char]. destruct (Ascii.eqb_spec c backslash) as [->|H1]; [done|].
  cbn [replace_char orb]. by destruct (Ascii.eqb_spec c quote) as [->|H2].
Qed.

(** Nothing in a text that is escaped ends the literal it is put in. *)
Lemma lua_string_escape s rest :
  lua_string (escape s +:+ String quote rest) = if one_line s then Some (s, rest) else None.
Proof.
  unfold one_line. induction s as [|c s IH]; [done|]. rw escape_cons !str_has_cons.
  destruct (Ascii.eqb_spec c backslash) as [->|H1].
  { cbn in IH |- *. rw IH. by destruct (str_has "010" s || str_has "013" s). }
  destruct (Ascii.eqb_spec c quote) as [->|H2].
  { cbn in IH |- *. rw IH. by destruct (str_has "010" s || str_has "013" s). }
  cbn [orb String.append lua_string].
  destruct (Ascii.eqb_spec c quote); [done|]. destruct (Ascii.eqb_spec c backslash); [done|].
  destruct (Ascii.eqb_spec c "010") as [->|H3]; [done|].
  destruct (Ascii.eqb_spec c "013") as [->|H4]; [cbn; by rw orb_true_r|].
  cbn [orb]. rw IH. by destruct (str_has "010" s || str_has "013" s).
Qed.

Lemma lua_string_plain p s :
  str_has quote p = false → str_has backslash p = false → one_line p = true →
  lua_string (p +:+ s) = prod_map (String.append p) id <$> lua_string s.
Proof.
  unfold one_line. induction p as [|c p IH]; intros Hq Hb Hn.
  { cbn. by destruct (lua_string s) as [[]|]. }
  rw !str_has_cons in Hq Hb Hn. apply orb_false_iff in Hq as [Hq1 Hq2], Hb as [Hb1 Hb2].
  apply negb_true_iff, orb_false_iff in Hn as [Hn1 Hn2].
  apply orb_false_iff in Hn1 as [Hn1 Hn1'], Hn2 as [Hn2 Hn2'].
  cbn. rw Hq1 Hb1 Hn1 Hn2 /= IH //; [|by rw Hn1' Hn2']. by destruct (lua_string s) as [[]|].
Qed.

Lemma escape_length s : (String.length s <= String.length (escape s))%nat.
Proof.
  induction s as [|c s IH]; [done|]. rw escape_cons sapp_length. destruct (_ || _); cbn [String.length]; lia.
Qed.

Lemma escape_id s : escape s = s ↔ str_has backslash s = false ∧ str_has quote s = false.
Proof.
  induction s as [|c s IH]; [done|]. rw escape_cons !str_has_cons. pose proof (escape_length s) as Hl.
  destruct (Ascii.eqb c backslash || Ascii.eqb c quote) eqn:Hc.
  - split.
    + intros H. apply (f_equal String.length) in H. rw sapp_length in H. cbn in H. lia.
    + apply orb_true_iff in Hc as [-> | ->]; naive_solver.
  - apply orb_false_iff in Hc as [-> ->]. cbn [orb String.append]. rw -IH. split; congruence.
Qed.

(** What the game says reaches the channel under the name of who said it: a
    name has no colon. *)
Lemma split_once_str_first user msg :
  str_has ":" user = false → split_once_str ": " (user +:+ ": " +:+ msg) = Some (user, msg).
Proof.
  induction user as [|c user IH]; [done|]. rw str_has_cons orb_false_iff. intros [Hc Hu].
  cbn [String.append split_once_str strip_prefix]. rw Ascii.eqb_sym Hc. by rw (IH Hu).
Qed.

Lemma chat_line_tagged e user msg :
  str_has ":" user = false → tags e !! CHAT_TOPIC_NAME = Some (user +:+ ": " +:+ msg) →
  chat_line e = Some (user, msg).
Proof. intros Hu He. unfold chat_line. rw He. by apply split_once_str_first. Qed.

(** The start and the end of the game are announced, and nothing else. *)
Lemma statechange_announced e from to :
  let v := state_as_ref from +:+ " " +:+ state_as_ref to in
  tags e !! SERVERSTATE_TOPIC_NAME = Some v →
  (if statechange_filter v then statechange_line e else None) =
    match to with
    | Closed => Some "**Server stopped**"
    | StInGame => if decide (from = InGameSavingMap) then None else Some "**Server started**"
    | _ => None
    end.
Proof.
  intros v Hv. unfold statechange_filter, statechange_line. rw Hv. cbn [mbind option_bind].
  assert (parse_serverstate_topic_value v = Some (from, to)) as -> by by destruct from, to.
  destruct to; try done. cbn. by destruct from.
Qed.

(** C35: What a message in the channel becomes in the game.  Messages of other
    channels and of bots become nothing.  When achievements are not to be
    preserved, the command is one call of [print] with one string literal that
    stands for the author's name and the text, whatever characters they contain,
    as long as they are on one line; a message of several lines makes a command
    that is not Lua, and is not shown.  When they are to be preserved, which is
    the default, no command is run and the text is typed into the chat; but it
    is escaped for Lua all the same, so what appears is the message only when it
    has no quotation mark and no backslash. *)
Theorem chat_to_game h msg :
  let text := author_name msg +:+ ": " +:+ msg_content msg in
  if (channel_id msg =? listen_channel_id h)%N && negb (author_bot msg) then
    if chat_link_preserve_achievements h then
      ∃ typed, chat_command h msg = Some ("[Discord] " +:+ typed) ∧
        lua_string (typed +:+ String quote "") = (if one_line text then Some (text, "") else None) ∧
        (typed = text ↔ str_has backslash text = false ∧ str_has quote text = false)
    else
      ∃ literal, chat_command h msg = Some ("/silent-command game.print('" +:+ literal) ∧
        lua_string literal = if one_line text then Some ("[Discord] " +:+ text, ")") else None
  else chat_command h msg = None.
Proof.
  cbv zeta. set (text := author_name msg +:+ ": " +:+ msg_content msg). unfold chat_command. fold text.
  destruct (_ && _); [|done]. destruct (chat_link_preserve_achievements h).
  - exists (escape text). split; [done|]. split; [apply lua_string_escape|apply escape_id].
  - exists ("[Discord] " +:+ escape text +:+ "')"). split; [done|].
    rw (lua_string_plain "[Discord] ") //. change "')" with (String quote ")").
    rw lua_string_escape. by destruct (one_line text).
Qed.
