(* ===== verification/Rpc.v ===== *)
(** * Rpc: src/src/mgmt-server/rpc.rs

    The commands that a mod in the game writes to its output for the management
    server: a query that is answered over RCON, alerts, and data points of
    metrics that are stored. *)

From S2P Require Import Prelude Order Text Schema Errors Builder MgmtErrors Db Metrics Events Clients.
From S2P Require Import Discord.

Open Scope st_scope.

(** ** Data *)

(** The order in which a [HashMap] gives its entries. *)
Class HashEnv := { hash_iter : ∀ A, gmap string A → list (string * A) }.
Arguments hash_iter {_} {A}.
Class HashLaws `{HashEnv} : Prop := { hash_iter_all A (m : gmap string A) : hash_iter m ≡ₚ map_to_list m }.

Record DataPointBatch `{F64} := MkBatch { timestamp : N; data : gmap string f64 }.
Record Position `{F64} := MkPosition { x : f64; y : f64 }.
Record OneshotData `{F64} := MkOneshot {
  notif_target_id : option string;
  position : Position;
  oneshot_message : string;
}.

(** [Vec::join] *)
Fixpoint join (sep : string) (l : list string) : string :=
  match l with
  | [] => ""
  | [a] => a
  | a :: l' => a +:+ sep +:+ join sep l'
  end.

Definition dquote : string := String "034" "".

(** The users as a Lua table. *)
Definition lua_table (users : list (string * string)) : string :=
  "{" +:+ join "," ((λ u, "[" +:+ dquote +:+ u.1 +:+ dquote +:+ "]=" +:+ dquote +:+ u.2 +:+ dquote) <$> users)
      +:+ "}".

(** What the handler has: the client of the agent, the database and the queue
    of alerts. *)
Record RpcW (S : Type) := MkRpcW { rw_client : ClientW; rw_db : S; rw_alerts : Alerts }.
Arguments MkRpcW {S}.
Arguments rw_client {S}.
Arguments rw_db {S}.
Arguments rw_alerts {S}.

Section rpc.
Context {F : F64} {HE : HashEnv} {Me : Mention} {DM : DiscordMembers} {DE : Mgmt.DebugMgmtError}.
Context {U : UuidEnv} {CE : ClientEnv} {AA : AgentAnswers}.
Context {CRq : Codec AgentRequestWithId} {CRs : Codec AgentResponseWithId}.
Context {CB : Codec DataPointBatch} {CO : Codec OneshotData}.
Context {S H : Type} {DB : RocksDb S H}.

Definition on_client {A} (m : ST ClientW A) : ST (RpcW S) A :=
  st_zoom rw_client (λ c w, MkRpcW c (rw_db w) (rw_alerts w)) m.
Definition on_db {A} (m : ST S A) : ST (RpcW S) A :=
  st_zoom rw_db (λ d w, MkRpcW (rw_client w) d (rw_alerts w)) m.
Definition on_alerts {A} (m : ST Alerts A) : ST (RpcW S) A :=
  st_zoom rw_alerts (λ q w, MkRpcW (rw_client w) (rw_db w) q) m.

(** The handling of "query discord". *)
Definition query_discord (discord : option DiscordClient) : ST (RpcW S) (result Mgmt.Error ()) :=
  match discord with
  | Some d =>
      match get_user_list d with
      | Err e => st_ret (Err e)
      | Ok users =>
          let table := lua_table (hash_iter users) in
          let remote_call := "/silent-command remote.call(" +:+ dquote +:+ "fctrl-observers" +:+ dquote +:+
            ", " +:+ dquote +:+ "set_discord_users" +:+ dquote +:+ ", " +:+ table +:+ ")" in
          r <- on_client (run_call (AgentApiClient.rcon_command remote_call)) ;;
          st_ret match r with
                 | Err e => Err (Mgmt.Rpc ("error with rpc query discord callback: " +:+ Mgmt.debug e))
                 | Ok _ => Ok ()
                 end
      end
  | None => st_ret (Err (Mgmt.Rpc "discord integration not enabled"))
  end.

(** The data points of a batch that are well formed, and their records; the
    key of a data point that was made always exists. *)
Definition data_points (batch : DataPointBatch) : list DataPoint.t :=
  omap (λ p, ok (DataPoint.new p.1 MetricPeriod.PT05S (MkTick (timestamp batch)) p.2))
    (hash_iter (data batch)).
Definition store_point (dp : DataPoint.t) : ST (RpcW S) () :=
  match DataPoint.key dp with
  | Some key =>
      on_db (write (get_cf MetricPeriod.PT05S) (MkRecord key (f64_to_string (DataPoint.value dp)))) ;; st_ret ()
  | None => st_ret ()
  end.

(** [RpcHandler::handle]; [None] is a panic. *)
Definition handle (discord : option DiscordClient) (command : string) :
    ST (RpcW S) (option (result Mgmt.Error ())) :=
  match split_once " " command with
  | None => st_ret (Some (Err (Mgmt.Rpc "unable to extract rpc command")))
  | Some (command, args) =>
      if bool_decide (command = "query") then
        if bool_decide (args = "discord") then r <- query_discord discord ;; st_ret (Some r)
        else st_ret (Some (Err (Mgmt.Rpc ("invalid query target '" +:+ args +:+ "'"))))
      else if bool_decide (command = "oneshot") then
        match dec (A := OneshotData) args with
        | Err e => st_ret (Some (Err (Mgmt.Json e)))
        | Ok oneshot =>
            match discord with
            | Some discord =>
                on_alerts (oneshot_alert discord (notif_target_id oneshot)
                  ("(" +:+ f64_to_string (x (position oneshot)) +:+ "," +:+
                   f64_to_string (y (position oneshot)) +:+ ") " +:+ oneshot_message oneshot))
            | None => st_ret (Some (Err (Mgmt.Rpc "discord integration not enabled")))
            end
        end
      else if bool_decide (command = "stream") then
        match dec (A := DataPointBatch) args with
        | Err e => st_ret (Some (Err (Mgmt.Json e)))
        | Ok batch => st_iter store_point (data_points batch) ;; st_ret (Some (Ok ()))
        end
      else st_ret (Some (Err (Mgmt.Rpc ("invalid rpc command '" +:+ command +:+ "'"))))
  end.
End rpc.

(** ** What a batch of data points stores *)

Definition write_all (l : list (string * string)) (m : gmap string string) : gmap string string :=
  foldl (λ m x, <[x.1 := x.2]> m) m l.

Lemma write_all_other l m k : k ∉ l.*1 → write_all l m !! k = m !! k.
Proof.
  unfold write_all. revert m. induction l as [|x l IH]; intros m; [done|]. cbn. rw not_elem_of_cons.
  intros [Hk Hl]. by rw IH // lookup_insert_ne.
Qed.

Lemma write_all_in l m k v : NoDup l.*1 → (k, v) ∈ l → write_all l m !! k = Some v.
Proof.
  unfold write_all. revert m. induction l as [|x l IH]; intros m; cbn; [by rw elem_of_nil|].
  rw NoDup_cons elem_of_cons. intros [Hn Hnd] [<-|Hin]; [|by apply IH].
  pose proof (write_all_other l (<[k := v]> m) k Hn) as Ho. unfold write_all in Ho. cbn in *.
  by rw Ho lookup_insert_eq.
Qed.

Section stream.
Context {F : F64} {FL : F64Laws} {HE : HashEnv} {HL : HashLaws} {Me : Mention} {DM : DiscordMembers}.
Context {DE : Mgmt.DebugMgmtError} {U : UuidEnv} {CE : ClientEnv} {AA : AgentAnswers}.
Context {CRq : Codec AgentRequestWithId} {CRs : Codec AgentResponseWithId}.
Context {CB : Codec DataPointBatch} {CO : Codec OneshotData}.
Context {S H : Type} {DB : RocksDb S H} {DL : RocksLaws S H}.

Definition record_of (dp : DataPoint.t) : string * string :=
  (default "" (DataPoint.key dp), f64_to_string (DataPoint.value dp)).

Definition metrics_of (w : RpcW S) : gmap string string :=
  cf_contents (cf_name (get_cf MetricPeriod.PT05S)) (contents (rw_db w)).

(** Nothing but the column family of the data points differs, and the other
    parts of the handler do not. *)
Definition beside_metrics (w w' : RpcW S) : Prop :=
  (∀ n, n ≠ cf_name (get_cf MetricPeriod.PT05S) → contents (rw_db w') !! n = contents (rw_db w) !! n) ∧
  rw_alerts w' = rw_alerts w ∧ rw_client w' = rw_client w.

#[export] Instance beside_metrics_preorder : PreOrder beside_metrics.
Proof.
  split; [by intros w|]. intros w1 w2 w3 (A1 & A2 & A3) (B1 & B2 & B3).
  split_and!; [|congruence..]. intros n Hn. by rw B1 // A1.
Qed.

(** The names of the batch are strings of Rust. *)
Definition text_names (batch : DataPointBatch) : Prop :=
  ∀ name, is_Some (data batch !! name) → valid_utf8 name = true.

Lemma data_points_spec batch dp :
  dp ∈ data_points batch ↔ ∃ name v, data batch !! name = Some v ∧
    DataPoint.new name MetricPeriod.PT05S (MkTick (timestamp batch)) v = Ok dp.
Proof.
  unfold data_points. rw list_elem_of_omap. split.
  - intros ([name v] & Hin & Hn). rw hash_iter_all in Hin. apply elem_of_map_to_list in Hin.
    exists name, v. split; [done|]. cbn in Hn. destruct (DataPoint.new _ _ _ _); by simplify_eq/=.
  - intros (name & v & Hd & Hn). exists (name, v). rw hash_iter_all elem_of_map_to_list. cbn. by rw Hn.
Qed.

Lemma data_points_holds batch dp :
  text_names batch → dp ∈ data_points batch →
  holds MetricPeriod.PT05S (record_of dp) dp ∧ DataPoint.key dp = Some (record_of dp).1.
Proof.
  intros Ht (name & v & Hd & Hn)%data_points_spec. apply new_Ok in Hn as (-> & Hh & Hl & Hk).
  assert (DataPoint.key (DataPoint.Mk name MetricPeriod.PT05S (MkTick (timestamp batch)) v) =
    Some (record_of (DataPoint.Mk name MetricPeriod.PT05S (MkTick (timestamp batch)) v)).1) as Hkey.
  { unfold record_of, DataPoint.key. cbn. by rw lookup_key_parts. }
  split; [|done]. split_and!; [|done|done|apply f64_text|apply f64_roundtrip].
  split; try done. apply Ht. eauto.
Qed.

Lemma data_points_names batch : NoDup (DataPoint.metric_name <$> data_points batch).
Proof.
  assert (NoDup (hash_iter (data batch)).*1) as Hnd.
  { rw hash_iter_all. apply NoDup_fst_map_to_list. }
  unfold data_points. revert Hnd. generalize (hash_iter (data batch)) as l.
  induction l as [|[n v] l IH]; [constructor|]. cbn [fmap list_fmap fst]. rw NoDup_cons. intros [Hn Hnd].
  cbn [omap list_omap fst snd]. destruct (DataPoint.new _ _ _ _) as [dp|e] eqn:Hdp; cbn [ok]; [|by apply IH].
  apply new_Ok in Hdp as (-> & _). cbn. apply NoDup_cons. split; [|by apply IH]. contradict Hn.
  apply list_elem_of_fmap in Hn as (dp & -> & ([n' v'] & Hin & Hf)%list_elem_of_omap).
  cbn in Hf. destruct (DataPoint.new n' _ _ _) as [dp'|e] eqn:Hdp'; simplify_eq/=.
  apply new_Ok in Hdp' as (-> & _). by apply (list_elem_of_fmap_2 fst _ (n', v')).
Qed.

Lemma data_points_keys batch :
  text_names batch → NoDup (record_of <$> data_points batch).*1.
Proof.
  intros Ht. rw -list_fmap_compose. apply NoDup_fmap_2_strong.
  - intros a b Ha Hb Hk. destruct (data_points_holds _ _ Ht Ha) as [Ha' _].
    destruct (data_points_holds _ _ Ht Hb) as [Hb' _]. cbn in Hk.
    apply holds_key in Ha' as Hka. apply holds_key in Hb' as Hkb.
    destruct Ha' as ([H1 H2 _ _] & _), Hb' as ([H3 H4 _ _] & _).
    cbn [fst record_of] in Hka, Hkb. rw Hk Hkb in Hka.
    apply key_prefix_inj in Hka; [|done..].
    apply data_points_spec in Ha as (na & va & Hda & (-> & _)%new_Ok).
    apply data_points_spec in Hb as (nb & vb & Hdb & (-> & _)%new_Ok). cbn in Hka. subst. by simplify_eq.
  - apply (NoDup_fmap_1 DataPoint.metric_name), data_points_names.
Qed.

Lemma wp_store_point {HR : RocksReliable S H} batch dp w :
  text_names batch → dp ∈ data_points batch →
  wp (store_point dp) (λ _ w',
    metrics_of w' = <[(record_of dp).1 := (record_of dp).2]> (metrics_of w) ∧ beside_metrics w w') w.
Proof.
  intros Ht Hdp. destruct (data_points_holds _ _ Ht Hdp) as [_ Hk]. unfold store_point. rw Hk.
  apply wp_bind. unfold on_db. apply wp_zoom. eapply wp_wand; [apply wp_write|]. cbv beta.
  intros [[]|e] d' Hw; [|by destruct (Hw HR)]. apply wp_ret. split; [|split_and!; [|done..]].
  - unfold metrics_of. cbn [rw_db]. rw Hw. unfold cf_contents at 1. by rw lookup_insert_eq.
  - intros n Hn. cbn [rw_db]. by rw Hw lookup_insert_ne.
Qed.

Lemma wp_store_points {HR : RocksReliable S H} batch w :
  text_names batch →
  wp (st_iter store_point (data_points batch)) (λ _ w',
    metrics_of w' = write_all (record_of <$> data_points batch) (metrics_of w) ∧ beside_metrics w w') w.
Proof.
  intros Ht. apply (wp_iter _ _ (λ l w', metrics_of w' = write_all (record_of <$> l) (metrics_of w) ∧
    beside_metrics w w')); [done|].
  intros dp l1 l2 w1 Hl (Hm & Hb). eapply wp_wand; [apply (wp_store_point batch); [done|]|].
  { rw Hl. apply elem_of_app. right. by left. }
  cbv beta. intros _ w2 (Hm2 & Hb2). split; [|by etrans].
  rw Hm2 Hm fmap_app. unfold write_all. by rw foldl_app.
Qed.

(** C25: The data points of a batch that the game streams are all stored, those
    with an unusable name or tick left out; every other record of their column
    family and every other column family stays as it is, and the column family
    still holds nothing but data points, when no call fails. *)
Theorem stream_stored {HR : RocksReliable S H} discord args batch w :
  dec args = Ok batch → text_names batch →
  wp (handle discord ("stream " +:+ args)) (λ r w',
    r = Some (Ok ()) ∧
    (∀ name v dp, data batch !! name = Some v →
       DataPoint.new name MetricPeriod.PT05S (MkTick (timestamp batch)) v = Ok dp →
       ∃ x, metrics_of w' !! x.1 = Some x.2 ∧ holds MetricPeriod.PT05S x dp) ∧
    (∀ k, (∀ dp, dp ∈ data_points batch → DataPoint.key dp ≠ Some k) →
       metrics_of w' !! k = metrics_of w !! k) ∧
    (only_points MetricPeriod.PT05S (metrics_of w) → only_points MetricPeriod.PT05S (metrics_of w')) ∧
    (∀ n, n ≠ cf_name (get_cf MetricPeriod.PT05S) → contents (rw_db w') !! n = contents (rw_db w) !! n) ∧
    rw_alerts w' = rw_alerts w ∧ rw_client w' = rw_client w) w.
Proof.
  intros Hdec Ht. unfold handle.
  assert (split_once " " ("stream " +:+ args) = Some ("stream", args)) as -> by done.
  cbn [bool_decide decide_rel]. repeat (rw bool_decide_eq_false_2; [|done]). rw bool_decide_eq_true_2 // Hdec.
  apply wp_bind. eapply wp_wand; [by apply (wp_store_points batch)|]. cbv beta.
  intros _ w' (Hm & Hb). apply wp_ret. pose proof (data_points_keys batch Ht) as Hnd.
  assert (∀ dp, dp ∈ data_points batch → metrics_of w' !! (record_of dp).1 = Some (record_of dp).2) as Hin.
  { intros dp Hdp. rw Hm. apply write_all_in; [done|]. rw -surjective_pairing. by apply list_elem_of_fmap_2. }
  assert (∀ k, (∀ dp, dp ∈ data_points batch → DataPoint.key dp ≠ Some k) →
    metrics_of w' !! k = metrics_of w !! k) as Hout.
  { intros k Hk. rw Hm. apply write_all_other. rw -list_fmap_compose.
    intros (dp & -> & Hdp)%list_elem_of_fmap. destruct (data_points_holds _ _ Ht Hdp) as [_ Hkey].
    by apply (Hk dp). }
  split; [done|]. split; [|split; [exact Hout|split; [|exact Hb]]].
  - intros name v dp Hd Hn. assert (dp ∈ data_points batch) as Hdp by (apply data_points_spec; eauto).
    exists (record_of dp). split; [by apply Hin|]. by apply (data_points_holds batch).
  - intros Honly k v Hkv.
    destruct (decide (Exists (λ dp, DataPoint.key dp = Some k) (data_points batch))) as [Hex|Hno].
    + apply Exists_exists in Hex as (dp & Hdp & Hk). exists dp.
      destruct (data_points_holds _ _ Ht Hdp) as [Hh Hk']. rw Hk' in Hk. simplify_eq.
      rw (Hin dp Hdp) in Hkv. simplify_eq. by destruct (record_of dp).
    + apply Honly. rw -Hout //. intros dp Hdp Hk. apply Hno, Exists_exists. eauto.
Qed.
End stream.
