(* ===== verification/Logs.v ===== *)
(** * Logs: the subscribers of src/src/mgmt-server/main.rs and routes/logs.rs

    What the game prints is stored by category as it arrives, and read in
    pages; what a mod prints for the management server is handed to [Rpc]. *)

From S2P Require Import Prelude Order Text Schema Errors Builder MgmtErrors Db Metrics Events Clients.
From S2P Require Import Discord Rpc.

Open Scope st_scope.

(** [DateTime::to_rfc3339] of the nanoseconds since 1970: as long as the year
    has four digits the order of the texts is that of the times. *)
Class Rfc3339 := { to_rfc3339 : Z → string }.
Definition YEAR_10000 : Z := 253402300800 * 10 ^ 9.
Definition four_digit_year (t : Z) : Prop := (0 <= t < YEAR_10000)%Z.
Class Rfc3339Laws `{Rfc3339} : Prop := {
  rfc3339_order t1 t2 :
    four_digit_year t1 → four_digit_year t2 → (t1 < t2)%Z → str_lt (to_rfc3339 t1) (to_rfc3339 t2);
  rfc3339_text t : valid_utf8 (to_rfc3339 t) = true;
}.

(** ** The subscribers *)

Definition should_write_stdout_category_to_db (category : string) : bool :=
  bool_decide (category = cat_to_string CatChat) || bool_decide (category = cat_to_string CatJoinLeave) ||
  bool_decide (category = cat_to_string CatSystemLog).

Section ingest.
Context {RF : Rfc3339} {S H : Type} {DB : RocksDb S H}.

Definition log_record (event : Event) : Record_ :=
  MkRecord (to_rfc3339 (Events.timestamp event)) (content event).

(** One round of the loop of [create_log_ingestion_subscriber]. *)
Definition ingest (event : Event) : ST S () :=
  match tags event !! STDOUT_TOPIC_NAME with
  | Some category =>
      if should_write_stdout_category_to_db category then
        write (MkCf category) (log_record event) ;; st_ret ()
      else st_ret ()
  | None => st_ret ()
  end.
End ingest.

Section rpc_subscriber.
Context {F : F64} {HE : HashEnv} {Me : Mention} {DM : DiscordMembers} {DE : Mgmt.DebugMgmtError}.
Context {U : UuidEnv} {CE : ClientEnv} {AA : AgentAnswers}.
Context {CRq : Codec AgentRequestWithId} {CRs : Codec AgentResponseWithId}.
Context {CB : Codec DataPointBatch} {CO : Codec OneshotData}.
Context {S H : Type} {DB : RocksDb S H}.

(** The task that [create_rpc_subscriber] spawns for an event. *)
Definition on_rpc_event (discord : option DiscordClient) (event : Event) : ST (RpcW S) () :=
  match tags event !! RPC_TOPIC_NAME with
  | Some command => handle discord command ;; st_ret ()
  | None => st_ret ()
  end.
End rpc_subscriber.

(** ** routes/logs.rs *)

Record LogsPaginationObject := MkLogsPage { logs_next : option string; logs : list string }.

Section routes.
Context {UC : UnicodeCase} {S H : Type} {DB : RocksDb S H}.

Definition logs_get (category : string) (count : Z) (direction : string) (from : option string) :
    ST S (result Mgmt.Error LogsPaginationObject) :=
  let cf := MkCf category in
  let lower := to_lowercase direction in
  range_direction <-? st_ret
    (if bool_decide (lower = "forward") then Ok DirForward
     else if bool_decide (lower = "backward") then Ok DirBackward
     else Err (Mgmt.BadRequest ("Invalid direction '" +:+ lower +:+ "', expected Forward or Backward"))) ;;
  ret <-? match from with
          | Some from_key => read_range cf from_key range_direction count
          | None => match range_direction with
                    | DirForward => read_range_head cf count
                    | DirBackward => read_range_tail cf count
                    end
          end ;;
  st_ret (Ok (MkLogsPage (continue_from ret) (value <$> records ret))).

(** The stream of a category: what was logged before it, and the subscriber
    it forwards. *)
Definition logs_stream (category : string) : ST (EventBroker * S) (result Mgmt.Error (option string * Subscriber)) :=
  ret <-? st_zoom snd (λ d w, (fst w, d)) (read_range_tail (MkCf category) 1) ;;
  let previous := key <$> head (records ret) in
  b <- st_gets fst ;;
  let r := subscribe STDOUT_TOPIC_NAME (λ tag_value, bool_decide (tag_value = category)) b in
  st_modify (λ w, (r.2, snd w)) ;;
  st_ret (Ok (previous, r.1)).
End routes.

(** ** What is logged is read in order *)

Section facts.
Context {RF : Rfc3339} {RL : Rfc3339Laws} {UC : UnicodeCase}.
Context {S H : Type} {DB : RocksDb S H} {DL : RocksLaws S H} {HR : RocksReliable S H}.

Definition of_category (category : string) (e : Event) : Prop :=
  tags e !! STDOUT_TOPIC_NAME = Some category.

#[local] Instance of_category_dec category e : Decision (of_category category e).
Proof. unfold of_category. apply _. Defined.

Definition log_pair (e : Event) : string * string := (key (log_record e), value (log_record e)).

Lemma wp_ingest_all category evs s :
  should_write_stdout_category_to_db category = true →
  wp (st_iter ingest evs) (λ _ s',
    cf_contents category (contents s') =
      write_all (log_pair <$> filter (of_category category) evs) (cf_contents category (contents s))) s.
Proof.
  intros Hcat. apply (wp_iter _ _ (λ l s', cf_contents category (contents s') =
    write_all (log_pair <$> filter (of_category category) l) (cf_contents category (contents s)))); [done|].
  intros e l1 l2 s1 _ Hs1. unfold ingest. rw filter_app fmap_app.
  assert (∀ l, write_all ((log_pair <$> filter (of_category category) l1) ++ l)
    (cf_contents category (contents s)) = write_all l (cf_contents category (contents s1))) as Hw.
  { intros l. rw Hs1. unfold write_all. by rw foldl_app. }
  rw Hw. destruct (tags e !! STDOUT_TOPIC_NAME) as [c|] eqn:He.
  2: { apply wp_ret. rw filter_cons_False //. unfold of_category. by rw He. }
  destruct (should_write_stdout_category_to_db c) eqn:Hc.
  - apply wp_bind. eapply wp_wand; [apply wp_write|]. cbv beta. intros [[]|x] s2 Hs2; [|by destruct (Hs2 HR)].
    apply wp_ret. rw Hs2. unfold cf_contents at 1. cbn [cf_name]. destruct (decide (c = category)) as [->|Hne].
    + rw lookup_insert_eq filter_cons_True //.
    + rw lookup_insert_ne // filter_cons_False; [done|]. unfold of_category. rw He. congruence.
  - apply wp_ret. rw filter_cons_False //. unfold of_category. rw He. congruence.
Qed.

(** Records written in the order of their keys are listed in that order. *)
Lemma listing_write_all l :
  StronglySorted (comes_before Forward) l → listing (write_all l ∅) = l.
Proof.
  intros Hs. apply (sorted_ext (comes_before Forward)); [apply listing_sorted|done|].
  assert (NoDup l.*1) as Hnd.
  { apply (sorted_NoDup str_lt). by eapply StronglySorted_fmap; [|exact Hs]. }
  intros [k v]. rw elem_of_listing. cbn. split.
  - intros Hk. destruct (decide (k ∈ l.*1)) as [Hin|Hn].
    + apply list_elem_of_fmap in Hin as ([k' v'] & -> & Hin). cbn in Hk |- *.
      rw (write_all_in l ∅ k' v' Hnd Hin) in Hk. by simplify_eq.
    + by rw write_all_other // lookup_empty in Hk.
  - intros Hin. by apply write_all_in.
Qed.

(** C33: What the game prints in a category that is logged is read back in the
    order in which it was printed: after events of increasing times, before the
    year 10000, the head of the log is the first [count] of those of the category, and there is a
    continuation exactly when there are more, when no call fails. *)
Theorem logged_in_order category evs count s :
  should_write_stdout_category_to_db category = true → (0 < count)%Z →
  cf_contents category (contents s) = ∅ →
  StronglySorted (λ a b, (Events.timestamp a < Events.timestamp b)%Z) evs →
  Forall (λ e, four_digit_year (Events.timestamp e) ∧ valid_utf8 (content e) = true) evs →
  let mine := filter (of_category category) evs in
  wp (st_iter ingest evs ;; logs_get category count "Forward" None)
    (λ r _, r = Ok (MkLogsPage ((λ e, to_rfc3339 (Events.timestamp e)) <$> mine !! Z.to_nat count)
                      (content <$> take (Z.to_nat count) mine))) s.
Proof.
  intros Hcat Hcount Hempty Hsorted Htext mine. apply wp_bind. eapply wp_wand; [by apply wp_ingest_all|].
  cbv beta. intros _ s1 Hs1. rw Hempty in Hs1. fold mine in Hs1.
  unfold logs_get. rw to_lowercase_ascii //. apply wp_try, wp_ret. apply wp_try.
  eapply wp_wand; [apply (wp_range (MkCf category) Start)|]. cbv beta.
  intros [rr|x] s2 Hr; cbn [range_post] in Hr; [|by destruct (proj1 Hr HR)].
  destruct Hr as (_ & l & -> & _ & Hl). rw (Hl HR) {l Hl}. cbn [cf_name scan]. rw Hs1.
  assert (StronglySorted (comes_before Forward) (log_pair <$> mine)) as Hpairs.
  { apply (sorted_fmap_strong (λ a b, (Events.timestamp a < Events.timestamp b)%Z)).
    - intros a b [_ Ha]%list_elem_of_filter [_ Hb]%list_elem_of_filter Hab. rw Forall_forall in Htext.
      cbn. by apply rfc3339_order; [apply Htext..|].
    - by apply sorted_filter. }
  rw (listing_write_all _ Hpairs). apply wp_ret. unfold page. cbn [continue_from records].
  destruct (Z.ltb_spec 0 count); [|lia]. do 2 f_equal.
  - rw list_lookup_fmap. destruct (mine !! Z.to_nat count) as [e|]; [|done]. cbn.
    by rw from_utf8_lossy_valid; [|apply rfc3339_text].
  - rw -!list_fmap_compose -fmap_take -list_fmap_compose. apply list_fmap_ext. intros i e He. cbn.
    apply from_utf8_lossy_valid. rw Forall_forall in Htext. apply (Htext e).
    apply list_elem_of_lookup_2, elem_of_take in He as (j & Hj & _).
    apply list_elem_of_lookup_2, list_elem_of_filter in Hj as [_ Hj]. done.
Qed.
End facts.
