(* ===== verification/Routes.v ===== *)
(** * Routes: src/src/mgmt-server/routes

    The HTTP routes: the guards before each handler, what it runs, and what it
    answers; and the table of them in main.rs.  The files of the web client
    that Rocket serves, and the catchers, are left out. *)

From S2P Require Import Prelude Order Text Regex Schema Io Errors Mods Builder MgmtErrors Db Metrics Events.
From S2P Require Import Clients Links WsServer Auth Discord Rpc Logs.

Open Scope st_scope.

(** ** Data

    The types generated from the API description, by the fields that the
    handlers fill in. *)
Inductive GameStatus := GsNotRunning | GsPreGame | GsInGame | GsPostGame.

(** [WsStreamingResponder] *)
Record WsStreamingResponder := MkWsResponder { path : string; full_uri : string }.

Definition WsStreamingResponder_new (ws : WebSocketServer) (host : HostHeader) (operation_id : OperationId) :
    WsStreamingResponder :=
  let path := "/operation/" +:+ operation_id in
  MkWsResponder path
    (if use_wss ws then "wss://" +:+ hostname host +:+ path
     else "ws://" +:+ hostname host +:+ ":" +:+ pretty (Z.to_N (port ws)) +:+ path).

(** [LinkDownloadResponder] *)
Definition LinkDownloadResponder_new (link_id : string) : string := "/download/" +:+ link_id.

(** The response of the mod portal. *)
Record PortalResponse := MkPortal { p_status : Z; p_error : string; p_text : result string string }.

Section data.
Context {F : F64} {MS J : Type}.

(** The body of an answer, or the headers it consists of. *)
Inductive Body :=
| AuthInfoBody (discord : option string)    (** the client id of the provider *)
| TokenResponse (t : OAuthTokenResponse)
| ControlStatus (game_status : GameStatus) (player_count : Z)
| InstallVersion (version : option string)
| Savefiles (l : list (string * option string))
| ModList (l : list ModObject)
| Users (l : list string)
| WhiteList (enabled : bool) (users : list string)
| Rcon (port : Z) (password : string)
| SecretsBody (username : string) (token : option string)
| SettingsBody (c : ServerSettingsConfig)
| Dlcs (l : gset Dlc)
| ModSettings (ms : MS)
| RconResponse (response : string)
| Monitor (cpu_total : Z) (cpus : list Z) (mem_total_bytes mem_used_bytes : Z)
| BuildInfo (agent mgmt_server : option (string * string))
| LogsPage (p : LogsPaginationObject)
| MetricsPage (p : MetricsPaginationObject)
| PortalText (s : string)
| PortalNotFound (s : string)               (** 404 *)
| Download (d : DownloadResponder)
| Location (uri : string)                   (** 202, with the header [Location] *)
| LocationWithMarker (uri : string) (previous : option string)   (** the same, with a body *)
| Accepted                                  (** 202 *)
| Empty                                     (** 200 *)
| NoBody.                                   (** 204, with the header [Allow] *)

(** A guard has denied the request with a status, the handler has answered, or
    it has panicked. *)
Inductive Answer := Denied (status : Z) | Answered (r : result Mgmt.Error Body) | Panicked.

Definition body_status (b : Body) : Z :=
  match b with
  | Location _ | LocationWithMarker _ _ | Accepted => 202
  | NoBody => 204
  | PortalNotFound _ => 404
  | _ => 200
  end%Z.

Definition answer_status (a : Answer) : Z :=
  match a with
  | Denied status => status
  | Answered (Ok b) => body_status b
  | Answered (Err e) => Mgmt.status e
  | Panicked => 500
  end%Z.

(** The requests, with their parameters and bodies as Rocket has parsed them;
    the address to redirect to as it is decoded, if it can be. *)
Inductive Request :=
| AuthInfo
| DiscordGrant (code : string) (redirect_uri : option string)
| DiscordRefresh
| Status
| CreateSavefile (savefile : string) (map_gen_settings map_settings : option J)
| StartServer (savefile : string)
| StopServer
| GetInstall
| UpgradeInstall (version : string) (force_install : option bool)
| GetSavefiles
| DeleteSavefile (id : string)
| GetSavefile (id : string)
| ExtractModListFromSavefile (id : string)
| PutSavefile (id : string) (body : result IoErrorKind bytes)
| GetAdminlist
| PutAdminlist (l : list string)
| GetBanlist
| PutBanlist (l : list string)
| GetWhitelist
| PutWhitelist (enabled : bool) (users : list string)
| GetRconConfig
| PutRconConfig (c : RconConfig)
| GetSecrets
| PutSecrets (s : SecretsObject)
| GetServerSettings
| PutServerSettings (c : ServerSettingsConfig)
| GetDlcs
| SetDlcs (l : gset Dlc)
| GetModsList
| ApplyModsList (l : list ModObject)
| GetModSettings
| PutModSettings (body : string)
| GetModSettingsDat
| PutModSettingsDat (body : bytes)
| SendRconCommand (command : string)
| SystemMonitor
| GetBuildInfo
| GetLogs (category : string) (count : Z) (direction : string) (from : option string)
| StreamLogs (category : string)
| GetMetrics (name period : string) (count : Z) (direction : string) (from : option N)
| ModPortalBatch (namelist : list string) (page_size page : option N)
| ModPortalShort (mod_name : string)
| ModPortalFull (mod_name : string)
| GetDownload (link_id : string)
| Options.
End data.
Arguments Body {F} MS.
Arguments Answer {F} MS.
Arguments Request J : clear implicits.

(** What Rocket manages for the handlers; the number of ids made, and of
    requests to the mod portal. *)
Record MgmtW (S : Type) := MkMgmtW {
  mw_client : ClientW;
  mw_auth : AuthnManager;
  mw_links : LinkMap;
  mw_ws : WebSocketServer;
  mw_db : S;
  mw_made : nat;
  mw_proxied : nat;
}.
Arguments MkMgmtW {S}.
Arguments mw_client {S}.
Arguments mw_auth {S}.
Arguments mw_links {S}.
Arguments mw_ws {S}.
Arguments mw_db {S}.
Arguments mw_made {S}.
Arguments mw_proxied {S}.

Section setters.
Context {S : Type}.
Implicit Types w : MgmtW S.
Definition set_client (c : ClientW) w : MgmtW S :=
  MkMgmtW c (mw_auth w) (mw_links w) (mw_ws w) (mw_db w) (mw_made w) (mw_proxied w).
Definition set_auth (a : AuthnManager) w : MgmtW S :=
  MkMgmtW (mw_client w) a (mw_links w) (mw_ws w) (mw_db w) (mw_made w) (mw_proxied w).
Definition set_links (l : LinkMap) w : MgmtW S :=
  MkMgmtW (mw_client w) (mw_auth w) l (mw_ws w) (mw_db w) (mw_made w) (mw_proxied w).
Definition set_ws (s : WebSocketServer) w : MgmtW S :=
  MkMgmtW (mw_client w) (mw_auth w) (mw_links w) s (mw_db w) (mw_made w) (mw_proxied w).
Definition set_db (d : S) w : MgmtW S :=
  MkMgmtW (mw_client w) (mw_auth w) (mw_links w) (mw_ws w) d (mw_made w) (mw_proxied w).
Definition set_made (n : nat) w : MgmtW S :=
  MkMgmtW (mw_client w) (mw_auth w) (mw_links w) (mw_ws w) (mw_db w) n (mw_proxied w).
Definition set_proxied (n : nat) w : MgmtW S :=
  MkMgmtW (mw_client w) (mw_auth w) (mw_links w) (mw_ws w) (mw_db w) (mw_made w) n.
End setters.

(** By the number of ids made: their two texts, the time, and what the
    subscription of a log stream will yield; the text of a time, the build of
    the management server, and the mod portal. *)
Class RouteEnv := {
  uuid_simple : nat → string;
  uuid_hyphenated : nat → string;
  route_now : nat → Z;
  logged : nat → list Event;
  time_to_string : Z → string;
  mgmt_build_timestamp : string;
  mgmt_git_sha : option string;
  portal_get : nat → string → result string PortalResponse;
}.

Section routes.
Context {RE : RouteEnv} {R : RegexEngine} {U : UuidEnv} {CE : ClientEnv} {AA : AgentAnswers}.
Context {CRq : Codec AgentRequestWithId} {CRs : Codec AgentResponseWithId}.
Context {DA : DiscordApi} {CT : Codec OAuthTokenFullResponse} {CU : Codec DiscordUser}.
Context {F : F64} {UC : UnicodeCase} {S H : Type} {DB : RocksDb S H}.
Context {MS J : Type} {SF : SettingsFile MS} {CMS : Codec MS} {CJ : Codec J}.

Definition on_client {A} (m : ST ClientW A) : ST (MgmtW S) A := st_zoom mw_client set_client m.
Definition on_auth {A} (m : ST AuthnManager A) : ST (MgmtW S) A := st_zoom mw_auth set_auth m.
Definition on_db {A} (m : ST S A) : ST (MgmtW S) A := st_zoom mw_db set_db m.

(** The number of the next id. *)
Definition make_id : ST (MgmtW S) nat :=
  n <- st_gets mw_made ;; st_modify (set_made (Datatypes.S n)) ;; st_ret n.

(** *** Guards *)

Definition with_admin (mgr : AuthzManager) (headers : Headers) (k : ST (MgmtW S) (Answer MS)) :
    ST (MgmtW S) (Answer MS) :=
  g <- on_auth (AuthorizedUser_guard mgr headers) ;;
  match g with
  | Outcome.Success _ => k
  | Outcome.Error s _ => st_ret (Denied s)
  | Outcome.Forward s => st_ret (Denied s)
  end.
Definition with_outcome {A E} (o : Outcome.t A E) (k : A → ST (MgmtW S) (Answer MS)) : ST (MgmtW S) (Answer MS) :=
  match o with
  | Outcome.Success a => k a
  | Outcome.Error s _ => st_ret (Denied s)
  | Outcome.Forward s => st_ret (Denied s)
  end.

(** *** Handlers *)

Definition answer (m : ST (MgmtW S) (result Mgmt.Error (Body MS))) : ST (MgmtW S) (Answer MS) :=
  r <- m ;; st_ret (Answered r).

(** A handler that runs one operation of the client. *)
Definition call {T} (c : Call T) (f : T → Body MS) : ST (MgmtW S) (Answer MS) :=
  answer (r <-? on_client (run_call c) ;; st_ret (Ok (f r))).
Definition call_named {T} (c : result Mgmt.Error (Call T)) (f : T → Body MS) : ST (MgmtW S) (Answer MS) :=
  answer (r <-? on_client (run_named run_call c) ;; st_ret (Ok (f r))).

(** One that starts a long operation, and streams it at a path of its own. *)
Definition streaming (host : HostHeader) (c : result Mgmt.Error LongCall) : ST (MgmtW S) (Answer MS) :=
  answer
    (started <-? on_client (run_named run_long_call c) ;;
     ws <- st_gets mw_ws ;;
     let resp := WsStreamingResponder_new ws host (fst started) in
     st_modify (λ w, set_ws (stream_at (path resp) (fst (snd started)) (mw_ws w)) w) ;;
     st_ret (Ok (Location (full_uri resp)))).

Definition make_link (target : LinkDownloadTarget) : ST (MgmtW S) (Answer MS) :=
  n <- make_id ;;
  st_modify (λ w, set_links (LinkDownloadManager.create_link (uuid_simple n) (route_now n) target (mw_links w)).2 w) ;;
  st_ret (Answered (Ok (Location (LinkDownloadResponder_new (uuid_simple n))))).

(** [map(to_string).transpose()?] *)
Definition to_json (j : option J) : result Mgmt.Error (option string) :=
  match j with
  | Some j => match enc j with Ok s => Ok (Some s) | Err e => Err (Mgmt.Json e) end
  | None => Ok None
  end.

Definition control_status (ss : ServerStatusView) : Body MS :=
  match ss with
  | NotRunning => ControlStatus GsNotRunning 0
  | PreGame => ControlStatus GsPreGame 0
  | InGame player_count => ControlStatus GsInGame (as_i32 player_count)
  | PostGame => ControlStatus GsPostGame 0
  end.

(** [u64 as i64] *)
Definition as_i64 (z : Z) : Z :=
  let m := (z mod 2 ^ 64)%Z in if (m <? 2 ^ 63)%Z then m else (m - 2 ^ 64)%Z.

Definition status (mgr : AuthzManager) (headers : Headers) : ST (MgmtW S) (Answer MS) :=
  with_admin mgr headers (call AgentApiClient.server_status control_status).

Definition create_savefile (mgr : AuthzManager) (headers : Headers) (savefile : string) (map_gen_settings : option J) (map_settings : option J) : ST (MgmtW S) (Answer MS) :=
  with_outcome (HostHeader_guard headers) (λ host,
  with_admin mgr headers
    (streaming host
       match to_json map_gen_settings with
       | Err e => Err e
       | Ok map_gen_settings_json =>
           match to_json map_settings with
           | Err e => Err e
           | Ok map_settings_json =>
               AgentApiClient.save_create savefile map_gen_settings_json map_settings_json
           end
       end)).

Definition start_server (mgr : AuthzManager) (headers : Headers) (savefile : string) : ST (MgmtW S) (Answer MS) :=
  with_admin mgr headers (call (AgentApiClient.server_start (Specific savefile)) (λ _, Accepted)).

Definition stop_server (mgr : AuthzManager) (headers : Headers) : ST (MgmtW S) (Answer MS) :=
  with_admin mgr headers (call AgentApiClient.server_stop (λ _, Accepted)).

Definition get_install (mgr : AuthzManager) (headers : Headers) : ST (MgmtW S) (Answer MS) :=
  with_admin mgr headers (call AgentApiClient.version_get InstallVersion).

Definition upgrade_install (mgr : AuthzManager) (headers : Headers) (version : string) (force_install : option bool) : ST (MgmtW S) (Answer MS) :=
  with_outcome (HostHeader_guard headers) (λ host,
  with_admin mgr headers
    (streaming host (Ok (AgentApiClient.version_install version (default false force_install))))).

Definition get_savefiles (mgr : AuthzManager) (headers : Headers) : ST (MgmtW S) (Answer MS) :=
  with_admin mgr headers
    (call AgentApiClient.save_list
       (λ l, Savefiles ((λ s, (save_name s, Some (time_to_string (save_last_modified s)))) <$> l))).

Definition delete_savefile (mgr : AuthzManager) (headers : Headers) (id : string) : ST (MgmtW S) (Answer MS) :=
  with_admin mgr headers (call_named (AgentApiClient.save_delete id) (λ _, Empty)).

Definition get_savefile (mgr : AuthzManager) (headers : Headers) (id : string) : ST (MgmtW S) (Answer MS) :=
  with_admin mgr headers (make_link (TSavefile id)).

Definition extract_mod_list_from_savefile (mgr : AuthzManager) (headers : Headers) (id : string) : ST (MgmtW S) (Answer MS) :=
  with_admin mgr headers (call_named (AgentApiClient.mod_list_extract_from_save id) ModList).

Definition put_savefile (mgr : AuthzManager) (headers : Headers) (id : string) (body : result IoErrorKind bytes) : ST (MgmtW S) (Answer MS) :=
  with_admin mgr headers
  (with_outcome (ContentLengthHeader_guard headers) (λ content_length,
   with_outcome (ContentRangeHeader_guard headers) (λ content_range,
     match body with
     | Err e => st_ret (Answered (Err (Mgmt.Io e)))
     | Ok body =>
         call_named (AgentApiClient.save_put id
           (MkSaveBytes (Some (range_start content_range)) (take (Z.to_nat content_length) body)))
           (λ _, Empty)
     end))).

Definition get_adminlist (mgr : AuthzManager) (headers : Headers) : ST (MgmtW S) (Answer MS) :=
  with_admin mgr headers (call AgentApiClient.config_adminlist_get Users).

Definition put_adminlist (mgr : AuthzManager) (headers : Headers) (l : list string) : ST (MgmtW S) (Answer MS) :=
  with_admin mgr headers (call (AgentApiClient.config_adminlist_set l) (λ _, Empty)).

Definition get_banlist (mgr : AuthzManager) (headers : Headers) : ST (MgmtW S) (Answer MS) :=
  with_admin mgr headers (call AgentApiClient.config_banlist_get Users).

Definition put_banlist (mgr : AuthzManager) (headers : Headers) (l : list string) : ST (MgmtW S) (Answer MS) :=
  with_admin mgr headers (call (AgentApiClient.config_banlist_set l) (λ _, Empty)).

Definition get_whitelist (mgr : AuthzManager) (headers : Headers) : ST (MgmtW S) (Answer MS) :=
  with_admin mgr headers
    (call AgentApiClient.config_whitelist_get (λ wl, WhiteList (wo_enabled wl) (wo_users wl))).

Definition put_whitelist (mgr : AuthzManager) (headers : Headers) (enabled : bool) (users : list string) : ST (MgmtW S) (Answer MS) :=
  with_admin mgr headers (call (AgentApiClient.config_whitelist_set enabled users) (λ _, Empty)).

Definition get_rcon_config (mgr : AuthzManager) (headers : Headers) : ST (MgmtW S) (Answer MS) :=
  with_admin mgr headers
    (call AgentApiClient.config_rcon_get (λ c, Rcon (as_i32 (rc_port c)) (rc_password c))).

Definition put_rcon_config (mgr : AuthzManager) (headers : Headers) (c : RconConfig) : ST (MgmtW S) (Answer MS) :=
  with_admin mgr headers (call (AgentApiClient.config_rcon_set c) (λ _, Empty)).

Definition get_secrets (mgr : AuthzManager) (headers : Headers) : ST (MgmtW S) (Answer MS) :=
  with_admin mgr headers
    (call AgentApiClient.config_secrets_get (λ s, SecretsBody (so_username s) None)).

Definition put_secrets (mgr : AuthzManager) (headers : Headers) (s : SecretsObject) : ST (MgmtW S) (Answer MS) :=
  with_admin mgr headers (call (AgentApiClient.config_secrets_set s) (λ _, Empty)).

Definition get_server_settings (mgr : AuthzManager) (headers : Headers) : ST (MgmtW S) (Answer MS) :=
  with_admin mgr headers (call AgentApiClient.config_server_settings_get SettingsBody).

Definition put_server_settings (mgr : AuthzManager) (headers : Headers) (c : ServerSettingsConfig) : ST (MgmtW S) (Answer MS) :=
  with_admin mgr headers (call (AgentApiClient.config_server_settings_set c) (λ _, Empty)).

Definition get_dlcs (mgr : AuthzManager) (headers : Headers) : ST (MgmtW S) (Answer MS) :=
  with_admin mgr headers (call AgentApiClient.mod_dlcs_get Dlcs).

Definition set_dlcs (mgr : AuthzManager) (headers : Headers) (l : gset Dlc) : ST (MgmtW S) (Answer MS) :=
  with_admin mgr headers (call (AgentApiClient.mod_dlcs_set l) (λ _, Empty)).

Definition get_mods_list (mgr : AuthzManager) (headers : Headers) : ST (MgmtW S) (Answer MS) :=
  with_admin mgr headers (call AgentApiClient.mod_list_get ModList).

Definition apply_mods_list (mgr : AuthzManager) (headers : Headers) (l : list ModObject) : ST (MgmtW S) (Answer MS) :=
  with_outcome (HostHeader_guard headers) (λ host,
  with_admin mgr headers (streaming host (Ok (AgentApiClient.mod_list_set l)))).

Definition get_mod_settings (mgr : AuthzManager) (headers : Headers) : ST (MgmtW S) (Answer MS) :=
  with_admin mgr headers
    (answer (ms_bytes <-? on_client (run_call AgentApiClient.mod_settings_get) ;;
             st_ret match settings_try_from ms_bytes with
                    | Ok ms => Ok (ModSettings ms)
                    | Err e => Err (Mgmt.FactorioDatFileParseError e)
                    end)).

Definition put_mod_settings (mgr : AuthzManager) (headers : Headers) (body : string) : ST (MgmtW S) (Answer MS) :=
  with_admin mgr headers
    match dec (A := MS) body with
    | Err e => st_ret (Answered (Err (Mgmt.Json e)))
    | Ok ms => match settings_try_into ms with
               | Err e => st_ret (Answered (Err (Mgmt.FactorioDatFileParseError e)))
               | Ok bytes => call (AgentApiClient.mod_settings_set bytes) (λ _, Empty)
               end
    end.

Definition get_mod_settings_dat (mgr : AuthzManager) (headers : Headers) : ST (MgmtW S) (Answer MS) :=
  with_admin mgr headers (make_link TModSettingsDat).

Definition put_mod_settings_dat (mgr : AuthzManager) (headers : Headers) (body : bytes) : ST (MgmtW S) (Answer MS) :=
  with_admin mgr headers (call (AgentApiClient.mod_settings_set body) (λ _, Empty)).

Definition send_rcon_command (mgr : AuthzManager) (headers : Headers) (command : string) : ST (MgmtW S) (Answer MS) :=
  with_admin mgr headers (call (AgentApiClient.rcon_command command) RconResponse).

Definition monitor : ST (MgmtW S) (Answer MS) :=
  call AgentApiClient.system_resources
    (λ s, Monitor (cpu_total s) (cpus s) (as_i64 (mem_total_bytes s)) (as_i64 (mem_used_bytes s))).

Definition buildinfo : ST (MgmtW S) (Answer MS) :=
  agent_ver <- on_client (run_call AgentApiClient.build_version) ;;
  st_ret (Answered (Ok (BuildInfo
    ((λ v, (bv_timestamp v, bv_commit_hash v)) <$> ok agent_ver)
    (Some (mgmt_build_timestamp, default "-" mgmt_git_sha))))).

Definition download_route (link_id : string) : ST (MgmtW S) (Answer MS) :=
  links <- st_gets mw_links ;;
  answer (d <-? on_client (download links link_id) ;; st_ret (Ok (Download d))).

Definition options : ST (MgmtW S) (Answer MS) :=
  st_ret (Answered (Ok NoBody)).

(** *** routes/auth.rs *)

Definition info : ST (MgmtW S) (Answer MS) :=
  p <- st_gets (provider ∘ mw_auth) ;;
  st_ret (Answered (Ok (AuthInfoBody
    match p with ProviderNone => None | ProviderDiscord client_id _ => Some client_id end))).

Definition discord_grant_route (headers : Headers) (code : string) (redirect_uri : option string) :
    ST (MgmtW S) (Answer MS) :=
  with_outcome (HostHeader_guard headers) (λ _,
    n <- make_id ;;
    answer (resp <-? on_auth (discord_grant (route_now n) code redirect_uri) ;;
            st_ret (Ok (TokenResponse resp)))).

Definition discord_refresh (headers : Headers) : ST (MgmtW S) (Answer MS) :=
  g <- on_auth (UserIdentity_guard headers) ;;
  with_outcome g (λ _, st_ret (Answered (Err Mgmt.NotImplemented))).

(** *** routes/logs.rs and routes/metrics.rs *)

Definition get_logs (category : string) (count : Z) (direction : string) (from : option string) :
    ST (MgmtW S) (Answer MS) :=
  answer (p <-? on_db (logs_get category count direction from) ;; st_ret (Ok (LogsPage p))).

(** The broker of the client and the database. *)
Definition on_logs {A} (m : ST (EventBroker * S) A) : ST (MgmtW S) A :=
  st_zoom (λ w, (event_broker (mw_client w), mw_db w))
    (λ x w, set_db x.2 (set_client (MkClientW x.1 (ws_connected (mw_client w)) (ncalls (mw_client w))) w)) m.

Definition stream_logs (headers : Headers) (category : string) : ST (MgmtW S) (Answer MS) :=
  with_outcome (HostHeader_guard headers) (λ host,
    n <- make_id ;;
    answer
      (found <-? on_logs (logs_stream category) ;;
       ws <- st_gets mw_ws ;;
       let resp := WsStreamingResponder_new ws host (uuid_hyphenated n) in
       st_modify (λ w, set_ws (stream_at (path resp) (logged n) (mw_ws w)) w) ;;
       st_ret (Ok (LocationWithMarker (full_uri resp) (fst found))))).

Definition get_metrics (name period : string) (count : Z) (direction : string) (from : option N) :
    ST (MgmtW S) (Answer MS) :=
  r <- on_db (Metrics.get name period count direction from) ;;
  st_ret match r with
         | Some (Ok p) => Answered (Ok (MetricsPage p))
         | Some (Err e) => Answered (Err e)
         | None => Panicked
         end.

(** *** routes/proxy.rs *)

Definition portal (url : string) : ST (MgmtW S) (result Mgmt.Error PortalResponse) :=
  n <- st_gets mw_proxied ;;
  st_modify (set_proxied (Datatypes.S n)) ;;
  st_ret (map_err Mgmt.Reqwest (portal_get n url)).

Definition portal_text (r : PortalResponse) : result Mgmt.Error (Body MS) :=
  match p_text r with Ok s => Ok (PortalText s) | Err e => Err (Mgmt.Reqwest e) end.

Definition mod_portal_batch_get (namelist : list string) (page_size page : option N) : ST (MgmtW S) (Answer MS) :=
  let query_strings_split :=
    [join "&" ((λ name, "namelist=" +:+ name) <$> namelist)]
    ++ match page_size with Some n => ["page_size=" +:+ pretty n] | None => [] end
    ++ match page with Some n => ["page=" +:+ pretty n] | None => [] end in
  answer (resp <-? portal ("https://mods.factorio.com/api/mods?" +:+ join "&" query_strings_split) ;;
          st_ret (portal_text resp)).

(** [error_for_status], with 404 apart. *)
Definition portal_page (resp : PortalResponse) : result Mgmt.Error (Body MS) :=
  if (400 <=? p_status resp)%Z && (p_status resp <? 600)%Z then
    if (p_status resp =? 404)%Z then Ok (PortalNotFound "Mod not found") else Err (Mgmt.Reqwest (p_error resp))
  else portal_text resp.

Definition mod_portal_short_get (mod_name : string) : ST (MgmtW S) (Answer MS) :=
  answer (resp <-? portal ("https://mods.factorio.com/api/mods/" +:+ mod_name) ;; st_ret (portal_page resp)).
Definition mod_portal_full_get (mod_name : string) : ST (MgmtW S) (Answer MS) :=
  answer (resp <-? portal ("https://mods.factorio.com/api/mods/" +:+ mod_name +:+ "/full") ;;
          st_ret (portal_page resp)).

(** The routes that are mounted, at the requests for them. *)
Definition serve (mgr : AuthzManager) (headers : Headers) (r : Request J) : ST (MgmtW S) (Answer MS) :=
  match r with
  | AuthInfo => info
  | DiscordGrant code redirect_uri => discord_grant_route headers code redirect_uri
  | DiscordRefresh => discord_refresh headers
  | Status => status mgr headers
  | CreateSavefile savefile map_gen_settings map_settings => create_savefile mgr headers savefile map_gen_settings map_settings
  | StartServer savefile => start_server mgr headers savefile
  | StopServer => stop_server mgr headers
  | GetInstall => get_install mgr headers
  | UpgradeInstall version force_install => upgrade_install mgr headers version force_install
  | GetSavefiles => get_savefiles mgr headers
  | DeleteSavefile id => delete_savefile mgr headers id
  | GetSavefile id => get_savefile mgr headers id
  | ExtractModListFromSavefile id => extract_mod_list_from_savefile mgr headers id
  | PutSavefile id body => put_savefile mgr headers id body
  | GetAdminlist => get_adminlist mgr headers
  | PutAdminlist l => put_adminlist mgr headers l
  | GetBanlist => get_banlist mgr headers
  | PutBanlist l => put_banlist mgr headers l
  | GetWhitelist => get_whitelist mgr headers
  | PutWhitelist enabled users => put_whitelist mgr headers enabled users
  | GetRconConfig => get_rcon_config mgr headers
  | PutRconConfig c => put_rcon_config mgr headers c
  | GetSecrets => get_secrets mgr headers
  | PutSecrets s => put_secrets mgr headers s
  | GetServerSettings => get_server_settings mgr headers
  | PutServerSettings c => put_server_settings mgr headers c
  | GetDlcs => get_dlcs mgr headers
  | SetDlcs l => set_dlcs mgr headers l
  | GetModsList => get_mods_list mgr headers
  | ApplyModsList l => apply_mods_list mgr headers l
  | GetModSettings => get_mod_settings mgr headers
  | PutModSettings body => put_mod_settings mgr headers body
  | GetModSettingsDat => get_mod_settings_dat mgr headers
  | PutModSettingsDat body => put_mod_settings_dat mgr headers body
  | SendRconCommand command => send_rcon_command mgr headers command
  | SystemMonitor => monitor
  | GetBuildInfo => buildinfo
  | GetLogs category count direction from => get_logs category count direction from
  | StreamLogs category => stream_logs headers category
  | GetMetrics name period count direction from => get_metrics name period count direction from
  | ModPortalBatch namelist page_size page => mod_portal_batch_get namelist page_size page
  | ModPortalShort mod_name => mod_portal_short_get mod_name
  | ModPortalFull mod_name => mod_portal_full_get mod_name
  | GetDownload link_id => download_route link_id
  | Options => options
  end.

(** ** Who can do what *)

(** The routes that are open to everyone. *)
Definition is_public (r : Request J) : bool :=
  match r with
  | AuthInfo | DiscordGrant _ _ | DiscordRefresh | SystemMonitor | GetBuildInfo | GetLogs _ _ _ _
  | StreamLogs _ | GetMetrics _ _ _ _ _ | ModPortalBatch _ _ _ | ModPortalShort _ | ModPortalFull _
  | GetDownload _ | Options => true
  | _ => false
  end.

(** What they may ask of the agent: its build, the use of its machine, and
    what a link stands for. *)
Definition public_request (links : LinkMap) (rq : AgentRequest) : Prop :=
  rq = BuildVersion ∨ rq = SystemResources ∨
  ∃ link, (∃ id, LinkDownloadManager.get_link link links = Some (TSavefile id) ∧ rq = SaveGet id) ∨
          (LinkDownloadManager.get_link link links = Some TModSettingsDat ∧ rq = ModSettingsGet).

Definition sent (rq : AgentRequest) (c c' : ClientW) : Prop := c' = (send_request_and_subscribe rq c).2.
(** Nothing is published. *)
Definition quiet (c c' : ClientW) : Prop :=
  ∀ t, sent_on (event_broker c') t = sent_on (event_broker c) t.

(** Only the accounts of who is who have changed. *)
Definition untouched (w w' : MgmtW S) : Prop :=
  mw_client w' = mw_client w ∧ mw_links w' = mw_links w ∧ mw_ws w' = mw_ws w ∧ mw_db w' = mw_db w.

Context {DL : RocksLaws S H}.

(** What a public route does. *)
Definition public_effect (r : Request J) (w w' : MgmtW S) : Prop :=
  mw_links w' = mw_links w ∧ same_records (mw_db w) (mw_db w') ∧
  (mw_ws w' = mw_ws w ∨
   ∃ category path stream, r = StreamLogs category ∧ mw_ws w' = stream_at path stream (mw_ws w)) ∧
  (quiet (mw_client w) (mw_client w') ∨
   ∃ rq, public_request (mw_links w) rq ∧ sent rq (mw_client w) (mw_client w')).

Lemma run_call_sent {T} (c : Call T) w : sent (request c) w (run_call c w).2.
Proof.
  unfold sent, run_call, st_bind, st_gets, st_try, st_bind. cbn.
  by destruct (send_request_and_subscribe (request c) w) as [[]].
Qed.
Lemma run_long_call_sent (c : LongCall) w : sent (long_request c) w (run_long_call c w).2.
Proof.
  unfold sent, run_long_call, st_bind, st_gets, st_try, st_bind. cbn.
  by destruct (send_request_and_subscribe (long_request c) w) as [[]].
Qed.

(** *** Handlers that leave the accounts alone *)

Definition keeps_auth {A} (m : ST (MgmtW S) A) : Prop := ∀ w, mw_auth (m w).2 = mw_auth w.

Lemma keeps_ret {A} (a : A) : keeps_auth (st_ret a).
Proof. done. Qed.
Lemma keeps_bind {A B} (m : ST (MgmtW S) A) (k : A → ST (MgmtW S) B) :
  keeps_auth m → (∀ a, keeps_auth (k a)) → keeps_auth (st_bind m k).
Proof. intros Hm Hk w. unfold st_bind. specialize (Hm w). destruct (m w) as [a w']. by rw Hk. Qed.
Lemma keeps_try {A B E} (m : ST (MgmtW S) (result E A)) (k : A → ST (MgmtW S) (result E B)) :
  keeps_auth m → (∀ a, keeps_auth (k a)) → keeps_auth (st_try m k).
Proof. intros Hm Hk. apply keeps_bind; [done|]. intros [a|e]; [apply Hk|apply keeps_ret]. Qed.
Lemma keeps_client {A} (m : ST ClientW A) : keeps_auth (on_client m).
Proof. intros w. unfold on_client, st_zoom. by destruct (m (mw_client w)). Qed.

Lemma keeps_call {T} (c : Call T) f : keeps_auth (call c f).
Proof.
  apply keeps_bind; [|intros; apply keeps_ret].
  apply keeps_try; [apply keeps_client|intros; apply keeps_ret].
Qed.
Lemma keeps_call_named {T} (c : result Mgmt.Error (Call T)) f : keeps_auth (call_named c f).
Proof.
  apply keeps_bind; [|intros; apply keeps_ret].
  apply keeps_try; [apply keeps_client|intros; apply keeps_ret].
Qed.
Lemma keeps_streaming host c : keeps_auth (streaming host c).
Proof.
  apply keeps_bind; [|intros; apply keeps_ret]. apply keeps_try; [apply keeps_client|]. intros started w. done.
Qed.
Lemma keeps_make_link target : keeps_auth (make_link target).
Proof. by intros w. Qed.
Lemma keeps_get_mod_settings :
  keeps_auth (answer (ms_bytes <-? on_client (run_call AgentApiClient.mod_settings_get) ;;
    st_ret match settings_try_from (S := MS) ms_bytes with
           | Ok ms => Ok (ModSettings ms)
           | Err e => Err (Mgmt.FactorioDatFileParseError e)
           end)).
Proof.
  apply keeps_bind; [|intros; apply keeps_ret].
  apply keeps_try; [apply keeps_client|intros; apply keeps_ret].
Qed.

Lemma keeps_with_outcome {A E} (o : Outcome.t A E) k : (∀ a, keeps_auth (k a)) → keeps_auth (with_outcome o k).
Proof. intros Hk. destruct o; cbn; [apply Hk|apply keeps_ret..]. Qed.

Create HintDb keeps.
Create HintDb harmless.
Create HintDb routes.
#[local] Hint Resolve keeps_ret keeps_call keeps_call_named keeps_streaming keeps_make_link
  keeps_get_mod_settings keeps_with_outcome : keeps.
#[local] Hint Extern 1 (keeps_auth (match ?x with _ => _ end)) => destruct x : keeps.

(** *** Guarded routes *)

(** Only the administrator's requests go on. *)
Definition guarded p mgr headers (w : MgmtW S) (a : Answer MS) (w' : MgmtW S) : Prop :=
  rtc auth_step (AuthnManager_new p) (mw_auth w') ∧
  ((∃ st, a = Denied st ∧ untouched w w') ∨ from_admin p mgr headers).

Lemma with_admin_guarded p mgr headers k w :
  rtc auth_step (AuthnManager_new p) (mw_auth w) → keeps_auth k →
  wp (with_admin mgr headers k) (guarded p mgr headers w) w.
Proof.
  intros Hrun Hk. unfold with_admin, on_auth. apply wp_bind, wp_zoom.
  eapply wp_wand; [by apply wp_AuthorizedUser|]. cbv beta. intros g m' [Hrun' Hg].
  destruct g as [id|s e|s].
  - destruct (Hg id eq_refl) as [_ Ha]. unfold wp, guarded. rw Hk. auto.
  - apply wp_ret. split; [done|]. left. by exists s.
  - apply wp_ret. split; [done|]. left. by exists s.
Qed.

Lemma with_outcome_guarded {A E} p mgr headers (o : Outcome.t A E) k w :
  rtc auth_step (AuthnManager_new p) (mw_auth w) →
  (∀ a, wp (k a) (guarded p mgr headers w) w) → wp (with_outcome o k) (guarded p mgr headers w) w.
Proof.
  intros Hrun Hk. destruct o as [a|s e|s]; cbn; [apply Hk|..]; apply wp_ret; (split; [done|left; by exists s]).
Qed.

(** *** Public routes *)

Lemma quiet_refl c : quiet c c.
Proof. by intros t. Qed.
Lemma same_records_refl (d : S) : same_records d d.
Proof. by intros n. Qed.

Definition harmless p (r : Request J) (w w' : MgmtW S) : Prop :=
  rtc auth_step (AuthnManager_new p) (mw_auth w') ∧ public_effect r w w'.

#[local] Hint Resolve quiet_refl same_records_refl : harmless.
#[local] Hint Unfold harmless public_effect : harmless.

(** The accounts, or counters, alone have changed. *)
Lemma harmless_counters p r w m n k :
  rtc auth_step (AuthnManager_new p) m → harmless p r w (set_proxied n (set_made k (set_auth m w))).
Proof. intros Hm. split; [exact Hm|]. split_and!; cbn; auto with harmless. Qed.
Lemma harmless_proxied p r w n :
  rtc auth_step (AuthnManager_new p) (mw_auth w) → harmless p r w (set_proxied n w).
Proof. intros Hm. split; [exact Hm|]. split_and!; cbn; auto with harmless. Qed.
Lemma harmless_client p r w c :
  rtc auth_step (AuthnManager_new p) (mw_auth w) →
  (∃ rq, public_request (mw_links w) rq ∧ sent rq (mw_client w) c) → harmless p r w (set_client c w).
Proof. intros Hm Hc. split; [exact Hm|]. split_and!; cbn; auto with harmless. Qed.
Lemma harmless_db p r w d :
  rtc auth_step (AuthnManager_new p) (mw_auth w) → same_records (mw_db w) d → harmless p r w (set_db d w).
Proof. intros Hm Hd. split; [exact Hm|]. split_and!; cbn; auto with harmless. Qed.
Lemma harmless_refl p r w : rtc auth_step (AuthnManager_new p) (mw_auth w) → harmless p r w w.
Proof. intros Hm. split; [exact Hm|]. split_and!; auto with harmless. Qed.

(** *** Reading leaves the records *)

Lemma wp_same {A} cf mode count d (k : ReadRange → result Mgmt.Error A) :
  wp (r <-? (cfh <-? get_or_create_cf_handle cf ;; read_range_internal cfh mode count) ;; st_ret (k r))
    (λ _ d', same_records d d') d.
Proof.
  apply wp_try. eapply wp_wand; [apply wp_range|]. cbv beta.
  intros [rr|e] d' Hr; [apply wp_ret|]; by eapply range_post_same.
Qed.

Lemma logs_get_same category count direction from d :
  wp (logs_get category count direction from) (λ _ d', same_records d d') d.
Proof.
  unfold logs_get. apply wp_try, wp_ret. cbv zeta.
  assert (∀ dir, wp (ret <-? match from with
      | Some from_key => read_range (MkCf category) from_key dir count
      | None => match dir with
                | DirForward => read_range_head (MkCf category) count
                | DirBackward => read_range_tail (MkCf category) count
                end
      end ;; st_ret (Ok (MkLogsPage (continue_from ret) (value <$> records ret))))
    (λ _ d', same_records d d') d) as Hread.
  { intros dir. destruct from as [k|]; [|destruct dir; by apply wp_same].
    pose proof (wp_same (MkCf category) (From k match dir with DirForward => Forward | DirBackward => Reverse end)
      count d (λ ret, Ok (MkLogsPage (continue_from ret) (value <$> records ret)))) as Hs. by destruct dir. }
  repeat case_bool_decide; cbn; [apply Hread..|done].
Qed.

Lemma metrics_get_same name period count direction from d :
  wp (Metrics.get name period count direction from) (λ _ d', same_records d d') d.
Proof.
  unfold Metrics.get. destruct (try_parse_metrics_period period) as [p|]; [|by apply wp_ret].
  destruct (DataPoint.validate_metric_name name) as [[]|e]; [|by apply wp_ret]. cbv zeta.
  destruct (if bool_decide _ then _ else _) as [dir|e]; [|by apply wp_ret].
  destruct (get_lookup_key _ _ _) as [k|]; [|by apply wp_ret].
  apply wp_bind. eapply wp_wand; [apply wp_read_range|]. cbv beta. intros r d' Hr. apply wp_ret.
  by eapply range_post_same.
Qed.

(** *** Each public route *)

Section public.
Context (p : AuthnProvider) (r : Request J) (w : MgmtW S).
Hypothesis (Hrun : rtc auth_step (AuthnManager_new p) (mw_auth w)).

Lemma harmless_call {T} (c : Call T) f :
  public_request (mw_links w) (request c) → wp (call c f) (λ _ w', harmless p r w w') w.
Proof.
  intros Hc. unfold call, answer, on_client. apply wp_bind, wp_try, wp_zoom.
  pose proof (run_call_sent c (mw_client w)) as Hs. unfold wp at 1.
  destruct (run_call c (mw_client w)) as [[a|e] c']; repeat apply wp_ret; apply harmless_client; eauto.
Qed.

Lemma harmless_buildinfo : wp buildinfo (λ _ w', harmless p r w w') w.
Proof.
  unfold buildinfo, on_client. apply wp_bind, wp_zoom.
  pose proof (run_call_sent AgentApiClient.build_version (mw_client w)) as Hs. unfold wp at 1.
  destruct (run_call _ _) as [a c']. apply wp_ret, harmless_client; [done|].
  exists BuildVersion. split; [by left|done].
Qed.

(** What a download asks the agent for. *)
Lemma download_sent links link c :
  (download links link c).2 = c ∨ ∃ rq, public_request links rq ∧ sent rq c (download links link c).2.
Proof.
  unfold download. destruct (LinkDownloadManager.get_link link links) as [[id|]|] eqn:Hl; [| |by left].
  - unfold download_save, AgentApiClient.save_get, named. destruct (is_blank id); [by left|]. right.
    exists (SaveGet id). split; [right; right; exists link; left; by exists id|].
    pose proof (run_long_call_sent (MkLongCall (SaveGet id) 500) c) as Hs. unfold st_try, st_bind. cbn.
    by destruct (run_long_call _ c) as [[]].
  - right. exists ModSettingsGet. split; [right; right; exists link; by right|].
    pose proof (run_call_sent AgentApiClient.mod_settings_get c) as Hs. unfold download_mod_settings_dat, st_try, st_bind.
    by destruct (run_call _ c) as [[]].
Qed.

Lemma harmless_download link : wp (download_route link) (λ _ w', harmless p r w w') w.
Proof.
  unfold download_route, answer, on_client. apply wp_bind, wp_gets, wp_bind, wp_try, wp_zoom. unfold wp at 1.
  pose proof (download_sent (mw_links w) link (mw_client w)) as Hs.
  destruct (download (mw_links w) link (mw_client w)) as [[a|e] c']; repeat apply wp_ret; cbn in Hs;
    (destruct Hs as [->|Hs]; [by destruct w; apply harmless_refl|by apply harmless_client]).
Qed.

Lemma harmless_get_logs category count direction from :
  wp (get_logs category count direction from) (λ _ w', harmless p r w w') w.
Proof.
  unfold get_logs, answer, on_db. apply wp_bind, wp_try, wp_zoom.
  eapply wp_wand; [apply logs_get_same|]. cbv beta. intros [a|e] d' Hd; repeat apply wp_ret; by apply harmless_db.
Qed.

Lemma harmless_get_metrics name period count direction from :
  wp (get_metrics name period count direction from) (λ _ w', harmless p r w w') w.
Proof.
  unfold get_metrics, on_db. apply wp_bind, wp_zoom.
  eapply wp_wand; [apply metrics_get_same|]. cbv beta. intros a d' Hd. apply wp_ret. by apply harmless_db.
Qed.

Lemma harmless_portal {A} url (k : PortalResponse → result Mgmt.Error A) Q :
  (∀ x w', harmless p r w w' → Q x w') →
  wp (resp <-? portal url ;; st_ret (k resp)) Q w.
Proof.
  intros HQ. apply wp_try. unfold portal. apply wp_bind, wp_gets, wp_bind, wp_modify, wp_ret.
  destruct (portal_get _ _); cbn; [apply wp_ret|]; apply HQ; by apply harmless_proxied.
Qed.

Lemma harmless_discord_grant headers code uri :
  wp (discord_grant_route headers code uri) (λ _ w', harmless p r w w') w.
Proof.
  unfold discord_grant_route, with_outcome. destruct (HostHeader_guard headers) as [h|s e|s];
    [|by apply wp_ret, harmless_refl..].
  unfold make_id, answer, on_auth. apply wp_bind, wp_bind, wp_gets, wp_bind, wp_modify, wp_ret, wp_bind, wp_try, wp_zoom.
  cbn [mw_auth set_made]. unfold wp at 1.
  assert (rtc auth_step (AuthnManager_new p) (discord_grant (route_now (mw_made w)) code uri (mw_auth w)).2) as Hg.
  { unfold discord_grant. destruct uri as [uri|]; [|done]. eapply rtc_r; [exact Hrun|]. constructor. }
  destruct (discord_grant _ _ _ _) as [[a|e] m']; repeat apply wp_ret;
    apply (harmless_counters p r w m' (mw_proxied w) (Datatypes.S (mw_made w)) Hg).
Qed.

Lemma harmless_discord_refresh headers : wp (discord_refresh headers) (λ _ w', harmless p r w w') w.
Proof.
  unfold discord_refresh, on_auth. apply wp_bind, wp_zoom.
  eapply wp_wand; [by apply (wp_UserIdentity p)|]. cbv beta. intros g m' Hm.
  unfold with_outcome. destruct g; apply wp_ret;
    apply (harmless_counters p r w m' (mw_proxied w) (mw_made w) Hm).
Qed.
End public.

Lemma harmless_stream_logs p headers category w :
  rtc auth_step (AuthnManager_new p) (mw_auth w) →
  wp (stream_logs headers category) (λ _ w', harmless p (StreamLogs category) w w') w.
Proof.
  intros Hrun. unfold stream_logs, with_outcome. destruct (HostHeader_guard headers) as [h|s e|s];
    [|by apply wp_ret, harmless_refl..].
  unfold make_id, answer, on_logs.
  apply wp_bind, wp_bind, wp_gets, wp_bind, wp_modify, wp_ret, wp_bind, wp_try, wp_zoom.
  cbn [mw_client mw_db set_made]. unfold logs_stream. apply wp_try, wp_zoom. cbn [snd].
  eapply wp_wand; [apply wp_range|]. cbv beta. intros [rr|e] d' Hd%range_post_same; cbv zeta.
  - cbn [fst]. apply wp_bind, wp_gets, wp_bind, wp_modify, wp_ret. cbn [fst snd].
    apply wp_bind, wp_gets, wp_bind, wp_modify, wp_ret, wp_ret.
    split; [exact Hrun|]. split_and!; [done|exact Hd|right; by eexists _, _, _|left].
    intros t. cbn. unfold subscribe, sent_on. destruct (topics _ !! STDOUT_TOPIC_NAME) as [log|] eqn:Hl; [done|].
    cbn. destruct (decide (STDOUT_TOPIC_NAME = t)) as [<-|Hne].
    + by rw lookup_insert_eq Hl.
    + by rw lookup_insert_ne.
  - apply wp_ret. split; [exact Hrun|]. split_and!; [done|exact Hd|by left|left; by intros t].
Qed.

#[local] Hint Unfold
  status create_savefile start_server stop_server get_install upgrade_install get_savefiles
  delete_savefile get_savefile extract_mod_list_from_savefile put_savefile get_adminlist
  put_adminlist get_banlist put_banlist get_whitelist put_whitelist get_rcon_config put_rcon_config
  get_secrets put_secrets get_server_settings put_server_settings get_dlcs set_dlcs get_mods_list
  apply_mods_list get_mod_settings put_mod_settings get_mod_settings_dat put_mod_settings_dat
  send_rcon_command : routes.

(** C9: Whatever is asked over HTTP, the agent is asked to do nothing, no link
    is made and no operation is streamed unless the request is the
    administrator's; the routes that are open to everyone change no record of
    the database, offer no stream but of the logs, and ask the agent only for
    its build, for the use of its machine, or for what a link that was made
    stands for.  The accounts stay what the steps of [Auth] can make of them,
    so this holds for every sequence of requests. *)
Theorem access_control p mgr headers r w :
  rtc auth_step (AuthnManager_new p) (mw_auth w) →
  wp (serve mgr headers r) (λ a w',
    rtc auth_step (AuthnManager_new p) (mw_auth w') ∧
    if is_public r then public_effect r w w'
    else (∃ st, a = Denied st ∧ untouched w w') ∨ from_admin p mgr headers) w.
Proof.
  intros Hrun. destruct r; cbn [is_public serve]; autounfold with routes;
    try (by apply with_admin_guarded; auto with keeps);
    try (apply with_outcome_guarded; [done|]; intros ?; by apply with_admin_guarded; auto with keeps).
  - apply wp_bind, wp_gets, wp_ret. by apply harmless_refl.
  - by apply harmless_discord_grant.
  - by apply harmless_discord_refresh.
  - apply harmless_call; [done|]. by right; left.
  - by apply harmless_buildinfo.
  - by apply harmless_get_logs.
  - by apply harmless_stream_logs.
  - by apply harmless_get_metrics.
  - apply wp_bind, (harmless_portal p (ModPortalBatch namelist page_size page) w Hrun). intros x w' Hw. by apply wp_ret.
  - apply wp_bind, (harmless_portal p (ModPortalShort mod_name) w Hrun). intros x w' Hw. by apply wp_ret.
  - apply wp_bind, (harmless_portal p (ModPortalFull mod_name) w Hrun). intros x w' Hw. by apply wp_ret.
  - by apply harmless_download.
  - apply wp_ret. by apply harmless_refl.
Qed.
End routes.
