(* ===== verification/Startup.v ===== *)
(** * Startup: the configuration read by src/src/mgmt-server/main.rs

    The environment variables of the management server, what is made of them,
    and who is the administrator then; what of the Discord client is switched
    on (the start of discord.rs); the opening of the database (db.rs); the headers
    that are added to every response; and the catchers of catchers.rs. *)

From S2P Require Import Prelude Order Text Regex Io Errors MgmtErrors Db Clients Auth Discord.

(** [std::env::var]: [None] when the variable is not set, or not Unicode. *)
Definition Env := string → option string.

Inductive StartupError :=
| VarError (name : string)
| ParseError (name : string)
| StartupMgmt (e : Mgmt.Error).

(** The url crate, and the addresses of [std::net]. *)
Class AddrParse := { url_parse : string → option string; ip_parse : string → option string }.

Definition var (env : Env) (name : string) : result StartupError string :=
  match env name with Some s => Ok s | None => Err (VarError name) end.

(** [s.parse()?] of a variable that is set. *)
Definition parsed {A} (name : string) (o : option A) : result StartupError A :=
  match o with Some a => Ok a | None => Err (ParseError name) end.

(** [str::parse::<bool>] *)
Definition parse_bool (s : string) : option bool :=
  if bool_decide (s = "true") then Some true
  else if bool_decide (s = "false") then Some false else None.

Definition and_then {E A B} (r : result E A) (k : A → result E B) : result E B :=
  match r with Ok a => k a | Err e => Err e end.

Notation "x <-! r ;; k" := (and_then r (λ x, k)) (at level 100, r at next level, right associativity) : st_scope.
Open Scope st_scope.

(** ** Discord *)

Record DiscordConfig := MkDiscordConfig {
  dc_bot_token : string;
  dc_guild_id : option Z;
  dc_alert_channel_id : option Z;
  dc_chat_link_channel_id : option Z;
  dc_preserve_achievements : bool;
}.

Definition optional_id (env : Env) (name : string) : result StartupError (option Z) :=
  match env name with
  | Some s => id <-! parsed name (parse_uint u64_max s) ;; Ok (Some id)
  | None => Ok None
  end.

Definition discord_config (env : Env) : result StartupError (option DiscordConfig) :=
  if bool_decide (env "DISCORD_INTEGRATION" = Some "true") then
    discord_bot_token <-! var env "DISCORD_BOT_TOKEN" ;;
    guild_id <-! optional_id env "DISCORD_GUILD_ID" ;;
    alert_channel_id <-! optional_id env "DISCORD_ALERT_CHANNEL_ID" ;;
    chat_link_channel_id <-! optional_id env "DISCORD_CHAT_LINK_CHANNEL_ID" ;;
    preserve <-! match env "DISCORD_CHAT_LINK_PRESERVE_ACHIEVEMENTS" with
                 | Some s => parsed "DISCORD_CHAT_LINK_PRESERVE_ACHIEVEMENTS" (parse_bool s)
                 | None => Ok true
                 end ;;
    Ok (Some (MkDiscordConfig discord_bot_token guild_id alert_channel_id chat_link_channel_id preserve))
  else Ok None.

(** Serenity: whether the client can be built, and whether the webhook of a
    channel was found or made. *)
Class Serenity := {
  build_client : string → option Handler → result string ();
  webhook_of : Z → result string ();
}.

(** What is switched on: the handler of messages and commands, whether the
    chat of the game is subscribed to, and the client for alerts. *)
Record DiscordSetup := MkDiscordSetup {
  ds_handler : option Handler;
  ds_chat_link_g2d : bool;
  ds_client : DiscordClient;
}.

(** [DiscordClient::new]; the ids of serenity panic ([None]) when they are 0,
    for the alert channel in the task that sends to it. *)
Definition DiscordClient_new `{Serenity} (c : DiscordConfig) : option (result Mgmt.Error DiscordSetup) :=
  handler ← match dc_chat_link_channel_id c with
            | Some chat_link_channel_id =>
                match dc_guild_id c with
                | Some guild_id =>
                    if (guild_id =? 0)%Z then None
                    else Some (Some (MkHandler (Z.to_N chat_link_channel_id) (dc_preserve_achievements c)))
                | None => Some None
                end
            | None => Some None
            end;
  match build_client (dc_bot_token c) handler with
  | Err e => Some (Err (Mgmt.Discord e))
  | Ok _ =>
      g2d ← match dc_chat_link_channel_id c with
            | Some chat_link_channel_id =>
                if (chat_link_channel_id =? 0)%Z then None else Some (map_err Mgmt.Discord (map_ok (λ _, true) (webhook_of chat_link_channel_id)))
            | None => Some (Ok false)
            end;
      Some (map_ok (λ b, MkDiscordSetup handler b
        (MkDiscord (Z.to_N <$> dc_alert_channel_id c)
           (match dc_alert_channel_id c with Some id => negb (id =? 0)%Z | None => false end))) g2d)
  end.

(** ** Accounts *)

Definition auth_config (env : Env) (discord_integration : bool) : result StartupError (AuthnProvider * AuthzManager) :=
  provider <-! var env "AUTH_PROVIDER" ;;
  auth_provider <-!
    (if bool_decide (provider = "discord") then
       if negb discord_integration
       then Err (StartupMgmt (Mgmt.Misconfiguration
              "Authn provider selected as discord, but discord integration is disabled!"))
       else client_id <-! var env "DISCORD_OAUTH2_CLIENT_ID" ;;
            client_secret <-! var env "DISCORD_OAUTH2_CLIENT_SECRET" ;;
            Ok (ProviderDiscord client_id client_secret)
     else Ok ProviderNone) ;;
  let admin_user := match env "AUTH_DISCORD_ADMIN_USER_ID" with
                    | Some id => MkUserIdentity id
                    | None => anonymous
                    end in
  Ok (auth_provider, MkAuthz admin_user).

(** ** All of it *)

Record Config := MkConfig {
  agent_addr : string;
  discord_client : option DiscordConfig;
  authn : AuthnProvider;
  authz : AuthzManager;
  ws_bind : string * Z;
  reverse_proxy_enabled : bool;
}.

Definition read_config `{AddrParse} (env : Env) : result StartupError Config :=
  addr <-! var env "AGENT_ADDR" ;;
  agent_addr <-! parsed "AGENT_ADDR" (url_parse addr) ;;
  discord_client <-! discord_config env ;;
  auth <-! auth_config env (match discord_client with Some _ => true | None => false end) ;;
  port <-! var env "MGMT_SERVER_WS_PORT" ;;
  ws_port <-! parsed "MGMT_SERVER_WS_PORT" (parse_uint u16_max port) ;;
  ip <-! var env "MGMT_SERVER_WS_ADDRESS" ;;
  ws_addr <-! parsed "MGMT_SERVER_WS_ADDRESS" (ip_parse ip) ;;
  rproxy <-! var env "RPROXY_ENABLED" ;;
  reverse_proxy_enabled <-! parsed "RPROXY_ENABLED" (parse_bool rproxy) ;;
  Ok (MkConfig agent_addr discord_client (fst auth) (snd auth) (ws_addr, ws_port) reverse_proxy_enabled).

(** ** The database *)

Definition DB_NAME : string := "main".
Definition DB_DIR : path := parse_path "db".

(** RocksDB, which reads the disk: the column families of a database, and the
    opening of one with these. *)
Class RocksOpen (S : Type) := {
  rocks_list_cf : fs → path → result string (list string);
  rocks_open_cf : fs → path → list string → result string S;
}.

Section open.
Context {E : IoEnv} {S : Type} {RO : RocksOpen S}.

(** [Db::exists]: there is a directory, and asking does not fail. *)
Definition db_exists (db_path : path) : ST IoW bool :=
  w <- st_get ;;
  m <- fs_metadata db_path ;;
  st_ret (is_ok m && bool_decide (node_at (files w) db_path = Some Dir)).

Definition open_or_new (db_dir : path) : ST IoW (result Mgmt.Error S) :=
  _ <-? st_map_err Mgmt.Io (fs_create_dir_all db_dir) ;;
  let db_path := db_dir ++ [Normal DB_NAME] in
  there <- db_exists db_path ;;
  w <- st_get ;;
  cfs <-? st_ret (if there : bool then map_err Mgmt.DbExternal (rocks_list_cf (files w) db_path) else Ok ["default"]) ;;
  st_ret (map_err Mgmt.DbExternal (rocks_open_cf (files w) db_path cfs)).

(** A database that is there is never opened without the column families it
    has, when no call fails. *)
Lemma open_or_new_all db_dir w :
  no_faults → node_at (files w) (db_dir ++ [Normal DB_NAME]) = Some Dir →
  wp (open_or_new db_dir) (λ r w', ∀ s, r = Ok s →
    ∃ cfs, rocks_list_cf (files w') (db_dir ++ [Normal DB_NAME]) = Ok cfs ∧
      rocks_open_cf (files w') (db_dir ++ [Normal DB_NAME]) cfs = Ok s) w.
Proof.
  intros Hn Hd. unfold open_or_new. apply wp_try, wp_map_err. apply wp_fs_create_dir_all.
  intros r m' Hk _ _ _ _. apply Hk in Hd. destruct r as [[]|k]; [|done]. cbn [map_err]. apply wp_bind.
  unfold db_exists. apply wp_bind, wp_get, wp_bind, wp_fs_metadata. cbn [files].
  intros md _ Hm. specialize (Hm Hn). unfold node_at in Hm. unfold node_at. rw Hd in Hm |- *.
  destruct Hm as [t ->]. apply wp_ret. rw bool_decide_eq_true_2 //. cbn [is_ok andb].
  apply wp_bind, wp_get, wp_try, wp_ret. cbn [files].
  destruct (rocks_list_cf m' _) as [cfs|e] eqn:Hcfs; cbn [map_err]; [|done]. apply wp_ret.
  cbn [files]. intros s Hs. exists cfs. split; [done|].
  destruct (rocks_open_cf m' _ cfs) as [s0|e]; [|done]. by injection Hs as <-.
Qed.
End open.

(** ** The headers of a response *)

(** [Cors::on_response]: what is set; the body of the answer to an [OPTIONS]
    request is replaced by nothing. *)
Definition cors_headers : list (string * string) :=
  [("Access-Control-Allow-Origin", "*");
   ("Access-Control-Allow-Methods", "GET, OPTIONS, POST, PUT");
   ("Access-Control-Allow-Headers", "*");
   ("Access-Control-Allow-Credentials", "false");
   ("Access-Control-Expose-Headers", "Location")].
Definition on_response (http_method : string) (headers : gmap string string) (body : string) :
    gmap string string * string :=
  let headers := foldl (λ m h, <[h.1 := h.2]> m) headers cors_headers in
  if bool_decide (http_method = "OPTIONS")
  then (<["Content-Type" := "text/plain; charset=utf-8"]> headers, "")
  else (headers, body).

(** ** What is not there

    The catchers of catchers.rs.  Rocket takes the one whose base is the
    longest prefix of the address; the page of the web client is opened where
    the process was started. *)
Definition get_dist_path (current_dir : path) : path :=
  current_dir ++ [Normal "web"; Normal "dist"; Normal "web"].

Definition not_found : Z * bytes := (404, bytes_of "404 not found")%Z.

(** [None]: the page cannot be opened, and Rocket answers for itself. *)
Definition fallback_to_index_html `{IoEnv} (current_dir : path) : ST IoW (option (Z * bytes)) :=
  r <- fs_read (get_dist_path current_dir ++ [Normal "index.html"]) ;;
  st_ret ((λ b, (200%Z, b)) <$> ok r).

Definition catch_404 `{IoEnv} (current_dir : path) (address : list string) : ST IoW (option (Z * bytes)) :=
  match address with
  | "api" :: "v0" :: _ => st_ret (Some not_found)
  | _ => fallback_to_index_html current_dir
  end.

(** Under the API what is not there is reported; everywhere else, under
    [/proxy] and [/download] too, it is the web client with the status of a
    success, when no call fails. *)
Lemma catch_404_spec `{IoEnv} current_dir address page w :
  no_faults → stored (files w) (get_dist_path current_dir ++ [Normal "index.html"]) page →
  wp (catch_404 current_dir address) (λ r w', files w' = files w ∧
    ((∃ rest, address = "api" :: "v0" :: rest) ∧ r = Some not_found ∨
     (¬ ∃ rest, address = "api" :: "v0" :: rest) ∧ r = Some (200%Z, page))) w.
Proof.
  intros Hn (f & Hf & Hb). unfold catch_404.
  assert (wp (fallback_to_index_html current_dir) (λ r w', files w' = files w ∧ r = Some (200%Z, page)) w) as Hfall.
  { unfold fallback_to_index_html. apply wp_bind, wp_fs_read. intros r _ Hr. apply wp_ret. rw (Hr Hn).
    unfold pure_read. by rw Hf Hb. }
  repeat case_match; subst; first
    [ apply wp_ret; split; [done|]; left; by eauto
    | eapply wp_wand; [exact Hfall|]; cbn; intros r w' [H1 H2]; split; [done|]; right; split; [|done];
      intros [rest Hrest]; by simplify_eq ].
Qed.

(** ** What follows from a configuration *)

Lemma and_then_Ok {E A B} (r : result E A) (k : A → result E B) b :
  and_then r k = Ok b ↔ ∃ a, r = Ok a ∧ k a = Ok b.
Proof. destruct r as [a|e]; cbn; naive_solver. Qed.

Lemma auth_config_Ok env d p mgr :
  auth_config env d = Ok (p, mgr) →
  admin mgr = match env "AUTH_DISCORD_ADMIN_USER_ID" with Some id => MkUserIdentity id | None => anonymous end ∧
  match p with
  | ProviderDiscord cid cs =>
      env "AUTH_PROVIDER" = Some "discord" ∧ d = true ∧
      env "DISCORD_OAUTH2_CLIENT_ID" = Some cid ∧ env "DISCORD_OAUTH2_CLIENT_SECRET" = Some cs
  | ProviderNone => ∃ s, env "AUTH_PROVIDER" = Some s ∧ s ≠ "discord"
  end.
Proof.
  unfold auth_config, var. destruct (env "AUTH_PROVIDER") as [s|]; cbn [and_then]; [|done].
  case_bool_decide as Hs; cbn [and_then].
  - destruct d; cbn; [|done]. destruct (env "DISCORD_OAUTH2_CLIENT_ID"); cbn; [|done].
    destruct (env "DISCORD_OAUTH2_CLIENT_SECRET"); cbn; [|done]. intros [= <- <-]. cbn. by subst s.
  - intros [= <- <-]. cbn. eauto.
Qed.

(** Who is the administrator: with Discord, those with a token for which it
    vouches; otherwise everyone, unless an administrator is named, and then no
    one.  A provider that is misspelt is none. *)
Theorem who_is_admin `{DiscordApi, Codec DiscordUser, AddrParse} env c headers :
  read_config env = Ok c →
  from_admin (authn c) (authz c) headers ↔
    if bool_decide (env "AUTH_PROVIDER" = Some "discord")
    then ∃ token, headers "Authorization" = Some ("Bearer " +:+ token) ∧ vouched token (admin (authz c))
    else env "AUTH_DISCORD_ADMIN_USER_ID" = None ∨ env "AUTH_DISCORD_ADMIN_USER_ID" = Some (sub anonymous).
Proof.
  unfold read_config. intros Hc.
  repeat match type of Hc with and_then ?r _ = Ok _ => apply and_then_Ok in Hc as (? & ? & Hc) end.
  simplify_eq. match goal with H : auth_config _ _ = Ok ?x |- _ => destruct x as [p mgr]; apply auth_config_Ok in H as [Ha Hp] end.
  cbn [authn authz fst snd] in *. unfold from_admin. destruct p as [|cid cs].
  - destruct Hp as (s & Hs & Hne). rw bool_decide_eq_false_2; [|congruence]. rw Ha.
    destruct (env "AUTH_DISCORD_ADMIN_USER_ID") as [id|]; [|naive_solver]. unfold anonymous. cbn. naive_solver.
  - destruct Hp as (Hs & _). by rw bool_decide_eq_true_2.
Qed.
