(* ===== verification/EndToEnd.v ===== *)
(** * EndToEnd: the management server's client against the agent

    The client of [Clients] and the agent of [Agent] and [System] put
    together: a request that is sent reaches the WebSocket, the responses the
    agent sends are delivered to who waits for them, and the client
    understands every one of them. *)

From S2P Require Import Prelude Tasks Text Regex Schema Io Errors Settings Downloader Mods Saves Versions.
From S2P Require Import Builder Proc Agent Protocol System Handlers MgmtErrors Events Clients Links.

Open Scope st_scope.

Section end_to_end.
Context {E : IoEnv} {N : NetEnv} {R : RegexEngine} {T : TaskEnv} {Po : ModPortal}.
Context {Zi : ZipEnv} {L : LaunchEnv} {U : UuidEnv} {Ar : Archive} {P : ProcEnv} {D : DebugError}.
Context {MS : Type} {SF : SettingsFile MS} {AE : AgentEnv} {AL : AgentLaws} {AR : ArchiveLaws}.
Context {CL : Codec (list string)} {CLS : Codec LaunchSettings.t} {CSe : Codec Secrets.t}.
Context {CSS : Codec ServerSettingsConfig} {CML : Codec ModList}.
Context {CRq : Codec AgentRequestWithId} {CRs : Codec AgentResponseWithId}.
Context {CSt : Codec AgentStreamingMessage} {CE : ClientEnv}.
Context {CRqL : CodecLaws AgentRequestWithId} {CRqT : CodecTotal AgentRequestWithId}.
Context {CRsL : CodecLaws AgentResponseWithId} {CRsT : CodecTotal AgentResponseWithId}.
Implicit Types w : AgentW.

(** ** From the client to the agent *)

(** What making a request does: the request is one more event for the task
    that writes to the WebSocket, the queue for the responses is empty, and
    what waits for others stays as it is. *)
Lemma wp_request rq (cw : ClientW) :
  wp (send_request_and_subscribe rq)
     (λ r cw', if ws_connected cw then
        let id := uuid_v4 (ncalls cw) in
        ncalls cw' = S (ncalls cw) ∧
        (∃ sub, r = Ok (id, sub) ∧ awaits id sub ∧ in_range (event_broker cw') sub ∧
           pending (event_broker cw') sub = []) ∧
        (∃ e, dec (content e) = Ok (MkRequest id rq) ∧ ∀ out,
           in_range (event_broker cw) out → topic_name out = OUTGOING_TOPIC_NAME →
           matches out ws_addr = true →
           pending (event_broker cw') out = pending (event_broker cw) out ++ [e]) ∧
        (∀ s, topic_name s = OPERATION_TOPIC_NAME → in_range (event_broker cw) s →
           in_range (event_broker cw') s ∧ pending (event_broker cw') s = pending (event_broker cw) s)
      else r = Err Mgmt.AgentDisconnected ∧ cw' = cw) cw.
Proof.
  unfold send_request_and_subscribe. apply wp_bind, wp_get.
  destruct (ws_connected cw) eqn:Hc; cbn [negb]; [|by apply wp_ret].
  set (id := uuid_v4 (ncalls cw)).
  destruct (codec_total (MkRequest id rq)) as [text Htext]. rw Htext.
  apply wp_bind, wp_put, wp_ret. cbn [event_broker ncalls].
  set (sub := subscribe _ _ _). set (ev := MkEvent _ _ _).
  assert (∀ s, in_range (event_broker cw) s →
    in_range (publish ev sub.2) s ∧
    pending (publish ev sub.2) s = pending (event_broker cw) s ++ if selects s ev then [ev] else []) as Hother.
  { intros s Hr. destruct (pending_subscribe OPERATION_TOPIC_NAME (λ v, bool_decide (v = id)) (event_broker cw) s)
      as (_ & _ & Hs3 & Hs4). fold sub in Hs3, Hs4. rw -Hs3. by apply pending_publish, Hs4. }
  split_and!; [done|exists sub.1; split; [done|]|exists ev; split|].
  - destruct (pending_subscribe OPERATION_TOPIC_NAME (λ v, bool_decide (v = id)) (event_broker cw) sub.1)
      as (Hs1 & Hs2 & _). fold sub in Hs1, Hs2.
    destruct (pending_publish ev sub.2 sub.1 Hs2) as [Hr' Hp'].
    assert (topic_name sub.1 = OPERATION_TOPIC_NAME ∧ matches sub.1 = λ v, bool_decide (v = id)) as [Ht1 Hm1].
    { unfold sub, subscribe. by destruct (topics _ !! _). }
    split_and!; [split; [done|]|exact Hr'|].
    + intros v. rw Hm1. apply bool_decide_eq_true.
    + rw Hp' Hs1. unfold selects. by rw Ht1.
  - exact (codec_roundtrip _ _ Htext).
  - intros out Hr Ht Hm. destruct (Hother out Hr) as [_ ->]. unfold selects. rw Ht. cbn [tags ev].
    by rw lookup_singleton_eq Hm.
  - intros s Ht Hr. destruct (Hother s Hr) as [Hr' ->]. split; [exact Hr'|]. unfold selects. rw Ht. cbn [tags ev].
    rw lookup_singleton_ne; [by rw app_nil_r|done].
Qed.

(** A request of a connected client is put, once, in the queue of the task
    that writes to the WebSocket, as a text the agent parses as that request
    under the new id; what the client gets is an empty queue that takes the
    responses of that id only.  A client that is not connected sends nothing. *)
Theorem request_sent rq (cw : ClientW) (out : Subscriber) :
  in_range (event_broker cw) out → topic_name out = OUTGOING_TOPIC_NAME →
  matches out ws_addr = true →
  wp (send_request_and_subscribe rq)
     (λ r cw', if ws_connected cw then
        ∃ id sub e, r = Ok (id, sub) ∧ id = uuid_v4 (ncalls cw) ∧
          pending (event_broker cw') out = pending (event_broker cw) out ++ [e] ∧
          handle_message (MS := MS) (MText (content e)) = handle_request id rq ∧
          awaits id sub ∧ in_range (event_broker cw') sub ∧ pending (event_broker cw') sub = []
      else r = Err Mgmt.AgentDisconnected ∧ cw' = cw) cw.
Proof.
  intros Hr Ht Hm. eapply wp_wand; [apply wp_request|]. cbv beta zeta. intros r cw'.
  destruct (ws_connected cw); [|done].
  intros (_ & (sub & -> & Ha & Hs & Hn) & (e & He & Ho) & _). eexists _, sub, e.
  split_and!; [done|done|by apply Ho| |done|done|done]. cbn. by rw He.
Qed.

(** ** From the agent to the client *)

(** A broadcast message is not read as a response: it has no operation id. *)
Context (stream_no_response :
  ∀ (m : AgentStreamingMessage) text (r : AgentResponseWithId), enc m = Ok text → dec text ≠ Ok r).

(** Events that all decode, one by one. *)
Lemma decoded_all l :
  length (decoded l) = length l → Forall2 (λ e r, dec (content e) = Ok r) l (decoded l).
Proof.
  unfold decoded. induction l as [|e l IH]; cbn; [by constructor|].
  destruct (dec (content e)) as [r|x] eqn:He; cbn; intros Hl.
  - constructor; [done|]. apply IH. lia.
  - pose proof (length_omap_le (λ e, ok (dec (A := AgentResponseWithId) (content e))) l). lia.
Qed.

(** What a client that runs a long operation makes of its responses. *)
Lemma long_stream id late e rest ack prog fin :
  Forall2 (λ e r, dec (content e) = Ok r) (e :: rest) (ack :: prog ++ [fin]) →
  rs_status ack = Ack → Forall (λ r, rs_status r = Ongoing) prog →
  (rs_status fin = Completed ∨ rs_status fin = Failed) →
  ack_or_timeout (Got e) late rest id = Ok (id, (rest, true)).
Proof.
  intros [He Hall]%Forall2_cons_1 Ha Hp Hf. unfold ack_or_timeout. rw He Ha. do 2 f_equal.
  apply Forall2_app_inv_r in Hall as (ps & l2 & Hps & Hl2 & ->).
  apply Forall2_cons_inv_r in Hl2 as (ef & l3 & Hef & Hl3 & ->). apply Forall2_nil_inv_r in Hl3 as ->.
  by apply (fused_stream late prog fin _ ps ef).
Qed.

Lemma long_operation id late e rest r rs :
  decoded (e :: rest) = r :: rs → length (decoded (e :: rest)) = length (e :: rest) →
  conversation Fresh id (r :: rs) = Some Done →
  ack_or_timeout (Got e) late rest id =
    match rs_status r with
    | Ack => Ok (id, (rest, true))
    | _ => Err (default_message_handler (rs_content r))
    end.
Proof.
  intros Hd Hl. apply decoded_all in Hl. rw Hd in Hl. cbn [conversation].
  destruct (rs_status r) eqn:Hst.
  2-4: intros _; apply Forall2_cons_1 in Hl as [He _]; unfold ack_or_timeout; by rw He Hst.
  cbn. case_decide; [|done]. cbn. intros Hc.
  apply conversation_in_progress in Hc as (prog & fin & -> & Hp & Hf & _). by eapply long_stream.
Qed.

(** C5: The agent's answer reaches who asked: when what a connection of the
    agent was sent, in any reachable state, arrives at the management server,
    whoever waits for the id of a request that was handled there receives its
    conversation, complete and in order and with nothing of any other
    operation or of the game's output in it; waiting for the acknowledgement
    then gives a stream of all that follows, which ends with the final status,
    or the error that the agent has answered with. *)
Theorem operation_delivered i w s c conn id sub b n late :
  startup i = Ok w → rtc (sys_step (MS := MS)) (initial w) s → conns s !! c = Some conn →
  distinct conn → id ∈ omap request_id (c_done conn) →
  awaits id sub → in_range b sub → pending b sub = [] →
  let b' := (publish_incoming (Ok ∘ WText <$> c_tx conn) b n).1 in
  ∃ e rest r, pending b' sub = e :: rest ∧ dec (content e) = Ok r ∧
    conversation Fresh id (decoded (e :: rest)) = Some Done ∧
    ack_or_timeout (Got e) late rest id =
      match rs_status r with
      | Ack => Ok (id, (rest, true))
      | _ => Err (default_message_handler (rs_content r))
      end.
Proof.
  intros Hw Hrun Hc Hnd Hid Ha Hr Hp. destruct (reachable_inv stream_no_response _ _ _ Hw Hrun) as (_ & _ & _ & Hall).
  destruct (Hall _ _ Hc) as (_ & _ & Honce). destruct (Honce Hnd id) as [Hconv _]. specialize (Hconv Hid).
  destruct (delivered id sub (c_tx conn) b n Ha Hr) as (_ & q & Hq & Hl & Hd). cbv zeta.
  rw Hq Hp app_nil_l. unfold under, responses in Hconv. rw -Hd in Hconv.
  destruct q as [|e rest]; [done|]. cbn in Hl. unfold decoded in *. cbn in Hl, Hconv.
  destruct (dec (content e)) as [r|x] eqn:He; cbn in Hl, Hconv.
  2: { pose proof (length_omap_le (λ e, ok (dec (A := AgentResponseWithId) (content e))) rest). lia. }
  exists e, rest, r. split_and!; [done|done|by cbn; rw He|].
  apply (long_operation id late e rest r (decoded rest)).
  - unfold decoded. cbn. by rw He.
  - unfold decoded. cbn. by rw He.
  - exact Hconv.
Qed.

(** ** A save on its way to the browser *)

Lemma parts_concat l rs sbs :
  Forall2 (λ e r, dec (content e) = Ok r) l rs → rs_content <$> rs = OSaveFile <$> sbs →
  concat (omap part_of_event l) = concat (sb_bytes <$> sbs).
Proof.
  intros Hl. revert sbs. induction Hl as [|e r l rs He Hl IH]; intros [|sb sbs] Hc; try done.
  cbn in Hc. injection Hc as Hr Hc. cbn. unfold part_of_event at 1. rw He Hr.
  unfold is_sentinel. destruct (sb_bytes sb) as [|x bs] eqn:Hb; cbn; rw (IH _ Hc) ?Hb; done.
Qed.

(** C15: A save that is asked for through a link reaches the browser: when the
    agent's answer to the request arrives at the management server, the stream
    that is handed to the browser ends and is, put together, the bytes of the
    stored save, when no call fails. *)
Theorem save_reaches_browser name b id w br sub n late :
  no_faults → simple_name name → stored (disk w) (get_savefile_path name) b →
  node_at (disk w) SAVEFILE_DIR = Some Dir →
  Forall (λ r, rs_operation_id r ≠ id) (responses (ws_tx w)) →
  awaits id sub → in_range br sub → pending br sub = [] →
  wp (alone (save_get name id)) (λ _ w',
    ∃ e rest, pending (publish_incoming (Ok ∘ WText <$> ws_tx w') br n).1 sub = e :: rest ∧
      ack_or_timeout (Got e) late rest id = Ok (id, (rest, true)) ∧
      concat (omap part_of_event rest) = b) w.
Proof.
  intros Hn Hsi Hst Hd Hold Ha Hr Hp. eapply wp_wand; [by apply save_get_sent|]. cbv beta zeta.
  intros _ w' (_ & ack & rs & fin & Hrs & Hack & Hon & Hf & Hids & Hc & Hfc).
  destruct (delivered id sub (ws_tx w') br n Ha Hr) as (_ & q & Hq & Hl & Hdq).
  rw Hq Hp app_nil_l. fold (responses (ws_tx w')) in Hdq. rw Hrs filter_app in Hdq.
  assert (filter (λ r, rs_operation_id r = id) (responses (ws_tx w)) = []) as Hnone.
  { destruct (filter _ _) as [|r l] eqn:Hfl; [done|]. exfalso.
    assert (r ∈ filter (λ r, rs_operation_id r = id) (responses (ws_tx w))) as [Hid Hin]%list_elem_of_filter
      by (rw Hfl; by left).
    by rw Forall_forall in Hold; apply Hold in Hin. }
  rw Hnone app_nil_l in Hdq. rw (filter_all _ _ Hids) in Hdq.
  apply decoded_all in Hl. rw Hdq in Hl. apply Forall2_cons_inv_r in Hl as (e & rest & He & Hrest & ->).
  exists e, rest. split_and!; [done| |].
  - eapply (long_stream id late e rest ack rs fin); [by constructor|done..|by left].
  - rw (parts_concat rest (rs ++ [fin]) ((number_chunks 0 (chunks (Z.to_nat MAX_WS_PAYLOAD_BYTES) b)).1
      ++ [sentinel (number_chunks 0 (chunks (Z.to_nat MAX_WS_PAYLOAD_BYTES) b)).2])) //.
    + rw fmap_app number_chunks_bytes concat_app. cbn. rw app_nil_r. unfold chunks.
      by rw (chunks_go_concat _ _ _ payload_positive).
    + by rw !fmap_app Hc /= Hfc.
Qed.
End end_to_end.

(** ** The client understands the agent *)

Create HintDb silent discriminated.

Section answers.
Context {E : IoEnv} {N : NetEnv} {R : RegexEngine} {T : TaskEnv} {Po : ModPortal}.
Context {Zi : ZipEnv} {L : LaunchEnv} {U : UuidEnv} {Ar : Archive} {P : ProcEnv} {D : DebugError}.
Context {MS : Type} {SF : SettingsFile MS} {AE : AgentEnv}.
Context {CL : Codec (list string)} {CLS : Codec LaunchSettings.t} {CSe : Codec Secrets.t}.
Context {CSS : Codec ServerSettingsConfig} {CML : Codec ModList}.
Context {CRs : Codec AgentResponseWithId}.
Context {CRsL : CodecLaws AgentResponseWithId} {CRsT : CodecTotal AgentResponseWithId}.
Implicit Types w : AgentW.

(** A routine that sends nothing. *)
Definition silent {A} (t : Task AgentW A) : Prop := ∀ w, ws_tx (alone t w).2 = ws_tx w.

Lemma silent_do_f {A} (m : ST IoW A) : silent (do_f m).
Proof. by intros w. Qed.
Lemma silent_do_p {A} (m : ST ProcW A) : silent (do_p m).
Proof. by intros w. Qed.
Lemma silent_first_version : silent first_version.
Proof. by intros w. Qed.
Lemma silent_proc_status : silent proc_status.
Proof.
  intros w. unfold proc_status. rw alone_bind. destruct (negb _); [apply silent_do_p|].
  rw silent_do_p. apply silent_do_p.
Qed.
Lemma silent_read_mods : silent (read_mods (MS := MS)).
Proof. by intros w. Qed.

(** The operation was answered once: with a final status, and a content that
    [G] allows under it. *)
Definition answered_once_with (G : OperationStatus → AgentOutMessage → Prop) (id : OperationId) w w' : Prop :=
  ∃ text s t m, ws_tx w' = ws_tx w ++ [text] ∧ dec text = Ok (MkResponse id s t m) ∧
    (s = Completed ∨ s = Failed) ∧ G s m.

Lemma wp_silent_bind {A B} w0 (m : Task AgentW A) (k : A → Task AgentW B) Q w :
  ws_tx w = ws_tx w0 → silent m → (∀ a w', ws_tx w' = ws_tx w0 → wp (alone (k a)) Q w') →
  wp (alone (t_bind m k)) Q w.
Proof. intros H0 Hm HQ. apply wp_alone_bind, HQ. by rw Hm. Qed.

Lemma wp_answer G id s m w0 w :
  ws_tx w = ws_tx w0 → (s = Completed ∨ s = Failed) → G s m →
  wp (alone (respond s m id)) (λ _, answered_once_with G id w0) w.
Proof.
  intros H0 Hs HG. unfold respond, do_f, lift_f, lift_p, lift_io. st_go. unfold wp at 1, now. cbn.
  destruct (codec_total (MkResponse id s (io_now (tick (pw_io (aw_proc w)))) m)) as [text Ht].
  rw Ht. unfold send_message. st_go. exists text, s, (io_now (tick (pw_io (aw_proc w)))), m. cbn. rw H0.
  split_and!; [done| |done|done]. by apply codec_roundtrip.
Qed.
End answers.

#[export] Hint Resolve silent_do_f silent_do_p silent_first_version silent_proc_status
  silent_read_mods : silent.

(** Runs a handler up to its one reply. *)
Ltac answer_step :=
  lazymatch goal with
  | H : ws_tx ?w = ws_tx ?w0 |- wp (alone (t_bind _ _)) _ ?w =>
      eapply (wp_silent_bind w0); [exact H|by auto with silent|clear H; intros ? ? H]
  | |- wp (alone (match ?x with _ => _ end)) _ _ => destruct x eqn:?
  | |- wp (alone (with_guard _ _ _)) _ _ => apply wp_alone_with_guard
  | |- wp (alone (under_guard _ _)) _ _ => apply wp_alone_under_guard
  | H : ws_tx ?w = ws_tx ?w0 |- wp (alone (reply_failed _ _)) _ ?w =>
      eapply wp_answer; [exact H|by right|]
  | H : ws_tx ?w = ws_tx ?w0 |- wp (alone (reply_success _ _)) _ ?w =>
      eapply wp_answer; [exact H|by left|]
  end.
Ltac one_answer := cbv zeta; repeat answer_step; try by cbn.

Section understood.
Context {E : IoEnv} {N : NetEnv} {R : RegexEngine} {T : TaskEnv} {Po : ModPortal}.
Context {Zi : ZipEnv} {L : LaunchEnv} {U : UuidEnv} {Ar : Archive} {P : ProcEnv} {D : DebugError}.
Context {MS : Type} {SF : SettingsFile MS} {AE : AgentEnv}.
Context {CL : Codec (list string)} {CLS : Codec LaunchSettings.t} {CSe : Codec Secrets.t}.
Context {CSS : Codec ServerSettingsConfig} {CML : Codec ModList}.
Context {CRs : Codec AgentResponseWithId}.
Context {CRsL : CodecLaws AgentResponseWithId} {CRsT : CodecTotal AgentResponseWithId}.
Implicit Types w : AgentW.

(** The client reports success exactly of what is completed, save that it has
    errors for settings that are not there; and never that it does not
    understand. *)
Definition makes_sense {A} (c : Call A) (s : OperationStatus) (m : AgentOutMessage) : Prop :=
  match response_handler c m with
  | Ok _ => s = Completed
  | Err Mgmt.ModSettingsNotInitialised | Err Mgmt.SecretsNotInitialised => s = Completed
  | Err e => s = Failed ∧ e ≠ Mgmt.AgentCommunicationError
  end.

Definition understood {A} (c : Call A) : Prop :=
  ∀ id w, wp (alone (handle_request (MS := MS) id (request c)))
             (λ _, answered_once_with (makes_sense c) id w) w.

Lemma wp_credentials_answer G id ss w0 (Q : option ServerSettings.t → AgentW → Prop) w :
  ws_tx w = ws_tx w0 → (∀ e, G Failed (OError e)) →
  (∀ ss' w', ws_tx w' = ws_tx w0 → Q (Some ss') w') →
  (∀ w', answered_once_with G id w0 w' → Q None w') →
  wp (alone (with_credentials ss id)) Q w.
Proof.
  intros H0 HG Hsome Hnone. unfold with_credentials.
  assert (∀ e w1, ws_tx w1 = ws_tx w0 → wp (alone (reply_failed (OError e) id ;; t_ret None)) Q w1) as Hfail.
  { intros e w1 H1. apply wp_alone_bind. eapply wp_wand; [by apply (wp_answer G id Failed _ w0); [|right|]|].
    cbn. intros _ w2 H2. by apply wp_alone_ret, Hnone. }
  one_answer; first [by apply Hfail|by apply wp_alone_ret, Hsome].
Qed.

(** The handler of a request to start a server. *)
Lemma start_understood version sf id prev w0 w :
  ws_tx w = ws_tx w0 →
  wp (alone (internal_server_start_with_version (MS := MS) version sf id prev))
    (λ _, answered_once_with (makes_sense (AgentApiClient.server_start sf)) id w0) w.
Proof.
  intros H0. unfold internal_server_start_with_version. destruct sf as [|name].
  { apply wp_alone_bind, wp_alone_ret. one_answer. }
  one_answer. apply wp_alone_bind.
  eapply (wp_credentials_answer (makes_sense (AgentApiClient.server_start (Specific name))) _ _ w0);
    [done|done| |].
  - intros ss' w1 H1. one_answer.
  - intros w1 H1. by apply wp_alone_ret.
Qed.

Ltac understand c f := let w := fresh "w" in intros ? w; assert (ws_tx w = ws_tx w) as ? by done;
  unfold c; cbn [handle_request request]; unfold f; one_answer.

Ltac understand_named f := let w := fresh "w" in intros ? w; assert (ws_tx w = ws_tx w) as ? by done;
  cbn [handle_request request]; unfold f; one_answer.

(** C16: Each of the client's operations that waits for one response is answered
    by the agent with exactly one, in every state and whatever fails: never
    with one the client does not understand, and the client reports success
    exactly when the agent has completed the operation, save that it has errors
    of its own for settings that are not there. *)
Theorem client_understands_agent :
  understood AgentApiClient.build_version ∧ understood AgentApiClient.system_resources ∧
  understood AgentApiClient.version_get ∧ (∀ sf, understood (AgentApiClient.server_start sf)) ∧
  understood AgentApiClient.server_stop ∧ understood AgentApiClient.server_status ∧
  (∀ n c, AgentApiClient.save_delete n = Ok c → understood c) ∧
  (∀ n b c, AgentApiClient.save_put n b = Ok c → understood c) ∧
  understood AgentApiClient.save_list ∧ understood AgentApiClient.mod_dlcs_get ∧
  (∀ d, understood (AgentApiClient.mod_dlcs_set d)) ∧ understood AgentApiClient.mod_list_get ∧
  (∀ n c, AgentApiClient.mod_list_extract_from_save n = Ok c → understood c) ∧
  understood AgentApiClient.mod_settings_get ∧ (∀ b, understood (AgentApiClient.mod_settings_set b)) ∧
  understood AgentApiClient.config_adminlist_get ∧
  (∀ l, understood (AgentApiClient.config_adminlist_set l)) ∧
  understood AgentApiClient.config_banlist_get ∧
  (∀ l, understood (AgentApiClient.config_banlist_set l)) ∧
  understood AgentApiClient.config_rcon_get ∧ (∀ c, understood (AgentApiClient.config_rcon_set c)) ∧
  understood AgentApiClient.config_secrets_get ∧
  (∀ s, understood (AgentApiClient.config_secrets_set s)) ∧
  understood AgentApiClient.config_server_settings_get ∧
  (∀ c, understood (AgentApiClient.config_server_settings_set c)) ∧
  understood AgentApiClient.config_whitelist_get ∧
  (∀ e l, understood (AgentApiClient.config_whitelist_set e l)) ∧
  (∀ cmd, understood (AgentApiClient.rcon_command cmd)).
Proof.
  split_and!.
  - understand @AgentApiClient.build_version @build_version.
  - understand @AgentApiClient.system_resources @system_resources.
  - understand @AgentApiClient.version_get @version_get.
  - intros sf. understand @AgentApiClient.server_start @server_start. by apply start_understood.
  - understand @AgentApiClient.server_stop @server_stop.
  - understand @AgentApiClient.server_status @server_status.
  - unfold AgentApiClient.save_delete, named. intros n c Hc. destruct (is_blank n); [done|]. simplify_eq.
    understand_named @save_delete.
  - unfold AgentApiClient.save_put, named. intros n b c Hc. destruct (is_blank n); [done|]. simplify_eq.
    understand_named @save_set.
  - understand @AgentApiClient.save_list @save_list.
  - understand @AgentApiClient.mod_dlcs_get @mod_dlcs_get.
  - intros d. understand @AgentApiClient.mod_dlcs_set @mod_dlcs_set.
  - understand @AgentApiClient.mod_list_get @mod_list_get.
  - unfold AgentApiClient.mod_list_extract_from_save, named. intros n c Hc.
    destruct (is_blank n); [done|]. simplify_eq. understand_named @mod_list_extract_from_save.
  - understand @AgentApiClient.mod_settings_get @mod_settings_get.
  - intros b. understand @AgentApiClient.mod_settings_set @mod_settings_set.
  - understand @AgentApiClient.config_adminlist_get @config_admin_list_get.
  - intros l. understand @AgentApiClient.config_adminlist_set @config_admin_list_set.
  - understand @AgentApiClient.config_banlist_get @config_ban_list_get.
  - intros l. understand @AgentApiClient.config_banlist_set @config_ban_list_set.
  - understand @AgentApiClient.config_rcon_get @config_rcon_get.
  - intros c. understand @AgentApiClient.config_rcon_set @config_rcon_set.
  - understand @AgentApiClient.config_secrets_get @config_secrets_get.
  - intros s. understand @AgentApiClient.config_secrets_set @config_secrets_set.
  - understand @AgentApiClient.config_server_settings_get @config_server_settings_get.
  - intros c. understand @AgentApiClient.config_server_settings_set @config_server_settings_set.
  - understand @AgentApiClient.config_whitelist_get @config_white_list_get.
  - intros e l. understand @AgentApiClient.config_whitelist_set @config_white_list_set.
  - intros cmd. understand @AgentApiClient.rcon_command @rcon_command.
Qed.
End understood.
