(* ===== verification/World.v ===== *)
(** * World: the management server and the agent, connected

    The agent ([System]) and the client of the management server ([Reconnect])
    as one transition system, with the WebSocket connections between them: what
    one side wrote reaches the other in order, text by text, at any later time
    or never.  Every step is a step of one side; a text that arrives is one of
    both. *)

From S2P Require Import Prelude Tasks Text Regex Schema Io Errors Settings Downloader Mods Saves Versions.
From S2P Require Import Builder Proc Agent Protocol System MgmtErrors Events Clients Reconnect EndToEnd.

Open Scope st_scope.

(** The [i]th connection of the client: which connection of the agent it is,
    how many of the requests written to it have reached the agent, and how many
    of the texts the agent sent have reached the client. *)
Record Link := MkLink {
  l_agent : nat;
  l_delivered : nat;
  l_arrived : nat;
}.

Record World := MkWorld {
  agent_side : System;
  client_side : ClientSys;
  links : list Link;
}.

Definition broker (wd : World) : EventBroker := event_broker (api_client (client_side wd)).

Section world.
Context {E : IoEnv} {N : NetEnv} {R : RegexEngine} {T : TaskEnv} {Po : ModPortal}.
Context {Zi : ZipEnv} {L : LaunchEnv} {U : UuidEnv} {Ar : Archive} {P : ProcEnv} {D : DebugError}.
Context {MS : Type} {SF : SettingsFile MS} {AE : AgentEnv} {AL : AgentLaws} {AR : ArchiveLaws}.
Context {CL : Codec (list string)} {CLS : Codec LaunchSettings.t} {CSe : Codec Secrets.t}.
Context {CSS : Codec ServerSettingsConfig} {CML : Codec ModList}.
Context {CRq : Codec AgentRequestWithId} {CRs : Codec AgentResponseWithId}.
Context {CSt : Codec AgentStreamingMessage} {CE : ClientEnv} {BE : BroadcastEnv}.

(** What the client does by itself: its loop gives a connection up, pings,
    writes requests, takes in what is not a text; and requests are made. *)
Inductive own_step : ClientSys → ClientSys → Prop :=
| own_abandon s i c :
    reconnect_loop s = Watching i → agent_conns s !! i = Some c → alive c = false → own_step s (abandon s)
| own_ping s i c : agent_conns s !! i = Some c → keep_alive_task c = true → own_step s (set_conn i (ping c) s)
| own_forward s i c ok :
    agent_conns s !! i = Some c → forward_outgoing_task c = true →
    own_step s (set_conn i (forward_outgoing ok (event_broker (api_client s)) c) s)
| own_other s i c item :
    agent_conns s !! i = Some c → publish_incoming_task c = true → (∀ t, item ≠ Ok (WText t)) →
    let r := receive item (event_broker (api_client s)) c in
    own_step s (set_broker r.1 (set_conn i r.2 s))
| own_request s rq :
    own_step s (MkClientSys (send_request_and_subscribe rq (api_client s)).2 (agent_conns s) (reconnect_loop s)).

(** A text reaches the agent on the connection [c]. *)
Definition take_in (c : nat) (conn : Conn) (text : string) (s : System) : System :=
  MkSystem (shared s) (<[c := MkConn (c_tx conn) (c_received conn ++ [MText text]) (c_done conn) true]> (conns s))
    (tasks s ++ (spawn_task (MS := MS) c <$> [MText text])).
Definition accept (c : nat) (s : System) : System :=
  MkSystem (shared s) (<[c := MkConn [] [] [] true]> (conns s)) (tasks s).

Inductive world_step : World → World → Prop :=
| w_connect c wd :
    reconnect_loop (client_side wd) = Connecting → conns (agent_side wd) !! c = None →
    world_step wd (MkWorld (accept c (agent_side wd)) (connect (client_side wd)) (links wd ++ [MkLink c 0 0]))
(** the agent: nothing arrives on the client's connections *)
| w_agent s' wd :
    sys_step (MS := MS) (agent_side wd) s' →
    (∀ l, l ∈ links wd →
       c_received <$> conns s' !! l_agent l = c_received <$> conns (agent_side wd) !! l_agent l) →
    world_step wd (MkWorld s' (client_side wd) (links wd))
| w_client s' wd : own_step (client_side wd) s' → world_step wd (MkWorld (agent_side wd) s' (links wd))
(** the next request reaches the agent *)
| w_deliver i l k text conn wd :
    links wd !! i = Some l → agent_conns (client_side wd) !! i = Some k → written k !! l_delivered l = Some text →
    conns (agent_side wd) !! l_agent l = Some conn → c_open conn = true →
    world_step wd (MkWorld (take_in (l_agent l) conn text (agent_side wd)) (client_side wd)
      (<[i := MkLink (l_agent l) (S (l_delivered l)) (l_arrived l)]> (links wd)))
(** the next text of the agent reaches the client *)
| w_arrive i l k text conn wd :
    links wd !! i = Some l → agent_conns (client_side wd) !! i = Some k →
    conns (agent_side wd) !! l_agent l = Some conn → c_tx conn !! l_arrived l = Some text →
    publish_incoming_task k = true →
    let r := receive (Ok (WText text)) (broker wd) k in
    world_step wd (MkWorld (agent_side wd) (set_broker r.1 (set_conn i r.2 (client_side wd)))
      (<[i := MkLink (l_agent l) (l_delivered l) (S (l_arrived l))]> (links wd))).

(** The agent has started, and the client is about to connect. *)
Definition world_initial (w : AgentW) (b : EventBroker) : World :=
  MkWorld (initial w) (AgentApiClient_new b) [].

(** The tasks of the agent run. *)
Lemma handlers_received s s' c :
  handler_step s s' → c_received <$> conns s' !! c = c_received <$> conns s !! c.
Proof.
  intros [pre τ post conn h' t' w' s0 Hl Hc Hs|pre τ post conn s0 Hl Hc Hr]; cbn [conns];
    destruct (decide (c = t_conn τ)) as [->|Hne]; rw ?lookup_insert_eq ?Hc ?lookup_insert_ne //.
Qed.

Lemma world_handlers s' wd :
  rtc handler_step (agent_side wd) s' → rtc world_step wd (MkWorld s' (client_side wd) (links wd)).
Proof.
  intros Hrun. remember (agent_side wd) as s eqn:Hs. revert wd Hs.
  induction Hrun as [s|s s1 s2 Hstep _ IH]; intros wd ->; [by destruct wd|].
  eapply rtc_l; [|exact (IH (MkWorld s1 (client_side wd) (links wd)) eq_refl)].
  apply w_agent; [by apply sys_handle|]. intros l _. by apply handlers_received.
Qed.

(** *** What holds of each side holds of the two together *)

Lemma own_conn_step s s' : own_step s s' → conn_step s s'.
Proof.
  intros [s0 i c Hw Hi Ha|s0 i c Hi Hk|s0 i c ok Hi Hf|s0 i c item Hi Hp _ r|s0 rq];
    [by eapply step_abandon|by apply step_ping|by apply step_forward|by apply step_receive|apply step_request].
Qed.

Lemma world_agent wd wd' : world_step wd wd' → rtc (sys_step (MS := MS)) (agent_side wd) (agent_side wd').
Proof.
  intros [c wd0 Hl Hc|s' wd0 Hs _|s' wd0 _|i l k text conn wd0 Hl Hk Ht Hc Ho|i l k text conn wd0 Hl Hk Hc Ht Hp r];
    cbn [agent_side]; try done; apply rtc_once.
  - by apply sys_accept.
  - exact Hs.
  - by apply (sys_receive (l_agent l) conn (Ok (MText text)) [MText text]).
Qed.

Lemma world_client wd wd' : world_step wd wd' → rtc conn_step (client_side wd) (client_side wd').
Proof.
  intros [c wd0 Hl Hc|s' wd0 Hs _|s' wd0 Hs|i l k text conn wd0 Hl Hk Ht Hc Ho|i l k text conn wd0 Hl Hk Hc Ht Hp r];
    cbn [client_side]; try done; apply rtc_once.
  - by apply step_connect.
  - by apply own_conn_step.
  - by apply step_receive.
Qed.

Lemma world_runs wd wd' :
  rtc world_step wd wd' →
  rtc (sys_step (MS := MS)) (agent_side wd) (agent_side wd') ∧ rtc conn_step (client_side wd) (client_side wd').
Proof.
  induction 1 as [|wd1 wd2 wd3 H _ [IH1 IH2]]; [done|].
  split; (etrans; [|eassumption]); [by apply world_agent|by apply world_client].
Qed.

(** ** One connection

    What a request becomes while the connection it is made on has not been
    given up. *)
Context {CRqL : CodecLaws AgentRequestWithId} {CRqT : CodecTotal AgentRequestWithId}.
Context {CRsL : CodecLaws AgentResponseWithId} {CRsT : CodecTotal AgentResponseWithId}.
(** A broadcast message is not read as a response: it has no operation id. *)
Context (stream_no_response :
  ∀ (m : AgentStreamingMessage) text (r : AgentResponseWithId), enc m = Ok text → dec text ≠ Ok r).
(** Ids are not given twice. *)
Context {uuid_inj : Inj (=) (=) uuid_v4}.

(** Texts that are requests with different ids among the first [n]. *)
Definition made (n : nat) (texts : list string) : Prop :=
  Forall (λ t, ∃ m rq, (m < n)%nat ∧ dec t = Ok (MkRequest (uuid_v4 m) rq)) texts ∧
  NoDup (request_id ∘ MText <$> texts).

(** The requests that were written to a connection, and those that wait. *)
Definition queued (b : EventBroker) (k : AgentConn) : list string :=
  written k ++ (content <$> pending b (outgoing_stream k)).

Lemma made_sublist n l1 l2 : l1 `sublist_of` l2 → made n l2 → made n l1.
Proof.
  intros Hs [H1 H2]. split.
  - apply Forall_forall. intros t Ht. rw Forall_forall in H1. apply H1. by eapply elem_of_sublist.
  - eapply sublist_NoDup; [exact H2|]. by apply fmap_sublist.
Qed.

Lemma made_new n l t rq :
  made n l → dec t = Ok (MkRequest (uuid_v4 n) rq) → made (S n) (l ++ [t]).
Proof.
  intros [H1 H2] Ht. split.
  - apply Forall_app. split; [|by apply Forall_singleton; exists n, rq; split; [lia|]].
    eapply Forall_impl; [exact H1|]. intros t' (m & rq' & Hm & Ht'). exists m, rq'. split; [lia|done].
  - rw fmap_app. apply NoDup_app. split_and!; [done| |apply NoDup_singleton].
    intros x (t' & -> & Ht')%list_elem_of_fmap Hx%list_elem_of_singleton.
    rw Forall_forall in H1. destruct (H1 _ Ht') as (m & rq' & Hm & Hd). cbn in Hx.
    rw Hd Ht in Hx. cbn in Hx. injection Hx as Hx%uuid_inj. lia.
Qed.

Lemma made_later n m l : (n <= m)%nat → made n l → made m l.
Proof.
  intros Hn [H1 H2]. split; [|done]. eapply Forall_impl; [exact H1|].
  intros t (i & rq & Hi & Ht). exists i, rq. split; [lia|done].
Qed.

(** *** What the client's steps do to the requests that wait *)

Lemma forward_queued ok b k :
  subscribed b k →
  let k' := forward_outgoing ok b k in
  queued b k' `sublist_of` queued b k ∧ written k `prefix_of` written k'.
Proof.
  intros (Hr & _). unfold forward_outgoing, queued.
  destruct (catch_up_pending b _ Hr) as (_ & Hsub & _).
  destruct (poll_pending b _ Hr) as (_ & _ & _ & _ & Hp & _).
  destruct (poll b (outgoing_stream k)) as [[e|] s']; cbn [fst snd] in *; rw Hp in Hsub.
  - split.
    + cbn [outgoing_stream written]. destruct ok.
      * rw -app_assoc. apply sublist_app; [done|]. by apply (fmap_sublist content) in Hsub.
      * apply sublist_app; [done|]. apply fmap_sublist. etrans; [|exact Hsub]. by apply sublist_cons.
    + cbn. destruct ok; [by apply prefix_app_r|done].
  - split; [|done]. cbn. apply sublist_app; [done|]. by apply fmap_sublist.
Qed.

Lemma tag_no_outgoing text e : tag_incoming_message text = Some e → tags e !! OUTGOING_TOPIC_NAME = None.
Proof.
  unfold tag_incoming_message. destruct (dec text) as [r|x]; [by intros [= <-]|].
  destruct (dec text) as [m|y]; [|done]. intros [= <-]. cbn. unfold tag_server_stdout_message.
  repeat match goal with |- context [match ?x with _ => _ end] => destruct x end; by simplify_map_eq.
Qed.

(** A text of the agent is not a request. *)
Lemma receive_outgoing text b k :
  subscribed b k →
  queued (receive (Ok (WText text)) b k).1 (receive (Ok (WText text)) b k).2 = queued b k.
Proof.
  intros (Hr & Ht & _). unfold receive, queued. cbn [publish_incoming fst snd outgoing_stream written].
  destruct (tag_incoming_message text) as [e|] eqn:He; [|done].
  destruct (pending_publish e b _ Hr) as [_ ->]. unfold selects.
  by rw Ht (tag_no_outgoing _ _ He) app_nil_r.
Qed.

Lemma receive_other item b k :
  (∀ t, item ≠ Ok (WText t)) →
  (receive item b k).1 = b ∧ outgoing_stream (receive item b k).2 = outgoing_stream k ∧
  written (receive item b k).2 = written k.
Proof. intros Hi. unfold receive. destruct item as [[t| | | | |]|e]; cbn; try done. by destruct (Hi t). Qed.

(** *** The invariant *)

(** A request that was made: its id, what it asks, and the queue of responses
    that the client got for it. *)
Record Tracked := MkTracked { tr_id : OperationId; tr_rq : AgentRequest; tr_sub : Subscriber }.

Definition calls (cl : ClientSys) : nat := ncalls (api_client cl).

Definition link_inv (wd : World) (l : Link) (k : AgentConn) (conn : Conn) : Prop :=
  made (calls (client_side wd)) (queued (broker wd) k) ∧
  c_received conn = MText <$> take (l_delivered l) (written k) ∧
  (l_delivered l <= length (written k))%nat ∧ (l_arrived l <= length (c_tx conn))%nat.

(** The responses with an id that have reached the client. *)
Definition heard (id : OperationId) (l : Link) (conn : Conn) : list AgentResponseWithId :=
  filter (λ r, rs_operation_id r = id) (responses (take (l_arrived l) (c_tx conn))).

Definition tracked (wd : World) (l : Link) (k : AgentConn) (conn : Conn) (tr : Tracked) : Prop :=
  awaits (tr_id tr) (tr_sub tr) ∧ in_range (broker wd) (tr_sub tr) ∧
  (∃ m, (m < calls (client_side wd))%nat ∧ tr_id tr = uuid_v4 m) ∧
  (∀ t, t ∈ queued (broker wd) k → request_id (MText t) = Some (tr_id tr) →
     dec t = Ok (MkRequest (tr_id tr) (tr_rq tr))) ∧
  length (decoded (pending (broker wd) (tr_sub tr))) = length (pending (broker wd) (tr_sub tr)) ∧
  decoded (pending (broker wd) (tr_sub tr)) = heard (tr_id tr) l conn.

(** There is no connection yet, or one. *)
Definition one_link (tr : option Tracked) (wd : World) : Prop :=
  (links wd = [] ∧ agent_conns (client_side wd) = [] ∧ tr = None) ∨
  ∃ l k conn, links wd = [l] ∧ agent_conns (client_side wd) = [k] ∧ conns (agent_side wd) !! l_agent l = Some conn ∧
    link_inv wd l k conn ∧ ∀ x, tr = Some x → tracked wd l k conn x.

(** A change of the client that leaves the responses that wait. *)
Lemma one_link_client tr wd cl' k k' l :
  one_link tr wd → links wd = [l] → agent_conns (client_side wd) = [k] → agent_conns cl' = [k'] →
  written k `prefix_of` written k' → (calls (client_side wd) <= calls cl')%nat →
  made (calls cl') (queued (event_broker (api_client cl')) k') →
  (∀ t, t ∈ queued (event_broker (api_client cl')) k' → t ∈ queued (broker wd) k ∨
     ∃ rq, dec t = Ok (MkRequest (uuid_v4 (calls (client_side wd))) rq)) →
  (∀ s, topic_name s = OPERATION_TOPIC_NAME → in_range (broker wd) s →
     in_range (event_broker (api_client cl')) s ∧
     pending (event_broker (api_client cl')) s = pending (broker wd) s) →
  one_link tr (MkWorld (agent_side wd) cl' (links wd)).
Proof.
  intros [(Hl0 & _)|(l0 & k0 & conn & Hl0 & Hk0 & Hconn & (_ & Hrec & Hd & Ha) & Htr)] Hl Hk Hk' Hw Hn Hm Hq Hs;
    [congruence|]. rw Hl in Hl0. rw Hk in Hk0. injection Hl0 as <-. injection Hk0 as <-.
  right. exists l, k', conn. cbn [links client_side agent_side]. split_and!; [done..| |].
  - destruct Hw as [rest Hw]. split_and!; [exact Hm| | |exact Ha].
    + by rw Hw take_app_le.
    + rw Hw length_app. lia.
  - intros x Hx. destruct (Htr x Hx) as (Haw & Hr & (m & Hlt & Hid) & Hreq & Hlen & Hdec).
    destruct (Hs (tr_sub x)) as [Hr' Hp]; [apply Haw|exact Hr|].
    unfold tracked, broker, calls in *. cbn [client_side]. rw Hp. split_and!; [done|exact Hr'| | |done|done].
    + exists m. split; [lia|done].
    + intros t [Ht|(rq & Ht)]%Hq; [by apply Hreq|]. cbn. rw Ht. cbn. rw Hid. intros [= Hinj%uuid_inj]. lia.
Qed.

Lemma one_link_own tr cl cl' ag ls :
  one_link tr (MkWorld ag cl ls) → conns_inv cl → own_step cl cl' → one_link tr (MkWorld ag cl' ls).
Proof.
  intros Hone Hinv Hstep. pose proof Hone as
    [(Hl & Hk & ->)|(l & k & conn & Hl & Hk & _ & (Hm & _) & _)]; cbn [links client_side agent_side] in Hl, Hk.
  { left. cbn [links client_side]. split_and!; [done| |done].
    destruct Hstep as [s i c Hw Hi Ha|s i c Hi Hc|s i c ok Hi Hf|s i c item Hi Hp Ho|s rq]; cbn; try done;
      by rw Hk in Hi. }
  assert (subscribed (event_broker (api_client cl)) k) as Hsub.
  { apply (ci_out _ Hinv). rw Hk. apply list_elem_of_here. }
  destruct Hstep as [s i c Hw Hi Ha|s i c Hi Hc|s i c ok Hi Hf|s i c item Hi Hp Ho r|s rq].
  1: by eapply (one_link_client tr (MkWorld ag s ls) _ k k l); [..|auto|auto].
  1-3: rw Hk in Hi; destruct i as [|i]; [injection Hi as <-|done].
  - apply (one_link_client tr (MkWorld ag s ls) _ k (ping k) l); cbn [links client_side agent_side]; try done.
    + unfold set_conn. cbn. by rw Hk.
    + by unfold ping; destruct (keep_alive_round _ _).
    + unfold ping. by destruct (keep_alive_round _ _).
    + unfold ping. destruct (keep_alive_round _ _); by left.
  - destruct (forward_queued ok _ _ Hsub) as [H1 H2].
    apply (one_link_client tr (MkWorld ag s ls) _ k (forward_outgoing ok (event_broker (api_client s)) k) l);
      cbn [links client_side agent_side]; try done.
    + unfold set_conn. cbn. by rw Hk.
    + by eapply made_sublist.
    + intros t Ht. left. by eapply elem_of_sublist.
  - destruct (receive_other item (event_broker (api_client s)) k Ho) as (H1 & H2 & H3).
    assert (queued r.1 r.2 = queued (event_broker (api_client s)) k) as Hq.
    { unfold queued, r. by rw H1 H2 H3. }
    apply (one_link_client tr (MkWorld ag s ls) _ k r.2 l); cbn [links client_side agent_side]; try done.
    + unfold set_conn. cbn. by rw Hk.
    + change (made (calls s) (queued r.1 r.2)). by rw Hq.
    + change (∀ t, t ∈ queued r.1 r.2 → t ∈ queued (event_broker (api_client s)) k ∨
        ∃ rq, dec t = Ok (MkRequest (uuid_v4 (calls s)) rq)). rw Hq. by left.
    + unfold r. cbn [set_broker api_client event_broker]. by rw H1.
  - pose proof (wp_request rq (api_client s)) as Hreq. unfold wp in Hreq.
    destruct (ws_connected (api_client s)); [|destruct Hreq as [_ ->]; by eapply (one_link_client tr (MkWorld ag s ls) _ k k l); [..|auto|auto]].
    destruct Hreq as (Hn & _ & (e & He & Ho) & Hs).
    assert (queued (event_broker (send_request_and_subscribe rq (api_client s)).2) k =
      queued (event_broker (api_client s)) k ++ [content e]) as Hq.
    { unfold queued. destruct Hsub as (H1 & H2 & H3). by rw (Ho _ H1 H2 H3) fmap_app app_assoc. }
    apply (one_link_client tr (MkWorld ag s ls) _ k k l); cbn [links client_side agent_side api_client]; try done;
      unfold calls, broker; cbn [api_client client_side]; rw ?Hn ?Hq.
    + lia.
    + by eapply made_new.
    + intros t' [Hin|Hin%list_elem_of_singleton]%elem_of_app; [by left|]. subst t'. right. by exists rq.
Qed.

(** *** The steps of the two *)

Lemma heard_more id c d n conn conn' rs :
  c_tx conn' = c_tx conn ++ rs → (n <= length (c_tx conn))%nat →
  heard id (MkLink c d n) conn' = heard id (MkLink c d n) conn.
Proof. intros H Hn. unfold heard. cbn. by rw H take_app_le. Qed.

Lemma one_link_connect tr wd c :
  one_link tr wd → (length (links wd ++ [MkLink c 0 0]) <= 1)%nat →
  one_link tr (MkWorld (accept c (agent_side wd)) (connect (client_side wd)) (links wd ++ [MkLink c 0 0])).
Proof.
  intros [(Hl & Hk & ->)|(l & k & conn & Hl & _)]; rw Hl; cbn; [intros _|lia].
  right. eexists (MkLink c 0 0), _, (MkConn [] [] [] true). unfold connect, accept.
  cbn [links client_side agent_side agent_conns conns l_agent]. rw Hk lookup_insert_eq. split_and!; [done..| |done].
  unfold link_inv, broker, calls, queued.
  cbn [client_side api_client event_broker ncalls outgoing_stream written c_received c_tx l_delivered l_arrived].
  destruct (pending_subscribe OUTGOING_TOPIC_NAME (λ s, bool_decide (ws_addr = s))
    (event_broker (api_client (client_side wd))) (subscribe_outgoing (event_broker (api_client (client_side wd)))).1) as (H & _).
  unfold subscribe_outgoing in *. rw H. split_and!; [|done..]. by split; [|apply NoDup_nil_2].
Qed.

Lemma one_link_agent tr wd s' :
  one_link tr wd → sys_inv (agent_side wd) → sys_step (MS := MS) (agent_side wd) s' →
  (∀ l, l ∈ links wd → c_received <$> conns s' !! l_agent l = c_received <$> conns (agent_side wd) !! l_agent l) →
  one_link tr (MkWorld s' (client_side wd) (links wd)).
Proof.
  intros [H|(l & k & conn & Hl & Hk & Hconn & (Hm & Hrec & Hd & Ha) & Htr)] Hinv Hstep Hsame; [by left|].
  right. specialize (Hsame l). rw Hl Hconn in Hsame. specialize (Hsame (list_elem_of_here _ _)).
  destruct (conns s' !! l_agent l) as [conn'|] eqn:Hconn'; [|done]. cbn in Hsame. injection Hsame as Hsame.
  destruct (sent_in_step stream_no_response _ _ _ _ _ Hinv Hstep Hconn Hconn') as (rs & Htx & _).
  exists l, k, conn'. cbn [links client_side agent_side]. split_and!; [done..| |].
  - split_and!; [exact Hm|by rw Hsame|done|]. rw Htx length_app. lia.
  - intros x Hx. destruct (Htr x Hx) as (Haw & Hr & Hid & Hreq & Hlen & Hdec).
    split_and!; [exact Haw|exact Hr|exact Hid|exact Hreq|exact Hlen|].
    unfold broker in *. cbn [client_side]. rw Hdec. destruct l. by rw (heard_more _ _ _ _ _ _ _ Htx Ha).
Qed.

Lemma one_link_deliver tr wd i l k text conn :
  one_link tr wd → links wd !! i = Some l → agent_conns (client_side wd) !! i = Some k →
  written k !! l_delivered l = Some text → conns (agent_side wd) !! l_agent l = Some conn →
  one_link tr (MkWorld (take_in (l_agent l) conn text (agent_side wd)) (client_side wd)
      (<[i := MkLink (l_agent l) (S (l_delivered l)) (l_arrived l)]> (links wd))).
Proof.
  intros [(Hl & _)|(l0 & k0 & conn0 & Hl & Hk & Hconn & (Hm & Hrec & Hd & Ha) & Htr)]; rw Hl; [done|].
  rw Hk. destruct i as [|i]; [|done]. intros [= <-] [= <-] Ht Hc. rw Hconn in Hc. injection Hc as <-.
  right. eexists _, k0, _. cbn [links client_side agent_side list_insert]. split_and!; [done|exact Hk| | |].
  - unfold take_in. cbn [conns l_agent]. by rw lookup_insert_eq.
  - split_and!; [exact Hm| | |exact Ha]; cbn [c_received l_delivered].
    + by rw (take_S_r _ _ _ Ht) fmap_app Hrec.
    + apply lookup_lt_Some in Ht. lia.
  - intros x Hx. exact (Htr x Hx).
Qed.

Lemma one_link_arrive tr wd i l k text conn :
  one_link tr wd → conns_inv (client_side wd) → links wd !! i = Some l → agent_conns (client_side wd) !! i = Some k →
  conns (agent_side wd) !! l_agent l = Some conn → c_tx conn !! l_arrived l = Some text →
  let r := receive (Ok (WText text)) (broker wd) k in
  one_link tr (MkWorld (agent_side wd) (set_broker r.1 (set_conn i r.2 (client_side wd)))
      (<[i := MkLink (l_agent l) (l_delivered l) (S (l_arrived l))]> (links wd))).
Proof.
  intros [(Hl & _)|(l0 & k0 & conn0 & Hl & Hk & Hconn & (Hm & Hrec & Hd & Ha) & Htr)] Hinv; rw Hl; [done|].
  rw Hk. destruct i as [|i]; [|done]. intros [= <-] [= <-] Hc Ht r. rw Hconn in Hc. injection Hc as <-.
  assert (subscribed (broker wd) k0) as Hsub.
  { apply (ci_out _ Hinv). rw Hk. apply list_elem_of_here. }
  pose proof (receive_outgoing text _ _ Hsub) as Hq. fold r in Hq.
  right. eexists _, r.2, conn0. cbn [links client_side agent_side list_insert]. split_and!; [done| |done| |].
  - unfold set_broker, set_conn. cbn. by rw Hk.
  - split_and!; [|exact Hrec|exact Hd|]; cbn [l_arrived l_delivered].
    + change (made (calls (client_side wd)) (queued r.1 r.2)). by rw Hq.
    + apply lookup_lt_Some in Ht. lia.
  - intros x Hx. destruct (Htr x Hx) as (Haw & Hr & Hid & Hreq & Hlen & Hdec).
    destruct (delivered (tr_id x) (tr_sub x) [text] (broker wd) (consecutive_missed_pings k0) Haw Hr)
      as (Hr' & q & Hp & Hl' & Hd').
    assert ((publish_incoming (Ok ∘ WText <$> [text]) (broker wd) (consecutive_missed_pings k0)).1 = r.1) as Hb by done.
    rw Hb in Hr' Hp. split_and!; [exact Haw|exact Hr'|exact Hid| | |].
    + change (∀ t, t ∈ queued r.1 r.2 → request_id (MText t) = Some (tr_id x) →
        dec t = Ok (MkRequest (tr_id x) (tr_rq x))). by rw Hq.
    + unfold broker in *. cbn [client_side set_broker api_client event_broker]. rw Hp. unfold decoded in *.
      revert Hlen. generalize (pending (event_broker (api_client (client_side wd))) (tr_sub x)) as p. intros p Hlen.
      rw omap_app !length_app. lia.
    + unfold broker in *. cbn [client_side set_broker api_client event_broker]. rw Hp. unfold decoded in Hdec, Hd' |- *.
      rw omap_app Hdec Hd'. unfold heard. cbn [l_arrived].
      by rw (take_S_r _ _ _ Ht) responses_app filter_app.
Qed.

Lemma one_link_step tr wd wd' :
  sys_inv (agent_side wd) → conns_inv (client_side wd) → world_step wd wd' → (length (links wd') <= 1)%nat →
  one_link tr wd → one_link tr wd'.
Proof.
  intros Hs Hc Hstep Hlen Hone. destruct Hstep as [c wd Hl Hn|s' wd Hst Hr|s' wd Hst
    |i l k text conn wd Hl Hk Ht Hn Ho|i l k text conn wd Hl Hk Hn Ht Hp r].
  - by apply one_link_connect.
  - by apply one_link_agent.
  - destruct wd as [ag cl ls]. cbn [agent_side client_side links] in *. by eapply one_link_own.
  - by apply (one_link_deliver _ _ _ _ k).
  - by apply (one_link_arrive _ _ _ _ _ _ conn).
Qed.

(** *** Runs *)

Lemma links_grow wd wd' : rtc world_step wd wd' → (length (links wd) <= length (links wd'))%nat.
Proof.
  induction 1 as [|wd1 wd2 wd3 Hstep _ IH]; [done|]. etrans; [|exact IH].
  destruct Hstep; cbn [links]; rw ?length_app ?length_insert; lia.
Qed.

(** Both sides of a world that was reached satisfy their invariants. *)
Definition sides_inv (wd : World) : Prop := sys_inv (agent_side wd) ∧ conns_inv (client_side wd).

Lemma sides_reachable i w b wd :
  startup i = Ok w → rtc world_step (world_initial w b) wd → sides_inv wd.
Proof.
  intros Hw Hrun. apply world_runs in Hrun as [Ha Hc].
  split; [exact (reachable_inv stream_no_response _ _ _ Hw Ha)|exact (conns_reachable _ _ Hc)].
Qed.

Lemma sides_step wd wd' : world_step wd wd' → sides_inv wd → sides_inv wd'.
Proof.
  intros Hstep [Hs Hc]. split.
  - pose proof (world_agent _ _ Hstep) as Hr. revert Hs. induction Hr as [|s1 s2 s3 H1 _ IH1]; [done|].
    intros Hs. apply IH1. by eapply (sys_step_inv stream_no_response).
  - pose proof (world_client _ _ Hstep) as Hr. revert Hc. induction Hr as [|s1 s2 s3 H1 _ IH1]; [done|].
    intros Hc. apply IH1. by eapply conn_step_inv.
Qed.

Lemma sides_runs wd wd' : rtc world_step wd wd' → sides_inv wd → sides_inv wd'.
Proof. induction 1 as [|wd1 wd2 wd3 H _ IH]; [done|]. intros Hi. by eapply IH, sides_step. Qed.

Lemma one_link_runs tr wd wd' :
  sides_inv wd → rtc world_step wd wd' → (length (links wd') <= 1)%nat → one_link tr wd → one_link tr wd'.
Proof.
  intros Hinv Hrun Hlen. revert Hinv. induction Hrun as [|wd1 wd2 wd3 Hstep Hrun IH]; [done|].
  intros Hinv Hone. pose proof (links_grow _ _ Hrun). pose proof (sides_step _ _ Hstep Hinv) as Hnext.
  destruct Hinv as [Hs Hc]. apply IH; [done..|]. by eapply one_link_step; [..|lia|].
Qed.

(** *** A request on the only connection *)

Lemma NoDup_omap {A B} (f : A → option B) l : NoDup (f <$> l) → NoDup (omap f l).
Proof.
  induction l as [|x l IH]; cbn; [by constructor|]. intros [Hx Hl]%NoDup_cons.
  destruct (f x) as [y|] eqn:Hf; [|by apply IH]. apply NoDup_cons. split; [|by apply IH].
  intros (z & Hz & Hfz)%list_elem_of_omap. apply Hx. rw -Hfz. by apply list_elem_of_fmap_2.
Qed.

Lemma made_ids n l id : made n l → id ∈ omap (request_id ∘ MText) l → ∃ m, (m < n)%nat ∧ id = uuid_v4 m.
Proof.
  intros [H _] (t & Ht & Hid)%list_elem_of_omap. rw Forall_forall in H.
  destruct (H _ Ht) as (m & rq & Hm & Hd). exists m. split; [done|]. cbn in Hid. rw Hd in Hid. by injection Hid as <-.
Qed.

(** What the agent has received are the first requests that were written. *)
Lemma received_queued wd l k conn :
  link_inv wd l k conn →
  distinct conn ∧ ∀ id, id ∈ omap request_id (c_received conn) → id ∈ omap (request_id ∘ MText) (queued (broker wd) k).
Proof.
  intros (Hm & Hrec & _).
  assert (MText <$> take (l_delivered l) (written k) `sublist_of` MText <$> queued (broker wd) k) as Hs.
  { apply fmap_sublist. etrans; [apply sublist_take|]. unfold queued. by apply sublist_inserts_r. }
  split.
  - unfold distinct. rw Hrec. apply NoDup_omap. eapply sublist_NoDup; [exact (proj2 Hm)|].
    rw list_fmap_compose. by apply fmap_sublist.
  - intros id (m & Hin & Hid)%list_elem_of_omap. rw Hrec in Hin. eapply elem_of_sublist in Hin; [|exact Hs].
    apply list_elem_of_fmap in Hin as (t & -> & Ht). apply list_elem_of_omap. by exists t.
Qed.

Lemma heard_under id l conn :
  under id conn = heard id l conn ++ filter (λ r, rs_operation_id r = id) (responses (drop (l_arrived l) (c_tx conn))).
Proof. unfold under, heard. by rw -filter_app -responses_app take_drop. Qed.

(** A request that is made is tracked from then on. *)
Lemma one_link_request wd rq id sub cw :
  sides_inv wd → one_link None wd → send_request_and_subscribe rq (api_client (client_side wd)) = (Ok (id, sub), cw) →
  one_link (Some (MkTracked id rq sub))
    (MkWorld (agent_side wd) (MkClientSys cw (agent_conns (client_side wd)) (reconnect_loop (client_side wd))) (links wd)).
Proof.
  intros [Hs Hc] Hone Hreq. destruct wd as [ag cl ls]. cbn [agent_side client_side links] in *.
  pose proof (one_link_own None cl _ ag ls Hone Hc (own_request cl rq)) as Hnext. rw Hreq in Hnext. cbn [snd] in Hnext.
  pose proof (wp_request rq (api_client cl)) as Hwp. unfold wp in Hwp. rw Hreq in Hwp. cbn [fst snd] in Hwp.
  destruct Hone as [(Hl & Hk & _)|(l & k & conn & Hl & Hk & Hconn & Hlink & _)]; cbn [links client_side agent_side] in *.
  { exfalso. destruct Hc as [_ Hloop]. rw Hk in Hloop.
    destruct (reconnect_loop cl); [rw Hloop in Hwp; by destruct Hwp|]. by destruct Hloop. }
  destruct (ws_connected (api_client cl)); [|by destruct Hwp].
  destruct Hwp as (Hn & (sub' & [= -> <-] & Ha & Hr & Hp) & (e & He & Ho) & _).
  destruct Hnext as [(Hl' & _)|(l' & k' & conn' & Hl' & Hk' & Hconn' & Hlink' & _)]; cbn [links client_side agent_side agent_conns] in *;
    [congruence|].
  rw Hl in Hl'. injection Hl' as <-. rw Hk in Hk'. injection Hk' as <-. rw Hconn in Hconn'. injection Hconn' as <-.
  right. exists l, k, conn. cbn [links client_side agent_side agent_conns]. split_and!; [done..|].
  assert (subscribed (event_broker (api_client cl)) k) as (H1 & H2 & H3).
  { apply (ci_out _ Hc). rw Hk. apply list_elem_of_here. }
  destruct Hlink as (Hm & Hlink). destruct (received_queued _ _ _ _ (conj Hm Hlink)) as [Hd Hids].
  assert (uuid_v4 (ncalls (api_client cl)) ∉ omap (request_id ∘ MText) (queued (event_broker (api_client cl)) k)) as Hfresh.
  { intros (m & Hlt & Heq%uuid_inj)%(made_ids _ _ _ Hm). unfold calls in Hlt. cbn in Hlt. lia. }
  intros x [= <-]. unfold tracked, broker, calls. cbn [tr_id tr_rq tr_sub client_side api_client]. rw Hp.
  split_and!; [done|done|exists (ncalls (api_client cl)); split; [lia|done]| |done|].
  - intros t Ht Hid. unfold queued in Ht. rw (Ho _ H1 H2 H3) fmap_app app_assoc in Ht.
    apply elem_of_app in Ht as [Ht|Ht%list_elem_of_singleton]; [|by subst t].
    destruct Hfresh. apply list_elem_of_omap. by exists t.
  - destruct (inv_conversations _ _ _ Hs Hconn Hd (uuid_v4 (ncalls (api_client cl)))) as (_ & _ & Hnone).
    specialize (Hnone (λ H, Hfresh (Hids _ H))). rw (heard_under _ l) in Hnone.
    by apply app_nil in Hnone as [-> _].
Qed.

(** What is known of a tracked request. *)
Lemma one_link_answer id rq sub wd l :
  sides_inv wd → one_link (Some (MkTracked id rq sub)) wd → links wd = [l] →
  ∃ k conn, agent_conns (client_side wd) = [k] ∧ conns (agent_side wd) !! l_agent l = Some conn ∧
    (∀ m, m ∈ c_received conn → request_id m = Some id →
       handle_message (MS := MS) m = handle_request id rq) ∧
    let q := pending (broker wd) sub in
    length (decoded q) = length q ∧ is_Some (conversation Fresh id (decoded q)) ∧
    (id ∈ omap (request_id ∘ MText) (written k) → l_delivered l = length (written k) →
     l_arrived l = length (c_tx conn) → tasks (agent_side wd) = [] →
     conversation Fresh id (decoded q) = Some Done).
Proof.
  intros [Hs _] [(_ & _ & ?)|(l' & k & conn & Hl' & Hk & Hconn & Hlink & Htr)] Hl; [done|].
  rw Hl in Hl'. injection Hl' as <-. exists k, conn.
  destruct (Htr _ eq_refl) as (_ & _ & _ & Hq & Hdlen & Hd); cbn [tr_id tr_rq tr_sub] in *.
  destruct (received_queued _ _ _ _ Hlink) as [Hdist Hids]. destruct Hlink as (_ & Hrec & _).
  destruct (inv_conversations _ _ _ Hs Hconn Hdist id) as (Hdone & Hsome & Hnone).
  rw (heard_under id l) in Hsome Hnone. split_and!; [done|done| |exact Hdlen|..].
  - intros m Hm Hid. rw Hrec in Hm. apply list_elem_of_fmap in Hm as (t & -> & Ht). cbn.
    rw Hq; [done| |exact Hid]. unfold queued. apply elem_of_app. left. by eapply elem_of_sublist, sublist_take.
  - rw Hd. destruct (decide (id ∈ omap request_id (c_received conn))) as [Hin|Hin].
    + destruct (Hsome Hin) as [p Hp]. rw conversation_app in Hp. by destruct (conversation _ _ (heard _ _ _)).
    + specialize (Hnone Hin). apply app_nil in Hnone as [-> _]. by eexists.
  - intros Hwr Hdel Harr Hrest. rw Hd.
    assert (heard id l conn = under id conn) as -> by (unfold heard, under; by rw Harr take_ge).
    apply Hdone. destruct Hs as (_ & _ & _ & Hall). destruct (Hall _ _ Hconn) as (_ & Hperm & _).
    rw Hrest app_nil_r in Hperm. rw -Hperm Hrec Hdel take_ge //.
    apply list_elem_of_omap in Hwr as (t & Ht & Hid). apply list_elem_of_omap. exists (MText t).
    split; [by apply list_elem_of_fmap_2|exact Hid].
Qed.

(** A request that was made is tracked as long as there is one connection. *)
Lemma request_tracked i w b wd rq id sub cw wd' l :
  startup i = Ok w → rtc world_step (world_initial w b) wd →
  send_request_and_subscribe rq (api_client (client_side wd)) = (Ok (id, sub), cw) →
  rtc world_step
    (MkWorld (agent_side wd) (MkClientSys cw (agent_conns (client_side wd)) (reconnect_loop (client_side wd))) (links wd)) wd' →
  links wd' = [l] → sides_inv wd' ∧ one_link (Some (MkTracked id rq sub)) wd'.
Proof.
  intros Hw Hrun Hreq Hrun' Hl. pose proof (links_grow _ _ Hrun') as Hlen. rw Hl in Hlen. cbn [links length] in Hlen.
  assert (sides_inv wd) as Hinv by (by eapply sides_reachable).
  pose proof (w_client _ wd (own_request (client_side wd) rq)) as Hstep. rw Hreq in Hstep.
  pose proof (sides_step _ _ Hstep Hinv) as Hinv1. split; [by eapply sides_runs|].
  eapply one_link_runs; [exact Hinv1|exact Hrun'|by rw Hl|]. apply one_link_request; [done| |exact Hreq].
  apply (one_link_runs None (world_initial w b)); [by eapply sides_reachable|done|done|by left].
Qed.

(** C2: A request and its answer, across both programs and the connection
    between them.  The client makes a request in any state that was reached;
    whatever happens afterwards, in whatever order, as long as there is only the
    connection it was made on: the agent handles this request under its id and
    no other; the queue of responses that the client got for the request holds
    the beginning of one conversation under its id and nothing else; and when the
    request was written, everything written has arrived on both sides and the
    agent is at rest, it is the whole conversation. *)
Theorem request_across i w b wd rq id sub cw wd' l :
  startup i = Ok w → rtc world_step (world_initial w b) wd →
  send_request_and_subscribe rq (api_client (client_side wd)) = (Ok (id, sub), cw) →
  rtc world_step
    (MkWorld (agent_side wd) (MkClientSys cw (agent_conns (client_side wd)) (reconnect_loop (client_side wd))) (links wd)) wd' →
  links wd' = [l] →
  ∃ k conn, agent_conns (client_side wd') = [k] ∧ conns (agent_side wd') !! l_agent l = Some conn ∧
    (∀ m, m ∈ c_received conn → request_id m = Some id →
       handle_message (MS := MS) m = handle_request id rq) ∧
    let q := pending (broker wd') sub in
    length (decoded q) = length q ∧ is_Some (conversation Fresh id (decoded q)) ∧
    (id ∈ omap (request_id ∘ MText) (written k) → l_delivered l = length (written k) →
     l_arrived l = length (c_tx conn) → tasks (agent_side wd') = [] →
     conversation Fresh id (decoded q) = Some Done).
Proof.
  intros Hw Hrun Hreq Hrun' Hl. destruct (request_tracked _ _ _ _ _ _ _ _ _ _ Hw Hrun Hreq Hrun' Hl) as [Hi Ho].
  by apply one_link_answer.
Qed.

(** *** The answer can always come *)

Context {BL : BroadcastLaws}.

(** The only connection, while its tasks run. *)
Definition up (wd : World) (l : Link) (k : AgentConn) (conn : Conn) : Prop :=
  links wd = [l] ∧ agent_conns (client_side wd) = [k] ∧ conns (agent_side wd) !! l_agent l = Some conn ∧
  forward_outgoing_task k = true ∧ publish_incoming_task k = true ∧ c_open conn = true.

(** What waits is written. *)
Lemma forward_next b k e rest :
  in_range b (outgoing_stream k) → (length (unread b (outgoing_stream k)) <= TOPIC_CAPACITY)%nat →
  pending b (outgoing_stream k) = e :: rest →
  let k' := forward_outgoing true b k in
  pending b (outgoing_stream k') = rest ∧ written k' = written k ++ [content e] ∧
  in_range b (outgoing_stream k') ∧ (length (unread b (outgoing_stream k')) <= TOPIC_CAPACITY)%nat ∧
  forward_outgoing_task k' = true ∧ publish_incoming_task k' = publish_incoming_task k.
Proof.
  intros Hr Hlen Hp. pose proof (keeps_capacity TOPIC_CAPACITY) as Hcap.
  destruct (catch_up_pending b _ Hr) as (_ & _ & Hc). specialize (Hc (Nat.le_trans _ _ _ Hlen Hcap)).
  destruct (poll_pending b _ Hr) as (Ht & _ & Hr' & Hpos & Hq & Hnone). rw Hc Hp in Hq. rw Hc in Hpos.
  unfold forward_outgoing. destruct (poll b (outgoing_stream k)) as [[e'|] s']; cbn [fst snd] in *.
  - injection Hq as <- ->. cbn. split_and!; try done. unfold unread in *. rw length_drop Ht. rw length_drop in Hlen. lia.
  - rw (Hnone eq_refl) in Hq. done.
Qed.

Lemma all_forwarded wd l k conn :
  up wd l k conn → in_range (broker wd) (outgoing_stream k) →
  (length (unread (broker wd) (outgoing_stream k)) <= TOPIC_CAPACITY)%nat →
  ∃ wd' k', rtc world_step wd wd' ∧ up wd' l k' conn ∧ written k' = queued (broker wd) k.
Proof.
  remember (pending (broker wd) (outgoing_stream k)) as p eqn:Hp. revert wd k Hp.
  induction p as [|e p IH]; intros wd k Hp Hup Hr Hlen.
  { exists wd, k. split_and!; [done|done|]. unfold queued. by rw -Hp app_nil_r. }
  pose proof Hup as (Hl & Hk & Hconn & Hf & Hi & Ho).
  destruct (forward_next (broker wd) k e p Hr Hlen (eq_sym Hp)) as (Hp' & Hw & Hr' & Hlen' & Hf' & Hi').
  set (k1 := forward_outgoing true (broker wd) k) in *.
  set (wd1 := MkWorld (agent_side wd) (set_conn 0 k1 (client_side wd)) (links wd)).
  assert (world_step wd wd1) as Hstep by (apply w_client, own_forward; [by rw Hk|done]).
  destruct (IH wd1 k1) as (wd' & k' & Hrun & Hup' & Hw'); [by symmetry| |exact Hr'|exact Hlen'|].
  { split_and!; [exact Hl| |exact Hconn|exact Hf'|by rw Hi'|exact Ho]. unfold wd1, set_conn. cbn. by rw Hk. }
  exists wd', k'. split_and!; [by eapply rtc_l|exact Hup'|]. rw Hw'. unfold queued.
  change (broker wd1) with (broker wd). by rw Hp' Hw -Hp -app_assoc.
Qed.

(** What was written reaches the agent. *)
Lemma all_delivered wd l k conn :
  up wd l k conn → (l_delivered l <= length (written k))%nat →
  ∃ wd' conn', rtc world_step wd wd' ∧
    up wd' (MkLink (l_agent l) (length (written k)) (l_arrived l)) k conn'.
Proof.
  remember (length (written k) - l_delivered l)%nat as n eqn:Hn. revert wd l conn Hn.
  induction n as [|n IH]; intros wd l conn Hn Hup Hle; pose proof Hup as (Hl & Hk & Hconn & Hf & Hi & Ho).
  { exists wd, conn. split; [done|]. assert (length (written k) = l_delivered l) as -> by lia. by destruct l. }
  destruct (lookup_lt_is_Some_2 (written k) (l_delivered l)) as [text Ht]; [lia|].
  set (l1 := MkLink (l_agent l) (S (l_delivered l)) (l_arrived l)).
  set (conn1 := MkConn (c_tx conn) (c_received conn ++ [MText text]) (c_done conn) true).
  set (wd1 := MkWorld (take_in (l_agent l) conn text (agent_side wd)) (client_side wd) [l1]).
  assert (world_step wd wd1) as Hstep.
  { pose proof (w_deliver 0 l k text conn wd) as Hs. rw Hl Hk in Hs. by apply Hs. }
  destruct (IH wd1 l1 conn1) as (wd' & conn' & Hrun & Hup'); [cbn; lia| |cbn; lia|].
  { split_and!; [done|exact Hk| |done..]. unfold wd1, take_in. cbn. by rw lookup_insert_eq. }
  exists wd', conn'. split; [by eapply rtc_l|exact Hup'].
Qed.

(** What the agent sent reaches the client. *)
Lemma all_arrived wd l k conn :
  up wd l k conn → (l_arrived l <= length (c_tx conn))%nat →
  ∃ wd' k', rtc world_step wd wd' ∧ agent_side wd' = agent_side wd ∧ written k' = written k ∧
    up wd' (MkLink (l_agent l) (l_delivered l) (length (c_tx conn))) k' conn.
Proof.
  remember (length (c_tx conn) - l_arrived l)%nat as n eqn:Hn. revert wd l k Hn.
  induction n as [|n IH]; intros wd l k Hn Hup Hle; pose proof Hup as (Hl & Hk & Hconn & Hf & Hi & Ho).
  { exists wd, k. split_and!; [done..|]. assert (length (c_tx conn) = l_arrived l) as -> by lia. by destruct l. }
  destruct (lookup_lt_is_Some_2 (c_tx conn) (l_arrived l)) as [text Ht]; [lia|].
  set (l1 := MkLink (l_agent l) (l_delivered l) (S (l_arrived l))).
  set (r := receive (Ok (WText text)) (broker wd) k).
  set (wd1 := MkWorld (agent_side wd) (set_broker r.1 (set_conn 0 r.2 (client_side wd))) [l1]).
  assert (world_step wd wd1) as Hstep.
  { pose proof (w_arrive 0 l k text conn wd) as Hs. rw Hl Hk in Hs. by apply Hs. }
  destruct (IH wd1 l1 r.2) as (wd' & k' & Hrun & Hag & Hw & Hup'); [cbn; lia| |cbn; lia|].
  { split_and!; [done| |exact Hconn|exact Hf|done|exact Ho]. unfold wd1, set_broker, set_conn. cbn. by rw Hk. }
  exists wd', k'. split_and!; [by eapply rtc_l|by rw Hag|by rw Hw|exact Hup'].
Qed.

(** The tasks of the agent keep the connection as it is. *)
Lemma handlers_open s s' c :
  rtc handler_step s s' → c_open <$> conns s' !! c = c_open <$> conns s !! c.
Proof.
  induction 1 as [|s1 s2 s3 Hstep _ IH]; [done|]. rw IH. clear IH.
  destruct Hstep as [pre τ post conn h' t' w' s0 Hl Hc Hs|pre τ post conn s0 Hl Hc Hr]; cbn [conns];
    destruct (decide (c = t_conn τ)) as [->|Hne]; rw ?lookup_insert_eq ?Hc ?lookup_insert_ne //.
Qed.

Lemma up_rest wd l k conn :
  sides_inv wd → up wd l k conn →
  ∃ wd' conn', rtc world_step wd wd' ∧ up wd' l k conn' ∧ tasks (agent_side wd') = [].
Proof.
  intros [Hs _] (Hl & Hk & Hconn & Hf & Hi & Ho). destruct (comes_to_rest stream_no_response _ Hs) as (s' & Hrun & Hrest).
  pose proof (handlers_open _ _ (l_agent l) Hrun) as Hopen. rw Hconn /= Ho in Hopen.
  destruct (conns s' !! l_agent l) as [conn'|] eqn:Hc'; [|done]. cbn in Hopen. injection Hopen as Hopen.
  exists (MkWorld s' (client_side wd) (links wd)), conn'.
  split_and!; [by apply world_handlers|by split_and!|exact Hrest].
Qed.

(** The bounds that [one_link] gives for the connection that is up. *)
Lemma up_bounds tr wd l k conn :
  one_link tr wd → up wd l k conn →
  (l_delivered l <= length (written k))%nat ∧ (l_arrived l <= length (c_tx conn))%nat.
Proof.
  intros [(Hl0 & _)|(l0 & k0 & conn0 & Hl0 & Hk0 & Hc0 & (_ & _ & Hd & Ha) & _)] (Hl & Hk & Hconn & _); [congruence|].
  simplify_eq. rw Hl in Hl0. rw Hk in Hk0. injection Hl0 as <-. injection Hk0 as <-.
  rw Hconn in Hc0. by injection Hc0 as <-.
Qed.

(** A request that was written, or waits to be, on a connection that is up, can
    always be answered in full: from any state there is a run that writes what
    waits, hands it to the agent, lets its tasks end, and brings the answers
    back. *)
Lemma answer_can_come id rq sub wd l k conn :
  sides_inv wd → one_link (Some (MkTracked id rq sub)) wd → up wd l k conn →
  in_range (broker wd) (outgoing_stream k) →
  (length (unread (broker wd) (outgoing_stream k)) <= TOPIC_CAPACITY)%nat →
  id ∈ omap (request_id ∘ MText) (queued (broker wd) k) →
  ∃ wd', rtc world_step wd wd' ∧ conversation Fresh id (decoded (pending (broker wd') sub)) = Some Done.
Proof.
  intros Hinv Hone Hup Hr Hlen Hid.
  assert (∀ wd1 wd2, rtc world_step wd1 wd2 → (length (links wd2) <= 1)%nat → sides_inv wd1 ∧ one_link (Some (MkTracked id rq sub)) wd1 →
    sides_inv wd2 ∧ one_link (Some (MkTracked id rq sub)) wd2) as Hkeep.
  { intros wd1 wd2 Hrun H1 [Hi Ho]. split; [by eapply sides_runs|by eapply one_link_runs]. }
  assert (∀ wd l k conn, up wd l k conn → (length (links wd) <= 1)%nat) as Hlk by (by intros ???? [-> _]).
  destruct (all_forwarded _ _ _ _ Hup Hr Hlen) as (wd1 & k1 & Hrun1 & Hup1 & Hw1).
  pose proof (Hkeep _ _ Hrun1 (Hlk _ _ _ _ Hup1) (conj Hinv Hone)) as H1.
  destruct (all_delivered _ _ _ _ Hup1 (proj1 (up_bounds _ _ _ _ _ (proj2 H1) Hup1))) as (wd2 & conn2 & Hrun2 & Hup2).
  pose proof (Hkeep _ _ Hrun2 (Hlk _ _ _ _ Hup2) H1) as H2.
  destruct (up_rest _ _ _ _ (proj1 H2) Hup2) as (wd3 & conn3 & Hrun3 & Hup3 & Hrest).
  pose proof (Hkeep _ _ Hrun3 (Hlk _ _ _ _ Hup3) H2) as H3.
  destruct (all_arrived _ _ _ _ Hup3 (proj2 (up_bounds _ _ _ _ _ (proj2 H3) Hup3)))
    as (wd4 & k4 & Hrun4 & Hag & Hw4 & Hup4).
  pose proof (Hkeep _ _ Hrun4 (Hlk _ _ _ _ Hup4) H3) as [Hinv4 Hone4].
  exists wd4. split; [by etrans; [exact Hrun1|etrans; [exact Hrun2|etrans; [exact Hrun3|exact Hrun4]]]|].
  destruct (one_link_answer id rq sub wd4 _ Hinv4 Hone4 (proj1 Hup4)) as (k' & conn' & Hk' & Hc' & _ & _ & _ & H).
  destruct Hup4 as (_ & Hk4 & Hc4 & _). rw Hk4 in Hk'. injection Hk' as <-. rw Hc4 in Hc'. injection Hc' as <-.
  apply H; cbn [l_delivered l_arrived]; [by rw Hw4 Hw1|by rw Hw4|done|by rw Hag].
Qed.

(** C3: A made request can always still be answered in full.  The client makes a
    request in any state that was reached, and any run follows that leaves the
    connection it was made on up; if the request was written or still waits
    then, with at most [TOPIC_CAPACITY] messages not yet read by the task that
    writes, there is a run from there after which the queue of responses that
    the client got for the request holds the whole conversation under its id. *)
Theorem request_answerable i w b wd rq id sub cw wd' l k conn :
  startup i = Ok w → rtc world_step (world_initial w b) wd →
  send_request_and_subscribe rq (api_client (client_side wd)) = (Ok (id, sub), cw) →
  rtc world_step
    (MkWorld (agent_side wd) (MkClientSys cw (agent_conns (client_side wd)) (reconnect_loop (client_side wd))) (links wd)) wd' →
  up wd' l k conn → (length (unread (broker wd') (outgoing_stream k)) <= TOPIC_CAPACITY)%nat →
  id ∈ omap (request_id ∘ MText) (queued (broker wd') k) →
  ∃ wd'', rtc world_step wd' wd'' ∧ conversation Fresh id (decoded (pending (broker wd'') sub)) = Some Done.
Proof.
  intros Hw Hrun Hreq Hrun' Hup Hlen Hid. pose proof Hup as (Hl & Hk & _).
  destruct (request_tracked _ _ _ _ _ _ _ _ _ _ Hw Hrun Hreq Hrun' Hl) as [Hinv Hone].
  apply (answer_can_come id rq sub wd' l k conn); [done..| |done|done].
  apply (ci_out _ (proj2 Hinv)). rw Hk. apply list_elem_of_here.
Qed.
End world.
