(* ===== verification/WsClient.v ===== *)
(** * WsClient: src/src/ws-client/main.rs

    The developer's client: lines of words that are requests, and the replies
    to each.  It is modelled in its pipe mode, where it prints nothing else. *)

From S2P Require Import Prelude Text Regex Schema Io Errors Mods Builder Agent Protocol MgmtErrors Events Clients.
From S2P Require Import Discord Rpc.

Open Scope st_scope.

(** ** Words *)

(** [str::split_whitespace]: the rest of a word, and the words after it. *)
Definition flush (r : string * list string) : list string :=
  match r.1 with "" => r.2 | w => w :: r.2 end.
Fixpoint words_go (s : string) : string * list string :=
  match s with
  | EmptyString => ("", [])
  | String a s1 =>
      let in_word := let r := words_go s1 in (String a r.1, r.2) in
      if ws1 a then ("", flush (words_go s1))
      else match s1 with
           | String b s2 =>
               if ws2 a b then ("", flush (words_go s2))
               else match s2 with
                    | String c s3 => if ws3 a b c then ("", flush (words_go s3)) else in_word
                    | EmptyString => in_word
                    end
           | EmptyString => in_word
           end
  end.
Definition split_whitespace (s : string) : list string := flush (words_go s).

(** [AgentStreamingMessageInner], which the agent never sends on its own. *)
Inductive AgentStreamingMessageInner := ServerStdout (s : string).

(** ** Requests *)

Section client.
Context {E : IoEnv} {U : UuidEnv}.
Context {CRq : Codec AgentRequestWithId} {CRs : Codec AgentResponseWithId}.
Context {CI : Codec AgentStreamingMessageInner}.
Context {CMl : Codec (list ModObject)} {CSS : Codec ServerSettingsConfig}.

Definition request_of_args (args : list string) : ST IoW (option AgentRequest) :=
  match args with
  | [] => st_ret None
  | cmd :: rest =>
      let arg := λ i : nat, rest !! i in
      let json := join " " rest in
      if bool_decide (cmd = "VersionInstall") then
        st_ret ((λ v, VersionInstall v (bool_decide (arg 1%nat = Some "true"))) <$> arg 0%nat)
      else if bool_decide (cmd = "ServerStart") then
        st_ret (savefile ← arg 0%nat;
                if bool_decide (savefile = "Latest") then Some (ServerStart Latest)
                else if bool_decide (savefile = "Specific") then (λ name, ServerStart (Specific name)) <$> arg 1%nat
                else None)
      else if bool_decide (cmd = "ServerStop") then st_ret (Some ServerStop)
      else if bool_decide (cmd = "ServerStatus") then st_ret (Some ServerStatus)
      else if bool_decide (cmd = "SaveCreate") then st_ret ((λ name, SaveCreate name None None) <$> arg 0%nat)
      else if bool_decide (cmd = "ModListGet") then st_ret (Some ModListGet)
      else if bool_decide (cmd = "ModListSet") then st_ret (ModListSet <$> ok (dec json))
      else if bool_decide (cmd = "ModSettingsGet") then st_ret (Some ModSettingsGet)
      else if bool_decide (cmd = "ModSettingsSet") then
        match arg 0%nat with
        | Some filename => b <- fs_read (parse_path filename) ;; st_ret (ModSettingsSet <$> ok b)
        | None => st_ret None
        end
      else if bool_decide (cmd = "ConfigAdminListGet") then st_ret (Some ConfigAdminListGet)
      else if bool_decide (cmd = "ConfigAdminListSet") then st_ret (Some (ConfigAdminListSet rest))
      else if bool_decide (cmd = "ConfigRconGet") then st_ret (Some ConfigRconGet)
      else if bool_decide (cmd = "ConfigRconSet") then st_ret (ConfigRconSet <$> arg 0%nat)
      else if bool_decide (cmd = "ConfigSecretsGet") then st_ret (Some ConfigSecretsGet)
      else if bool_decide (cmd = "ConfigSecretsSet") then
        st_ret (username ← arg 0%nat; token ← arg 1%nat; Some (ConfigSecretsSet username token))
      else if bool_decide (cmd = "ConfigServerSettingsGet") then st_ret (Some ConfigServerSettingsGet)
      else if bool_decide (cmd = "ConfigServerSettingsSet") then st_ret (ConfigServerSettingsSet <$> ok (dec json))
      else if bool_decide (cmd = "RconCommand") then st_ret (Some (RconCommand json))
      else st_ret None
  end.

Definition get_message_from_input (operation_id : OperationId) (input : string) :
    ST IoW (option AgentRequestWithId) :=
  r <- request_of_args (split_whitespace input) ;; st_ret (MkRequest operation_id <$> r).

(** ** Replies *)

(** The inner loop over what arrives: the lines printed and what is left;
    [None] is a panic, when the connection ends or fails. *)
Fixpoint read_replies (incoming : list (result string WsMessage)) :
    option (list string * list (result string WsMessage)) :=
  match incoming with
  | [] | Err _ :: _ => None
  | Ok (WText json) :: incoming' =>
      match dec (A := AgentResponseWithId) json with
      | Ok reply =>
          match rs_status reply with
          | Completed | Failed => Some ([json], incoming')
          | Ongoing | Ack => prod_map (cons json) id <$> read_replies incoming'
          end
      | Err _ =>
          if is_ok (dec (A := AgentStreamingMessageInner) json)
          then prod_map (cons json) id <$> read_replies incoming'
          else read_replies incoming'
      end
  | Ok _ :: incoming' => Some (["received unknown reply"], incoming')
  end.

(** The client: its files, what arrives and has not been read, what was sent
    and printed, and the number of ids made. *)
Record CliW := MkCli {
  cli_io : IoW;
  cli_incoming : list (result string WsMessage);
  cli_sent : list string;
  cli_printed : list string;
  cli_ids : nat;
}.
Definition set_cli_io (io : IoW) (w : CliW) : CliW :=
  MkCli io (cli_incoming w) (cli_sent w) (cli_printed w) (cli_ids w).
Definition print (lines : list string) (w : CliW) : CliW :=
  MkCli (cli_io w) (cli_incoming w) (cli_sent w) (cli_printed w ++ lines) (cli_ids w).

(** Whether the socket takes a message, by the number of the request. *)
Context (send_ok : nat → bool).

(** One round of [message_loop]: [Some false] ends it, [None] is a panic. *)
Definition round (input : string) : ST CliW (option bool) :=
  if is_blank input then st_ret (Some false)
  else
    n <- st_gets cli_ids ;;
    st_modify (λ w, MkCli (cli_io w) (cli_incoming w) (cli_sent w) (cli_printed w) (S n)) ;;
    message <- st_zoom cli_io set_cli_io (get_message_from_input (uuid_v4 n) input) ;;
    match message with
    | None => st_modify (print ["?"]) ;; st_ret (Some true)
    | Some req =>
        match enc req with
        | Err _ => st_ret None
        | Ok text =>
            if send_ok n then
              st_modify (λ w, MkCli (cli_io w) (cli_incoming w) (cli_sent w ++ [text]) (cli_printed w) (cli_ids w)) ;;
              incoming <- st_gets cli_incoming ;;
              match read_replies incoming with
              | None => st_ret None
              | Some (lines, rest) =>
                  st_modify (λ w, MkCli (cli_io w) rest (cli_sent w) (cli_printed w) (cli_ids w)) ;;
                  st_modify (print lines) ;; st_ret (Some true)
              end
            else st_modify (print ["Error sending message"]) ;; st_ret (Some true)
        end
    end.

Fixpoint message_loop (inputs : list string) : ST CliW (option ()) :=
  match inputs with
  | [] => st_ret (Some ())
  | input :: inputs' =>
      r <- round input ;;
      match r with
      | Some true => message_loop inputs'
      | Some false => st_ret (Some ())
      | None => st_ret None
      end
  end.

(** ** A whole conversation is read *)

Definition responses_of (texts : list string) : list AgentResponseWithId :=
  omap (λ t, ok (dec (A := AgentResponseWithId) t)) texts.

(** What the agent sends for a request is printed up to its final status and
    no further, with what it sends in between left out. *)
Theorem replies_read p id texts more :
  p ≠ Done → conversation p id (responses_of texts) = Some Done →
  (∀ t, t ∈ texts → is_ok (dec (A := AgentStreamingMessageInner) t) = false) →
  ∃ printed rest, read_replies ((Ok ∘ WText <$> texts) ++ more) = Some (printed, (Ok ∘ WText <$> rest) ++ more) ∧
    responses_of printed = responses_of texts ∧ length printed = length (responses_of texts) ∧
    responses_of rest = [].
Proof.
  revert p. induction texts as [|t texts IH]; intros p Hp; [cbn; congruence|].
  intros Hc Hin. cbn [fmap list_fmap app compose read_replies]. unfold responses_of in *. cbn [omap list_omap] in *.
  assert (∀ t', t' ∈ texts → is_ok (dec (A := AgentStreamingMessageInner) t') = false) as Hin'
    by (intros t' Ht'; apply Hin; by right).
  destruct (dec (A := AgentResponseWithId) t) as [r|e] eqn:Ht; cbn [ok] in *.
  2: { rw (Hin t); [|by left]. by apply (IH p). }
  cbn [conversation] in Hc. case_decide as Hid; [|done].
  destruct (next_phase p (rs_status r)) as [p'|] eqn:Hp'; [|done].
  destruct (decide (p' = Done)) as [->|Hne].
  - assert (omap (λ t, ok (dec (A := AgentResponseWithId) t)) texts = []) as Hnil.
    { destruct (omap _ texts) as [|r' rs'] eqn:Hrs; [done|]. cbn in Hc. case_decide; done. }
    exists [t], texts. cbn. rw Ht Hnil. destruct p, (rs_status r); done.
  - destruct (IH p' Hne Hc Hin') as (pr & rest & -> & H1 & H2 & H3). exists (t :: pr), rest. cbn. rw Ht. cbn.
    rw H1 H2. split_and!; [|done..]. destruct p, (rs_status r); cbn in Hp'; simplify_eq; done.
Qed.
End client.
