(* ===== verification/Witnesses.v ===== *)
(** * Witnesses: the theorems on concrete inputs

    For each theorem that has hypotheses, an instance of it in the environment
    of [Concrete] where they hold, with what it then says of that input. *)

From S2P Require Import Prelude Tasks Text Regex Schema Io Errors Settings Downloader Mods Saves Versions.
From S2P Require Import Builder Proc Agent Protocol System Handlers Lifecycle Concrete.
Import Calm.

Open Scope st_scope.

(** No prefix of a concrete directory is a file. *)
Ltac ready := intros [|[|[|[|?]]]] ?; vm_compute; discriminate.
Ltac can_write := split; [ready|by vm_compute].

(** A world with one file, and the empty one. *)
Definition empty_disk : IoW := disk_of ∅.
Definition disk1 (p : path) (n : node) : IoW := disk_of {[ p := n ]}.

(** ** Settings *)

Lemma list_set_read_witness :
  ((r <- list_set ADMIN_LIST_PATH ["alice"] ;;
    r' <- list_read ADMIN_LIST_PATH ;; st_ret (r, r')) empty_disk).1 =
  (Ok (), Ok (Some (MkListFile ["alice"] ADMIN_LIST_PATH))).
Proof.
  destruct (list_set_read ADMIN_LIST_PATH ["alice"] empty_disk) as (_ & _ & H); [by left|].
  apply H; [exact calm|can_write].
Defined.

Lemma launch_settings_initialised_witness :
  ∃ ls, ((r <- LaunchSettings.read_or_apply_default ;;
          r' <- LaunchSettings.read_or_apply_default ;; st_ret (r, r')) empty_disk).1 = (Ok ls, Ok ls) ∧
    LaunchSettings.rcon_password ls = "generated".
Proof.
  destruct (launch_settings_initialised empty_disk) as (ls & H1 & H2); [exact calm|can_write| |].
  - intros [f Hf]. by vm_compute in Hf.
  - exists ls. by split; [exact H1|].
Defined.

Lemma launch_settings_roundtrip_witness :
  let ls := LaunchSettings.Mk (MkSocketAddr UNSPECIFIED 1) (MkSocketAddr UNSPECIFIED 2) "pw" true in
  ∃ ls', ((r <- LaunchSettings.write ls ;; r' <- LaunchSettings.read ;; st_ret (r, r'))
            empty_disk).1.2 = Ok (Some ls') ∧
    LaunchSettings.rcon_password ls' = "pw" ∧ LaunchSettings.use_whitelist ls' = false.
Proof.
  intros ls. destruct (launch_settings_roundtrip ls empty_disk) as (_ & ls' & H1 & H2 & H3 & _);
    [exact calm|can_write|].
  exists ls'. exact (conj H1 (conj H2 H3)).
Defined.

(** Server settings with credentials in them. *)
Definition some_config : ServerSettingsConfig :=
  MkServerSettingsConfig "a server" "" [] (MkVisibility false true) 10 true false
    (Some "user") (Some "token") "" true 0 false AdminsOnly true 0 5 0 60 25 20 100 10.

Lemma server_settings_initialised_witness :
  let inst := FACTORIO_INSTALL_DIR ++ [Normal "factorio_headless_x64_1.1.110"] in
  let w := disk1 (resolve (example_path inst)) (text some_config) in
  (ServerSettings.read_or_apply_default inst w).1 =
  Ok (ServerSettings.Mk (set_credentials None None some_config) SERVER_SETTINGS_PATH).
Proof.
  intros inst w. destruct (server_settings_initialised inst w) as (_ & H); [exact calm|can_write|].
  destruct H as [H _]; [intros [f Hf]; by vm_compute in Hf|].
  destruct (H some_config) as [-> _]; [|done].
  apply saved_text. by vm_compute.
Defined.

(** ** Saves *)

Lemma upload_roundtrip_witness :
  stored (files (st_mapM (set_savefile "world") (save_parts 2 (bytes_of "abcde")) empty_disk).2)
    (get_savefile_path "world") (bytes_of "abcde").
Proof.
  destruct (upload_roundtrip "world" 2 (bytes_of "abcde") empty_disk) as (H & _ & Hok);
    [done|lia|]. apply H, Hok; [exact calm|can_write].
Defined.

Lemma get_savefile_stored_witness :
  (get_savefile "world" (disk1 (resolve (get_savefile_path "world")) (mkfile (bytes_of "zip")))).1 =
  Ok (Some (SaveBytes_new (bytes_of "zip"))).
Proof.
  destruct (get_savefile_stored "world" (bytes_of "zip")
    (disk1 (resolve (get_savefile_path "world")) (mkfile (bytes_of "zip")))) as (_ & _ & H).
  - by vm_compute.
  - apply stored_mkfile. by vm_compute.
  - apply H; [exact calm|by vm_compute].
Defined.

(** ** Downloads *)

Lemma download_source_witness :
  ∃ b, (download "rso_1.0.0.zip" "https://mods" empty_disk).1 = Ok b ∧
    ∃ n resp, net_get n "https://mods" = Ok resp ∧ http_body resp = Ok b.
Proof.
  destruct (download_source "rso_1.0.0.zip" "https://mods" empty_disk) as [_ H];
    [done|cbn; lia|].
  assert ((download "rso_1.0.0.zip" "https://mods" empty_disk).1 = Ok (bytes_of "https://mods")) as Hb
    by by vm_compute.
  destruct (H _ Hb) as [_ [(f & Hf & _)|(n & resp & Hg & _ & Hr)]]; [by vm_compute in Hf|].
  exists (bytes_of "https://mods"). split; [exact Hb|].
  exists n, resp. split; [exact Hg|exact Hr].
Defined.

Lemma download_cached_witness :
  (download "rso_1.0.0.zip" "https://mods"
     (disk1 (cache_dir ++ [Normal "rso_1.0.0.zip"]) (mkfile (bytes_of "cached")))).1 =
  Ok (bytes_of "cached").
Proof.
  destruct (download_cached "rso_1.0.0.zip" "https://mods" (MkFile (bytes_of "cached") 0 (Some 0%Z)) 0
    (disk1 (cache_dir ++ [Normal "rso_1.0.0.zip"]) (mkfile (bytes_of "cached")))) as [H _];
    [exact calm|ready|done|cbn; lia|by vm_compute|done|intros n; cbn; unfold ONE_DAY; lia|exact H].
Defined.

(** ** Mods *)

Definition rso : Mod := MkMod "rso" "1.0.0".

Lemma rso_ok : mod_ok rso.
Proof.
  split_and!; [done|by vm_compute| |by vm_compute|by vm_compute].
  exists "1", "0", "0". split; [done|]. by repeat constructor.
Qed.

Lemma try_from_filename_roundtrip_witness :
  ModManager.try_from_filename "rso_1.0.0.zip" = Some rso ∧ ModManager.mod_filename rso = "rso_1.0.0.zip".
Proof.
  destruct (try_from_filename_roundtrip (R := backtrack) (ud := no_digit)) as [H1 H2].
  split; [by apply (H2 rso), rso_ok|]. by apply H1; vm_compute.
Defined.

Definition some_mods : ModManager.t bytes :=
  ModManager.Mk {[Base; SpaceAge]} [rso] (Some (bytes_of "settings")) MOD_DIR.

Lemma metadata_roundtrip_witness :
  ∃ m', ((r <- ModManager.apply_metadata_only some_mods ;;
          r' <- ModManager.read (S := bytes) ;; st_ret (r, r')) empty_disk).1 = (Ok (), Ok (Some m')) ∧
    ModManager.dlcs m' = {[Base; SpaceAge]} ∧ ModManager.settings m' = Some (bytes_of "settings").
Proof.
  destruct (metadata_roundtrip some_mods empty_disk) as [Hsame [_ H]].
  - by intros s b [= ->].
  - destruct H as (H1 & m' & H2 & H3 & H4).
    + exact calm.
    + split_and!; [can_write|can_write|done|done].
    + intros b (f & Hf & _). by vm_compute in Hf.
    + exists m'. rw H3 Hsame; [|set_solver|by repeat constructor].
      split_and!; [by apply injective_projections|done|exact H4].
Defined.

(** A mods directory with another mod in it. *)
Definition mods_disk : IoW := disk_of
  {[ MOD_LIST_PATH := text [MkModListElem "base" true None; MkModListElem "old" true (Some "0.1.0")];
     MOD_DIR ++ [Normal "old_0.1.0.zip"] := mkfile (bytes_of "old") ]}.

Lemma mods_entries n : entry (files mods_disk) n → n = "mod-list.json" ∨ n = "old_0.1.0.zip".
Proof.
  assert (map_Forall (λ q _, (length q <= 2)%nat ∨ head q = Some RootDir ∨
    last q = Some (Normal "mod-list.json") ∨ last q = Some (Normal "old_0.1.0.zip"))
    (files mods_disk)) as Hl.
  { apply map_Forall_to_list. vm_compute.
    repeat (constructor; [first [by right; left|by right; right; left|by right; right; right|left; lia]|]).
    constructor. }
  intros [x Hx]. change (files mods_disk !! (MOD_DIR ++ [Normal n]) = Some x) in Hx.
  apply Hl in Hx. rw last_snoc in Hx. destruct Hx as [Hx|[Hx|[Hx|Hx]]].
  - vm_compute in Hx. lia.
  - by vm_compute in Hx.
  - left. by injection Hx.
  - right. by injection Hx.
Qed.

Lemma mods_names : names_ok (files mods_disk).
Proof. intros n [-> | ->]%mods_entries; by split. Qed.

Lemma apply_runs : (ModManager.apply some_mods (Secrets.Mk "user" "token") mods_disk).1 = Ok ().
Proof. by vm_compute. Qed.

Lemma apply_spec_witness :
  let r := ModManager.apply some_mods (Secrets.Mk "user" "token") mods_disk in
  r.1 = Ok () ∧ ∀ x, x ∈ disk_mods (files r.2) ↔ x = rso.
Proof.
  destruct (apply_spec (ud := no_digit) some_mods (Secrets.Mk "user" "token") mods_disk) with (6 := apply_runs)
    as [H1 H2].
  - by eexists.
  - done.
  - constructor; [exact rso_ok|constructor].
  - exact mods_names.
  - intros n _. by vm_compute.
  - intros r. split; [exact apply_runs|]. intros x. split.
    + intros Hx. apply (H2 calm) in Hx. by apply list_elem_of_singleton in Hx.
    + intros ->. apply H1. by left.
Defined.

(** ** Versions *)

Definition some_manager : VersionManager.t := VersionManager.Mk FACTORIO_INSTALL_DIR ∅.

(** Installing a version, then scanning the directory it was installed into. *)
Definition reinstall (v : string) :=
  (rv <- VersionManager.install some_manager v ;;
   r <- VersionManager.new FACTORIO_INSTALL_DIR ;; st_ret (rv, r)) empty_disk.

Lemma reinstall_runs v :
  v = "2.0.15" ∨ v = "1.1.110" → (reinstall v).1.1.1 = Ok () ∧ is_ok (reinstall v).1.2 = true.
Proof. intros [-> | ->]; split; by vm_compute. Qed.

Lemma not_found : ¬ found (files (reinstall "2.0.15").2) FACTORIO_INSTALL_DIR "2.0.15".
Proof. intros [Hf _]. by vm_compute in Hf. Qed.

Lemma install_then_scan_witness :
  (∃ vm, (reinstall "2.0.15").1.2 = Ok vm ∧ VersionManager.versions vm !! "2.0.15" = None) ∧
  (∃ vm, (reinstall "1.1.110").1.2 = Ok vm ∧ is_Some (VersionManager.versions vm !! "1.1.110")).
Proof.
  pose proof (install_then_scan some_manager "2.0.15" empty_disk) as H2.
  pose proof (install_then_scan some_manager "1.1.110" empty_disk) as H1.
  destruct (reinstall_runs "2.0.15") as [R2 S2]; [by left|].
  destruct (reinstall_runs "1.1.110") as [R1 S1]; [by right|].
  destruct H2 as (_ & _ & H2); [exact calm|by split; vm_compute|exact R2|].
  destruct H1 as (H1 & _ & H1'); [exact calm|by split; vm_compute|exact R1|].
  split.
  - destruct (reinstall "2.0.15").1.2 as [vm|] eqn:Hvm; [|discriminate S2]. exists vm.
    split; [reflexivity|]. destruct (H2 vm Hvm) as (_ & _ & Hiff).
    destruct (VersionManager.versions vm !! "2.0.15") as [f|] eqn:Hf; [|reflexivity].
    destruct (not_found (proj1 Hiff (mk_is_Some _ _ eq_refl))).
  - destruct (reinstall "1.1.110").1.2 as [vm|] eqn:Hvm; [|discriminate S1]. exists vm.
    split; [reflexivity|]. exists (MkFactorio (VersionManager.get_install_path some_manager "1.1.110") "1.1.110").
    etransitivity; [exact (H1' vm Hvm)|exact H1].
Defined.

Lemma version_manager_wf_witness :
  let r := VersionManager.install some_manager "1.1.110" empty_disk in
  r.1.1 = Ok () ∧ vm_wf r.1.2.
Proof.
  assert (vm_wf some_manager) as Hwf by by intros v f Hf.
  destruct (version_manager_wf some_manager "1.1.110" FACTORIO_INSTALL_DIR empty_disk) as (_ & [H _] & _);
    [done|exact Hwf|]. split; [by vm_compute|exact H].
Defined.

(** ** The process *)

Definition some_host : ServerHostBuilder :=
  ServerBuilder.hosting_savefile (Specific "world") some_mods (MkListFile [] ADMIN_LIST_PATH)
    (MkListFile [] BAN_LIST_PATH) (MkListFile [] WHITE_LIST_PATH)
    (LaunchSettings.Mk (MkSocketAddr UNSPECIFIED 34197) (MkSocketAddr UNSPECIFIED 27015) "pw" false)
    (ServerSettings.Mk some_config SERVER_SETTINGS_PATH)
    (ServerBuilder.using_installation (scanned FACTORIO_INSTALL_DIR "1.1.110")).

Definition no_proc : ProcW := idle_proc ∅.
Lemma no_proc_inv : pm_inv no_proc.
Proof. by apply idle_inv. Qed.

(** A server that was started, and one more started over it. *)
Definition started : ProcW := (ProcessManager.start_instance some_host no_proc).2.

Lemma started_runs : rtc pm_step (ProcessManager.new empty_disk) started.
Proof. apply rtc_once. exact (step_start some_host no_proc). Qed.

Lemma pm_invariant_witness : pm_inv started ∧ size (live started ∖ killed started) = 1%nat.
Proof.
  destruct (pm_invariant empty_disk started started_runs) as (H & _). split; [exact H|by vm_compute].
Defined.

Lemma start_instance_spec_witness :
  ∃ i, running_instance started = Some i ∧ live started ∖ killed started = {[pid i]} ∧
    child_cmd (process i) = pipe_and_kill_on_drop (hb_cmd some_host) ∧ info i = hb_info some_host.
Proof.
  destruct (start_instance_spec some_host no_proc no_proc_inv)
    as [_ [(_ & i & H1 & _ & H2 & H3 & H4 & _)|(k & H & _)]].
  - exists i. exact (conj H1 (conj H2 (conj H3 H4))).
  - by vm_compute in H.
Defined.

Lemma started_inv : pm_inv started.
Proof. apply (start_inv some_host), no_proc_inv. Qed.

Definition stopped : option StoppedInstance * ProcW := ProcessManager.stop_instance started.

Lemma stop_instance_spec_witness :
  ∃ s, stopped.1 = Some s ∧ st_info s = hb_info some_host ∧ live stopped.2 = ∅.
Proof.
  destruct (stop_instance_spec started started_inv) as (_ & _ & _ & H & _). fold stopped in H.
  assert (running_instance started =
    Some (MkStarted (MkChild 0 (si_cmd (build some_host))) (MkOutput None false Ready 0) (hb_info some_host))) as Hi
    by reflexivity.
  rw Hi in H. destruct H as [(s & H1 & H2 & H3 & _)|[H _]].
  - exists s. split; [exact H1|]. split; [exact H2|]. rw H3. by vm_compute.
  - by vm_compute in H.
Defined.

Lemma status_spec_witness :
  ∃ i, running_instance started = Some i ∧
    (ProcessManager.status started).1 = PsRunning (player_count (output i)) Ready.
Proof.
  pose proof (status_spec started started_inv) as H.
  assert ((ProcessManager.status started).1 = PsRunning 0 Ready) as Hs by by vm_compute.
  unfold wp in H. rw Hs in H. destruct H as (i & H1 & _ & H2 & _). exists i. split; [exact H1|].
  by rw -H2 Hs.
Defined.

Lemma process_stdout_spec_witness :
  let lines := [Ok "0.1 Info ServerMultiplayerManager.cpp: changing state from(CreatingGame) to(InGame)";
                Ok "2024-01-01 10:00:00 [JOIN] alice joined the game"; Err InvalidData;
                Ok "0.2 Info ServerMultiplayerManager.cpp: changing state from(InGame) to(InGameSavingMap)";
                Ok "0.3 Info ServerMultiplayerManager.cpp: changing state from(InGameSavingMap) to(Nowhere)"] in
  let o := (parse_process_stdout 0 "pw" lines (MkOutput None false Ready 3)).1 in
  internal_server_state o = InGameSavingMap ∧ player_count o = 4%Z.
Proof.
  intros lines o. destruct (process_stdout_spec 0 "pw" lines (MkOutput None false Ready 3)) as (_ & H1 & H2 & _).
  { by split. }
  split; [rw H1|rw H2]; by vm_compute.
Defined.

(** The server has connected to RCON, and nobody plays. *)
Definition connected_rcon : ProcW :=
  with_output (on_line 0 "pw" "Starting RCON interface at IP ADDR:({127.0.0.1:27015})") started.
Definition rcon_instance : StartedInstance :=
  default (MkStarted (MkChild 0 (hb_cmd some_host)) (MkOutput None false Ready 0) (hb_info some_host))
    (running_instance connected_rcon).

Lemma connected_runs : rtc pm_step (ProcessManager.new empty_disk) connected_rcon.
Proof.
  eapply rtc_r; [exact started_runs|].
  exact (step_line 0 "Starting RCON interface at IP ADDR:({127.0.0.1:27015})" started _ eq_refl).
Qed.

Lemma player_count_underflow_witness :
  ∃ w, rtc pm_step (ProcessManager.new empty_disk) w ∧
    player_count ∘ output <$> running_instance w = Some u32_max.
Proof.
  destruct (player_count_underflow 0 connected_rcon rcon_instance (MkRcon 27015 "pw" 0)
    "2024-01-01 10:00:00 [JOIN] alice joined the game" "2024-01-01 10:00:05 [LEAVE] alice left the game"
    "Online players (0):") as (H1 & H2 & H3 & _ & _ & H4); [reflexivity|apply (bool_decide_unpack _); reflexivity|reflexivity..|].
  eexists. split; [|exact H4].
  eapply rtc_r; [eapply rtc_r; [eapply rtc_r; [exact connected_runs|exact H1]|exact H2]|exact H3].
Defined.

(** ** The agent *)

Definition some_request : AgentRequestWithId := MkRequest "op" ServerStop.
#[local] Instance request_codec : Codec AgentRequestWithId := requests
  [("{stop}", some_request); ("{install}", MkRequest "op2" (VersionInstall "1.1.110" false));
   ("{rcon}", MkRequest "r" (ConfigRconSet "new")); ("{white}", MkRequest "w" (ConfigWhiteListSet true ["alice"]))].

Definition some_agent : AgentW := agent_of ∅.

Lemma some_agent_inv : pm_inv (aw_proc some_agent).
Proof. by apply idle_inv. Qed.

Lemma request_protocol_witness :
  ∃ ack prog fin,
    responses (ws_tx (alone (handle_message (MS := bytes) (MText "{stop}")) some_agent).2) = ack ++ prog ++ [fin] ∧
    (length ack <= 1)%nat ∧ (rs_status fin = Completed ∨ rs_status fin = Failed) ∧
    rs_operation_id fin = "op".
Proof.
  destruct (request_protocol (MS := bytes) "{stop}" some_request some_agent)
    as (ack & prog & fin & H1 & H2 & _ & _ & H3 & H4); [reflexivity|exact some_agent_inv|].
  exists ack, prog, fin. split; [exact H1|]. split; [exact H2|]. split; [exact H3|].
  apply Forall_app in H4 as [_ H4]. apply Forall_app in H4 as [_ H4].
  exact (Forall_inv H4).
Defined.

(** Broadcast messages are written with a mark that no response has. *)
#[local] Instance stream_codec : Codec AgentStreamingMessage := {|
  enc m := Ok ("~" +:+ bits_of (encode m));
  dec s := Err "not read";
|}.

Lemma marked_no_response (m : AgentStreamingMessage) text (r : AgentResponseWithId) :
  enc m = Ok text → dec text ≠ Ok r.
Proof. cbn. intros [= <-]. done. Qed.

(** The agent starts on a disk, a connection is accepted, and texts arrive. *)
Definition agent_on (m : fs) : AgentW := default (agent_of ∅) (ok (startup (disk_of m))).
Definition sys_at (m : fs) (texts : list string) : System :=
  MkSystem (with_tx [] (agent_on m)) {[ 0 := MkConn [] (MText <$> texts) [] true ]}
    (spawn_task (MS := bytes) 0 ∘ MText <$> texts).

Lemma receives m texts pre cs l :
  cs !! 0 = Some (MkConn [] pre [] true) →
  rtc (sys_step (MS := bytes)) (MkSystem m cs l)
    (MkSystem m (<[0 := MkConn [] (pre ++ (MText <$> texts)) [] true]> cs)
       (l ++ (spawn_task (MS := bytes) 0 ∘ MText <$> texts))).
Proof.
  revert pre cs l. induction texts as [|x texts IH]; intros pre cs l Hc.
  { cbn. rw !app_nil_r insert_id //. }
  eapply rtc_l; [eapply (sys_receive 0 _ (Ok (MText x))); [exact Hc|done|done]|].
  cbn [c_tx c_received c_done shared conns tasks].
  specialize (IH (pre ++ [MText x]) (<[0 := MkConn [] (pre ++ [MText x]) [] true]> cs) (l ++ (spawn_task 0 <$> [MText x]))).
  rw insert_insert_eq -!app_assoc in IH. apply IH. by rw lookup_insert_eq.
Qed.

Lemma sys_at_reachable m texts : rtc (sys_step (MS := bytes)) (initial (agent_on m)) (sys_at m texts).
Proof.
  eapply rtc_l; [by apply (sys_accept 0)|].
  pose proof (receives (with_tx [] (agent_on m)) texts [] {[ 0 := MkConn [] [] [] true ]} [] eq_refl) as H.
  rw insert_singleton_eq in H. exact H.
Qed.

Lemma steps_reachable m texts l s :
  schedule l (sys_at m texts) = Some s → rtc (sys_step (MS := bytes)) (initial (agent_on m)) s.
Proof.
  intros Hs. etrans; [apply sys_at_reachable|]. by eapply handlers_run, schedule_sound.
Qed.

Lemma startup_ok m : is_ok (startup (disk_of m)) = true → startup (disk_of m) = Ok (agent_on m).
Proof. unfold agent_on. by destruct (startup (disk_of m)). Qed.
Lemma starts : startup empty_disk = Ok (agent_on ∅).
Proof. apply startup_ok. by vm_compute. Qed.

(** A request to stop the server and one to install a version, handled at the
    same time: before the version is known, after that, and in the end. *)
Definition sys1 : System := sys_at ∅ ["{stop}"; "{install}"].
Definition sys_mid : System := default sys1 (schedule [1; 0; 1; 1; 0; 1; 1; 1]%nat sys1).
Definition sys_next : System := default sys1 (step_task 1 sys_mid).
Definition sys2 : System := default sys1 (schedule [0; 1; 0; 0; 0; 0]%nat sys_next).

Definition some_sys (o : option System) : bool := match o with Some _ => true | None => false end.
Lemma some_default (o : option System) s : some_sys o = true → o = Some (default s o).
Proof. by destruct o. Qed.

Lemma sys_mid_steps : schedule [1; 0; 1; 1; 0; 1; 1; 1]%nat sys1 = Some sys_mid.
Proof. apply some_default. by vm_compute. Qed.
Lemma sys_next_step : step_task 1 sys_mid = Some sys_next.
Proof. apply some_default. by vm_compute. Qed.
Lemma sys2_steps : schedule [0; 1; 0; 0; 0; 0]%nat sys_next = Some sys2.
Proof. apply some_default. by vm_compute. Qed.
Lemma sys2_reachable : rtc (sys_step (MS := bytes)) (initial (agent_on ∅)) sys2.
Proof.
  etrans; [eapply steps_reachable, sys_mid_steps|]. apply handlers_run.
  eapply rtc_l; [eapply step_task_sound, sys_next_step|]. exact (schedule_sound _ _ _ sys2_steps).
Qed.

Definition sys2_conn : Conn := default (MkConn [] [] [] true) (conns sys2 !! 0%nat).
Lemma sys2_conn_there : conns sys2 !! 0%nat = Some sys2_conn.
Proof.
  unfold sys2_conn. destruct (conns sys2 !! 0%nat) eqn:H; [done|].
  assert (bool_decide (is_Some (conns sys2 !! 0%nat)) = true) as Hs by by vm_compute.
  rw H in Hs. by vm_compute in Hs.
Qed.
Lemma sys2_distinct : distinct sys2_conn.
Proof. apply (bool_decide_unpack _). by vm_compute. Qed.
Lemma sys2_done : "op" ∈ omap request_id (c_done sys2_conn) ∧ "op2" ∈ omap request_id (c_done sys2_conn).
Proof. split; apply (bool_decide_unpack _); by vm_compute. Qed.

Lemma system_protocol_witness :
  conversation Fresh "op" (under "op" sys2_conn) = Some Done ∧
  conversation Fresh "op2" (under "op2" sys2_conn) = Some Done.
Proof.
  pose proof (system_protocol (MS := bytes) marked_no_response empty_disk _ sys2 0 sys2_conn starts
    sys2_reachable sys2_conn_there sys2_distinct) as H.
  exact (conj (proj1 (H "op") (proj1 sys2_done)) (proj1 (H "op2") (proj2 sys2_done))).
Defined.

Lemma system_safe_witness :
  pm_inv (aw_proc (shared sys2)) ∧ ∀ c conn, conns sys2 !! c = Some conn → Forall allowed (c_tx conn).
Proof.
  destruct (system_safe (MS := bytes) marked_no_response empty_disk _ sys2 starts sys2_reachable)
    as (H1 & _ & H2). exact (conj H1 H2).
Defined.

(** While the version is being installed the tasks can go on, and they end. *)
Lemma requests_end_witness :
  Acc (λ s2 s1, handler_step s1 s2) sys_mid ∧ (∃ s, handler_step sys_mid s) ∧
  ∀ s, rtc handler_step sys_mid s → (∃ s', handler_step s s') ∨ System.tasks s = [].
Proof.
  destruct (requests_end (MS := bytes) marked_no_response empty_disk _ sys_mid starts
    (steps_reachable _ _ _ _ sys_mid_steps)) as [H1 H2].
  split; [exact H1|]. split; [exists sys_next; exact (step_task_sound _ _ _ sys_next_step)|].
  intros s Hs. destruct (H2 s Hs) as [H|[H _]]; [left|right]; exact H.
Defined.

Lemma versions_locked_witness :
  aw_vm (shared sys_next) ≠ aw_vm (shared sys_mid) ∧
  ∃ pre τ post, System.tasks sys_mid = pre ++ τ :: post ∧ t_held τ = Some GWrite ∧
    Forall (λ σ, t_held σ = None) (pre ++ post).
Proof.
  assert (aw_vm (shared sys_next) ≠ aw_vm (shared sys_mid)) as Hne.
  { intros H. apply (f_equal (λ v, size (VersionManager.versions v))) in H. by vm_compute in H. }
  destruct (versions_locked (MS := bytes) marked_no_response empty_disk _ sys_mid sys_next starts
    (steps_reachable _ _ _ _ sys_mid_steps)) as [H|(pre & τ & post & H1 & H2 & _ & H3)].
  - apply sys_handle. exact (step_task_sound _ _ _ sys_next_step).
  - destruct (Hne H).
  - split; [exact Hne|]. exists pre, τ, post. exact (conj H1 (conj H2 H3)).
Defined.

(** The step that reports the installation as done. *)
Definition sys_end : System := default sys1 (schedule [0; 1; 0]%nat sys_next).
Definition sys_told : System := default sys1 (step_task 0 sys_end).
Definition conn_of (s : System) : Conn := default (MkConn [] [] [] true) (conns s !! 0%nat).
Definition told : list AgentResponseWithId :=
  responses (drop (length (c_tx (conn_of sys_end))) (c_tx (conn_of sys_told))).

Lemma conn_of_there s : bool_decide (is_Some (conns s !! 0%nat)) = true → conns s !! 0%nat = Some (conn_of s).
Proof. unfold conn_of. by destruct (conns s !! 0%nat). Qed.
Lemma sys_end_steps : schedule [0; 1; 0]%nat sys_next = Some sys_end.
Proof. apply some_default. by vm_compute. Qed.
Lemma sys_told_step : step_task 0 sys_end = Some sys_told.
Proof. apply some_default. by vm_compute. Qed.
Lemma sys_end_reachable : rtc (sys_step (MS := bytes)) (initial (agent_on ∅)) sys_end.
Proof.
  etrans; [eapply steps_reachable, sys_mid_steps|]. apply handlers_run.
  eapply rtc_l; [eapply step_task_sound, sys_next_step|]. exact (schedule_sound _ _ _ sys_end_steps).
Qed.
Definition id_and_status (r : AgentResponseWithId) : OperationId * OperationStatus :=
  (rs_operation_id r, rs_status r).
Lemma told_what : id_and_status <$> told = [("op2", Completed)].
Proof. by vm_compute. Qed.
Lemma told_rest l l' rs y :
  l' = l ++ rs → id_and_status <$> responses (drop (length l) l') = y → id_and_status <$> responses rs = y.
Proof. intros ->. by rw drop_app_length. Qed.
Lemma sys_end_received : c_received (conn_of sys_end) = [MText "{stop}"; MText "{install}"].
Proof. by vm_compute. Qed.

Lemma install_id : request_id (MText "{install}") = Some "op2".
Proof. by vm_compute. Qed.
Lemma install_asks : asks (MText "{install}") = Some "1.1.110".
Proof. by vm_compute. Qed.
Lemma install_received : MText "{install}" ∈ c_received (conn_of sys_end).
Proof. rw sys_end_received. set_solver. Qed.

Lemma reports_true_witness : is_Some (VersionManager.versions (aw_vm (shared sys_told)) !! "1.1.110").
Proof.
  destruct (reports_true (MS := bytes) marked_no_response empty_disk _ sys_end sys_told 0
    (conn_of sys_end) (conn_of sys_told) starts sys_end_reachable) as (rs & Hrs & H).
  - apply sys_handle. exact (step_task_sound _ _ _ sys_told_step).
  - apply conn_of_there. by vm_compute.
  - apply conn_of_there. by vm_compute.
  - apply (bool_decide_unpack _). by vm_compute.
  - pose proof (told_rest _ _ _ _ Hrs told_what) as Ht. clear Hrs.
    destruct (responses rs) as [|r l]; [discriminate Ht|]. injection Ht as Hid Hs _.
    destruct (H r (list_elem_of_here _ _)) as (_ & _ & Hdone).
    refine (Hdone _ _ install_received _ install_asks Hs).
    exact (eq_trans install_id (f_equal Some (eq_sym Hid))).
Defined.

(** Stopping the server while another request waits. *)
Lemma handled_alone_witness :
  let w := (alone (handle_message (MS := bytes) (MText "{stop}")) (with_tx [] (shared sys1))).2 in
  rtc handler_step sys1 (MkSystem (with_tx [] w)
    {[ 0%nat := MkConn (ws_tx w) [MText "{stop}"; MText "{install}"] [MText "{stop}"] true ]}
    [spawn_task (MS := bytes) 0 (MText "{install}")]).
Proof.
  intros w. pose proof (handled_alone (MS := bytes) marked_no_response empty_disk (agent_on ∅) sys1 [] 0
    (MText "{stop}") [spawn_task 0 (MText "{install}")]
    (MkConn [] [MText "{stop}"; MText "{install}"] [] true) starts (sys_at_reachable _ _) eq_refl eq_refl) as H.
  cbv zeta in H. unfold sys1 at 2, sys_at in H. cbn [conns] in H. rw insert_singleton_eq in H.
  apply H. repeat constructor.
Defined.

Lemma config_lists_roundtrip_witness :
  answered (alone (config_admin_list_set ["alice"] "a" ;; config_admin_list_get "b") some_agent).2
    "b" Completed (OConfigAdminList ["alice"]).
Proof.
  destruct (config_lists_roundtrip ["alice"] "a" "b" some_agent) as [H _];
    [exact calm|can_write|can_write|exact H].
Defined.

(** The files of an agent that has run before. *)
Definition used_files : fs :=
  {[ LAUNCH_SETTINGS_PATH := text (LaunchSettings.Mk (MkSocketAddr UNSPECIFIED 34197)
       (MkSocketAddr UNSPECIFIED 27015) "pw" false);
     WHITE_LIST_PATH := text (A := list string) [] ]}.
Definition used_agent : AgentW := agent_of used_files.

(** Two requests at the same time, of which one is lost. *)
Definition sys3 : System := sys_at used_files ["{rcon}"; "{white}"].
Definition sys4 : System := default sys3 (schedule [0; 1; 0; 0; 0; 0; 0; 0; 0; 0; 0]%nat sys3).
Definition read_password (s : System) : option string :=
  match (LaunchSettings.read (pw_io (aw_proc (shared s)))).1 with
  | Ok (Some ls) => Some (LaunchSettings.rcon_password ls)
  | _ => None
  end.
Definition statuses (s : System) : list (OperationId * OperationStatus) :=
  default [] ((λ c, (λ r, (rs_operation_id r, rs_status r)) <$> responses (c_tx c)) <$> conns s !! 0%nat).

(** Nothing holds the settings files between the reading and the writing of a
    handler.  A request that sets the RCON password and one that sets the
    whitelist, handled at the same time, are both reported as done, and the
    password is the one from before. *)
Theorem update_lost :
  rtc (sys_step (MS := bytes)) (initial (agent_on used_files)) sys4 ∧
  statuses sys4 = [("r", Completed); ("w", Completed)] ∧ System.tasks sys4 = [] ∧
  read_password sys3 = Some "pw" ∧ read_password sys4 = Some "pw".
Proof.
  split; [|by vm_compute]. eapply steps_reachable, some_default. by vm_compute.
Qed.

Lemma white_list_switch_lost_witness :
  answered (alone (config_white_list_set true ["alice"] "a" ;;
                   a <- atom st_get ;; config_white_list_get "b" ;; t_ret a)%task used_agent).2
    "b" Completed (OConfigWhiteList (MkWhitelistObject false ["alice"])).
Proof.
  destruct (white_list_switch_lost (LaunchSettings.Mk (MkSocketAddr UNSPECIFIED 34197)
    (MkSocketAddr UNSPECIFIED 27015) "pw" false) [] true ["alice"] "a" "b" used_agent) as [_ H];
    [exact calm|ready|apply saved_text; by vm_compute..|exact H].
Defined.

(** An agent with a stored save. *)
Definition save_agent : AgentW :=
  agent_of {[ resolve (get_savefile_path "world") := mkfile (bytes_of "zip") ]}.

Lemma save_agent_stored : stored (disk save_agent) (get_savefile_path "world") (bytes_of "zip").
Proof. apply stored_mkfile. by vm_compute. Qed.
Lemma save_agent_dir : node_at (disk save_agent) SAVEFILE_DIR = Some Dir.
Proof. by vm_compute. Qed.
Lemma world_simple : simple_name "world".
Proof. by vm_compute. Qed.

Lemma save_download_witness :
  wp (alone (save_get "world" "op"))
     (λ _ w', ∃ ack parts fin sbs total,
        responses (ws_tx w') = [ack] ++ parts ++ [fin] ∧
        rs_content <$> parts = OSaveFile <$> sbs ∧ rs_content fin = OSaveFile (sentinel total) ∧
        apply_parts (sbs ++ [sentinel total]) [] = bytes_of "zip") save_agent.
Proof.
  destruct (save_download "world" (bytes_of "zip") "op" save_agent calm world_simple
    save_agent_stored save_agent_dir)
    as (_ & ack & parts & fin & sbs & total & H1 & _ & _ & _ & H2 & H3 & _ & H4).
  exists ack, parts, fin, sbs, total. exact (conj H1 (conj H2 (conj H3 (H4 [])))).
Defined.

(** An installed version, a save and the server settings. *)
Definition installed (on_disk : bool) : AgentW :=
  let inst := FACTORIO_INSTALL_DIR ++ [Normal "factorio_headless_x64_1.1.110"] in
  let w := agent_of ((if on_disk then {[ resolve inst := Dir ]} else ∅) ∪
    {[ resolve (get_savefile_path "world") := mkfile (bytes_of "zip");
       MOD_LIST_PATH := text [MkModListElem "base" true None];
       SERVER_SETTINGS_PATH := text (set_credentials None None some_config) ]}) in
  MkAgentW (aw_proc w) (VersionManager.Mk FACTORIO_INSTALL_DIR
    {[ "1.1.110" := scanned FACTORIO_INSTALL_DIR "1.1.110" ]}) [] [].

Lemma installed_inv b : pm_inv (aw_proc (installed b)).
Proof. by apply idle_inv. Qed.
Lemma installed_one b : (size (VersionManager.versions (aw_vm (installed b))) <= 1)%nat.
Proof. vm_compute. lia. Qed.

(** The final status of a handler. *)
Definition status_of (w : AgentW) : option OperationStatus := rs_status <$> final_reply w.

Definition after_start : AgentW := (alone (server_start (MS := bytes) (Specific "world") "op") (installed true)).2.
Lemma after_start_done : status_of after_start = Some Completed.
Proof. by vm_compute. Qed.

Lemma server_start_outcome_witness :
  ∃ f i, VersionManager.versions (aw_vm (installed true)) !! "1.1.110" = Some f ∧
    running_instance (aw_proc after_start) = Some i ∧
    live (aw_proc after_start) ∖ killed (aw_proc after_start) = {[pid i]} ∧
    hosts f "world" (child_cmd (process i)).
Proof.
  destruct (server_start_outcome (MS := bytes) (Specific "world") "op" (installed true) (installed_inv true))
    as (r & Hr & _ & f & Hs & Hf).
  pose proof after_start_done as Hd. unfold status_of in Hd. fold after_start in Hr, Hs. rw Hr in Hd.
  injection Hd as Hd. rw Hd in Hs. destruct (Hf Hd) as [v Hv].
  destruct Hs as (_ & _ & _ & name & save & i & [= <-] & _ & H1 & H2 & H3 & _).
  cbn in Hv. apply lookup_singleton_Some in Hv as [<- <-]. eexists _, i. split; [reflexivity|].
  exact (conj H1 (conj H2 H3)).
Defined.

Definition after_upgrade : AgentW := (alone (version_install (MS := bytes) "2.0.15" false "op") (installed true)).2.
Lemma after_upgrade_done : status_of after_upgrade = Some Completed.
Proof. by vm_compute. Qed.

Lemma version_install_outcome_witness :
  dom (VersionManager.versions (aw_vm after_upgrade)) = {["2.0.15"]}.
Proof.
  destruct (version_install_outcome (MS := bytes) "2.0.15" false "op" (installed true)
    (installed_inv true) (installed_one true)) as (r & Hr & _ & Hs & _).
  pose proof after_upgrade_done as Hd. unfold status_of in Hd. fold after_upgrade in Hr, Hs. rw Hr in Hd.
  injection Hd as Hd. rw Hd in Hs. exact Hs.
Defined.

(** An upgrade while a server runs, when the directory of the previous version
    cannot be removed: the server stays stopped, both versions are installed,
    and the next request for the version assumes there is at most one. *)
Definition running_agent : AgentW :=
  (alone (server_start (MS := bytes) (Specific "world") "op") (installed false)).2.

Example failed_upgrade :
  let w := (alone (version_install (MS := bytes) "2.0.15" false "op2") running_agent).2 in
  is_some (running_instance (aw_proc running_agent)) = true ∧
  status_of w = Some Failed ∧ is_some (running_instance (aw_proc w)) = false ∧
  elements (dom (VersionManager.versions (aw_vm w))) = ["1.1.110"; "2.0.15"].
Proof. by vm_compute. Qed.

(** The download of a mod is refused.  The error of a request names its URL,
    which holds the token, and [{:?}] prints the errors of the tasks. *)
Section token_in_error.
#[local] Instance refusing_net : NetEnv := {|
  net_get _ uri := Ok (MkHttpResponse
    (if starts_with "https://mods.factorio.com/api/" uri then None
     else Some ("kind: Status(403), url: " +:+ uri)) (Ok []));
  temp_dir := [RootDir; Normal "tmp"];
|}.
#[local] Instance derived_debug : DebugError := {|
  debug := fix go e := match e with
    | Reqwest e => "Reqwest(" +:+ e +:+ ")"
    | Aggregate es => "Aggregate([" +:+ String.concat ", " (go <$> es) +:+ "])"
    | _ => "error"
    end;
  debug_io e := "error";
|}.

Definition with_secrets : AgentW :=
  (alone (config_secrets_set "user" "secret" "a") (installed true)).2.

Example token_in_error :
  let w := (alone (mod_list_set (MS := bytes) [MkModObject "rso" "1.0.0"] "b") with_secrets).2 in
  rs_content <$> final_reply w = Some (OError ("Failed to apply mod changes: Aggregate([Reqwest(" +:+
    "kind: Status(403), url: https://mods.factorio.com//download?username=user&token=secret)])")).
Proof. vm_compute. reflexivity. Qed.
End token_in_error.

Lemma config_roundtrip_witness :
  answered (alone (config_secrets_set "user" "token" "a" ;; config_secrets_get "b") used_agent).2
    "b" Completed (OConfigSecrets (Some (MkSecretsObject "user" None))).
Proof.
  destruct (config_roundtrip (LaunchSettings.Mk (MkSocketAddr UNSPECIFIED 34197)
    (MkSocketAddr UNSPECIFIED 27015) "pw" false) "new" "user" "token" some_config "a" "b" used_agent)
    as (_ & H & _);
    [exact calm|ready|apply saved_text; by vm_compute|can_write|can_write|exact H].
Defined.

Lemma keeps_bytes (s b : bytes) : settings_try_into s = Ok b → settings_try_from b = Ok s.
Proof. by intros [= ->]. Qed.
Lemma installed_mods : mods_usable (MS := bytes) (disk (installed true)).
Proof.
  split_and!; [split_and!|can_write|can_write|].
  - by vm_compute.
  - exists [MkModListElem "base" true None]. apply saved_text. by vm_compute.
  - by intros b _.
  - assert (disk_mods (disk (installed true)) = []) as -> by by vm_compute. constructor.
Qed.

Definition set_dlcs : AgentW := (alone (mod_dlcs_set (MS := bytes) {[Base]} "a") (installed true)).2.
Lemma set_dlcs_done : (rs_status <$> final_reply set_dlcs) = Some Completed.
Proof. by vm_compute. Qed.

Lemma mods_metadata_handlers_witness :
  answered (alone (mod_dlcs_get (MS := bytes) "b") set_dlcs).2 "b" Completed
    (ODlcList (elements ({[Base]} : gset Dlc))).
Proof.
  destruct (mods_metadata_handlers (MS := bytes) keeps_bytes (λ _, eq_refl) {[Base]} [] [] "a" "b"
    (installed true) calm installed_mods eq_refl) as [H _].
  exact (proj2 (H set_dlcs_done)).
Defined.
