(* ===== verification/MgmtConcrete.v ===== *)
(** * MgmtConcrete: the parameters of the management server instantiated

    A codec of the requests, a database that is a map and never fails,
    numbers for [f64], and a channel that keeps exactly its capacity. *)

From S2P Require Import Prelude Text Order Schema Io Errors Concrete.
From S2P Require Import Builder MgmtErrors Db Metrics Events Clients Links WsServer Auth Discord Rpc.
From S2P Require Import Logs Routes.

(** ** Requests as numbers *)

Inductive Leaf :=
| LString (s : string)
| LBool (b : bool)
| LOption (o : option string)
| LStrings (l : list string)
| LSave (b : SaveBytes)
| LDlcs (l : list Dlc)
| LMods (l : list ModObject)
| LBytes (b : bytes)
| LConfig (c : ServerSettingsConfig).

#[export] Instance Leaf_eq : EqDecision Leaf.
Proof. solve_decision. Defined.
#[export] Instance Leaf_countable : Countable Leaf.
Proof.
  by refine (inj_countable'
    (λ l, match l with
          | LString s => inl (inl (inl s)) | LBool b => inl (inl (inr b))
          | LOption o => inl (inr (inl o)) | LStrings l => inl (inr (inr l))
          | LSave b => inr (inl (inl b)) | LDlcs l => inr (inl (inr l))
          | LMods l => inr (inr (inl l)) | LBytes b => inr (inr (inr (inl b)))
          | LConfig c => inr (inr (inr (inr c)))
          end)
    (λ x, match x with
          | inl (inl (inl s)) => LString s | inl (inl (inr b)) => LBool b
          | inl (inr (inl o)) => LOption o | inl (inr (inr l)) => LStrings l
          | inr (inl (inl b)) => LSave b | inr (inl (inr l)) => LDlcs l
          | inr (inr (inl l)) => LMods l | inr (inr (inr (inl b))) => LBytes b
          | inr (inr (inr (inr c))) => LConfig c
          end) _); intros [].
Defined.

Definition request_code (r : AgentRequest) : nat * list Leaf :=
  match r with
  | BuildVersion => (0, [])
  | SystemResources => (1, [])
  | VersionInstall v f => (2, [LString v; LBool f])
  | VersionGet => (3, [])
  | ServerStart Latest => (4, [])
  | ServerStart (Specific n) => (5, [LString n])
  | ServerStop => (6, [])
  | ServerStatus => (7, [])
  | SaveCreate n a b => (8, [LString n; LOption a; LOption b])
  | SaveDelete n => (9, [LString n])
  | SaveGet n => (10, [LString n])
  | SaveList => (11, [])
  | SaveSet n b => (12, [LString n; LSave b])
  | ModDlcsGet => (13, [])
  | ModDlcsSet l => (14, [LDlcs l])
  | ModListGet => (15, [])
  | ModListExtractFromSave n => (16, [LString n])
  | ModListSet l => (17, [LMods l])
  | ModSettingsGet => (18, [])
  | ModSettingsSet b => (19, [LBytes b])
  | ConfigAdminListGet => (20, [])
  | ConfigAdminListSet l => (21, [LStrings l])
  | ConfigBanListGet => (22, [])
  | ConfigBanListSet l => (23, [LStrings l])
  | ConfigRconGet => (24, [])
  | ConfigRconSet p => (25, [LString p])
  | ConfigSecretsGet => (26, [])
  | ConfigSecretsSet u t => (27, [LString u; LString t])
  | ConfigServerSettingsGet => (28, [])
  | ConfigServerSettingsSet c => (29, [LConfig c])
  | ConfigWhiteListGet => (30, [])
  | ConfigWhiteListSet e l => (31, [LBool e; LStrings l])
  | RconCommand c => (32, [LString c])
  end%nat.

Definition request_of (x : nat * list Leaf) : AgentRequest :=
  match x with
  | (0, []) => BuildVersion
  | (1, []) => SystemResources
  | (2, [LString v; LBool f]) => VersionInstall v f
  | (3, []) => VersionGet
  | (4, []) => ServerStart Latest
  | (5, [LString n]) => ServerStart (Specific n)
  | (6, []) => ServerStop
  | (7, []) => ServerStatus
  | (8, [LString n; LOption a; LOption b]) => SaveCreate n a b
  | (9, [LString n]) => SaveDelete n
  | (10, [LString n]) => SaveGet n
  | (11, []) => SaveList
  | (12, [LString n; LSave b]) => SaveSet n b
  | (13, []) => ModDlcsGet
  | (14, [LDlcs l]) => ModDlcsSet l
  | (15, []) => ModListGet
  | (16, [LString n]) => ModListExtractFromSave n
  | (17, [LMods l]) => ModListSet l
  | (18, []) => ModSettingsGet
  | (19, [LBytes b]) => ModSettingsSet b
  | (20, []) => ConfigAdminListGet
  | (21, [LStrings l]) => ConfigAdminListSet l
  | (22, []) => ConfigBanListGet
  | (23, [LStrings l]) => ConfigBanListSet l
  | (24, []) => ConfigRconGet
  | (25, [LString p]) => ConfigRconSet p
  | (26, []) => ConfigSecretsGet
  | (27, [LString u; LString t]) => ConfigSecretsSet u t
  | (28, []) => ConfigServerSettingsGet
  | (29, [LConfig c]) => ConfigServerSettingsSet c
  | (30, []) => ConfigWhiteListGet
  | (31, [LBool e; LStrings l]) => ConfigWhiteListSet e l
  | (32, [LString c]) => RconCommand c
  | _ => BuildVersion
  end%nat.

Lemma request_of_code r : request_of (request_code r) = r.
Proof. by destruct r as [| | | |[]| | | | | | | | | | | | | | | | | | | | | | | | | | |]. Qed.

#[export] Instance AgentRequest_countable : Countable AgentRequest := inj_countable' _ _ request_of_code.
#[export] Instance AgentRequestWithId_countable : Countable AgentRequestWithId.
Proof.
  by refine (inj_countable' (λ r, (rq_operation_id r, rq_message r)) (λ x, MkRequest x.1 x.2) _); intros [].
Defined.

#[export] Instance DiscordUser_eq : EqDecision DiscordUser.
Proof. solve_decision. Defined.
#[export] Instance DiscordUser_countable : Countable DiscordUser.
Proof.
  by refine (inj_countable' (λ u, (du_id u, username u, discriminator u))
    (λ x, MkDiscordUser x.1.1 x.1.2 x.2) _); intros [].
Defined.
#[export] Instance OAuthTokenFullResponse_eq : EqDecision OAuthTokenFullResponse.
Proof. solve_decision. Defined.
#[export] Instance OAuthTokenFullResponse_countable : Countable OAuthTokenFullResponse.
Proof.
  by refine (inj_countable'
    (λ t, (tf_access_token t, token_type t, tf_expires_in t, refresh_token t, scope t))
    (λ x, MkTokenFull x.1.1.1.1 x.1.1.1.2 x.1.1.2 x.1.2 x.2) _); intros [].
Defined.

(** ** The environment *)

Module MgmtCalm.
#[export] Instance broadcast : BroadcastEnv := {| kept_messages n := n |}.
#[export] Instance broadcast_laws : BroadcastLaws.
Proof. by split. Qed.

#[export] Instance client : ClientEnv := {| ws_addr := "ws://agent:5463/"; utc_now := Z.of_nat |}.

(** Natural numbers, in decimal. *)
#[export] Instance f64_nat : F64 := {|
  f64 := N;
  f64_zero := 0%N;
  f64_parse s := Z.to_N <$> parse_digits 0 s;
  f64_to_string := pretty;
|}.
#[export] Instance f64_laws : F64Laws.
Proof.
  split; intros x; cbn.
  - rw parse_digits_of_N. cbn. by rw N2Z.id.
  - apply digits_utf8, pretty_N_digits.
Qed.

#[export] Instance unicode : UnicodeCase := {| to_lowercase := string_lower; to_lowercase_ascii _ _ := eq_refl |}.

(** A database is the map of its contents, a handle a name. *)
Definition store := gmap string (gmap string string).
#[export] Instance rocks : RocksDb store string := {|
  rocks_cf_handle n s := match s !! n with Some _ => Some n | None => None end;
  rocks_create_cf n := λ s, (Ok (), <[n := ∅]> s);
  rocks_get h k := λ s, (Ok (m ← s !! h; m !! k), s);
  rocks_put h k v := λ s, (Ok (), <[h := <[k := v]> (default ∅ (s !! h))]> s);
  rocks_iterator h mode := λ s, (Ok <$> scan mode (default ∅ (s !! h)), s);
|}.

#[export, refine] Instance rocks_laws : RocksLaws store string := {| contents s := s; cf_of h := h |}.
Proof.
  - intros n s. cbn. by destruct (s !! n) eqn:H; cbn; rw ?H.
  - by intros n s H.
  - intros h k m s H. unfold wp. cbn. by rw H.
  - intros h k v m s H. unfold wp. cbn. by rw H.
  - intros h mode m s H. unfold wp. cbn. rw H. split; [done|]. exists (scan mode m), [].
    rw app_nil_r. auto.
Defined.

#[export] Instance rocks_reliable : RocksReliable store string.
Proof. split; intros; cbn; try done. apply Forall_fmap, Forall_true. done. Qed.

(** Every call of the client times out. *)
#[export] Instance answers : AgentAnswers := {| waited _ := Elapsed; streamed _ := []; late _ := 0%nat |}.

(** Discord knows one token, the administrator's. *)
#[export] Instance discord : DiscordApi := {|
  http_post _ _ _ := Err "no route to host";
  http_get_bearer _ _ token :=
    if bool_decide (token = "secret")
    then Ok (MkHttp None (@enc _ countable_codec (MkDiscordUser "42" "admin" "0")))
    else Ok (MkHttp (Some "401") (Ok ""));
|}.

#[export] Instance mention : Mention := {| Discord.mention n := "<@" +:+ pretty n +:+ ">" |}.
#[export] Instance members : DiscordMembers := {| members_of _ := Ok (Some (Ok [])) |}.
#[export] Instance debug_mgmt : Mgmt.DebugMgmtError := {| Mgmt.debug _ := "error" |}.

#[export] Instance hash : HashEnv := {| hash_iter _ m := map_to_list m |}.
#[export] Instance hash_laws : HashLaws.
Proof. by split. Qed.

#[export] Instance routes : RouteEnv := {|
  uuid_simple := pretty;
  uuid_hyphenated := pretty;
  route_now := Z.of_nat;
  logged _ := [];
  time_to_string t := pretty (Z.to_N t);
  mgmt_build_timestamp := "2024-01-01T00:00:00Z";
  mgmt_git_sha := None;
  portal_get _ uri := Ok (MkPortal 200 "" (Ok uri));
|}.

(** Nanoseconds, with as many digits as those of the last four-digit year. *)
#[export] Instance rfc3339 : Rfc3339 := {| to_rfc3339 t := pad_left "0" 21 (pretty (Z.to_N t)) |}.
#[export] Instance rfc3339_laws : Rfc3339Laws.
Proof.
  split; unfold to_rfc3339, rfc3339.
  - unfold four_digit_year, YEAR_10000, str_lt. intros t1 t2 H1 H2 Hlt.
    rw padded_compare; [apply N.compare_lt_iff; lia|apply pretty_length_le; cbn; lia..].
  - intros t. unfold pad_left. apply valid_utf8_app; [|apply digits_utf8, pretty_N_digits].
    generalize (21 - String.length (pretty (Z.to_N t)))%nat as n. by induction n.
Qed.
End MgmtCalm.
