(* ===== verification/MgmtWitnesses.v ===== *)
(** * MgmtWitnesses: the theorems of the management server on concrete inputs *)

From S2P Require Import Prelude Text Order Regex Schema Io Errors Agent Protocol System Concrete Witnesses.
From S2P Require Import MgmtErrors Db Metrics Events Clients Reconnect EndToEnd World MgmtConcrete.
Import Calm MgmtCalm.

Open Scope st_scope.

(** ** The event broker *)

Definition chat (text : string) : Event := MkEvent {[ CHAT_TOPIC_NAME := text ]} 0%Z text.
Definition chat_sub : Subscriber * EventBroker :=
  subscribe CHAT_TOPIC_NAME (λ s, bool_decide (s ≠ "spam")) EventBroker_new.

Lemma subscriber_fifo_witness :
  let x := run [Publish (chat "a"); Publish (chat "spam"); Next; Publish (chat "b"); Next; Next]
             chat_sub.2 chat_sub.1 in
  x.1 ++ pending x.2.1 x.2.2 = [chat "a"; chat "b"].
Proof.
  refine (proj2 (subscriber_fifo [Publish (chat "a"); Publish (chat "spam"); Next; Publish (chat "b");
    Next; Next] chat_sub.2 chat_sub.1 _) _).
  - unfold in_range. vm_compute. lia.
  - vm_compute. lia.
Defined.

(** ** Requests *)

Definition outgoing : Subscriber * EventBroker := subscribe_outgoing EventBroker_new.
Definition some_client : ClientW := MkClientW outgoing.2 true 0.

Lemma request_sent_witness :
  ∃ sub e, (send_request_and_subscribe ServerStop some_client).1 = Ok ("0", sub) ∧
    pending (event_broker (send_request_and_subscribe ServerStop some_client).2) outgoing.1 = [e].
Proof.
  destruct (request_sent (MS := bytes) ServerStop some_client outgoing.1)
    as (id & sub & e & H1 & H2 & H3 & _).
  - vm_compute. lia.
  - reflexivity.
  - reflexivity.
  - exists sub, e. rw H2 in H1. split; [exact H1|exact H3].
Defined.

(** ** Delivery *)

Section delivery.
#[local] Existing Instances request_codec stream_codec.

Definition stop_sub : Subscriber * EventBroker :=
  subscribe OPERATION_TOPIC_NAME (λ v, bool_decide (v = "op")) EventBroker_new.

Lemma stop_sub_awaits : awaits "op" stop_sub.1.
Proof. split; [done|]. intros v. apply bool_decide_eq_true. Qed.

Lemma operation_delivered_witness :
  ∃ e rest (r : AgentResponseWithId),
    pending (publish_incoming (Ok ∘ WText <$> c_tx sys2_conn) stop_sub.2 0).1 stop_sub.1 = e :: rest ∧
    dec (content e) = Ok r ∧ conversation Fresh "op" (decoded (e :: rest)) = Some Done.
Proof.
  destruct (operation_delivered (MS := bytes) marked_no_response empty_disk _ sys2 0 sys2_conn "op"
    stop_sub.1 stop_sub.2 0 0 starts sys2_reachable sys2_conn_there sys2_distinct (proj1 sys2_done))
    as (e & rest & r & H1 & H2 & H3 & _).
  - exact stop_sub_awaits.
  - vm_compute. lia.
  - reflexivity.
  - exists e, rest, r. exact (conj H1 (conj H2 H3)).
Defined.
End delivery.

(** ** Both programs

    The client connects and asks for the server to be stopped; the request is
    written, reaches the agent, is handled, and the answer comes back. *)

Section world.
#[local] Existing Instance stream_codec.

Definition w_start : World := world_initial (agent_on ∅) EventBroker_new.
Definition w_connected : World :=
  MkWorld (accept 0 (agent_side w_start)) (connect (client_side w_start)) [MkLink 0 0 0].
Definition requested : result Mgmt.Error (OperationId * Subscriber) * ClientW :=
  send_request_and_subscribe ServerStop (api_client (client_side w_connected)).
Definition reply_sub : Subscriber := match requested.1 with Ok r => r.2 | Err _ => stop_sub.1 end.
Definition w_requested : World :=
  MkWorld (agent_side w_connected)
    (MkClientSys requested.2 (agent_conns (client_side w_connected)) (reconnect_loop (client_side w_connected))) [MkLink 0 0 0].
Definition no_conn : AgentConn := MkAgentConn stop_sub.1 0 true true true [].
Definition conn_k (wd : World) : AgentConn := default no_conn (agent_conns (client_side wd) !! 0%nat).
Definition conn_a (wd : World) : Conn := default (MkConn [] [] [] true) (conns (agent_side wd) !! 0%nat).
Definition w_written : World :=
  MkWorld (agent_side w_requested)
    (set_conn 0 (forward_outgoing true (broker w_requested) (conn_k w_requested)) (client_side w_requested)) [MkLink 0 0 0].
Definition request_text : string := default "" (written (conn_k w_written) !! 0%nat).
Definition w_taken : World :=
  MkWorld (take_in (MS := bytes) 0 (conn_a w_written) request_text (agent_side w_written)) (client_side w_written) [MkLink 0 1 0].
Definition w_handled : World :=
  MkWorld (default (agent_side w_taken) (schedule [0; 0; 0; 0]%nat (agent_side w_taken))) (client_side w_taken) [MkLink 0 1 0].
Definition answer_text : string := default "" (c_tx (conn_a w_handled) !! 0%nat).
Definition w_answered : World :=
  let r := receive (Ok (WText answer_text)) (broker w_handled) (conn_k w_handled) in
  MkWorld (agent_side w_handled) (set_broker r.1 (set_conn 0 r.2 (client_side w_handled))) [MkLink 0 1 1].

Lemma conn_k_there wd : bool_decide (length (agent_conns (client_side wd)) = 1)%nat = true →
  agent_conns (client_side wd) !! 0%nat = Some (conn_k wd).
Proof. unfold conn_k. intros H%bool_decide_eq_true. by destruct (agent_conns (client_side wd)). Qed.
Lemma conn_a_there wd : bool_decide (is_Some (conns (agent_side wd) !! 0%nat)) = true →
  conns (agent_side wd) !! 0%nat = Some (conn_a wd).
Proof. unfold conn_a. by destruct (conns (agent_side wd) !! 0%nat). Qed.
Lemma head_there (l : list string) : bool_decide (length l = 1)%nat = true → l !! 0%nat = Some (default "" (l !! 0%nat)).
Proof. intros H%bool_decide_eq_true. by destruct l. Qed.

Lemma w_connected_run : rtc (world_step (MS := bytes)) w_start w_connected.
Proof. apply rtc_once. by apply (w_connect 0 w_start). Qed.

Lemma requested_is : requested = (Ok ("0", reply_sub), requested.2).
Proof.
  assert (is_ok requested.1 = true ∧ (fst <$> ok requested.1) = Some "0") as [H1 H2] by by vm_compute.
  unfold reply_sub. destruct requested as [[[id sub]|e] cw]; [|done]. cbn in *. by injection H2 as ->.
Qed.

Lemma w_written_step : world_step (MS := bytes) w_requested w_written.
Proof.
  apply (w_client _ w_requested), (own_forward _ 0 (conn_k w_requested) true).
  - apply conn_k_there. by vm_compute.
  - by vm_compute.
Qed.
Lemma w_taken_step : world_step (MS := bytes) w_written w_taken.
Proof.
  apply (w_deliver 0 (MkLink 0 0 0) (conn_k w_written) request_text (conn_a w_written) w_written eq_refl).
  - apply conn_k_there. by vm_compute.
  - apply head_there. by vm_compute.
  - apply conn_a_there. by vm_compute.
  - by vm_compute.
Qed.
Lemma w_handled_run : rtc (world_step (MS := bytes)) w_taken w_handled.
Proof.
  apply (world_handlers (agent_side w_handled) w_taken), (schedule_sound [0; 0; 0; 0]%nat), some_default.
  by vm_compute.
Qed.
Lemma w_answered_step : world_step (MS := bytes) w_handled w_answered.
Proof.
  apply (w_arrive 0 (MkLink 0 1 0) (conn_k w_handled) answer_text (conn_a w_handled) w_handled eq_refl).
  - apply conn_k_there. by vm_compute.
  - apply conn_a_there. by vm_compute.
  - apply head_there. by vm_compute.
  - by vm_compute.
Qed.
Lemma w_answered_run : rtc (world_step (MS := bytes)) w_requested w_answered.
Proof.
  eapply rtc_l; [exact w_written_step|]. eapply rtc_l; [exact w_taken_step|].
  etrans; [exact w_handled_run|]. apply rtc_once. exact w_answered_step.
Qed.

Lemma conn_k_only wd k : agent_conns (client_side wd) = [k] → k = conn_k wd.
Proof. unfold conn_k. by intros ->. Qed.
Lemma conn_a_only wd conn : conns (agent_side wd) !! 0%nat = Some conn → conn = conn_a wd.
Proof. unfold conn_a. by intros ->. Qed.
Lemma w_all_written : "0" ∈ omap (request_id ∘ MText) (written (conn_k w_answered)).
Proof. apply (bool_decide_unpack _). by vm_compute. Qed.
Lemma w_all_delivered : 1%nat = length (written (conn_k w_answered)).
Proof. by vm_compute. Qed.
Lemma w_all_arrived : 1%nat = length (c_tx (conn_a w_answered)).
Proof. by vm_compute. Qed.
Lemma w_at_rest : System.tasks (agent_side w_answered) = [].
Proof. apply nil_length_inv. by vm_compute. Qed.

Lemma request_across_witness :
  conversation Fresh "0" (decoded (pending (broker w_answered) reply_sub)) = Some Done.
Proof.
  destruct (request_across (MS := bytes) marked_no_response empty_disk (agent_on ∅) EventBroker_new w_connected
    ServerStop "0" reply_sub requested.2 w_answered (MkLink 0 1 1) starts w_connected_run requested_is
    w_answered_run eq_refl) as (k & conn & Hk & Hc & _ & _ & _ & H).
  apply conn_k_only in Hk. apply conn_a_only in Hc. subst k conn.
  exact (H w_all_written w_all_delivered w_all_arrived w_at_rest).
Defined.

Lemma w_requested_up : up w_requested (MkLink 0 0 0) (conn_k w_requested) (conn_a w_requested).
Proof.
  split; [reflexivity|]. split; [reflexivity|]. split; [apply conn_a_there; by vm_compute|].
  split_and!; by vm_compute.
Qed.
Lemma w_few_wait : (length (unread (broker w_requested) (outgoing_stream (conn_k w_requested))) <= TOPIC_CAPACITY)%nat.
Proof. apply Nat.leb_le. by vm_compute. Qed.
Lemma w_waits : "0" ∈ omap (request_id ∘ MText) (queued (broker w_requested) (conn_k w_requested)).
Proof. apply (bool_decide_unpack _). by vm_compute. Qed.

Lemma request_answerable_witness :
  ∃ wd, rtc (world_step (MS := bytes)) w_requested wd ∧
    conversation Fresh "0" (decoded (pending (broker wd) reply_sub)) = Some Done.
Proof.
  exact (request_answerable (MS := bytes) marked_no_response empty_disk (agent_on ∅) EventBroker_new w_connected
    ServerStop "0" reply_sub requested.2 w_requested (MkLink 0 0 0) (conn_k w_requested) (conn_a w_requested)
    starts w_connected_run requested_is (rtc_refl _ _) w_requested_up w_few_wait w_waits).
Defined.
End world.

(** ** The database *)

Definition db1 : store :=
  {[ "chat" := {[ "k1" := "one"; "k2" := "two"; "k3" := "three"; "k4" := "four" ]} ]}.

Definition first_page : result Mgmt.Error ReadRange := (read_range (MkCf "chat") "k2" DirForward 2 db1).1.

Lemma read_range_page_witness :
  ∃ rr, first_page = Ok rr ∧ length (records rr) = 2%nat ∧ is_Some (continue_from rr).
Proof.
  destruct (read_range_page (MkCf "chat") "k2" DirForward 2 db1) as [_ H].
  - lia.
  - repeat constructor.
  - fold first_page in H. destruct first_page as [rr|e] eqn:Hp; [|by vm_compute in Hp].
    destruct H as (l & unread & Hl & Hrel & Hr & Hc). exists rr. specialize (Hrel _). subst unread.
    rw app_nil_r in Hl. subst l. split; [done|]. split.
    + rw Hr. by vm_compute.
    + destruct (continue_from rr); [by eexists|]. vm_compute in Hc. lia.
Defined.

(** ** Metrics *)

Definition point (name : string) (n : N) (v : N) : DataPoint.t :=
  DataPoint.Mk name MetricPeriod.PT05S (MkTick n) v.
Definition record_of (dp : DataPoint.t) : string * string :=
  (default "" (DataPoint.key dp), f64_to_string (DataPoint.value dp)).
Definition metrics_db (ps : list DataPoint.t) : store :=
  {[ "metrics_PT05S" := list_to_map (record_of <$> ps) ]}.

Lemma metric_keys_witness :
  ∃ k, DataPoint.key (point "iron" 300 7) = Some k ∧ String.length k = 64%nat ∧
    DataPoint.try_from k 7%N = Some (Ok (point "iron" 300 7)).
Proof.
  destruct (metric_keys (F := f64_nat) MetricPeriod.PT05S "iron" (MkTick 300) 7%N (point "iron" 300 7))
    as (k & H1 & H2 & H3 & _); [reflexivity|reflexivity|].
  exists k. exact (conj H1 (conj H2 H3)).
Defined.

Definition points : list DataPoint.t := [point "iron" 100 1; point "iron" 200 2; point "iron" 300 3].
Definition all_points : list DataPoint.t := point "copper" 50 9 :: points ++ [point "steel" 7 5].
Definition stored_points : gmap string string := list_to_map (record_of <$> all_points).

Lemma point_holds name n v :
  str_has "#" name = false → (String.length name <=? 44)%nat = true → valid_utf8 name = true →
  (n <=? MAX_TICK)%N = true → holds MetricPeriod.PT05S (record_of (point name n v)) (point name n v).
Proof.
  intros H1 H2%Nat.leb_le H3 H4%N.leb_le. repeat split; try done.
  - unfold record_of, DataPoint.key. cbn [fst DataPoint.period DataPoint.metric_name DataPoint.tick point].
    by rw lookup_key_parts.
  - apply f64_text.
  - apply f64_roundtrip.
Qed.

Lemma stored_holds x :
  stored_points !! x.1 = Some x.2 →
  ∃ dp, dp ∈ all_points ∧ x = record_of dp ∧ holds MetricPeriod.PT05S x dp.
Proof.
  intros Hx. destruct x as [k v]. cbn [fst snd] in Hx.
  assert ((k, v) ∈ record_of <$> all_points) as Hin by exact (elem_of_list_to_map_2 _ _ _ Hx). clear Hx.
  apply list_elem_of_fmap in Hin as (dp & Hr & Hdp). exists dp. split; [done|]. split; [done|].
  rw Hr. clear Hr. unfold all_points, points in Hdp. cbn [app] in Hdp.
  repeat (apply elem_of_cons in Hdp as [->|Hdp]; [by apply point_holds|]). apply elem_of_nil in Hdp as [].
Qed.

Lemma stored_lookup dp :
  dp ∈ all_points → stored_points !! (record_of dp).1 = Some (record_of dp).2.
Proof.
  unfold all_points, points. cbn [app].
  intros H. repeat (apply elem_of_cons in H as [->|H]; [by vm_compute|]). apply elem_of_nil in H as [].
Qed.

Lemma iron_points : points_of MetricPeriod.PT05S stored_points "iron" DirForward 0 points.
Proof.
  split.
  - repeat constructor.
  - intros dp. split.
    + intros Hdp. assert (dp ∈ all_points) as Hall by (unfold all_points; set_solver).
      pose proof (stored_lookup _ Hall) as Hl. destruct (stored_holds _ Hl) as (dp' & _ & _ & _).
      split_and!; [| |cbn; lia].
      * exists (record_of dp). split; [done|].
        unfold points in Hdp. repeat (apply elem_of_cons in Hdp as [->|Hdp]; [by apply point_holds|]).
        apply elem_of_nil in Hdp as [].
      * unfold points in Hdp. repeat (apply elem_of_cons in Hdp as [->|Hdp]; [done|]). apply elem_of_nil in Hdp as [].
    + intros ((x & Hx & Hdp) & Hname & _). destruct (stored_holds _ Hx) as (dp' & Hin & _ & Hdp').
      rw (holds_inj _ _ _ _ Hdp Hdp') in Hname |- *. clear Hdp Hdp' Hx. unfold all_points, points in *. cbn [app] in Hin.
      repeat (apply elem_of_cons in Hin as [->|Hin]; [first [by vm_compute in Hname|set_solver]|]).
      apply elem_of_nil in Hin as [].
Qed.

Lemma metric_page_witness :
  (get "iron" "PT5S" 2 "Forward" None (metrics_db all_points)).1 =
    Some (Ok (MkMetricsPage (Some "300")
      [MkMetricsDataPoint 100 MetricsPeriod.PT5S 1%N; MkMetricsDataPoint 200 MetricsPeriod.PT5S 2%N])).
Proof.
  destruct (metric_page (metrics_db all_points) "iron" "PT5S" MetricPeriod.PT05S 2 "Forward" DirForward
    None points) as (nx & H1 & H2 & _).
  - reflexivity.
  - reflexivity.
  - reflexivity.
  - lia.
  - unfold MAX_TICK. lia.
  - intros k v Hkv. destruct (stored_holds (k, v)) as (dp & _ & _ & Hdp); [exact Hkv|by exists dp].
  - exact iron_points.
  - rw H1 H2; [reflexivity|]. cbn. lia.
Defined.

Definition iron_page : MetricsPaginationObject (F := f64_nat) :=
  MkMetricsPage (Some "7") ((λ n : N, MkMetricsDataPoint (F := f64_nat) (100 * Z.of_N n) MetricsPeriod.PT5S n) <$> [1; 2; 3]%N).

(** A page that ends exactly with the last data point of its metric, when
    the keys of another metric follow, gives the tick of the other metric as
    [next]; asking for that page gives the same page again, and so for ever. *)
Theorem metric_paging_repeats :
  let page from := (get "iron" "PT5S" 3 "Forward" from (metrics_db all_points)).1 in
  ∃ p, page None = Some (Ok p) ∧ next p = Some "7" ∧ page (Some 7%N) = Some (Ok p).
Proof.
  exists iron_page. split_and!; reflexivity.
Qed.
