(* ===== verification/HandlerWitnesses.v ===== *)
(** * HandlerWitnesses: the handlers of the management server on concrete inputs

    Links, streams, guards, chat, metrics and logs: the theorems applied where
    their hypotheses hold. *)

From S2P Require Import Prelude Tasks Text Order Regex Schema Io Errors Builder Agent Protocol System Concrete Witnesses.
From S2P Require Import MgmtErrors Db Metrics Events Clients Reconnect Links WsServer Auth Discord Rpc Logs.
From S2P Require Import Routes Startup.
From S2P Require Import EndToEnd MgmtConcrete MgmtWitnesses.
Import Calm MgmtCalm.

Open Scope st_scope.

(** ** Links *)

Definition half_hour : Z := 30 * 60 * 1000.
Definition link_acts : list LinkAct :=
  [Create "other" half_hour TModSettingsDat; CleanUp half_hour; CleanUp (3 * half_hour)].

Lemma link_acts_others : not_remade "link" link_acts.
Proof. intros now target H. unfold link_acts in H. repeat (apply elem_of_cons in H as [H|H]; [done|]). by apply elem_of_nil in H. Qed.

Lemma link_lifetime_witness :
  LinkDownloadManager.get_link "link" (link_run link_acts
    (LinkDownloadManager.create_link "link" 0 (TSavefile "world") ∅).2) = None.
Proof.
  destruct (link_lifetime "link" 0 (TSavefile "world") link_acts ∅ link_acts_others) as [_ H].
  apply (H [Create "other" half_hour TModSettingsDat; CleanUp half_hour] (3 * half_hour)%Z []).
  - reflexivity.
  - vm_compute. reflexivity.
Defined.

(** ** Streams *)

Definition ws0 : WebSocketServer := WebSocketServer_new 8080 false.
Definition two_events : list Event := [chat "one"; chat "two"].
Definition ws1 : WebSocketServer := stream_at "/operation/1" two_events ws0.
Definition ws2 : WebSocketServer := (on_request "/operation/1" ws1).2.
Definition ws3 : WebSocketServer := forward 0 (handshake_done 0 true ws2).

Lemma ws3_reachable : rtc ws_step ws1 ws3.
Proof.
  eapply rtc_l; [apply (ws_request "/operation/1")|].
  eapply rtc_l; [apply (ws_handshake 0 true); by apply (bool_decide_unpack _); vm_compute|].
  eapply rtc_l; [apply (ws_forward 0)|]. apply rtc_refl.
Qed.

Lemma stream_forwarded_witness :
  ∃ c, calls ws3 !! 0%nat = Some c ∧ s_state c = Connected ["one"] ∧ content <$> s_rest c = ["two"].
Proof.
  destruct (stream_forwarded 8080 false ws0 "/operation/1" two_events ws3 (rtc_refl _ _) ws3_reachable)
    as ((c & Hc & _ & Hsent) & _ & _).
  exists c. assert (s_state c = Connected ["one"]) as Hs by (vm_compute in Hc; by injection Hc as <-).
  split; [exact Hc|]. split; [exact Hs|]. specialize (Hsent _ Hs). by injection Hsent.
Defined.

(** ** Who a request is from *)

Definition with_discord : AuthnProvider := ProviderDiscord "client" "client secret".
Definition the_admin : AuthzManager := MkAuthz (MkUserIdentity "42").
Definition bearer (token : string) : Headers :=
  λ h, if bool_decide (h = "Authorization") then Some ("Bearer " +:+ token)
       else if bool_decide (h = "Host") then Some "example.com:8000" else None.

Lemma authorized_is_admin_witness :
  (AuthorizedUser_guard the_admin (bearer "secret") (AuthnManager_new with_discord)).1 =
    Outcome.Success (MkUserIdentity "42") ∧
  (∃ token, bearer "secret" "Authorization" = Some ("Bearer " +:+ token) ∧
            vouched token (MkUserIdentity "42")).
Proof.
  pose proof (authorized_is_admin with_discord the_admin (bearer "secret") _ (rtc_refl _ _)) as H.
  assert ((AuthorizedUser_guard the_admin (bearer "secret") (AuthnManager_new with_discord)).1 =
    Outcome.Success (MkUserIdentity "42")) as Hr by by vm_compute.
  split; [exact Hr|]. exact (proj2 (H _ Hr)).
Defined.

(** After the first request the administrator's identity is kept. *)
Definition authenticated : AuthnManager := (get_id_details "secret" (AuthnManager_new with_discord)).2.

Lemma identity_kept_witness :
  get_id_details "secret" (sweep 1000 authenticated) = (Ok (MkUserIdentity "42"), sweep 1000 authenticated).
Proof.
  destruct (identity_kept with_discord "secret" (MkUserIdentity "42") authenticated) as (_ & _ & H).
  - eapply rtc_l; [apply auth_details|apply rtc_refl].
  - done.
  - by vm_compute.
  - apply H; [by vm_compute|]. eapply rtc_l; [|apply rtc_refl]. split; [apply auth_sweep|by vm_compute].
Defined.

Definition mgmt : MgmtW store :=
  MkMgmtW some_client (AuthnManager_new with_discord) ∅ (WebSocketServer_new 8081 false) ∅ 0 0.
Definition asked (token : string) (r : Request string) : Answer bytes * MgmtW store :=
  serve the_admin (bearer token) r mgmt.

Lemma access_control_witness :
  (∃ st, (asked "guess" StopServer).1 = Denied st) ∧ untouched mgmt (asked "guess" StopServer).2 ∧
  public_effect (J := string) (GetLogs "chat" 10 "Forward" None) mgmt
    (asked "guess" (GetLogs "chat" 10 "Forward" None)).2.
Proof.
  pose proof (λ r, access_control (MS := bytes) (J := string) with_discord the_admin (bearer "guess") r mgmt
    (rtc_refl _ _)) as H.
  destruct (H StopServer) as [_ [(st & Hst & Hu)|(token & Ht & n & text & du & Hv & _)]].
  - split; [by exists st|]. split; [exact Hu|]. exact (proj2 (H (GetLogs "chat" 10 "Forward" None))).
  - exfalso. injection Ht as <-. by vm_compute in Hv.
Defined.

(** Anyone can make a column family of the database: asking for the logs of a
    category that does not exist makes it. *)
Example logs_make_column_families :
  mw_db (asked "guess" (GetLogs "anything" 10 "Forward" None)).2 = {[ "anything" := ∅ ]}.
Proof. reflexivity. Qed.

(** A provider that is misspelt leaves the server open to everyone. *)
#[local] Instance any_address : AddrParse := {| url_parse := Some; ip_parse := Some |}.
Definition misspelt : Env := λ name,
  (list_to_map [("AGENT_ADDR", "ws://agent:5463"); ("DISCORD_INTEGRATION", "true");
    ("DISCORD_BOT_TOKEN", "token"); ("AUTH_PROVIDER", "Discord"); ("MGMT_SERVER_WS_PORT", "8001");
    ("MGMT_SERVER_WS_ADDRESS", "0.0.0.0"); ("RPROXY_ENABLED", "false")] : gmap string string) !! name.

Definition open_config : Config :=
  MkConfig "ws://agent:5463" (Some (MkDiscordConfig "token" None None None true)) ProviderNone
    (MkAuthz anonymous) ("0.0.0.0", 8001%Z) false.

Lemma misspelt_config : read_config misspelt = Ok open_config.
Proof. by vm_compute. Qed.
Example misspelt_is_open : from_admin (authn open_config) (authz open_config) (λ _, None).
Proof. apply (who_is_admin misspelt open_config _ misspelt_config). by left. Qed.

(** ** Connections *)

(** A connection that answers no ping is given up, and another is made; the
    first still writes requests. *)
Definition no_pong (s : ClientSys) : ClientSys :=
  match agent_conns s !! 0%nat with Some c => set_conn 0 (ping c) s | None => s end.
Fixpoint silent_conn (n : nat) : ClientSys :=
  match n with O => connect (AgentApiClient_new EventBroker_new) | S n' => no_pong (silent_conn n') end.
Definition two_conns : ClientSys := connect (abandon (silent_conn 4)).

Lemma no_pong_step s : keep_alive_task <$> agent_conns s !! 0%nat = Some true → conn_step s (no_pong s).
Proof.
  unfold no_pong. destruct (agent_conns s !! 0%nat) as [c|] eqn:Hc; [|done]. cbn. intros [= Hk].
  by apply step_ping.
Qed.
Lemma abandon_step s :
  reconnect_loop s = Watching 0 → alive <$> agent_conns s !! 0%nat = Some false → conn_step s (abandon s).
Proof.
  intros Hl. destruct (agent_conns s !! 0%nat) as [c|] eqn:Hc; [|done]. cbn. intros [= Hk].
  by apply (step_abandon s 0 c).
Qed.

Lemma two_conns_reachable : rtc conn_step (AgentApiClient_new EventBroker_new) two_conns.
Proof.
  assert (rtc conn_step (AgentApiClient_new EventBroker_new) (silent_conn 4)) as H4.
  { eapply rtc_r; [|apply no_pong_step; by vm_compute]. eapply rtc_r; [|apply no_pong_step; by vm_compute].
    eapply rtc_r; [|apply no_pong_step; by vm_compute]. eapply rtc_r; [|apply no_pong_step; by vm_compute].
    apply rtc_once, step_connect. reflexivity. }
  eapply rtc_r; [eapply rtc_r; [exact H4|apply abandon_step; by vm_compute]|]. apply step_connect. reflexivity.
Qed.

Definition stop_sent : ClientW := (send_request_and_subscribe ServerStop (api_client two_conns)).2.
Definition sent_on_conn (i : nat) : option (list string) :=
  (λ c, written (forward_outgoing true (event_broker stop_sent) c)) <$> agent_conns two_conns !! i.

(** Nothing is written and nothing waits before the request; after it one
    event is unread. *)
Definition conn_view (c : AgentConn) : list string * list Event * nat :=
  (written c, pending (event_broker (api_client two_conns)) (outgoing_stream c),
   length (unread (event_broker stop_sent) (outgoing_stream c))).
Lemma conn_views : conn_view <$> agent_conns two_conns = [([], [], 1%nat); ([], [], 1%nat)].
Proof. by vm_compute. Qed.

Lemma request_fans_out_witness :
  ∃ text, enc (MkRequest "0" ServerStop) = Ok text ∧
    sent_on_conn 0 = Some [text] ∧ sent_on_conn 1 = Some [text].
Proof.
  destruct (request_fans_out EventBroker_new two_conns ServerStop two_conns_reachable eq_refl)
    as [_ (e & He & H)].
  exists (content e). split; [exact He|].
  assert (∀ i, (i < 2)%nat → sent_on_conn i = Some [content e]) as Hi; [|split; apply Hi; lia].
  intros i Hi. assert (conn_view <$> agent_conns two_conns !! i = Some ([], [], 1%nat)) as Hv.
  { rw -list_lookup_fmap conn_views. by destruct i as [|[|i]]; [| |lia]. }
  unfold sent_on_conn. destruct (agent_conns two_conns !! i) as [c|] eqn:Hc; [|done].
  destruct (H i c Hc) as [_ W]. injection Hv as E1 E2 E3. rw E1 in W.
  cbn [fmap option_fmap option_map]. f_equal. apply W; [|exact E2].
  change (length (unread (event_broker stop_sent) (outgoing_stream c)) <= TOPIC_CAPACITY)%nat.
  rw E3. unfold TOPIC_CAPACITY. lia.
Defined.

(** ** The chat *)

Definition to_game (preserve : bool) : Handler := MkHandler 7 preserve.
Definition said : Message := MkMessage 7 false "Ann" "it's C:\".

(** The message as a call of [print], and as it is typed by default. *)
Example chat_printed : chat_command (to_game false) said =
  Some "/silent-command game.print('[Discord] Ann: it\'s C:\\')".
Proof. reflexivity. Qed.
Example chat_typed : chat_command (to_game true) said = Some "[Discord] Ann: it\'s C:\\".
Proof. reflexivity. Qed.

(** ** Metrics that the game streams *)

#[local] Instance batch_eq : EqDecision (@DataPointBatch f64_nat).
Proof.
  intros [t1 d1] [t2 d2].
  destruct (decide ((t1, d1) = (t2, d2) :> N * gmap string N)); [left|right]; congruence.
Defined.
#[local] Instance batch_countable : Countable (@DataPointBatch f64_nat).
Proof.
  by refine (inj_countable' (A := N * gmap string N) (λ b, (@Rpc.timestamp f64_nat b, @Rpc.data f64_nat b))
    (λ x, @MkBatch f64_nat x.1 x.2) _); intros [].
Defined.
#[local] Instance no_oneshot : Codec (@OneshotData f64_nat) :=
  {| enc _ := Err "unused"; dec _ := Err "unused" |}.

Definition a_batch : @DataPointBatch f64_nat := @MkBatch f64_nat 300%N {[ "iron" := 7%N ]}.
Definition rpc_w : RpcW store := MkRpcW some_client (∅ : store) [].
Definition batch_text : string := bits_of (encode a_batch).

Lemma stream_stored_witness :
  ∃ x, metrics_of (handle (F := f64_nat) None ("stream " +:+ batch_text) rpc_w).2 !! x.1 = Some x.2 ∧
       holds MetricPeriod.PT05S x (point "iron" 300 7).
Proof.
  pose proof (stream_stored (F := f64_nat) None batch_text a_batch rpc_w) as H.
  destruct H as (_ & H & _).
  - by apply (codec_roundtrip a_batch).
  - intros name [v Hv]. cbn [data a_batch] in Hv. apply lookup_singleton_Some in Hv as [<- _]. reflexivity.
  - apply (H "iron" 7%N); reflexivity.
Defined.

(** ** Logs *)

Definition printed_line (t : Z) (category text : string) : Event :=
  MkEvent {[ STDOUT_TOPIC_NAME := category ]} t text.
Definition printed : list Event :=
  [printed_line 1 "chat" "hello"; printed_line 2 "joinleave" "Ann joined"; printed_line 3 "chat" "bye"; printed_line 4 "chat" "again"].

Lemma logged_in_order_witness :
  (st_bind (st_iter ingest printed) (λ _, logs_get "chat" 2 "Forward" None) (∅ : store)).1 =
    Ok (MkLogsPage (Some (to_rfc3339 4)) ["hello"; "bye"]).
Proof.
  apply (logged_in_order "chat" printed 2 (∅ : store)).
  - reflexivity.
  - reflexivity.
  - reflexivity.
  - repeat constructor.
  - repeat constructor; by vm_compute.
Defined.

(** ** A save on its way to the browser *)

Section saves.
#[local] Existing Instances request_codec stream_codec.

Definition save_sub : Subscriber * EventBroker :=
  subscribe OPERATION_TOPIC_NAME (λ v, bool_decide (v = "op")) EventBroker_new.

Lemma save_reaches_browser_witness :
  wp (alone (save_get "world" "op")) (λ _ w',
    ∃ e rest, pending (publish_incoming (Ok ∘ WText <$> ws_tx w') save_sub.2 0).1 save_sub.1 = e :: rest ∧
      concat (omap part_of_event rest) = bytes_of "zip") save_agent.
Proof.
  pose proof (save_reaches_browser "world" (bytes_of "zip") "op" save_agent save_sub.2 save_sub.1 0%Z 0%nat
    calm world_simple save_agent_stored save_agent_dir) as H.
  eapply wp_wand; [apply H|].
  - constructor.
  - exact stop_sub_awaits.
  - vm_compute. lia.
  - reflexivity.
  - intros _ w' (e & rest & H1 & _ & H2). exists e, rest. exact (conj H1 H2).
Defined.
End saves.

(** ** The client and the agent *)

Lemma client_understands_agent_witness :
  ∃ c, AgentApiClient.save_delete "world" = Ok c ∧ understood (MS := bytes) c.
Proof.
  destruct (client_understands_agent (MS := bytes)) as (_ & _ & _ & _ & _ & _ & H & _).
  exists (MkCall (SaveDelete "world") 10000 unit_handler). split; [reflexivity|].
  exact (H "world" _ eq_refl).
Defined.

Lemma keep_alive_ends_witness :
  keep_alive [true; false; true] 0 ≠ None ∧ keep_alive [true; false; false; false; true] 0 = None.
Proof.
  split.
  - refine (proj1 (keep_alive_ends [true; false]) true _ _); by vm_compute.
  - refine (proj1 (proj2 (keep_alive_ends [true; false; false; false])) true _); by vm_compute.
Defined.
