(* ===== verification/SourceTests.v ===== *)
(** * SourceTests: the tests of the repository, run on the model

    The unit tests of src/src that do not need the network, evaluated on the
    definitions in the environments of [Concrete] and [MgmtConcrete]. *)

From S2P Require Import Prelude Text Order Regex Schema Io Errors Settings Downloader Mods Versions.
From S2P Require Import Concrete MgmtErrors Db Metrics Events WsServer MgmtConcrete.
Import Calm MgmtCalm.

Open Scope st_scope.

(** ** agent/server/mods.rs *)

Example can_parse_valid_dlc :
  ModManager.read_dlcs_from_mod_list
    ((λ n, MkModListElem n true None) <$> ["base"; "space-age"; "elevated-rails"; "quality"]) =
  Ok {[Base; SpaceAge; ElevatedRails; Quality]}.
Proof. reflexivity. Qed.

Example can_parse_valid_mod_filenames :
  ModManager.try_from_filename <$>
    ["A Sea Block Config_0.5.1.zip"; "AfraidOfTheDark_1.1.1.zip"; "Companion_Drones_1.0.19.zip";
     "KS_Power_quickfix_0.4.05.zip"; "Squeak Through_1.8.1.zip"; "Todo-List_19.1.0.zip";
     "train-pubsub_1.1.4.zip"] =
  Some <$> [MkMod "A Sea Block Config" "0.5.1"; MkMod "AfraidOfTheDark" "1.1.1";
     MkMod "Companion_Drones" "1.0.19"; MkMod "KS_Power_quickfix" "0.4.05"; MkMod "Squeak Through" "1.8.1";
     MkMod "Todo-List" "19.1.0"; MkMod "train-pubsub" "1.1.4"].
Proof. reflexivity. Qed.

Example cannot_parse_invalid_mod_filenames :
  Forall (λ name, ModManager.try_from_filename name = None)
    ["A Sea Block Config.zip"; "AfraidOfTheDark_1.1.1.tar.gz"; "Companion_Drones"; "_1.8.1.zip"; "19.1.0.zip";
     "train-pubsub_.zip"].
Proof. repeat constructor. Qed.

Example can_calculate_mod_delta_with_empty_current_list :
  ModManager.calculate_mod_delta [] [MkMod "rso-mod" "6.2.5"] = ModDelta.Mk {[MkMod "rso-mod" "6.2.5"]} ∅.
Proof. reflexivity. Qed.

Example can_calculate_mod_delta :
  ModManager.calculate_mod_delta
    [MkMod "test1" "2.3.4"; MkMod "test2" "1.2.5"; MkMod "rso-mod" "6.2.4"]
    [MkMod "test1" "2.3.4"; MkMod "rso-mod" "6.2.5"] =
  ModDelta.Mk {[MkMod "rso-mod" "6.2.5"]} {[MkMod "test2" "1.2.5"; MkMod "rso-mod" "6.2.4"]}.
Proof. reflexivity. Qed.

(** ** agent/util/downloader.rs and agent/factorio.rs *)

Example can_read_from_cache_after_write :
  let id := "can_read_from_cache_after_write" in
  (_ <-? purge id ;; before <-? read_from_cache id ;;
   _ <-? write_to_cache id (bytes_of "test bytes") ;; after <-? read_from_cache id ;;
   st_ret (Ok (before, after))) (disk_of ∅) =
  (λ r, (Ok (None, Some (bytes_of "test bytes")), r))
    ((_ <-? purge id ;; before <-? read_from_cache id ;;
      _ <-? write_to_cache id (bytes_of "test bytes") ;; read_from_cache id) (disk_of ∅)).2.
Proof. reflexivity. Qed.

Definition install_fresh (version : string) : option (gset string) :=
  let tmp_dir := [RootDir; Normal "tmp"; Normal "new"] in
  let r := (vm <-? VersionManager.new tmp_dir ;; r <- VersionManager.install vm version ;; st_ret (Ok r))
             (disk_of ∅) in
  match r.1 with
  | Ok (Ok _, vm) => Some (dom (VersionManager.versions vm))
  | _ => None
  end.

Example can_install_version_1_1_104 : install_fresh "1.1.104" = Some {["1.1.104"]}.
Proof. reflexivity. Qed.
Example can_install_version_2_0_28 : install_fresh "2.0.28" = Some {["2.0.28"]}.
Proof. reflexivity. Qed.

(** ** mgmt-server/db.rs *)

Definition same (k : string) : Record_ := MkRecord k k.
Definition write_same (cf : Cf) (ks : list string) : ST store () :=
  st_iter (λ k, write cf (same k) ;; st_ret ()) ks.
Definition test_cf : Cf := MkCf "test".

Example can_write_then_read :
  (write test_cf (MkRecord "testkey" "testvalue") ;; read test_cf "testkey") (∅ : store) =
  (Ok (Some (MkRecord "testkey" "testvalue")), {[ "test" := {[ "testkey" := "testvalue" ]} ]}).
Proof. reflexivity. Qed.

Definition six : list string := ["a1"; "a3"; "a4"; "b2"; "b4"; "b5"].

Example can_read_range_forward_from_nonspecific_key :
  ((write_same test_cf six ;; read_range test_cf "a2" DirForward 2) (∅ : store)).1 =
  Ok (MkReadRange [same "a3"; same "a4"] (Some "b2")).
Proof. reflexivity. Qed.
Example can_read_range_backward_from_nonspecific_key :
  ((write_same test_cf six ;; read_range test_cf "b3" DirBackward 2) (∅ : store)).1 =
  Ok (MkReadRange [same "b2"; same "a4"] (Some "a3")).
Proof. reflexivity. Qed.

Definition ten : list string := pretty <$> seq 0 10.

Example can_write_then_read_range_head :
  ((write_same test_cf ten ;; read_range_head test_cf 3) (∅ : store)).1 =
  Ok (MkReadRange [same "0"; same "1"; same "2"] (Some "3")).
Proof. reflexivity. Qed.
Example can_write_then_read_range_tail :
  ((write_same test_cf ten ;; read_range_tail test_cf 3) (∅ : store)).1 =
  Ok (MkReadRange [same "9"; same "8"; same "7"] (Some "6")).
Proof. reflexivity. Qed.

(** ** mgmt-server/events/broker.rs *)

Definition test_event : Event := MkEvent {[ "test_tag" := "yes" ]} 0 "asdf".

Example subscriber_can_receive_published_event :
  let r := subscribe "test_tag" (λ s, bool_decide (s = "yes")) EventBroker_new in
  (poll (publish test_event r.2) r.1).1 = Some test_event.
Proof. reflexivity. Qed.
Example subscriber_filters_unwanted_published_event :
  let r := subscribe "test_tag" (λ s, negb (bool_decide (s = "yes"))) EventBroker_new in
  (poll (publish test_event r.2) r.1).1 = None.
Proof. reflexivity. Qed.
Example publishing_to_non_subscribed_topic_drops_events :
  let r := subscribe "test_tag" (λ _, true) (publish test_event EventBroker_new) in
  (poll r.2 r.1).1 = None.
Proof. reflexivity. Qed.

(** ** mgmt-server/metrics.rs *)

Example can_pad_ascii_metric_name :
  String.length <$> pad_metric_name "this is a normal name" = Some MAX_METRIC_NAME_LENGTH.
Proof. reflexivity. Qed.
(** "é" has two bytes. *)
Example can_pad_unicode_metric_name :
  String.length <$> pad_metric_name (String "195" (String "169" "")) = Some MAX_METRIC_NAME_LENGTH.
Proof. reflexivity. Qed.

(** ** mgmt-server/ws.rs: nobody connects, and the call is over *)

Example can_timeout_on_stream_at :
  let s := unconnected_timeout 0 (stream_at "test" [test_event] (WebSocketServer_new 8378 false)) in
  s_state <$> calls s !! 0%nat = Some Finished ∧ dynamic_streams_waiting s = ∅.
Proof. split; by vm_compute. Qed.
